(** * ble-smartcube: a shallow embedding of the protocol core

    The Python sources under [custom_components/ble_smartcube/smartcube_ble]
    are embedded function by function.  Python integers are [Z], Python
    lists are [list], Python [str] is [string]; an operation that can raise
    returns a [res], and code that mutates an object takes the object and
    returns its new value.

    Outside the embedding: the Bluetooth transport and [asyncio] (a
    coroutine handed to [create_task] is recorded as an effect), logging,
    and AES, which belongs to the [cryptography] package and enters the
    adapters as a function from bytes to bytes.  [time.time()] reads a
    clock kept with the connection.

    The embedding comes first, module by module as the sources are laid
    out; the definitions used to state properties follow; the proofs come
    last. *)

From Stdlib Require Import ZArith String Ascii List Bool Lia Permutation.
Import ListNotations.
Open Scope Z_scope.

(** ** Python semantics used by the sources *)

Module Py.

Inductive exn : Type :=
| IndexError
| ValueError
| KeyError
| CallbackError.

Inductive res (A : Type) : Type :=
| Ok (a : A)
| Raise (e : exn).
Arguments Ok {A} a.
Arguments Raise {A} e.

Definition bind {A B : Type} (m : res A) (k : A -> res B) : res B :=
  match m with
  | Ok a => k a
  | Raise e => Raise e
  end.

Definition is_ok {A : Type} (m : res A) : bool :=
  match m with Ok _ => true | Raise _ => false end.

(** [l[i]] with Python's treatment of negative indices. *)
Definition norm_index (len : nat) (i : Z) : option nat :=
  let n := Z.of_nat len in
  if (0 <=? i) && (i <? n) then Some (Z.to_nat i)
  else if (- n <=? i) && (i <? 0) then Some (Z.to_nat (n + i))
  else None.

Definition getitem {A : Type} (l : list A) (i : Z) : res A :=
  match norm_index (length l) i with
  | Some k =>
      match nth_error l k with
      | Some x => Ok x
      | None => Raise IndexError
      end
  | None => Raise IndexError
  end.

Fixpoint list_set {A : Type} (l : list A) (k : nat) (v : A) : list A :=
  match l, k with
  | [], _ => []
  | _ :: t, O => v :: t
  | h :: t, S k' => h :: list_set t k' v
  end.

(** [l[i] = v]. *)
Definition setitem {A : Type} (l : list A) (i : Z) (v : A) : res (list A) :=
  match norm_index (length l) i with
  | Some k => Ok (list_set l k v)
  | None => Raise IndexError
  end.

(** [range(n)] and [range(a, b, step)] for a positive step. *)
Definition range (n : Z) : list Z :=
  map Z.of_nat (seq 0 (Z.to_nat n)).

Definition range3 (a b step : Z) : list Z :=
  map (fun k => a + step * Z.of_nat k)
      (seq 0 (Z.to_nat ((b - a + step - 1) / step))).

(** [l[a:b]] for non-negative bounds. *)
Definition slice {A : Type} (l : list A) (a b : Z) : list A :=
  firstn (Z.to_nat b - Z.to_nat a) (skipn (Z.to_nat a) l).

(** [for x in xs: body], the loop state threaded through. *)
Fixpoint for_each {A S : Type} (xs : list A) (body : A -> S -> res S) (s : S)
  : res S :=
  match xs with
  | [] => Ok s
  | x :: xs' => bind (body x s) (for_each xs' body)
  end.

(** A loop whose body may [break] or [return]: [Stop r] leaves the loop. *)
Inductive step (S R : Type) : Type :=
| Next (s : S)
| Stop (r : R).
Arguments Next {S R} s.
Arguments Stop {S R} r.

Fixpoint for_until {A S R : Type} (xs : list A)
  (body : A -> S -> res (step S R)) (s : S) : res (step S R) :=
  match xs with
  | [] => Ok (Next s)
  | x :: xs' =>
      bind (body x s) (fun st =>
        match st with
        | Next s' => for_until xs' body s'
        | Stop r => Ok (Stop r)
        end)
  end.

(** Strings. *)
Definition chars (s : string) : list ascii := list_ascii_of_string s.
Definition join (cs : list ascii) : string := string_of_list_ascii cs.

Definition str_getitem (s : string) (i : Z) : res ascii :=
  getitem (chars s) i.

Fixpoint find_from (cs : list ascii) (c : ascii) (k : Z) : Z :=
  match cs with
  | [] => -1
  | h :: t => if Ascii.eqb h c then k else find_from t c (k + 1)
  end.

(** [s.find(c)] for a one-character [c]. *)
Definition str_find (s : string) (c : ascii) : Z :=
  find_from (chars s) c 0.

End Py.

Import Py.

Declare Scope py_scope.
Notation "x <- m ;; k" := (Py.bind m (fun x => k))
  (at level 61, m at next level, right associativity) : py_scope.
Open Scope py_scope.

(** ** helpers/cube_math.py *)

Module CubieCube.

Definition c_facelet : list (list Z) :=
  [ [8; 9; 20];
    [6; 18; 38];
    [0; 36; 47];
    [2; 45; 11];
    [29; 26; 15];
    [27; 44; 24];
    [33; 53; 42];
    [35; 17; 51] ].

Definition e_facelet : list (list Z) :=
  [ [5; 10];
    [7; 19];
    [3; 37];
    [1; 46];
    [32; 16];
    [28; 25];
    [30; 43];
    [34; 52];
    [23; 12];
    [21; 41];
    [50; 39];
    [48; 14] ].

Definition ct_facelet : list Z := [4; 13; 22; 31; 40; 49].

Record t : Type := Cube { ca : list Z; ea : list Z }.

(** [CubieCube()] *)
Definition new : t :=
  Cube [0; 1; 2; 3; 4; 5; 6; 7] [0; 2; 4; 6; 8; 10; 12; 14; 16; 18; 20; 22].

(** [self.init(ca, ea)] copies both lists. *)
Definition init (self : t) (ca0 ea0 : list Z) : t := Cube ca0 ea0.

Definition edge_mult (a b prod : t) : res t :=
  for_each (range 12) (fun ed prod =>
    bed <- getitem (ea b) ed ;;
    x <- getitem (ea a) (Z.shiftr bed 1) ;;
    ea' <- setitem (ea prod) ed (Z.lxor x (Z.land bed 1)) ;;
    Ok (Cube (ca prod) ea')) prod.

Definition corn_mult (a b prod : t) : res t :=
  for_each (range 8) (fun corn prod =>
    bc <- getitem (ca b) corn ;;
    x <- getitem (ca a) (Z.land bc 7) ;;
    let ori := (Z.shiftr x 3 + Z.shiftr bc 3) mod 3 in
    ca' <- setitem (ca prod) corn (Z.lor (Z.land x 7) (Z.shiftl ori 3)) ;;
    Ok (Cube ca' (ea prod))) prod.

Definition cube_mult (a b prod : t) : res t :=
  prod1 <- corn_mult a b prod ;;
  edge_mult a b prod1.

(** The inner [for n in range(3)] of [to_perm] for corner slot [c]. *)
Definition corner_write (c x : Z) (f : list Z) : res (list Z) :=
  let corner := Z.land x 7 in
  let ori := Z.shiftr x 3 in
  for_each (range 3) (fun n f =>
    row <- getitem c_facelet corner ;;
    v <- getitem row n ;;
    slot <- getitem c_facelet c ;;
    p <- getitem slot ((n + ori) mod 3) ;;
    setitem f p v) f.

(** The inner [for n in range(2)] of [to_perm] for edge slot [e]. *)
Definition edge_write (e x : Z) (f : list Z) : res (list Z) :=
  let edge := Z.shiftr x 1 in
  let ori := Z.land x 1 in
  for_each (range 2) (fun n f =>
    row <- getitem e_facelet edge ;;
    v <- getitem row n ;;
    slot <- getitem e_facelet e ;;
    p <- getitem slot ((n + ori) mod 2) ;;
    setitem f p v) f.

Definition to_perm (self : t) : res (list Z) :=
  f <- for_each (range 8) (fun c f =>
         x <- getitem (ca self) c ;;
         corner_write c x f) (range 54) ;;
  for_each (range 12) (fun e f =>
    x <- getitem (ea self) e ;;
    edge_write e x f) f.

Definition to_facelet (self : t) : res string :=
  perm <- to_perm self ;;
  faces <- for_each (range 54) (fun i faces =>
             p <- getitem perm i ;;
             ch <- str_getitem "URFDLB" (p / 9) ;;
             Ok (faces ++ [ch])) [] ;;
  Ok (join faces).

(** The [while ori < 3] scan of [from_facelet]; three iterations exhaust it. *)
Fixpoint find_ori (fuel : nat) (f : list Z) (i ori : Z) : res Z :=
  match fuel with
  | O => Ok ori
  | S fuel' =>
      if ori <? 3 then
        slot <- getitem c_facelet i ;;
        p <- getitem slot ori ;;
        x <- getitem f p ;;
        if (x =? 0) || (x =? 3) then Ok ori
        else find_ori fuel' f i (ori + 1)
      else Ok ori
  end.

(** First loop of [from_facelet]: colour indices and the nibble census;
    [Stop] is the early [return -1]. *)
Definition scan_facelet (centers facelet : string)
  : res (step (list Z * Z) unit) :=
  for_until (range 54) (fun i st =>
    ch <- str_getitem facelet i ;;
    let idx := str_find centers ch in
    if idx =? -1 then Ok (Stop tt)
    else Ok (Next (fst st ++ [idx], snd st + Z.shiftl 1 (Z.shiftl idx 2))))
    ([], 0).

(** Body of [for i in range(8)]: identify the corner in slot [i]. *)
Definition decode_corner (f : list Z) (i : Z) (self : t) : res t :=
  ori <- find_ori 3 f i 0 ;;
  slot <- getitem c_facelet i ;;
  p1 <- getitem slot ((ori + 1) mod 3) ;;
  col1 <- getitem f p1 ;;
  p2 <- getitem slot ((ori + 2) mod 3) ;;
  col2 <- getitem f p2 ;;
  r <- for_until (range 8) (fun j self =>
         rj <- getitem c_facelet j ;;
         a1 <- getitem rj 1 ;;
         a2 <- getitem rj 2 ;;
         if (col1 =? a1 / 9) && (col2 =? a2 / 9) then
           ca' <- setitem (ca self) i (Z.lor j (Z.shiftl (ori mod 3) 3)) ;;
           Ok (Stop (Cube ca' (ea self)))
         else Ok (Next self)) self ;;
  match r with Next s => Ok s | Stop s => Ok s end.

(** Body of [for i in range(12)]: identify the edge in slot [i]. *)
Definition decode_edge (f : list Z) (i : Z) (self : t) : res t :=
  r <- for_until (range 12) (fun j self =>
         si <- getitem e_facelet i ;;
         p0 <- getitem si 0 ;;
         x0 <- getitem f p0 ;;
         p1 <- getitem si 1 ;;
         x1 <- getitem f p1 ;;
         rj <- getitem e_facelet j ;;
         b0 <- getitem rj 0 ;;
         b1 <- getitem rj 1 ;;
         if (x0 =? b0 / 9) && (x1 =? b1 / 9) then
           ea' <- setitem (ea self) i (Z.shiftl j 1) ;;
           Ok (Stop (Cube (ca self) ea'))
         else if (x0 =? b1 / 9) && (x1 =? b0 / 9) then
           ea' <- setitem (ea self) i (Z.lor (Z.shiftl j 1) 1) ;;
           Ok (Stop (Cube (ca self) ea'))
         else Ok (Next self)) self ;;
  match r with Next s => Ok s | Stop s => Ok s end.

(** [from_facelet] returns [-1] ([None]) before touching [self], or [self]
    after overwriting the entries it could identify. *)
Definition from_facelet (self : t) (facelet : string) : res (option t) :=
  c0 <- str_getitem facelet 4 ;;
  c1 <- str_getitem facelet 13 ;;
  c2 <- str_getitem facelet 22 ;;
  c3 <- str_getitem facelet 31 ;;
  c4 <- str_getitem facelet 40 ;;
  c5 <- str_getitem facelet 49 ;;
  let centers := join [c0; c1; c2; c3; c4; c5] in
  scan <- scan_facelet centers facelet ;;
  match scan with
  | Stop _ => Ok None
  | Next (f, count) =>
      if negb (count =? 0x999999) then Ok None
      else
        self1 <- for_each (range 8) (decode_corner f) self ;;
        self2 <- for_each (range 12) (decode_edge f) self1 ;;
        Ok (Some self2)
  end.

(** [_init_move_cube()] *)
Definition _init_move_cube : res (list t) :=
  let mc := map (fun _ => new) (range 18) in
  m0 <- getitem mc 0 ;;
  mc <- setitem mc 0 (init m0 [3; 0; 1; 2; 4; 5; 6; 7]
                        [6; 0; 2; 4; 8; 10; 12; 14; 16; 18; 20; 22]) ;;
  m3 <- getitem mc 3 ;;
  mc <- setitem mc 3 (init m3 [20; 1; 2; 8; 15; 5; 6; 19]
                        [16; 2; 4; 6; 22; 10; 12; 14; 8; 18; 20; 0]) ;;
  m6 <- getitem mc 6 ;;
  mc <- setitem mc 6 (init m6 [9; 21; 2; 3; 16; 12; 6; 7]
                        [0; 19; 4; 6; 8; 17; 12; 14; 3; 11; 20; 22]) ;;
  m9 <- getitem mc 9 ;;
  mc <- setitem mc 9 (init m9 [0; 1; 2; 3; 5; 6; 7; 4]
                        [0; 2; 4; 6; 10; 12; 14; 8; 16; 18; 20; 22]) ;;
  m12 <- getitem mc 12 ;;
  mc <- setitem mc 12 (init m12 [0; 10; 22; 3; 4; 17; 13; 7]
                         [0; 2; 20; 6; 8; 10; 18; 14; 16; 4; 12; 22]) ;;
  m15 <- getitem mc 15 ;;
  mc <- setitem mc 15 (init m15 [0; 1; 11; 23; 4; 5; 18; 14]
                         [0; 2; 4; 23; 8; 10; 12; 21; 16; 18; 7; 15]) ;;
  for_each (range3 0 18 3) (fun axis mc =>
    for_each (range 2) (fun power mc =>
      a <- getitem mc (axis + power) ;;
      b <- getitem mc axis ;;
      prod <- getitem mc (axis + power + 1) ;;
      prod' <- cube_mult a b prod ;;
      setitem mc (axis + power + 1) prod') mc) mc.

(** [CubieCube.move_cube = _init_move_cube()], evaluated once. *)
Definition move_cube : list t :=
  Eval vm_compute in
    match _init_move_cube with Ok mc => mc | Raise _ => [] end.

Definition apply_move_index (self : t) (move_index : Z) : res t :=
  let tmp := new in
  mc <- getitem move_cube move_index ;;
  cube_mult self mc tmp.

End CubieCube.

(** ** Stateful code: objects mutated in place

    A method that mutates [self] is a function [S -> res A * S]: the object
    after the call is returned also when the call raises, since what was
    assigned before the exception stays assigned. *)

Module St.

Definition M (S A : Type) : Type := S -> res A * S.

Definition ret {S A : Type} (a : A) : M S A := fun s => (Ok a, s).

Definition bind {S A B : Type} (m : M S A) (k : A -> M S B) : M S B :=
  fun s =>
    match m s with
    | (Ok a, s') => k a s'
    | (Raise e, s') => (Raise e, s')
    end.

Definition get {S : Type} : M S S := fun s => (Ok s, s).
Definition gets {S A : Type} (f : S -> A) : M S A := fun s => (Ok (f s), s).
Definition modify {S : Type} (f : S -> S) : M S unit := fun s => (Ok tt, f s).

(** A pure computation that may raise. *)
Definition lift {S A : Type} (r : res A) : M S A := fun s => (r, s).

(** [try: m except Exception: handler] *)
Definition try_except {S A : Type} (m : M S A) (handler : exn -> M S A) : M S A :=
  fun s =>
    match m s with
    | (Ok a, s') => (Ok a, s')
    | (Raise e, s') => handler e s'
    end.

(** Run a method of a component object stored in a field. *)
Definition zoom {S T A : Type} (proj : S -> T) (upd : T -> S -> S) (m : M T A)
  : M S A :=
  fun s => let (r, t') := m (proj s) in (r, upd t' s).

Fixpoint for_each {S A : Type} (xs : list A) (body : A -> M S unit) : M S unit :=
  match xs with
  | [] => ret tt
  | x :: xs' => bind (body x) (fun _ => for_each xs' body)
  end.

End St.

Notation "x <~ m ;; k" := (St.bind m (fun x => k))
  (at level 61, m at next level, right associativity) : py_scope.
Notation "m ;;; k" := (St.bind m (fun _ => k))
  (at level 61, right associativity) : py_scope.

(** ** models.py *)

Module Models.

Record CubeData : Type := {
  battery_level : option Z;
  is_solved : bool;
  face_states : list (string * bool);
  last_move : option string;
  last_raw : option (list Z);
  last_decrypted : option (list Z);
  state_string : option string;
  last_update : option Z }.

(** [CubeData()]; [__post_init__] replaces the absent dict by an empty one. *)
Definition new : CubeData :=
  {| battery_level := None; is_solved := false; face_states := [];
     last_move := None; last_raw := None; last_decrypted := None;
     state_string := None; last_update := None |}.

Definition set_battery_level (v : option Z) (d : CubeData) : CubeData :=
  {| battery_level := v; is_solved := is_solved d;
     face_states := face_states d; last_move := last_move d;
     last_raw := last_raw d; last_decrypted := last_decrypted d;
     state_string := state_string d; last_update := last_update d |}.

Definition set_last_move (v : option string) (d : CubeData) : CubeData :=
  {| battery_level := battery_level d; is_solved := is_solved d;
     face_states := face_states d; last_move := v;
     last_raw := last_raw d; last_decrypted := last_decrypted d;
     state_string := state_string d; last_update := last_update d |}.

Definition set_last_raw (v : option (list Z)) (d : CubeData) : CubeData :=
  {| battery_level := battery_level d; is_solved := is_solved d;
     face_states := face_states d; last_move := last_move d;
     last_raw := v; last_decrypted := last_decrypted d;
     state_string := state_string d; last_update := last_update d |}.

Definition set_last_decrypted (v : option (list Z)) (d : CubeData) : CubeData :=
  {| battery_level := battery_level d; is_solved := is_solved d;
     face_states := face_states d; last_move := last_move d;
     last_raw := last_raw d; last_decrypted := v;
     state_string := state_string d; last_update := last_update d |}.

(** The four assignments that follow a freshly built state string. *)
Definition set_state (s : option string) (fs : list (string * bool))
  (solved : bool) (now : Z) (d : CubeData) : CubeData :=
  {| battery_level := battery_level d; is_solved := solved;
     face_states := fs; last_move := last_move d;
     last_raw := last_raw d; last_decrypted := last_decrypted d;
     state_string := s; last_update := Some now |}.

End Models.

(** ** helpers/state.py *)

Module State.
Import Models.

Definition COLOR_FACE_MAPPING : list (string * ascii) :=
  [ ("blue"%string, "B"%char); ("yellow"%string, "D"%char);
    ("orange"%string, "L"%char); ("white"%string, "U"%char);
    ("red"%string, "R"%char); ("green"%string, "F"%char) ].

Definition FACE_TILE_INDICES : list (ascii * list Z) :=
  [ ("U"%char, range3 0 9 1); ("R"%char, range3 9 18 1);
    ("F"%char, range3 18 27 1); ("D"%char, range3 27 36 1);
    ("L"%char, range3 36 45 1); ("B"%char, range3 45 54 1) ].

(** [d[key]] on a dict kept as an association list. *)
Fixpoint dict_get {K V : Type} (eqb : K -> K -> bool) (d : list (K * V))
  (key : K) : res V :=
  match d with
  | [] => Raise KeyError
  | (k, v) :: d' => if eqb k key then Ok v else dict_get eqb d' key
  end.

(** [d[key] = v]: overwrite in place or append. *)
Fixpoint dict_set {V : Type} (d : list (string * V)) (key : string) (v : V)
  : list (string * V) :=
  match d with
  | [] => [(key, v)]
  | (k, v0) :: d' =>
      if String.eqb k key then (k, v) :: d' else (k, v0) :: dict_set d' key v
  end.

Definition upper (c : ascii) : ascii :=
  let n := nat_of_ascii c in
  if ((97 <=? n) && (n <=? 122))%nat then ascii_of_nat (n - 32) else c.

Definition lower (c : ascii) : ascii :=
  let n := nat_of_ascii c in
  if ((65 <=? n) && (n <=? 90))%nat then ascii_of_nat (n + 32) else c.

(** [s.lower()] and [s.capitalize()] on ASCII text. *)
Definition str_lower (s : string) : string := join (map lower (chars s)).

Definition capitalize (s : string) : string :=
  match chars s with
  | [] => EmptyString
  | c :: cs => join (upper c :: map lower cs)
  end.

(** [all(faces[index] == face_letter for index in tiles)] *)
Fixpoint all_tiles {A : Type} (eqb : A -> A -> bool) (faces : list A)
  (face_letter : A) (tiles : list Z) : res bool :=
  match tiles with
  | [] => Ok true
  | index :: tiles' =>
      x <- getitem faces index ;;
      if eqb x face_letter then all_tiles eqb faces face_letter tiles'
      else Ok false
  end.

(** The loop over [COLOR_FACE_MAPPING.items()] shared by [build_face_states]
    and Giiker's [_build_state]. *)
Definition face_solved_map {A : Type} (eqb : A -> A -> bool) (inj : ascii -> A)
  (faces : list A) : res (list (string * bool)) :=
  Py.for_each COLOR_FACE_MAPPING (fun item face_states =>
    let color_name := fst item in
    let face_letter := snd item in
    tiles <- dict_get Ascii.eqb FACE_TILE_INDICES face_letter ;;
    b <- all_tiles eqb faces (inj face_letter) tiles ;;
    Ok (dict_set face_states (capitalize color_name) b)) [].

Definition all_values (face_states : list (string * bool)) : bool :=
  forallb snd face_states.

Definition build_face_states (state_string : string)
  : res (list (string * bool) * bool) :=
  if (String.length state_string =? 0)%nat
     || (Z.of_nat (String.length state_string) <? 54)
  then Ok ([], false)
  else
    let faces := chars state_string in
    face_states <- face_solved_map Ascii.eqb (fun c => c) faces ;;
    let is_solved :=
      match face_states with [] => false | _ => all_values face_states end in
    Ok (face_states, is_solved).

(** [update_cube_state(data, state_string)]: the record after the four
    assignments, [now] being the value that [time.time()] returns.
    [build_face_states] returns for every string, so no assignment is
    ever skipped. *)
Definition update_cube_state (data : CubeData) (state_string : string) (now : Z)
  : res CubeData :=
  r <- build_face_states state_string ;;
  Ok (set_state (Some state_string) (fst r) (snd r) now data).

End State.

(** ** base.py *)

Module Base.
Import Models St.

(** A subscriber is known by an identity and by how a call to it ends. *)
Record state_callback : Type := { sc_id : nat; sc_run : res unit }.
Record movement_callback : Type := { mc_id : nat; mc_run : string -> res unit }.

(** What the adapter does to the outside: subscriber calls, and coroutines
    handed to [asyncio.create_task]. *)
Inductive effect : Type :=
| StateCall (id : nat)
| MoveCall (id : nat) (movement : string)
| Task (name : string) (payload : list Z).

(** The fields of [BaseCubeConnection], with the clock read by
    [time.time()] and the effects so far.  The two callback sets are lists
    in the order in which the sets are iterated. *)
Record t : Type := {
  _data : CubeData;
  _state_callbacks : list state_callback;
  _movement_callbacks : list movement_callback;
  _is_connected : bool;
  _last_activity : option Z;
  clock : Z;
  effects : list effect }.

Definition new : t :=
  {| _data := Models.new; _state_callbacks := []; _movement_callbacks := [];
     _is_connected := false; _last_activity := None; clock := 0; effects := [] |}.

Definition set_data (d : CubeData) (s : t) : t :=
  {| _data := d; _state_callbacks := _state_callbacks s;
     _movement_callbacks := _movement_callbacks s;
     _is_connected := _is_connected s; _last_activity := _last_activity s;
     clock := clock s; effects := effects s |}.

Definition set_last_activity (v : option Z) (s : t) : t :=
  {| _data := _data s; _state_callbacks := _state_callbacks s;
     _movement_callbacks := _movement_callbacks s;
     _is_connected := _is_connected s; _last_activity := v;
     clock := clock s; effects := effects s |}.

Definition set_clock (v : Z) (s : t) : t :=
  {| _data := _data s; _state_callbacks := _state_callbacks s;
     _movement_callbacks := _movement_callbacks s;
     _is_connected := _is_connected s; _last_activity := _last_activity s;
     clock := v; effects := effects s |}.

Definition emit (e : effect) (s : t) : t :=
  {| _data := _data s; _state_callbacks := _state_callbacks s;
     _movement_callbacks := _movement_callbacks s;
     _is_connected := _is_connected s; _last_activity := _last_activity s;
     clock := clock s; effects := effects s ++ [e] |}.

Definition set_state_callbacks (v : list state_callback) (s : t) : t :=
  {| _data := _data s; _state_callbacks := v;
     _movement_callbacks := _movement_callbacks s;
     _is_connected := _is_connected s; _last_activity := _last_activity s;
     clock := clock s; effects := effects s |}.

Definition set_movement_callbacks (v : list movement_callback) (s : t) : t :=
  {| _data := _data s; _state_callbacks := _state_callbacks s;
     _movement_callbacks := v;
     _is_connected := _is_connected s; _last_activity := _last_activity s;
     clock := clock s; effects := effects s |}.

(** [time.time()]: successive readings never decrease. *)
Definition time_time : M t Z :=
  fun s => (Ok (clock s), set_clock (clock s + 1) s).

(** [register_callback]: [set.add]. *)
Definition register_callback (cb : state_callback) : M t unit :=
  modify (fun s =>
    if existsb (fun c => Nat.eqb (sc_id c) (sc_id cb)) (_state_callbacks s)
    then s
    else set_state_callbacks (_state_callbacks s ++ [cb]) s).

(** The closure returned by [register_callback]. *)
Definition unsubscribe (cb : state_callback) : M t unit :=
  modify (fun s =>
    set_state_callbacks
      (filter (fun c => negb (Nat.eqb (sc_id c) (sc_id cb))) (_state_callbacks s)) s).

Definition add_movement_callback (cb : movement_callback) : M t unit :=
  modify (fun s =>
    if existsb (fun c => Nat.eqb (mc_id c) (mc_id cb)) (_movement_callbacks s)
    then s
    else set_movement_callbacks (_movement_callbacks s ++ [cb]) s).

Definition remove_movement_callback (cb : movement_callback) : M t unit :=
  modify (fun s =>
    set_movement_callbacks
      (filter (fun c => negb (Nat.eqb (mc_id c) (mc_id cb)))
              (_movement_callbacks s)) s).

Definition _notify_state_change : M t unit :=
  cbs <~ gets _state_callbacks ;;
  St.for_each cbs (fun callback =>
    modify (emit (StateCall (sc_id callback))) ;;;
    lift (sc_run callback)).

Definition _notify_movement (movement : string) : M t unit :=
  cbs <~ gets _movement_callbacks ;;
  St.for_each cbs (fun callback =>
    modify (emit (MoveCall (mc_id callback) movement)) ;;;
    lift (mc_run callback movement)).

Definition _touch_activity : M t unit :=
  now <~ time_time ;;
  modify (set_last_activity (Some now)).

(** [update_cube_state(self._data, state_string)] on the connection's data. *)
Definition update_data (state_string : string) : M t unit :=
  now <~ time_time ;;
  d <~ gets _data ;;
  d' <~ lift (State.update_cube_state d state_string now) ;;
  modify (set_data d').

End Base.

(** ** cubes/giiker.py *)

Module Giiker.
Import Models St.

Definition DECRYPTION_KEY : list Z :=
  [ 176; 81; 104; 224; 86; 137; 237; 119; 38; 26; 193; 161;
    210; 126; 150; 81; 93; 13; 236; 249; 89; 235; 88; 24;
    113; 81; 214; 131; 130; 199; 2; 169; 39; 165; 171; 41 ].

Definition FACES : list string := ["B"; "D"; "L"; "U"; "R"; "F"]%string.
Definition COLORS : list string :=
  ["blue"; "yellow"; "orange"; "white"; "red"; "green"]%string.

Definition TURN_AMOUNTS : list (Z * Z) := [(0, 1); (1, 2); (2, -1); (8, -2)].

Definition CORNER_COLORS : list (list Z) :=
  [ [1; 4; 5]; [4; 3; 5]; [3; 2; 5]; [2; 1; 5];
    [4; 1; 0]; [3; 4; 0]; [2; 3; 0]; [1; 2; 0] ].

Definition EDGE_COLORS : list (list Z) :=
  [ [5; 1]; [5; 4]; [5; 3]; [5; 2]; [1; 4]; [3; 4];
    [3; 2]; [1; 2]; [0; 1]; [0; 4]; [0; 3]; [0; 2] ].

Definition CORNER_FACE_INDICES : list (list Z) :=
  [ [29; 15; 26]; [9; 8; 20]; [6; 38; 18]; [44; 27; 24];
    [17; 35; 51]; [2; 11; 45]; [36; 0; 47]; [33; 42; 53] ].

Definition EDGE_FACE_INDICES : list (list Z) :=
  [ [25; 28]; [23; 12]; [19; 7]; [21; 41]; [32; 16]; [5; 10];
    [3; 37]; [30; 43]; [52; 34]; [48; 14]; [46; 1]; [50; 39] ].

Definition len {A : Type} (l : list A) : Z := Z.of_nat (length l).

(** [enumerate(l)] *)
Definition enumerate {A : Type} (l : list A) : list (Z * A) :=
  combine (range (len l)) l.

Definition _is_encrypted (data : list Z) : res bool :=
  if 19 <=? len data then
    b <- getitem data 18 ;; Ok (b =? 0xA7)
  else Ok false.

Definition _get_nibble (data : list Z) (index : Z) : res Z :=
  byte_val <- getitem data (index / 2) ;;
  if index mod 2 =? 1 then Ok (Z.land byte_val 0x0F)
  else Ok (Z.land (Z.shiftr byte_val 4) 0x0F).

(** [_decrypt_in_place]: the bytearray after the call. *)
Definition _decrypt_in_place (data : list Z) : res (list Z) :=
  if len data <? 20 then Ok data
  else
    offset1 <- _get_nibble data 38 ;;
    offset2 <- _get_nibble data 39 ;;
    Py.for_each (range 20) (fun i data =>
      let index1 := (offset1 + i) mod len DECRYPTION_KEY in
      let index2 := (offset2 + i) mod len DECRYPTION_KEY in
      d <- getitem data i ;;
      k1 <- getitem DECRYPTION_KEY index1 ;;
      k2 <- getitem DECRYPTION_KEY index2 ;;
      setitem data i (Z.land (d + k1 + k2) 0xFF)) data.

Record move : Type := { face : string; amount : Z; notation : string }.

Definition _parse_move (face_index turn_index : Z) : res move :=
  if (face_index <=? 0) || (len FACES <? face_index) then
    Ok {| face := "?"; amount := 0; notation := "?" |}
  else
    f <- getitem FACES (face_index - 1) ;;
    let amount :=
      match State.dict_get Z.eqb TURN_AMOUNTS (turn_index - 1) with
      | Ok a => a
      | Raise _ => 1
      end in
    let notation :=
      if amount =? 2 then (f ++ "2")%string
      else if amount =? -1 then (f ++ "'")%string
      else if amount =? -2 then (f ++ "2'")%string
      else f in
    Ok {| face := f; amount := amount; notation := notation |}.

(** The [state] dict of [_parse_cube_payload]. *)
Record cube_state : Type := {
  corner_positions : list Z;
  corner_orientations : list Z;
  edge_positions : list Z;
  edge_orientations : list bool }.

Definition bit_set (b mask : Z) : bool := negb (Z.land b mask =? 0).

Definition _parse_cube_payload (data : list Z) : res (cube_state * list move) :=
  Py.for_each (enumerate data) (fun im acc =>
    let i := fst im in
    let b := snd im in
    let st := fst acc in
    let moves := snd acc in
    let high_nibble := Z.shiftr b 4 in
    let low_nibble := Z.land b 0x0F in
    if i <? 4 then
      Ok ({| corner_positions := corner_positions st ++ [high_nibble; low_nibble];
             corner_orientations := corner_orientations st;
             edge_positions := edge_positions st;
             edge_orientations := edge_orientations st |}, moves)
    else if i <? 8 then
      Ok ({| corner_positions := corner_positions st;
             corner_orientations :=
               corner_orientations st ++ [high_nibble; low_nibble];
             edge_positions := edge_positions st;
             edge_orientations := edge_orientations st |}, moves)
    else if i <? 14 then
      Ok ({| corner_positions := corner_positions st;
             corner_orientations := corner_orientations st;
             edge_positions := edge_positions st ++ [high_nibble; low_nibble];
             edge_orientations := edge_orientations st |}, moves)
    else if i <? 16 then
      let hi := [bit_set b 0x80; bit_set b 0x40; bit_set b 0x20; bit_set b 0x10] in
      let lo :=
        if i =? 14
        then [bit_set b 0x08; bit_set b 0x04; bit_set b 0x02; bit_set b 0x01]
        else [] in
      Ok ({| corner_positions := corner_positions st;
             corner_orientations := corner_orientations st;
             edge_positions := edge_positions st;
             edge_orientations := edge_orientations st ++ hi ++ lo |}, moves)
    else
      m <- _parse_move high_nibble low_nibble ;;
      Ok (st, moves ++ [m]))
    ({| corner_positions := []; corner_orientations := [];
        edge_positions := []; edge_orientations := [] |}, []).

Definition _map_corner_colors (colors : list Z) (orientation position : Z)
  : res (list Z) :=
  let orientation :=
    if negb (orientation =? 3) then
      if existsb (Z.eqb position) [0; 2; 5; 7] then 3 - orientation
      else orientation
    else orientation in
  c0 <- getitem colors 0 ;;
  c1 <- getitem colors 1 ;;
  c2 <- getitem colors 2 ;;
  if orientation =? 1 then Ok [c1; c2; c0]
  else if orientation =? 2 then Ok [c2; c0; c1]
  else Ok [c0; c1; c2].

Definition _map_edge_colors (colors : list Z) (orientation : bool)
  : res (list Z) :=
  c0 <- getitem colors 0 ;;
  c1 <- getitem colors 1 ;;
  if orientation then Ok [c1; c0] else Ok [c0; c1].

(** The inner [for face_index, cube_index in enumerate(...)] of
    [_build_state]. *)
Definition paint (mapped_colors : list Z) (cube_indices : list Z)
  (faces : list (option ascii)) : res (list (option ascii)) :=
  Py.for_each (enumerate cube_indices) (fun fc faces =>
    let face_index := fst fc in
    let cube_index := snd fc in
    if len mapped_colors <=? face_index then Ok faces
    else
      colour <- getitem mapped_colors face_index ;;
      color_name <- getitem COLORS colour ;;
      letter <- State.dict_get String.eqb State.COLOR_FACE_MAPPING color_name ;;
      setitem faces cube_index (Some letter)) faces.

Definition _build_state (state : cube_state)
  : res (string * list (string * bool) * bool) :=
  let faces := repeat (@None ascii) 54 in
  faces <- Py.for_each (enumerate (corner_positions state)) (fun ip faces =>
    let index := fst ip in
    let position := snd ip in
    if (position <=? 0) || (len CORNER_COLORS <? position) then Ok faces
    else if len (corner_orientations state) <=? index then Ok faces
    else
      colors <- getitem CORNER_COLORS (position - 1) ;;
      orientation <- getitem (corner_orientations state) index ;;
      mapped_colors <- _map_corner_colors colors orientation index ;;
      cube_indices <- getitem CORNER_FACE_INDICES index ;;
      paint mapped_colors cube_indices faces) faces ;;
  faces <- Py.for_each (enumerate (edge_positions state)) (fun ip faces =>
    let index := fst ip in
    let position := snd ip in
    if (position <=? 0) || (len EDGE_COLORS <? position) then Ok faces
    else if len (edge_orientations state) <=? index then Ok faces
    else
      colors <- getitem EDGE_COLORS (position - 1) ;;
      orientation <- getitem (edge_orientations state) index ;;
      mapped_colors <- _map_edge_colors colors orientation ;;
      cube_indices <- getitem EDGE_FACE_INDICES index ;;
      paint mapped_colors cube_indices faces) faces ;;
  faces <- setitem faces 4 (Some "U"%char) ;;
  faces <- setitem faces 13 (Some "R"%char) ;;
  faces <- setitem faces 22 (Some "F"%char) ;;
  faces <- setitem faces 31 (Some "D"%char) ;;
  faces <- setitem faces 40 (Some "L"%char) ;;
  faces <- setitem faces 49 (Some "B"%char) ;;
  let state_string :=
    join (map (fun face => match face with Some c => c | None => "?"%char end)
              faces) in
  face_states <- State.face_solved_map
                   (fun a b => match a, b with
                               | Some x, Some y => Ascii.eqb x y
                               | None, None => true
                               | _, _ => false
                               end) (@Some ascii) faces ;;
  let is_solved :=
    match face_states with [] => false | _ => State.all_values face_states end in
  Ok (state_string, face_states, is_solved).

(** [GiikerDataParser.parse_cube_value]; the parser's [data] is the
    connection's [_data] object. *)
Definition parse_cube_value (raw : list Z) : M Base.t (option string) :=
  match raw with
  | [] => ret None
  | _ =>
      modify (fun s => Base.set_data (set_last_raw (Some raw) (Base._data s)) s) ;;;
      let data := raw in
      enc <~ lift (_is_encrypted data) ;;
      data <~ (if enc then lift (_decrypt_in_place data) else ret data) ;;
      modify (fun s =>
        Base.set_data (set_last_decrypted (Some data) (Base._data s)) s) ;;;
      sm <~ lift (_parse_cube_payload data) ;;
      built <~ lift (_build_state (fst sm)) ;;
      now <~ Base.time_time ;;
      modify (fun s =>
        Base.set_data
          (set_state (Some (fst (fst built))) (snd (fst built)) (snd built) now
                     (Base._data s)) s) ;;;
      match snd sm with
      | [] => ret None
      | m :: _ =>
          if (String.length (notation m) =? 0)%nat then ret (Some (notation m))
          else
            modify (fun s =>
              Base.set_data (set_last_move (Some (notation m)) (Base._data s)) s) ;;;
            ret (Some (notation m))
      end
  end.

Definition parse_battery_value (raw : list Z) : M Base.t unit :=
  if len raw <? 2 then ret tt
  else
    b <~ lift (getitem raw 1) ;;
    modify (fun s => Base.set_data (set_battery_level (Some b) (Base._data s)) s).

(** [GiikerConnection._notify_state_change]: the override that logs. *)
Definition _notify_state_change : M Base.t unit :=
  try_except Base._notify_state_change (fun _ => ret tt).

Definition _cube_notification_handler (data : list Z) : M Base.t unit :=
  try_except
    (last_move <~ parse_cube_value data ;;
     Base._touch_activity ;;;
     (match last_move with
      | Some mv =>
          if (String.length mv =? 0)%nat then ret tt else Base._notify_movement mv
      | None => ret tt
      end) ;;;
     _notify_state_change)
    (fun _ => ret tt).

End Giiker.

(** ** cubes/qiyicube.py *)

Module QiYi.
Import Models St.

(** One turn of the inner [for _ in range(8)] of [_crc16_modbus]. *)
Definition crc_shift (crc : Z) : Z :=
  if negb (Z.land crc 0x1 =? 0) then Z.lxor (Z.shiftr crc 1) 0xA001
  else Z.shiftr crc 1.

Definition _crc16_modbus (data : list Z) : Z :=
  Z.land
    (fold_left (fun crc b => Nat.iter 8 crc_shift (Z.lxor crc b)) data 0xFFFF)
    0xFFFF.

Definition _parse_facelet (face_msg : list Z) : res string :=
  ret <- Py.for_each (range 54) (fun i ret =>
           b <- getitem face_msg (Z.shiftr i 1) ;;
           let val := Z.shiftr b ((i mod 2) * 4) in
           ch <- str_getitem "LRDUFB" (Z.land val 0xF) ;;
           Ok (ret ++ [ch])) [] ;;
  Ok (join ret).

Definition _parse_move (raw : Z) : res (option string) :=
  if raw <=? 0 then Ok None
  else
    axis <- getitem [4; 1; 3; 0; 2; 5] (Z.shiftr (raw - 1) 1) ;;
    power <- getitem [0; 2] (Z.land raw 1) ;;
    let suffix := if power =? 0 then EmptyString else "'"%string in
    ch <- str_getitem "URFDLB" axis ;;
    Ok (Some (String ch suffix)).

(** The connection: the base fields and the AES block decryptor, which is
    the [cryptography] package's and enters as a function. *)
Record t : Type := {
  base : Base.t;
  _decoder : option (list Z -> res (list Z)) }.

Definition set_base (b : Base.t) (s : t) : t :=
  {| base := b; _decoder := _decoder s |}.

Definition on_base {A : Type} (m : M Base.t A) : M t A := zoom base set_base m.

Definition len {A : Type} (l : list A) : Z := Z.of_nat (length l).

(** [_send_ack]: the acknowledgement is handed to [asyncio.create_task]. *)
Definition _send_ack (payload : list Z) : M t unit :=
  match payload with
  | [] => ret tt
  | _ => on_base (modify (Base.emit (Base.Task "_send_message" payload)))
  end.

Definition _parse_message (msg : list Z) : M t unit :=
  m0 <~ lift (getitem msg 0) ;;
  if negb (m0 =? 0xFE) then ret tt
  else
    opcode <~ lift (getitem msg 2) ;;
    (if (opcode =? 0x02) || (opcode =? 0x03)
     then _send_ack (slice msg 2 7) else ret tt) ;;;
    if opcode =? 0x02 then
      battery <~ lift (getitem msg 35) ;;
      on_base (modify (fun s =>
        Base.set_data (set_battery_level (Some battery) (Base._data s)) s)) ;;;
      facelet <~ lift (_parse_facelet (slice msg 7 34)) ;;
      on_base (Base.update_data facelet) ;;;
      on_base Base._touch_activity ;;;
      on_base Base._notify_state_change
    else if opcode =? 0x03 then
      facelet <~ lift (_parse_facelet (slice msg 7 34)) ;;
      on_base (Base.update_data facelet) ;;;
      raw <~ lift (getitem msg 34) ;;
      move <~ lift (_parse_move raw) ;;
      (match move with
       | Some mv =>
           on_base (modify (fun s =>
             Base.set_data (set_last_move (Some mv) (Base._data s)) s)) ;;;
           on_base (Base._notify_movement mv)
       | None => ret tt
       end) ;;;
      on_base Base._touch_activity ;;;
      on_base Base._notify_state_change
    else ret tt.

(** The frame check of [_notification_handler]. *)
Definition frame_ok (msg : list Z) : bool :=
  negb ((len msg <? 3) || negb (_crc16_modbus msg =? 0)).

Definition _notification_handler (data : list Z) : M t unit :=
  dec <~ gets _decoder ;;
  match dec with
  | None => ret tt
  | Some decrypt_block =>
      let enc := data in
      msg <~ lift (Py.for_each (range3 0 (len enc) 16) (fun i msg =>
                     block <- decrypt_block (slice enc i (i + 16)) ;;
                     Ok (msg ++ block)) []) ;;
      msg <~ (if 1 <? len msg
              then (n <~ lift (getitem msg 1) ;; ret (slice msg 0 n))
              else ret msg) ;;
      if negb (frame_ok msg) then ret tt
      else _parse_message msg
  end.

End QiYi.

(** ** cubes/gancube.py *)

Module Gan.
Import Models St.

(** The connection: the base fields, the permutation engine, the protocol
    version, the last move counter and the decoder.  [GanDecoder.decode]
    is AES from the [cryptography] package and enters as a function. *)
Record t : Type := {
  base : Base.t;
  _decoder : option (list Z -> res (list Z));
  _cube : CubieCube.t;
  _version : option string;
  _move_cnt : Z }.

(** [GanConnection()] *)
Definition new : t :=
  {| base := Base.new; _decoder := None; _cube := CubieCube.new;
     _version := None; _move_cnt := -1 |}.

Definition set_base (b : Base.t) (s : t) : t :=
  {| base := b; _decoder := _decoder s; _cube := _cube s;
     _version := _version s; _move_cnt := _move_cnt s |}.

Definition set_cube (c : CubieCube.t) (s : t) : t :=
  {| base := base s; _decoder := _decoder s; _cube := c;
     _version := _version s; _move_cnt := _move_cnt s |}.

Definition set_move_cnt (n : Z) (s : t) : t :=
  {| base := base s; _decoder := _decoder s; _cube := _cube s;
     _version := _version s; _move_cnt := n |}.

Definition on_base {A : Type} (m : M Base.t A) : M t A := zoom base set_base m.

(** The binary digits of a positive number, most significant first. *)
Fixpoint pos_digits (p : positive) (acc : list bool) : list bool :=
  match p with
  | xH => true :: acc
  | xO p' => pos_digits p' (false :: acc)
  | xI p' => pos_digits p' (true :: acc)
  end.

(** [f"{b:08b}"] for [b >= 0], a digit being [true] for ['1']. *)
Definition format_08b (b : Z) : list bool :=
  let digits := match b with Zpos p => pos_digits p [] | _ => [] end in
  repeat false (8 - length digits) ++ digits.

(** [int(s, 2)] on a string of binary digits; the empty string is refused. *)
Definition int2 (s : list bool) : res Z :=
  match s with
  | [] => Raise ValueError
  | _ => Ok (fold_left (fun acc d => 2 * acc + (if d : bool then 1 else 0)) s 0)
  end.

(** [int(bits[a:b], 2)] *)
Definition field (bits : list bool) (a b : Z) : res Z := int2 (slice bits a b).

(** [l.index(x)] *)
Fixpoint list_index (l : list Z) (x : Z) (k : Z) : res Z :=
  match l with
  | [] => Raise ValueError
  | h :: t => if h =? x then Ok k else list_index t x (k + 1)
  end.

Definition apply_move_index (move_index : Z) : M t unit :=
  c <~ gets _cube ;;
  c' <~ lift (CubieCube.apply_move_index c move_index) ;;
  modify (set_cube c').

(** [self._cube.from_facelet(facelet)], the result unused. *)
Definition from_facelet (facelet : string) : M t unit :=
  c <~ gets _cube ;;
  r <~ lift (CubieCube.from_facelet c facelet) ;;
  match r with
  | Some c' => modify (set_cube c')
  | None => ret tt
  end.

(** [update_cube_state(self._data, self._cube.to_facelet())] *)
Definition update_from_cube : M t unit :=
  c <~ gets _cube ;;
  s <~ lift (CubieCube.to_facelet c) ;;
  on_base (Base.update_data s).

Definition set_last_move_ (mv : string) : M t unit :=
  on_base (modify (fun s =>
    Base.set_data (set_last_move (Some mv) (Base._data s)) s)).

Definition ends_with_quote (s : string) : bool :=
  match rev (chars s) with
  | c :: _ => Ascii.eqb c "'"%char
  | [] => false
  end.

Definition _apply_moves (moves : list string) : M t unit :=
  match moves with
  | [] => ret tt
  | _ =>
      St.for_each (rev moves) (fun mv =>
        m0 <~ lift (str_getitem mv 0) ;;
        let axis := str_find "URFDLB" m0 in
        if axis =? -1 then ret tt
        else
          let power := if ends_with_quote mv then 2 else 0 in
          apply_move_index (axis * 3 + power) ;;;
          set_last_move_ mv ;;;
          update_from_cube ;;;
          on_base (Base._notify_movement mv)) ;;;
      on_base Base._touch_activity ;;;
      on_base Base._notify_state_change
  end.

Definition _parse_v1 (decoded : list Z) : M t unit :=
  move_cnt <~ lift (getitem decoded 12) ;;
  stored <~ gets _move_cnt ;;
  if move_cnt =? stored then ret tt
  else
    modify (set_move_cnt move_cnt) ;;;
    St.for_each (range 6) (fun i =>
      m <~ lift (getitem decoded (13 + i)) ;;
      face <~ lift (str_getitem "URFDLB" (m / 3)) ;;
      suffix <~ lift (getitem [EmptyString; "2"; "'"]%string (m mod 3)) ;;
      let mv := String face suffix in
      let axis := str_find "URFDLB" face in
      let power := if String.eqb suffix "'" then 2 else 0 in
      apply_move_index (axis * 3 + power) ;;;
      (if String.eqb suffix "2" then apply_move_index (axis * 3 + power)
       else ret tt) ;;;
      set_last_move_ mv ;;;
      update_from_cube ;;;
      on_base (Base._notify_movement mv)) ;;;
    on_base Base._touch_activity ;;;
    on_base Base._notify_state_change.

Definition _parse_gan_facelet (bits : list bool)
  (corner_perm_start corner_ori_start edge_perm_start edge_ori_start : Z)
  : res string :=
  let cc := CubieCube.new in
  st <- Py.for_each (range 7) (fun i st =>
          let cc := fst st in
          let cchk := snd st in
          perm <- field bits (corner_perm_start + i * 3)
                             (corner_perm_start + i * 3 + 3) ;;
          ori <- field bits (corner_ori_start + i * 2)
                            (corner_ori_start + i * 2 + 2) ;;
          let cchk := cchk - Z.shiftl ori 3 in
          let cchk := Z.lxor cchk perm in
          ca' <- setitem (CubieCube.ca cc) i (Z.lor (Z.shiftl ori 3) perm) ;;
          Ok (CubieCube.Cube ca' (CubieCube.ea cc), cchk)) (cc, 0xF00) ;;
  let cc := fst st in
  let cchk := snd st in
  ca' <- setitem (CubieCube.ca cc) 7
           (Z.lor ((Z.land cchk 0xFF8) mod 24) (Z.land cchk 0x7)) ;;
  let cc := CubieCube.Cube ca' (CubieCube.ea cc) in
  st <- Py.for_each (range 11) (fun i st =>
          let cc := fst st in
          let echk := snd st in
          perm <- field bits (edge_perm_start + i * 4)
                             (edge_perm_start + i * 4 + 4) ;;
          ori <- field bits (edge_ori_start + i) (edge_ori_start + i + 1) ;;
          let echk := Z.lxor echk (Z.lor (Z.shiftl perm 1) ori) in
          ea' <- setitem (CubieCube.ea cc) i (Z.lor (Z.shiftl perm 1) ori) ;;
          Ok (CubieCube.Cube (CubieCube.ca cc) ea', echk)) (cc, 0) ;;
  let cc := fst st in
  let echk := snd st in
  ea' <- setitem (CubieCube.ea cc) 11 echk ;;
  CubieCube.to_facelet (CubieCube.Cube (CubieCube.ca cc) ea').

(** The full-state branch shared by protocols v2, v3 and v4. *)
Definition on_facelet (facelet : string) : M t unit :=
  if (String.length facelet =? 0)%nat then ret tt
  else
    from_facelet facelet ;;;
    on_base (Base.update_data facelet) ;;;
    on_base Base._touch_activity ;;;
    on_base Base._notify_state_change.

Definition set_battery (v : Z) : M t unit :=
  on_base (modify (fun s =>
    Base.set_data (set_battery_level (Some v) (Base._data s)) s)).

Definition _parse_v2 (bits : list bool) : M t unit :=
  mode <~ lift (field bits 0 4) ;;
  if mode =? 2 then
    move_cnt <~ lift (field bits 4 12) ;;
    stored <~ gets _move_cnt ;;
    if (move_cnt =? stored) || (stored =? -1) then
      modify (set_move_cnt move_cnt)
    else
      moves <~ lift (Py.for_each (range 7) (fun i moves =>
                 m <- field bits (12 + i * 5) (17 + i * 5) ;;
                 if 12 <=? m then Ok moves
                 else
                   face <- str_getitem "URFDLB" (Z.shiftr m 1) ;;
                   let suffix :=
                     if negb (Z.land m 1 =? 0) then "'"%string else EmptyString in
                   Ok (moves ++ [String face suffix])) []) ;;
      _apply_moves moves ;;;
      modify (set_move_cnt move_cnt)
  else if mode =? 4 then
    facelet <~ lift (_parse_gan_facelet bits 12 33 47 91) ;;
    on_facelet facelet
  else if mode =? 9 then
    b <~ lift (field bits 8 16) ;;
    set_battery b ;;;
    on_base Base._notify_state_change
  else ret tt.

(** The single-move branch shared by protocols v3 and v4. *)
Definition on_move (bits : list bool) (move_cnt pow_start axis_start axis_end : Z)
  : M t unit :=
  stored <~ gets _move_cnt ;;
  if (move_cnt =? stored) || (stored =? -1) then
    modify (set_move_cnt move_cnt)
  else
    pow_bits <~ lift (field bits pow_start axis_start) ;;
    axis_bits <~ lift (field bits axis_start axis_end) ;;
    axis <~ lift (list_index [2; 32; 8; 1; 16; 4] axis_bits 0) ;;
    (if 0 <=? axis then
       let suffix := if pow_bits =? 1 then "'"%string else EmptyString in
       face <~ lift (str_getitem "URFDLB" axis) ;;
       _apply_moves [String face suffix]
     else ret tt) ;;;
    modify (set_move_cnt move_cnt).

Definition _parse_v3 (bits : list bool) : M t unit :=
  magic <~ lift (field bits 0 8) ;;
  if negb (magic =? 0x55) then ret tt
  else
    mode <~ lift (field bits 8 16) ;;
    if mode =? 1 then
      move_cnt <~ lift (int2 (slice bits 64 72 ++ slice bits 56 64)) ;;
      on_move bits move_cnt 72 74 80
    else if mode =? 2 then
      facelet <~ lift (_parse_gan_facelet bits 40 61 77 121) ;;
      on_facelet facelet
    else if mode =? 16 then
      b <~ lift (field bits 24 32) ;;
      set_battery b ;;;
      on_base Base._notify_state_change
    else ret tt.

Definition _parse_v4 (bits : list bool) : M t unit :=
  mode <~ lift (field bits 0 8) ;;
  if mode =? 0x01 then
    move_cnt <~ lift (int2 (slice bits 56 64 ++ slice bits 48 56)) ;;
    on_move bits move_cnt 64 66 72
  else if mode =? 0xED then
    facelet <~ lift (_parse_gan_facelet bits 32 53 69 113) ;;
    on_facelet facelet
  else if mode =? 0xEF then
    length_ <~ lift (field bits 8 16) ;;
    b <~ lift (field bits (8 + length_ * 8) (16 + length_ * 8)) ;;
    set_battery b ;;;
    on_base Base._notify_state_change
  else ret tt.

(** [_notification_handler] after the decoding: the split into bits and
    the dispatch on the protocol version. *)
Definition dispatch (decoded : list Z) : M t unit :=
  let bits := flat_map format_08b decoded in
  v <~ gets _version ;;
  match v with
  | Some ver =>
      if String.eqb ver "v2" then _parse_v2 bits
      else if String.eqb ver "v3" then _parse_v3 bits
      else if String.eqb ver "v4" then _parse_v4 bits
      else if String.eqb ver "v1" then _parse_v1 decoded
      else ret tt
  | None => ret tt
  end.

Definition _notification_handler (data : list Z) : M t unit :=
  dec <~ gets _decoder ;;
  match dec with
  | None => ret tt
  | Some decode =>
      decoded <~ lift (decode data) ;;
      dispatch decoded
  end.

End Gan.

(** ** cubes/gancube.py: the state read of protocol v1 *)

Module GanV1.
Import Models St.

Definition len {A : Type} (l : list A) : Z := Z.of_nat (length l).

(** [range(21, -1, -3)] *)
Definition shifts : list Z := [21; 18; 15; 12; 9; 6; 3; 0].

(** The inner [for j in range(21, -1, -3)] for the face word [face] of
    face [i // 3]. *)
Definition face_loop (face i : Z) (state : list ascii) : res (list ascii) :=
  Py.for_each shifts (fun j state =>
    ch <- str_getitem "URFDLB" (Z.land (Z.shiftr face j) 0x7) ;;
    let state := state ++ [ch] in
    if j =? 12 then
      c <- str_getitem "URFDLB" (i / 3) ;;
      Ok (state ++ [c])
    else Ok state) state.

(** The string that [_request_v1_state] builds from the decoded value. *)
Definition v1_state_string (decoded : list Z) : res string :=
  state <- Py.for_each (range3 0 (len decoded - 2) 3) (fun i state =>
             b0 <- getitem decoded (Z.lxor i 1) ;;
             b1 <- getitem decoded (Z.lxor (i + 1) 1) ;;
             b2 <- getitem decoded (Z.lxor (i + 2) 1) ;;
             let face := Z.lor (Z.lor (Z.shiftl b0 16) (Z.shiftl b1 8)) b2 in
             face_loop face i state) [] ;;
  Ok (join state).

(** [_request_v1_state] on a connected client, [raw] being the value read
    from the characteristic. *)
Definition _request_v1_state (raw : list Z) : M Gan.t unit :=
  dec <~ gets Gan._decoder ;;
  match dec with
  | None => ret tt
  | Some decode =>
      decoded <~ lift (decode raw) ;;
      built <~ lift (v1_state_string decoded) ;;
      Gan.on_base (Base.update_data built) ;;;
      stored <~ gets (fun s => Models.state_string (Base._data (Gan.base s))) ;;
      Gan.from_facelet (match stored with Some x => x | None => EmptyString end)
  end.

End GanV1.

(** ** registry.py *)

Module Registry.

Inductive connection_class : Type :=
| GiikerConnection
| GoCubeConnection
| GanConnection
| QiYiConnection.

Record CubeModel : Type := {
  cube_type : string;
  manufacturer : string;
  model : string;
  name_prefixes : list string;
  service_uuids : list string;
  connection : connection_class }.

Definition giiker_model : CubeModel :=
  {| cube_type := "giiker"; manufacturer := "Giiker"; model := "Giiker";
     name_prefixes := ["Gi"; "Hi-"; "HiG"; "Hi-G"]%string;
     service_uuids := [ "0000aadb-0000-1000-8000-00805f9b34fb";
                        "0000aaaa-0000-1000-8000-00805f9b34fb" ]%string;
     connection := GiikerConnection |}.

Definition gocube_model : CubeModel :=
  {| cube_type := "gocube"; manufacturer := "GoCube"; model := "GoCube";
     name_prefixes := ["GoCube"; "Rubiks"]%string;
     service_uuids := ["6e400001-b5a3-f393-e0a9-e50e24dcca9e"]%string;
     connection := GoCubeConnection |}.

Definition gan_model : CubeModel :=
  {| cube_type := "gan"; manufacturer := "GAN"; model := "GAN";
     name_prefixes := ["GAN"; "MG"; "AiCube"]%string;
     service_uuids := [ "0000fff0-0000-1000-8000-00805f9b34fb";
                        "6e400001-b5a3-f393-e0a9-e50e24dc4179";
                        "8653000a-43e6-47b7-9cb0-5fc21d4ae340";
                        "00000010-0000-fff7-fff6-fff5fff4fff0" ]%string;
     connection := GanConnection |}.

Definition qiyi_model : CubeModel :=
  {| cube_type := "qiyi"; manufacturer := "QiYi"; model := "QiYi";
     name_prefixes := ["QY-QYSC"; "XMD-TornadoV4-i"]%string;
     service_uuids := ["0000fff0-0000-1000-8000-00805f9b34fb"]%string;
     connection := QiYiConnection |}.

Definition CUBE_MODELS : list CubeModel :=
  [giiker_model; gocube_model; gan_model; qiyi_model].

(** [name.startswith(prefixes)] for a tuple of prefixes. *)
Definition startswith (name : string) (prefixes : list string) : bool :=
  existsb (fun p => String.prefix p name) prefixes.

(** [any(uuid.lower() == suuid.lower() for uuid in ... for suuid in ...)] *)
Definition any_uuid (model_uuids uuid_values : list string) : bool :=
  existsb (fun uuid =>
    existsb (fun suuid =>
      String.eqb (State.str_lower uuid) (State.str_lower suuid)) uuid_values)
    model_uuids.

(** The [for model in CUBE_MODELS] loop of [match_advertisement]. *)
Fixpoint match_loop (models : list CubeModel) (name_value : string)
  (uuid_values : list string) : option CubeModel :=
  match models with
  | [] => None
  | m :: rest =>
      if startswith name_value (name_prefixes m) then Some m
      else if any_uuid (service_uuids m) uuid_values then Some m
      else match_loop rest name_value uuid_values
  end.

Definition match_advertisement (name : option string)
  (service_uuids : option (list string)) : option CubeModel :=
  let name_value := match name with Some n => n | None => EmptyString end in
  let uuid_values := match service_uuids with Some l => l | None => [] end in
  match_loop CUBE_MODELS name_value uuid_values.

Definition get_cube_model (type : string) : CubeModel :=
  match find (fun m => String.eqb (cube_type m) type) CUBE_MODELS with
  | Some m => m
  | None => giiker_model
  end.

End Registry.

(** ** cubes/gocube.py *)

Module GoCube.
Import Models St.

Definition AXIS_PERM : list Z := [5; 2; 0; 3; 1; 4].
Definition FACE_PERM : list Z := [0; 1; 2; 5; 8; 7; 6; 3].
Definition FACE_OFFSET : list Z := [0; 0; 6; 2; 0; 0].

(** The connection: the base fields and the permutation engine. *)
Record t : Type := {
  base : Base.t;
  _cube : CubieCube.t }.

(** [GoCubeConnection()] *)
Definition new : t := {| base := Base.new; _cube := CubieCube.new |}.

Definition set_base (b : Base.t) (s : t) : t :=
  {| base := b; _cube := _cube s |}.

Definition set_cube (c : CubieCube.t) (s : t) : t :=
  {| base := base s; _cube := c |}.

Definition on_base {A : Type} (m : M Base.t A) : M t A := zoom base set_base m.

Definition len {A : Type} (l : list A) : Z := Z.of_nat (length l).

Definition apply_move_index (move_index : Z) : M t unit :=
  c <~ gets _cube ;;
  c' <~ lift (CubieCube.apply_move_index c move_index) ;;
  modify (set_cube c').

(** [self._cube.from_facelet(state_string)], the result unused. *)
Definition from_facelet (facelet : string) : M t unit :=
  c <~ gets _cube ;;
  r <~ lift (CubieCube.from_facelet c facelet) ;;
  match r with
  | Some c' => modify (set_cube c')
  | None => ret tt
  end.

(** [update_cube_state(self._data, self._cube.to_facelet())] *)
Definition update_from_cube : M t unit :=
  c <~ gets _cube ;;
  s <~ lift (CubieCube.to_facelet c) ;;
  on_base (Base.update_data s).

Definition _handle_move_message (data : list Z) : M t unit :=
  let msg_len := len data - 6 in
  if msg_len <=? 0 then ret tt
  else
    St.for_each (range3 0 msg_len 2) (fun i =>
      raw <~ lift (getitem data (3 + i)) ;;
      axis <~ lift (getitem AXIS_PERM (Z.shiftr raw 1)) ;;
      let power := if Z.land raw 0x01 =? 0 then 0 else 2 in
      let suffix := if power =? 0 then EmptyString else "'"%string in
      face <~ lift (str_getitem "URFDLB" axis) ;;
      let notation := String face suffix in
      let move_index := axis * 3 + power in
      apply_move_index move_index ;;;
      on_base (modify (fun s =>
        Base.set_data (set_last_move (Some notation) (Base._data s)) s)) ;;;
      update_from_cube ;;;
      on_base Base._touch_activity ;;;
      on_base (Base._notify_movement notation) ;;;
      on_base Base._notify_state_change ;;;
      if i =? 0
      then on_base (modify (Base.emit (Base.Task "_request_state" [])))
      else ret tt).

(** The two loops of [_handle_state_message] that fill the 54 facelets. *)
Definition fill_facelet (data : list Z) : res (list ascii) :=
  Py.for_each (range 6) (fun a facelet =>
    ap <- getitem AXIS_PERM a ;;
    let axis := ap * 9 in
    aoff <- getitem FACE_OFFSET a ;;
    b <- getitem data (3 + a * 9) ;;
    ch <- str_getitem "BFUDRL" b ;;
    facelet <- setitem facelet (axis + 4) ch ;;
    Py.for_each (range 8) (fun i facelet =>
      idx <- getitem FACE_PERM ((i + aoff) mod 8) ;;
      b <- getitem data (3 + a * 9 + i + 1) ;;
      ch <- str_getitem "BFUDRL" b ;;
      setitem facelet (axis + idx) ch) facelet)
    (repeat "?"%char 54).

Definition _handle_state_message (data : list Z) : M t unit :=
  if len data <? 3 + 6 * 9 then ret tt
  else
    facelet <~ lift (fill_facelet data) ;;
    let state_string := join facelet in
    from_facelet state_string ;;;
    on_base (Base.update_data state_string) ;;;
    on_base Base._touch_activity ;;;
    on_base Base._notify_state_change.

Definition _handle_battery_message (data : list Z) : M t unit :=
  if len data <? 5 then ret tt
  else
    b <~ lift (getitem data 3) ;;
    on_base (modify (fun s =>
      Base.set_data (set_battery_level (Some b) (Base._data s)) s)) ;;;
    on_base Base._notify_state_change.

(** [data[-2:] != b"\x0d\x0a"] on a message of at least two bytes. *)
Definition bad_trailer (data : list Z) : bool :=
  match skipn (length data - 2) data with
  | [x; y] => negb ((x =? 0x0d) && (y =? 0x0a))
  | _ => true
  end.

Definition _notification_handler (data : list Z) : M t unit :=
  if len data <? 5 then ret tt
  else
    d0 <~ lift (getitem data 0) ;;
    if negb (d0 =? 0x2A) || bad_trailer data then ret tt
    else
      msg_type <~ lift (getitem data 2) ;;
      if msg_type =? 0x01 then _handle_move_message data
      else if msg_type =? 0x02 then _handle_state_message data
      else if msg_type =? 0x05 then _handle_battery_message data
      else ret tt.

End GoCube.

(** ** helpers/lzstring.py

    A Python string is a list of code points here, since [chr] yields
    characters beyond the 8-bit range; the compressed input and the
    alphabet are 8-bit strings.  The two [while] loops run on fuel: [None]
    stands for fuel that ran out, which no Python run corresponds to. *)

Module LzString.

Definition _bit_reverse_16 (value : Z) : Z :=
  let value := Z.lor (Z.land (Z.shiftl value 1) 0xAAAA)
                     (Z.land (Z.shiftr value 1) 0x5555) in
  let value := Z.lor (Z.land (Z.shiftl value 2) 0xCCCC)
                     (Z.land (Z.shiftr value 2) 0x3333) in
  let value := Z.lor (Z.land (Z.shiftl value 4) 0xF0F0)
                     (Z.land (Z.shiftr value 4) 0x0F0F) in
  let value := Z.lor (Z.land (Z.shiftl value 8) 0xFF00)
                     (Z.land (Z.shiftr value 8) 0x00FF) in
  value.

Definition _alpha_reverse (alphabet : string) : res string :=
  cs <- for_each (range 64) (fun i cs =>
          ch <- str_getitem alphabet (Z.shiftr (_bit_reverse_16 i) 10) ;;
          Ok (cs ++ [ch])) [] ;;
  Ok (join cs).

(** [d[key] = v] on a dict with one-character keys. *)
Fixpoint dict_put (d : list (ascii * Z)) (key : ascii) (v : Z)
  : list (ascii * Z) :=
  match d with
  | [] => [(key, v)]
  | (k, v0) :: d' =>
      if Ascii.eqb k key then (k, v) :: d' else (k, v0) :: dict_put d' key v
  end.

(** [{alphabet[i]: i for i in range(len(alphabet))}]; the cache is empty
    at the only call. *)
Definition _get_base_value (alphabet : string) : res (list (ascii * Z)) :=
  for_each (range (Z.of_nat (String.length alphabet))) (fun i d =>
    ch <- str_getitem alphabet i ;;
    Ok (dict_put d ch i)) [].

(** The [data] dict of [_decompress]. *)
Record data_t : Type := { val : Z; remain : Z; index : Z }.

(** The closure [next_bits]: bits, and the reader afterwards. *)
Fixpoint next_bits_loop (fuel : nat) (bits_per_char : Z)
  (get_next_value : Z -> res Z) (n_bits bits offset : Z) (data : data_t)
  : option (res (Z * data_t)) :=
  if offset <? n_bits then
    match fuel with
    | O => None
    | S fuel' =>
        let n_fill := Z.min (n_bits - offset) (remain data) in
        let bits :=
          Z.lor bits
                (Z.shiftl (Z.land (val data) (Z.shiftl 1 n_fill - 1)) offset) in
        let offset := offset + n_fill in
        let data := {| val := Z.shiftr (val data) n_fill;
                       remain := remain data - n_fill;
                       index := index data |} in
        if remain data =? 0 then
          match get_next_value (index data) with
          | Ok v =>
              next_bits_loop fuel' bits_per_char get_next_value n_bits bits
                offset {| val := v; remain := bits_per_char;
                          index := index data + 1 |}
          | Raise e => Some (Raise e)
          end
        else
          next_bits_loop fuel' bits_per_char get_next_value n_bits bits
            offset data
    end
  else Some (Ok (bits, data)).

Definition next_bits (bits_per_char : Z) (get_next_value : Z -> res Z)
  (n_bits : Z) (data : data_t) : option (res (Z * data_t)) :=
  next_bits_loop (Datatypes.S (Z.to_nat n_bits)) bits_per_char get_next_value
    n_bits 0 0 data.

(** An entry of [dictionary]: one of the three integers put there first,
    or a string. *)
Inductive entry : Type :=
| EInt (n : Z)
| EStr (s : list Z).

Record state : Type := {
  dictionary : list entry;
  enlarge_in : Z;
  dict_size : Z;
  num_bits : Z;
  result : list (list Z);
  w : list Z;
  data : data_t }.

(** How a round of [while True] ends. *)
Inductive round : Type :=
| Continue (s : state)
| Return (r : list Z).

(** The enlargement test, which comes twice in a round. *)
Definition enlarge (s : state) : state :=
  if enlarge_in s =? 0 then
    {| dictionary := dictionary s; enlarge_in := Z.shiftl 1 (num_bits s);
       dict_size := dict_size s; num_bits := num_bits s + 1;
       result := result s; w := w s; data := data s |}
  else s.

(** The part of a round from [if c_val < dict_size] on. *)
Definition extend (s : state) (c_val : Z) : res round :=
  entry_ <-
    (if c_val <? dict_size s then
       e <- getitem (dictionary s) c_val ;;
       match e with
       | EStr x => Ok (Some x)
       | EInt _ => Raise ValueError
       end
     else if c_val =? dict_size s then
       w0 <- getitem (w s) 0 ;; Ok (Some (w s ++ [w0]))
     else Ok None) ;;
  match entry_ with
  | None => Ok (Return [])
  | Some entry_ =>
      e0 <- getitem entry_ 0 ;;
      Ok (Continue (enlarge
        {| dictionary := dictionary s ++ [EStr (w s ++ [e0])];
           enlarge_in := enlarge_in s - 1;
           dict_size := dict_size s + 1; num_bits := num_bits s;
           result := result s ++ [entry_]; w := entry_; data := data s |}))
  end.

(** A literal of [width] bits is read and appended to the dictionary. *)
Definition literal (bits_per_char : Z) (get_next_value : Z -> res Z)
  (width : Z) (s : state) : option (res (state * Z)) :=
  match next_bits bits_per_char get_next_value width (data s) with
  | None => None
  | Some (Raise e) => Some (Raise e)
  | Some (Ok (c, d)) =>
      Some (Ok ({| dictionary := dictionary s ++ [EStr [c]];
                   enlarge_in := enlarge_in s - 1;
                   dict_size := dict_size s + 1; num_bits := num_bits s;
                   result := result s; w := w s; data := d |},
                dict_size s))
  end.

Definition one_round (length_ bits_per_char : Z)
  (get_next_value : Z -> res Z) (s : state) : option (res round) :=
  if length_ <? index (data s) then Some (Ok (Return []))
  else
    match next_bits bits_per_char get_next_value (num_bits s) (data s) with
    | None => None
    | Some (Raise e) => Some (Raise e)
    | Some (Ok (c_val, d)) =>
        let s := {| dictionary := dictionary s; enlarge_in := enlarge_in s;
                    dict_size := dict_size s; num_bits := num_bits s;
                    result := result s; w := w s; data := d |} in
        if c_val =? 0 then
          match literal bits_per_char get_next_value 8 s with
          | None => None
          | Some (Raise e) => Some (Raise e)
          | Some (Ok (s, c_val)) => Some (extend (enlarge s) c_val)
          end
        else if c_val =? 1 then
          match literal bits_per_char get_next_value 16 s with
          | None => None
          | Some (Raise e) => Some (Raise e)
          | Some (Ok (s, c_val)) => Some (extend (enlarge s) c_val)
          end
        else if c_val =? 2 then Some (Ok (Return (concat (result s))))
        else Some (extend (enlarge s) c_val)
    end.

Fixpoint rounds (fuel : nat) (length_ bits_per_char : Z)
  (get_next_value : Z -> res Z) (s : state) : option (res (list Z)) :=
  match fuel with
  | O => None
  | S fuel' =>
      match one_round length_ bits_per_char get_next_value s with
      | None => None
      | Some (Raise e) => Some (Raise e)
      | Some (Ok (Return r)) => Some (Ok r)
      | Some (Ok (Continue s')) =>
          rounds fuel' length_ bits_per_char get_next_value s'
      end
  end.

Definition _decompress (fuel : nat) (length_ bits_per_char : Z)
  (get_next_value : Z -> res Z) : option (res (list Z)) :=
  let dictionary := [EInt 0; EInt 1; EInt 2] in
  let data := {| val := 0; remain := 0; index := 0 |} in
  match next_bits bits_per_char get_next_value 2 data with
  | None => None
  | Some (Raise e) => Some (Raise e)
  | Some (Ok (next_val, data)) =>
      let first width :=
        match next_bits bits_per_char get_next_value width data with
        | None => None
        | Some (Raise e) => Some (Raise e)
        | Some (Ok (c, data)) =>
            rounds fuel length_ bits_per_char get_next_value
              {| dictionary := dictionary ++ [EStr [c]]; enlarge_in := 4;
                 dict_size := 4; num_bits := 3; result := [[c]]; w := [c];
                 data := data |}
        end in
      if next_val =? 0 then first 8
      else if next_val =? 1 then first 16
      else Some (Ok [])
  end.

(** [value.replace(" ", "+")] *)
Definition replace_space (value : string) : string :=
  join (map (fun c => if Ascii.eqb c " "%char then "+"%char else c)
            (chars value)).

Definition URI_ALPHABET : string :=
  "ABCDEFGHIJKLMNOPQRSTUVWXYZabcdefghijklmnopqrstuvwxyz0123456789+-$".

(** [decompress_from_encoded_uri_component]; a round of the main loop
    takes at least three bits of the [6 * len(value)] there are, so twice
    the length, and one, is fuel enough. *)
Definition decompress_from_encoded_uri_component (value : option string)
  : option (res (list Z)) :=
  match value with
  | None => Some (Ok [])
  | Some EmptyString => Some (Ok [])
  | Some value =>
      let value := replace_space value in
      match (key_str_uri_safe <- _alpha_reverse URI_ALPHABET ;;
             _get_base_value key_str_uri_safe) with
      | Raise e => Some (Raise e)
      | Ok char_map =>
          _decompress (Datatypes.S (2 * String.length value))
            (Z.of_nat (String.length value)) 6
            (fun index =>
               ch <- str_getitem value index ;;
               State.dict_get Ascii.eqb char_map ch)
      end
  end.

(** The key strings of [cubes/gancube.py] and of [cubes/qiyicube.py]. *)
Definition GAN_KEYS : list string :=
  [ "NoRgnAHANATADDWJYwMxQOxiiEcfYgSK6Hpr4TYCs0IG1OEAbDszALpA";
    "NoNg7ANATFIQnARmogLBRUCs0oAYN8U5J45EQBmFADg0oJAOSlUQF0g";
    "NoRgNATGBs1gLABgQTjCeBWSUDsYBmKbCeMADjNnXxHIoIF0g";
    "NoRg7ANAzBCsAMEAsioxBEIAc0Cc0ATJkgSIYhXIjhMQGxgC6QA";
    "NoVgNAjAHGBMYDYCcdJgCwTFBkYVgAY9JpJYUsYBmAXSA";
    "NoRgNAbAHGAsAMkwgMyzClH0LFcArHnAJzIqIBMGWEAukA" ]%string.

Definition QIYI_KEYS : list string :=
  [ "NoDg7ANAjGkEwBYCc0xQnADAVgkzGAzHNAGyRTanQi5QIFyHrjQMQgsC6QA" ]%string.

End LzString.

(** ** What the key strings hold *)

Module LzSpec.
Import LzString.

(** The decimal digits of [n], as code points. *)
Fixpoint digits (fuel : nat) (n : Z) (acc : list Z) : list Z :=
  match fuel with
  | O => acc
  | S fuel' =>
      let acc' := (48 + n mod 10) :: acc in
      if n <? 10 then acc' else digits fuel' (n / 10) acc'
  end.

Definition decimal (n : Z) : list Z := digits 20 n [].

(** The text [[n1,n2,...]] of a list of numbers, as code points. *)
Definition json_text (l : list Z) : list Z :=
  match map decimal l with
  | [] => [91; 93]
  | d :: ds => [91] ++ d ++ flat_map (fun x => 44 :: x) ds ++ [93]
  end.

(** The lists that the six GAN key strings and the QiYi key string hold. *)
Definition KEY_BYTES : list (list Z) :=
  [ [198; 202; 21; 223; 79; 110; 19; 182; 119; 13; 230; 89; 58; 175; 186; 162];
    [67; 226; 91; 214; 125; 220; 120; 216; 7; 96; 163; 218; 130; 60; 1; 241];
    [1; 2; 66; 40; 49; 145; 22; 7; 32; 5; 24; 84; 66; 17; 18; 83];
    [17; 3; 50; 40; 33; 1; 118; 39; 32; 149; 120; 20; 50; 18; 2; 67];
    [5; 18; 2; 69; 2; 1; 41; 86; 18; 120; 18; 118; 129; 1; 8; 3];
    [1; 68; 40; 6; 134; 33; 34; 40; 81; 5; 8; 49; 130; 2; 33; 6];
    [87; 177; 249; 171; 205; 90; 232; 167; 156; 185; 140; 231; 87; 140; 81; 8] ].

(** The reader of the compressed text: what is left to read, in bits. *)
Definition bits_left (length_ : Z) (d : data_t) : Z :=
  remain d + 6 * (length_ - index d).

Definition reader_ok (length_ : Z) (d : data_t) : Prop :=
  0 < remain d <= 6 /\ 0 <= index d <= length_.

(** The index that [_alpha_reverse] reads for position [i]. *)
Definition rev6 (i : Z) : Z := Z.shiftr (_bit_reverse_16 i) 10.

(** The dictionary holds the three integers and then non-empty strings
    only, as many as [dict_size] says. *)
Definition state_ok (length_ : Z) (s : state) : Prop :=
  reader_ok length_ (data s)
  /\ 3 <= num_bits s
  /\ (exists strs,
        dictionary s = [EInt 0; EInt 1; EInt 2] ++ map EStr strs
        /\ dict_size s = 3 + Z.of_nat (length strs)
        /\ Forall (fun x => x <> []) strs)
  /\ w s <> [].

(** The exceptions a malformed text can raise. *)
Definition input_error (e : exn) : Prop := e = IndexError \/ e = KeyError.

(** What a call of [next_bits] for [n] more bits gives. *)
Definition read_ok (length_ n : Z) (d : data_t) (r : res (Z * data_t)) : Prop :=
  match r with
  | Raise e => input_error e
  | Ok (b, d') =>
      0 <= b /\ 0 <= remain d' <= 6 /\ 0 <= index d' <= length_
      /\ bits_left length_ d' = bits_left length_ d - n
      /\ (0 < remain d \/ 0 < n -> 0 < remain d')
  end.

(** What a round of the main loop gives. *)
Definition round_ok (length_ : Z) (d : data_t) (r : res round) : Prop :=
  match r with
  | Raise e => input_error e
  | Ok (Return _) => True
  | Ok (Continue s') =>
      state_ok length_ s' /\ bits_left length_ (data s') = bits_left length_ d
  end.

End LzSpec.

(** ** Specification-level view of a cubie cube *)

Module CubieSpec.
Import CubieCube.

(** Facelet position [k] of corner slot [c] / edge slot [e]. *)
Definition cpos (c k : Z) : Z :=
  nth (Z.to_nat k) (nth (Z.to_nat c) c_facelet []) 0.
Definition epos (e k : Z) : Z :=
  nth (Z.to_nat k) (nth (Z.to_nat e) e_facelet []) 0.

(** The facelet that a slot entry [x] shows at position [k] of its slot. *)
Definition corner_img (x k : Z) : Z := cpos (Z.land x 7) ((k - Z.shiftr x 3) mod 3).
Definition edge_img (x k : Z) : Z := epos (Z.shiftr x 1) ((k - Z.land x 1) mod 2).

Definition put3 (f : list Z) (c x : Z) : list Z :=
  list_set (list_set (list_set f (Z.to_nat (cpos c 0)) (corner_img x 0))
                     (Z.to_nat (cpos c 1)) (corner_img x 1))
           (Z.to_nat (cpos c 2)) (corner_img x 2).

Definition put2 (f : list Z) (e x : Z) : list Z :=
  list_set (list_set f (Z.to_nat (epos e 0)) (edge_img x 0))
           (Z.to_nat (epos e 1)) (edge_img x 1).

Definition put_all (put : list Z -> Z -> Z -> list Z) (xs : list Z) (f : list Z)
  : list Z :=
  fold_left (fun f ix => put f (fst ix) (snd ix))
            (combine (range (Z.of_nat (length xs))) xs) f.

Definition perm_of (c : t) : list Z :=
  put_all put2 (ea c) (put_all put3 (ca c) (range 54)).

Definition face_letter (p : Z) : ascii :=
  nth (Z.to_nat (p / 9)) (chars "URFDLB") "?"%char.

Definition weight (idx : Z) : Z := Z.shiftl 1 (Z.shiftl idx 2).

Definition census (cols : list Z) : Z :=
  fold_left (fun acc idx => acc + weight idx) cols 0.

Definition zsum (l : list Z) : Z := fold_right Z.add 0 l.

(** Entries in range, and the piece indices a permutation of the slots. *)
Record valid (c : t) : Prop := Valid {
  ca_len : length (ca c) = 8%nat;
  ea_len : length (ea c) = 12%nat;
  ca_rng : Forall (fun x => 0 <= x < 24) (ca c);
  ea_rng : Forall (fun x => 0 <= x < 24) (ea c);
  ca_perm : Permutation (map (fun x => Z.land x 7) (ca c)) (range 8);
  ea_perm : Permutation (map (fun x => Z.shiftr x 1) (ea c)) (range 12) }.

(** States reached from the solved cube by elementary moves. *)
Inductive reachable : t -> Prop :=
| reach_new : reachable new
| reach_move (c c' : t) (m : Z) :
    reachable c -> 0 <= m < 18 -> apply_move_index c m = Ok c' -> reachable c'.

(** [apply_move_index] iterated over a list of move indices. *)
Fixpoint apply_moves (c : t) (ms : list Z) : res t :=
  match ms with
  | [] => Ok c
  | m :: ms' => c' <- apply_move_index c m ;; apply_moves c' ms'
  end.

Definition corner_weight (j : Z) : Z :=
  weight (corner_img j 0 / 9) + weight (corner_img j 1 / 9)
  + weight (corner_img j 2 / 9).

Definition edge_weight (j : Z) : Z :=
  weight (edge_img (2 * j) 0 / 9) + weight (edge_img (2 * j) 1 / 9).

Definition corn_prod (xa : list Z) (bc : Z) : Z :=
  let x := nth (Z.to_nat (Z.land bc 7)) xa 0 in
  Z.lor (Z.land x 7) (Z.shiftl ((Z.shiftr x 3 + Z.shiftr bc 3) mod 3) 3).

Definition edge_prod (ya : list Z) (be : Z) : Z :=
  Z.lxor (nth (Z.to_nat (Z.shiftr be 1)) ya 0) (Z.land be 1).

(** A checkable form of validity, for concrete cubes. *)
Definition validb (c : t) : bool :=
  (length (ca c) =? 8)%nat && (length (ea c) =? 12)%nat
  && forallb (fun x => (0 <=? x) && (x <? 24)) (ca c)
  && forallb (fun x => (0 <=? x) && (x <? 24)) (ea c)
  && forallb (fun j => existsb (Z.eqb j) (map (fun x => Z.land x 7) (ca c))) (range 8)
  && forallb (fun j => existsb (Z.eqb j) (map (fun x => Z.shiftr x 1) (ea c))) (range 12).

(** Nine copies of each face letter, faces in the order U, R, F, D, L, B. *)
Definition solved_facelet : string :=
  join (flat_map (fun ch => repeat ch 9) (chars "URFDLB")).

End CubieSpec.

(** ** Definitions used to state the properties of the adapters *)

Module GiikerSpec.
Import Giiker.

(** The decryption rule as the design document words it, with subtraction:
    [(cipher[i] - key[(off1+i) mod N] - key[(off2+i) mod N]) mod 256]. *)
Definition documented_plain (cipher : list Z) (off1 off2 i : Z) : Z :=
  (nth (Z.to_nat i) cipher 0
   - nth (Z.to_nat ((off1 + i) mod 36)) DECRYPTION_KEY 0
   - nth (Z.to_nat ((off2 + i) mod 36)) DECRYPTION_KEY 0) mod 256.

(** The rule the code follows, with addition. *)
Definition added_plain (cipher : list Z) (off1 off2 i : Z) : Z :=
  (nth (Z.to_nat i) cipher 0
   + nth (Z.to_nat ((off1 + i) mod 36)) DECRYPTION_KEY 0
   + nth (Z.to_nat ((off2 + i) mod 36)) DECRYPTION_KEY 0) mod 256.

End GiikerSpec.

Module QiYiSpec.
Import QiYi.

Definition is_byte (b : Z) : Prop := 0 <= b < 256.

(** The checksum register before the final mask. *)
Definition crc_run (data : list Z) (crc : Z) : Z :=
  fold_left (fun crc b => Nat.iter 8 crc_shift (Z.lxor crc b)) data crc.

(** Undoes one [crc_shift] on a 16-bit register. *)
Definition crc_unshift (y : Z) : Z :=
  if Z.testbit y 15 then 2 * Z.lxor y 0xA001 + 1 else 2 * y.

(** [P] on every [k]-bit extension of the prefix [acc]. *)
Fixpoint all_bits (k : nat) (acc : Z) (P : Z -> bool) : bool :=
  match k with
  | O => P acc
  | S k' => all_bits k' (2 * acc) P && all_bits k' (2 * acc + 1) P
  end.

End QiYiSpec.

Module RegistrySpec.
Import Registry.

(** A model matches an advertisement by name or by service UUID. *)
Definition matches (name_value : string) (uuid_values : list string)
  (m : CubeModel) : bool :=
  startswith name_value (name_prefixes m)
  || any_uuid (service_uuids m) uuid_values.

(** The lookup as the design document words it: a pass over the names, and
    a pass over the service UUIDs only when no name matched. *)
Definition match_two_pass (name : option string)
  (service_uuids : option (list string)) : option CubeModel :=
  let name_value := match name with Some n => n | None => EmptyString end in
  let uuid_values := match service_uuids with Some l => l | None => [] end in
  match find (fun m => startswith name_value (name_prefixes m)) CUBE_MODELS with
  | Some m => Some m
  | None => find (fun m => any_uuid (Registry.service_uuids m) uuid_values)
                 CUBE_MODELS
  end.

End RegistrySpec.

Module GanSpec.
Import Gan.

(** The move counter that a frame carries when it is a move frame of the
    given protocol version. *)
Definition move_counter (ver : string) (decoded : list Z) : option Z :=
  let bits := flat_map format_08b decoded in
  if String.eqb ver "v1" then
    match getitem decoded 12 with Ok c => Some c | Raise _ => None end
  else if String.eqb ver "v2" then
    match field bits 0 4, field bits 4 12 with
    | Ok mode, Ok c => if mode =? 2 then Some c else None
    | _, _ => None
    end
  else if String.eqb ver "v3" then
    match field bits 0 8, field bits 8 16,
          int2 (slice bits 64 72 ++ slice bits 56 64) with
    | Ok magic, Ok mode, Ok c =>
        if (magic =? 0x55) && (mode =? 1) then Some c else None
    | _, _, _ => None
    end
  else if String.eqb ver "v4" then
    match field bits 0 8, int2 (slice bits 56 64 ++ slice bits 48 56) with
    | Ok mode, Ok c => if mode =? 1 then Some c else None
    | _, _ => None
    end
  else None.

(** An adapter of the given version with one movement subscriber and one
    state subscriber; its decoder hands the bytes on as they are. *)
Definition listening (ver : string) (cnt : Z) : t :=
  {| base := Base.set_movement_callbacks
               [ {| Base.mc_id := 7; Base.mc_run := fun _ => Ok tt |} ]
               (Base.set_state_callbacks
                  [ {| Base.sc_id := 8; Base.sc_run := Ok tt |} ] Base.new);
     _decoder := Some (fun data => Ok data); _cube := CubieCube.new;
     _version := Some ver; _move_cnt := cnt |}.

(** A v2 move frame: mode 2, counter 5, the move U, six empty move slots. *)
Definition v2_frame : list Z :=
  [0x20; 0x50; 0x7F; 0xFF; 0xFF; 0xFF; 0xFF; 0xFF;
   0; 0; 0; 0; 0; 0; 0; 0; 0; 0; 0; 0].

(** A Giiker notification whose first move byte is the turn L. *)
Definition giiker_frame : list Z := repeat 0 16 ++ [0x31; 0; 0; 0].

(** A method leaves the counter, the version and the decoder alone. *)
Definition keeps_session {A : Type} (m : St.M t A) : Prop :=
  forall s, _move_cnt (snd (m s)) = _move_cnt s
            /\ _version (snd (m s)) = _version s
            /\ _decoder (snd (m s)) = _decoder s.

(** The state after a frame with counter [c] was handled from state [s]. *)
Definition stored (c : Z) (s s' : t) : Prop :=
  _move_cnt s' = c /\ _version s' = _version s /\ _decoder s' = _decoder s.

End GanSpec.

Module StateStringSpec.

(** Where a stored state string comes from: Giiker's [_build_state], the
    permutation engine's [to_facelet] (GAN frames of every version and
    GoCube move frames), QiYi's [_parse_facelet], the facelets that
    GoCube's [_handle_state_message] fills from a state message, or the
    string that GAN's [_request_v1_state] builds from the [n] bytes it
    read. *)
Inductive source : Type :=
| FromGiiker
| FromEngine
| FromQiYi
| FromGoCube
| FromGanRead (n : nat).

Inductive produced : source -> string -> Prop :=
| giiker_built (st : Giiker.cube_state) (s : string)
    (fs : list (string * bool)) (b : bool) :
    Giiker._build_state st = Ok (s, fs, b) -> produced FromGiiker s
| engine_built (c : CubieCube.t) (s : string) :
    CubieCube.to_facelet c = Ok s -> produced FromEngine s
| qiyi_built (face_msg : list Z) (s : string) :
    QiYi._parse_facelet face_msg = Ok s -> produced FromQiYi s
| gocube_filled (data : list Z) (facelet : list ascii) :
    Forall QiYiSpec.is_byte data ->
    (GoCube.len data <? 3 + 6 * 9) = false ->
    GoCube.fill_facelet data = Ok facelet ->
    produced FromGoCube (join facelet)
| gan_read (decoded : list Z) (s : string) :
    GanV1.v1_state_string decoded = Ok s ->
    produced (FromGanRead (length decoded)) s.

(** The characters a source can store: the six face letters, and for Giiker
    also the unknown-tile marker. *)
Definition alphabet (src : source) : list ascii :=
  match src with
  | FromGiiker => chars "URFDLB?"
  | _ => chars "URFDLB"
  end.

(** Tiles 4, 13, 22, 31, 40, 49 hold U, R, F, D, L, B. *)
Definition centres_fixed (s : string) : Prop :=
  Forall2 (fun p ch => str_getitem s p = Ok ch)
          CubieCube.ct_facelet (chars "URFDLB").

(** QiYi and GoCube state messages carry the centre tiles with the
    others. *)
Definition fixes_centres (src : source) : bool :=
  match src with FromQiYi | FromGoCube => false | _ => true end.

Definition well_formed (src : source) (s : string) : Prop :=
  String.length s = 54%nat
  /\ Forall (fun ch => In ch (alphabet src)) (chars s)
  /\ (fixes_centres src = true -> centres_fixed s).

(** The string of a read of [n] bytes: nine characters for every three
    bytes read, which are at most 20; only the six face letters; and the
    centre of every face it holds is the letter of that face. *)
Definition read_shape (n : nat) (s : string) : Prop :=
  (n <= 20)%nat
  /\ String.length s = (9 * (n / 3))%nat
  /\ Forall (fun ch => In ch (chars "URFDLB")) (chars s)
  /\ Forall2 (fun p ch => str_getitem s p = Ok ch)
             (firstn (n / 3) CubieCube.ct_facelet)
             (firstn (n / 3) (chars "URFDLB")).

(** What holds of a stored string, by its source. *)
Definition shape (src : source) (s : string) : Prop :=
  match src with
  | FromGanRead n => read_shape n s
  | _ => well_formed src s
  end.

(** A facelet permutation with entries in range and the centres in place. *)
Definition perm_ok (f : list Z) : Prop :=
  length f = 54%nat
  /\ Forall (fun p => 0 <= p < 54) f
  /\ forall ct, In ct CubieCube.ct_facelet -> nth (Z.to_nat ct) f 0 = ct.

(** Giiker's tile list: 54 entries, each unset or a face letter. *)
Definition tiles_ok (faces : list (option ascii)) : Prop :=
  length faces = 54%nat
  /\ Forall (fun o => match o with
                      | None => True
                      | Some ch => In ch (chars "URFDLB")
                      end) faces.

Definition tile_char (face : option ascii) : ascii :=
  match face with Some c => c | None => "?"%char end.

(** A Giiker payload of twenty zero bytes, and a QiYi tile block whose
    first byte packs the nibbles 3 and 5. *)
Definition giiker_zero_payload : list Z := repeat 0 20.
Definition qiyi_tiles : list Z := 0x53 :: repeat 0x11 26.

(** A GoCube state message of a solved cube whose four side faces show
    the colours of their neighbours, and a GAN v1 read of 17 zero bytes. *)
Definition gocube_turned_message : list Z :=
  [0x2A; 0x3C; 0x02]
  ++ flat_map (fun a => repeat a 9) [4; 5; 2; 3; 1; 0]
  ++ [0x00; 0x0d; 0x0a].
Definition gan_short_read : list Z := repeat 0 17.

End StateStringSpec.

Module ParseSpec.

(** A QiYi state frame ([0xFE], length 38, opcode 2) with a valid CRC whose
    first tile nibble is 6, and the three AES blocks that carry it. *)
Definition qiyi_bad_frame : list Z :=
  [0xFE; 38; 0x02; 0; 0; 0; 0; 0x06] ++ repeat 0 26 ++ [0; 100; 21; 118].

Definition qiyi_listening : QiYi.t :=
  {| QiYi.base := Base.new; QiYi._decoder := Some (fun block => Ok block) |}.

(** A GAN v3 move frame with counter 5 whose axis field has no bit set. *)
Definition gan_v3_bad_frame : list Z :=
  [0x55; 1; 0; 0; 0; 0; 0; 5; 0; 0; 0; 0; 0; 0; 0; 0].

End ParseSpec.

Module CallbackSpec.
Import Base.

Definition failing : state_callback :=
  {| sc_id := 1; sc_run := Raise CallbackError |}.
Definition healthy : state_callback := {| sc_id := 2; sc_run := Ok tt |}.
Definition failing_mv : movement_callback :=
  {| mc_id := 1; mc_run := fun _ => Raise CallbackError |}.
Definition healthy_mv : movement_callback :=
  {| mc_id := 2; mc_run := fun _ => Ok tt |}.

(** An adapter whose sets iterate the failing subscriber first. *)
Definition two_subscribers : Base.t :=
  set_movement_callbacks [failing_mv; healthy_mv]
    (set_state_callbacks [failing; healthy] Base.new).

End CallbackSpec.

(** ** Algebraic view of the cubie cube *)

Module CubeAlgebra.
Import CubieCube CubieSpec.

(** Sums of the orientation parts of the entries. *)
Definition corner_twist (c : t) : Z := zsum (map (fun x => Z.shiftr x 3) (ca c)).
Definition edge_flip (c : t) : Z := zsum (map (fun x => Z.land x 1) (ea c)).

(** The cube that [cube_mult a b] leaves in its third argument. *)
Definition mult (a b : t) : t :=
  Cube (map (corn_prod (ca a)) (ca b)) (map (edge_prod (ea a)) (ea b)).

(** Entry [m] of the move table. *)
Definition move (m : Z) : t := nth (Z.to_nat m) move_cube new.

(** The entry-level products: a corner entry [x] followed by [v], and an
    edge entry [x] followed by [v]. *)
Definition cpack (x v : Z) : Z :=
  Z.lor (Z.land x 7) (Z.shiftl ((Z.shiftr x 3 + Z.shiftr v 3) mod 3) 3).
Definition epack (x v : Z) : Z := Z.lxor x (Z.land v 1).

(** A check over all triples of entries. *)
Definition all3 (p : Z -> Z -> Z -> bool) : bool :=
  forallb (fun x => forallb (fun y => forallb (p x y) (range 24)) (range 24))
          (range 24).

(** What the first loop of [from_facelet] computes: the six centre
    characters, and the index of each of the first 54 characters among
    them. *)
Definition centers_of (s : string) : string :=
  join (map (fun p => nth (Z.to_nat p) (chars s) "?"%char) ct_facelet).

Definition colours (s : string) : list Z :=
  map (str_find (centers_of s)) (firstn 54 (chars s)).

Definition count (k : Z) (l : list Z) : Z := Z.of_nat (count_occ Z.eq_dec l k).

Definition nine_of_each (s : string) : bool :=
  forallb (fun k => count k (colours s) =? 9) (range 6).

(** The same condition without the search: the six centre characters
    differ from one another, and each of them occurs nine times among the
    first 54 characters. *)
Fixpoint distinct (cs : list ascii) : bool :=
  match cs with
  | [] => true
  | c :: t => negb (existsb (Ascii.eqb c) t) && distinct t
  end.

Definition occurrences (c : ascii) (l : list ascii) : Z :=
  Z.of_nat (count_occ ascii_dec l c).

Definition centres_nine (s : string) : bool :=
  distinct (chars (centers_of s))
  && forallb (fun c => occurrences c (firstn 54 (chars s)) =? 9)
             (chars (centers_of s)).

(** A string whose centre characters are U, U, F, D, L, B, each of which
    occurs nine times in it. *)
Definition twin_centres : string :=
  "RRRRURRRRUUUUUUUURFFFFFFFFFDDDDDDDDDLLLLLLLLLBBBBBBBBB".

(** The outcome of the first loop on a list of colour indices, started in
    state [st]. *)
Fixpoint scan_res (cols : list Z) (st : list Z * Z) : step (list Z * Z) unit :=
  match cols with
  | [] => Next st
  | idx :: t =>
      if idx =? -1 then Stop tt
      else scan_res t (fst st ++ [idx], snd st + Z.shiftl 1 (Z.shiftl idx 2))
  end.

End CubeAlgebra.

(** ** The face map in closed form *)

Module StateSpec.
Import State.

(** Whether the nine tiles from [base] on all show [letter]. *)
Definition face_flag {A : Type} (eqb : A -> A -> bool) (inj : ascii -> A)
  (faces : list A) (d : A) (base : Z) (letter : ascii) : bool :=
  forallb (fun i => eqb (nth (Z.to_nat i) faces d) (inj letter))
          (range3 base (base + 9) 1).

(** The dict of [build_face_states], in the order of the colour mapping. *)
Definition face_flags {A : Type} (eqb : A -> A -> bool) (inj : ascii -> A)
  (faces : list A) (d : A) : list (string * bool) :=
  [ ("Blue"%string, face_flag eqb inj faces d 45 "B"%char);
    ("Yellow"%string, face_flag eqb inj faces d 27 "D"%char);
    ("Orange"%string, face_flag eqb inj faces d 36 "L"%char);
    ("White"%string, face_flag eqb inj faces d 0 "U"%char);
    ("Red"%string, face_flag eqb inj faces d 9 "R"%char);
    ("Green"%string, face_flag eqb inj faces d 18 "F"%char) ].

End StateSpec.

(** ** cubes/qiyicube.py, the sending side *)

Module QiYiSend.
Import QiYi.

(** [bytearray(l)] refuses a value outside [range(256)]. *)
Definition bytearray (l : list Z) : res (list Z) :=
  if forallb (fun b => (0 <=? b) && (b <? 256)) l then Ok l
  else Raise ValueError.

(** [_send_message] up to the padding: the message that is encrypted. *)
Definition build_msg (content : list Z) : list Z :=
  let msg := [0xFE] in
  let msg := msg ++ [4 + len content] in
  let msg := msg ++ content in
  let crc := _crc16_modbus msg in
  let msg := msg ++ [Z.land crc 0xFF] in
  let msg := msg ++ [Z.land (Z.shiftr crc 8) 0xFF] in
  let pad := (16 - len msg mod 16) mod 16 in
  msg ++ repeat 0 (Z.to_nat pad).

(** [_send_message] on a connected client with a decoder: the value handed
    to [write_gatt_char].  [encrypt_block] is the [cryptography]
    package's AES and enters as a function. *)
Definition _send_message (encrypt_block : list Z -> res (list Z))
  (content : list Z) : res (list Z) :=
  let msg := build_msg content in
  enc <- Py.for_each (range3 0 (len msg) 16) (fun i enc =>
           block <- encrypt_block (slice msg i (i + 16)) ;;
           Ok (enc ++ block)) [] ;;
  bytearray enc.

(** The message without its padding. *)
Definition framed (content : list Z) : list Z :=
  let msg := [0xFE; 4 + len content] ++ content in
  let crc := _crc16_modbus msg in
  msg ++ [Z.land crc 0xFF; Z.land (Z.shiftr crc 8) 0xFF].

(** The move names in the order of the move byte, from 1 on. *)
Definition move_names : list string :=
  ["L'"; "L"; "R'"; "R"; "D'"; "D"; "U'"; "U"; "F'"; "F"; "B'"; "B"]%string.

(** The nibble that [_parse_facelet] reads for tile [i], and whether it can
    be read and names a face. *)
Definition nibble (face_msg : list Z) (i : Z) : Z :=
  Z.land (Z.shiftr (nth (Z.to_nat (Z.shiftr i 1)) face_msg 0) ((i mod 2) * 4)) 0xF.

Definition tile_ok (face_msg : list Z) (i : Z) : bool :=
  (Z.shiftr i 1 <? len face_msg) && (nibble face_msg i <? 6).

Definition tile (face_msg : list Z) (i : Z) : ascii :=
  nth (Z.to_nat (nibble face_msg i)) (chars "LRDUFB") "?"%char.

End QiYiSend.

(** ** cubes/gancube.py: [GanDecoder] *)

Module GanDecoder.

(** The decoder: the two block operations of [AesEcb], which are the
    [cryptography] package's and enter as functions, and the IV
    ([iv or []]). *)
Record t : Type := {
  encrypt_block : list Z -> res (list Z);
  decrypt_block : list Z -> res (list Z);
  _iv : list Z }.

Definition len {A : Type} (l : list A) : Z := Z.of_nat (length l).

(** [self._iv[i] if i < len(self._iv) else 0] *)
Definition iv_at (iv : list Z) (i : Z) : res Z :=
  if i <? len iv then getitem iv i else Ok 0.

(** [l[a:]] for a non-negative bound. *)
Definition slice_from {A : Type} (l : list A) (a : Z) : list A :=
  skipn (Z.to_nat a) l.

Definition decode (self : t) (data : list Z) : res (list Z) :=
  let ret := data in
  match _iv self with
  | _ :: _ =>
      ret <- (if 16 <? len ret then
                let offset := len ret - 16 in
                block <- decrypt_block self (slice_from ret offset) ;;
                for_each (range 16) (fun i ret =>
                  b <- getitem block i ;;
                  v <- iv_at (_iv self) i ;;
                  setitem ret (i + offset) (Z.lxor b v)) ret
              else Ok ret) ;;
      block <- decrypt_block self (slice ret 0 16) ;;
      for_each (range 16) (fun i ret =>
        b <- getitem block i ;;
        v <- iv_at (_iv self) i ;;
        setitem ret i (Z.lxor b v)) ret
  | [] =>
      block <- decrypt_block self (slice ret 0 16) ;;
      Ok (block ++ slice_from ret 16)
  end.

Definition encode (self : t) (data : list Z) : res (list Z) :=
  let ret := data in
  match _iv self with
  | [] =>
      block <- encrypt_block self (slice ret 0 16) ;;
      Ok (block ++ slice_from ret 16)
  | _ :: _ =>
      ret <- for_each (range 16) (fun i ret =>
               r <- getitem ret i ;;
               v <- iv_at (_iv self) i ;;
               setitem ret i (Z.lxor r v)) ret ;;
      block <- encrypt_block self (slice ret 0 16) ;;
      let ret := block ++ slice_from ret 16 in
      if 16 <? len ret then
        let offset := len ret - 16 in
        let block := slice_from ret offset in
        block <- for_each (range 16) (fun i block =>
                   b <- getitem block i ;;
                   v <- iv_at (_iv self) i ;;
                   setitem block i (Z.lxor b v)) block ;;
        block <- encrypt_block self block ;;
        Ok (slice ret 0 offset ++ block)
      else Ok ret
  end.

(** The value [iv_at] returns, and a 16-byte block combined with the IV. *)
Definition iv_val (iv : list Z) (i : Z) : Z :=
  if i <? len iv then nth (Z.to_nat i) iv 0 else 0.

Definition xored (iv block : list Z) : list Z :=
  map (fun i => Z.lxor (nth (Z.to_nat i) block 0) (iv_val iv i)) (range 16).

End GanDecoder.

(** ** The full-state frame of the GAN protocols *)

Module GanFaceletSpec.
Import CubieCube.

(** The running exclusive-or of a list. *)
Definition xsum (l : list Z) : Z := fold_left Z.lxor l 0.

(** A check over a box of three bounded integers. *)
Definition all3n (n1 n2 n3 : Z) (p : Z -> Z -> Z -> bool) : bool :=
  forallb (fun x => forallb (fun y => forallb (p x y) (range n3)) (range n2))
          (range n1).

(** The frame [bits] carries the first seven corners and the first eleven
    edges of [c] in the fields that start at the four given positions. *)
Definition carries (bits : list bool)
  (corner_perm_start corner_ori_start edge_perm_start edge_ori_start : Z)
  (c : t) : Prop :=
  (forall i, 0 <= i < 7 ->
     Gan.field bits (corner_perm_start + i * 3) (corner_perm_start + i * 3 + 3)
     = Ok (Z.land (nth (Z.to_nat i) (ca c) 0) 7)
     /\ Gan.field bits (corner_ori_start + i * 2) (corner_ori_start + i * 2 + 2)
        = Ok (Z.shiftr (nth (Z.to_nat i) (ca c) 0) 3))
  /\ (forall i, 0 <= i < 11 ->
        Gan.field bits (edge_perm_start + i * 4) (edge_perm_start + i * 4 + 4)
        = Ok (Z.shiftr (nth (Z.to_nat i) (ea c) 0) 1)
        /\ Gan.field bits (edge_ori_start + i) (edge_ori_start + i + 1)
           = Ok (Z.land (nth (Z.to_nat i) (ea c) 0) 1)).

(** [w] binary digits of [n], most significant first. *)
Definition bits_of (w : nat) (n : Z) : list bool :=
  map (fun k => Z.testbit n (Z.of_nat k)) (rev (seq 0 w)).

(** A v2 full-state frame for [c]: twelve header bits, then the four groups
    of fields one after the other. *)
Definition v2_state_bits (c : t) : list bool :=
  repeat false 12
  ++ flat_map (fun x => bits_of 3 (Z.land x 7)) (firstn 7 (ca c))
  ++ flat_map (fun x => bits_of 2 (Z.shiftr x 3)) (firstn 7 (ca c))
  ++ flat_map (fun y => bits_of 4 (Z.shiftr y 1)) (firstn 11 (ea c))
  ++ flat_map (fun y => bits_of 1 (Z.land y 1)) (firstn 11 (ea c)).

(** A decoded frame is a full-state frame for [c] under protocol [ver]:
    the mode field says so and the fields carry the cube. *)
Definition full_state_frame (ver : string) (bits : list bool) (c : t) : Prop :=
  if String.eqb ver "v2" then
    Gan.field bits 0 4 = Ok 4 /\ carries bits 12 33 47 91 c
  else if String.eqb ver "v3" then
    Gan.field bits 0 8 = Ok 0x55 /\ Gan.field bits 8 16 = Ok 2
    /\ carries bits 40 61 77 121 c
  else if String.eqb ver "v4" then
    Gan.field bits 0 8 = Ok 0xED /\ carries bits 32 53 69 113 c
  else False.

(** The bytes of a v2 full-state frame for the cube after the move R'. *)
Definition v2_state_frame : list Z :=
  [64; 6; 87; 23; 64; 161; 98; 71; 10; 206; 19; 64; 0; 0; 0; 0; 0; 0; 0; 0].

End GanFaceletSpec.

(** ** Broadcasts, in closed form *)

Module BroadcastSpec.
Import Base.

(** The adapter after the listed subscribers have been called in turn. *)
Definition state_called (l : list state_callback) (s : Base.t) : Base.t :=
  fold_left (fun s cb => emit (StateCall (sc_id cb)) s) l s.

Definition move_called (movement : string) (l : list movement_callback)
  (s : Base.t) : Base.t :=
  fold_left (fun s cb => emit (MoveCall (mc_id cb) movement) s) l s.

(** Every subscriber returns, whatever it is called with. *)
Definition subscribers_return (b : Base.t) : Prop :=
  Forall (fun cb => sc_run cb = Ok tt) (_state_callbacks b)
  /\ forall mv, Forall (fun cb => mc_run cb mv = Ok tt)
                       (_movement_callbacks b).

End BroadcastSpec.

(** ** The battery frames of the GAN protocols *)

Module GanBatterySpec.
Import Gan.

Definition len {A : Type} (l : list A) : Z := Z.of_nat (length l).

(** The byte of a decoded frame that a battery frame of protocol [ver]
    reports, when the frame is one: v2 has mode 9 in the first four bits
    and the level in byte 1; v3 has the bytes 0x55 and 16 in front and the
    level in byte 3; v4 has mode 0xEF, a length [n] in byte 1 and the
    level in byte [1 + n]. *)
Definition battery_byte (ver : string) (decoded : list Z) : option Z :=
  let byte k := nth (Z.to_nat k) decoded 0 in
  if String.eqb ver "v2" then
    if (byte 0 / 16 =? 9) && (2 <=? len decoded) then Some (byte 1) else None
  else if String.eqb ver "v3" then
    if (byte 0 =? 0x55) && (byte 1 =? 16) && (4 <=? len decoded)
    then Some (byte 3) else None
  else if String.eqb ver "v4" then
    if (byte 0 =? 0xEF) && (1 + byte 1 <? len decoded)
    then Some (byte (1 + byte 1)) else None
  else None.

(** What a battery frame leaves alone. *)
Definition battery_only (b : Z) (s s' : Gan.t) : Prop :=
  Models.battery_level (Base._data (base s')) = Some b
  /\ _cube s' = _cube s /\ _move_cnt s' = _move_cnt s
  /\ Models.state_string (Base._data (base s'))
     = Models.state_string (Base._data (base s))
  /\ Models.last_move (Base._data (base s'))
     = Models.last_move (Base._data (base s)).

(** A v2 battery frame that reports 77. *)
Definition v2_battery_frame : list Z := [0x90; 77] ++ repeat 0 18.

End GanBatterySpec.

(** ** The moves of a GAN frame *)

Module GanMovesSpec.
Import Models St Gan.

(** The move names that the frame parsers build. *)
Definition quarter_turns : list string :=
  [ "U"; "U'"; "R"; "R'"; "F"; "F'"; "D"; "D'"; "L"; "L'"; "B"; "B'" ]%string.

(** The index in the move table that a move name stands for. *)
Definition move_index_of (mv : string) : Z :=
  match chars mv with
  | ch :: _ => str_find "URFDLB" ch * 3 + (if ends_with_quote mv then 2 else 0)
  | [] => 0
  end.

(** What the adapter is after the moves [names] were made in that order:
    the cube has made them, the record names the last of them and holds
    the string of the cube, and the session fields are as before. *)
Definition applied (names : list string) (s s' : Gan.t) : Prop :=
  CubieSpec.apply_moves (_cube s) (map move_index_of names) = Ok (_cube s')
  /\ CubieSpec.valid (_cube s')
  /\ BroadcastSpec.subscribers_return (base s')
  /\ _move_cnt s' = _move_cnt s /\ _version s' = _version s
  /\ match rev names with
     | [] => Base._data (base s') = Base._data (base s)
     | mv :: _ =>
         Models.last_move (Base._data (base s')) = Some mv
         /\ exists str, CubieCube.to_facelet (_cube s') = Ok str
              /\ Models.state_string (Base._data (base s')) = Some str
     end.

(** One round of the loop of [_apply_moves]. *)
Definition name_round (mv : string) : M Gan.t unit :=
  m0 <~ lift (str_getitem mv 0) ;;
  let axis := str_find "URFDLB" m0 in
  if axis =? -1 then ret tt
  else
    let power := if ends_with_quote mv then 2 else 0 in
    Gan.apply_move_index (axis * 3 + power) ;;;
    set_last_move_ mv ;;;
    update_from_cube ;;;
    on_base (Base._notify_movement mv).

(** The name that [_parse_v2] gives to the move in a five-bit slot. *)
Definition slot_name (m : Z) : string :=
  String (nth (Z.to_nat (Z.shiftr m 1)) (chars "URFDLB") "?"%char)
         (if negb (Z.land m 1 =? 0) then "'"%string else EmptyString).

(** The moves of a v2 move frame with the slots [ms]: a slot of 12 or more
    holds no move. *)
Definition frame_moves (ms : list Z) : list string :=
  map slot_name (filter (fun m => negb (12 <=? m)) ms).

(** [bits] is a v2 move frame with the counter [cnt] and the slots [ms]. *)
Definition v2_move_frame (bits : list bool) (cnt : Z) (ms : list Z) : Prop :=
  field bits 0 4 = Ok 2 /\ field bits 4 12 = Ok cnt /\ length ms = 7%nat
  /\ forall i, 0 <= i < 7 ->
       field bits (12 + i * 5) (17 + i * 5) = Ok (nth (Z.to_nat i) ms 0).

End GanMovesSpec.

(** ** The GoCube state message in closed form *)

Module GoCubeSpec.
Import Models St GoCube.

(** Tile [k] of a state message is its byte [3 + k].  The facelet that
    tile [k] is written to, in the order of the tiles. *)
Definition write_positions : list Z :=
  [ 49; 45; 46; 47; 50; 53; 52; 51; 48;
    22; 18; 19; 20; 23; 26; 25; 24; 21;
     4;  6;  3;  0;  1;  2;  5;  8;  7;
    31; 29; 32; 35; 34; 33; 30; 27; 28;
    13;  9; 10; 11; 14; 17; 16; 15; 12;
    40; 36; 37; 38; 41; 44; 43; 42; 39 ].

(** The same table read the other way: the tile that facelet [p] shows. *)
Definition tile_sources : list Z :=
  [ 21; 22; 23; 20; 18; 24; 19; 26; 25;
    37; 38; 39; 44; 36; 40; 43; 42; 41;
    10; 11; 12; 17;  9; 13; 16; 15; 14;
    34; 35; 28; 33; 27; 29; 32; 31; 30;
    46; 47; 48; 53; 45; 49; 52; 51; 50;
     1;  2;  3;  8;  0;  4;  7;  6;  5 ].

Definition letter (b : Z) : ascii :=
  nth (Z.to_nat b) (chars "BFUDRL") "?"%char.

Definition tile (data : list Z) (k : Z) : Z := nth (Z.to_nat (3 + k)) data 0.

(** The state string of a message whose tiles are all below 6. *)
Definition state_of (data : list Z) : string :=
  join (map (fun k => letter (tile data k)) tile_sources).

Definition tiles_valid (data : list Z) : bool :=
  forallb (fun k => tile data k <? 6) (range 54).

(** One write of the flattened loop. *)
Definition write_tile (data : list Z) (k : Z) (facelet : list ascii)
  : res (list ascii) :=
  b <- getitem data (3 + k) ;;
  ch <- str_getitem "BFUDRL" b ;;
  setitem facelet (nth (Z.to_nat k) write_positions 0) ch.

(** A state message of a solved cube: header, 54 tiles, checksum byte and
    trailer. *)
Definition solved_message : list Z :=
  [0x2A; 0x3C; 0x02]
  ++ flat_map (fun a => repeat a 9) (range 6)
  ++ [0x00; 0x0d; 0x0a].

(** The move bytes of a rotation message: every second byte from the
    fourth on, the last three bytes left out. *)
Definition move_bytes (data : list Z) : list Z :=
  map (fun i => nth (Z.to_nat (3 + i)) data 0) (range3 0 (len data - 6) 2).

(** The index in the move table that a move byte stands for, and the name
    of the move. *)
Definition turn_axis (raw : Z) : Z :=
  nth (Z.to_nat (Z.shiftr raw 1)) AXIS_PERM 0.

Definition turn (raw : Z) : Z :=
  turn_axis raw * 3 + (if Z.land raw 0x01 =? 0 then 0 else 2).

Definition turn_name (raw : Z) : string :=
  String (nth (Z.to_nat (turn_axis raw)) (chars "URFDLB") "?"%char)
         (if Z.land raw 0x01 =? 0 then EmptyString else "'"%string).

(** What the adapter is after a rotation message whose moves were [raws]:
    the cube has made the moves in their order, and the record names the
    last of them and holds the string of the cube. *)
Definition moved (raws : list Z) (s s' : GoCube.t) : Prop :=
  CubieSpec.apply_moves (_cube s) (map turn raws) = Ok (_cube s')
  /\ CubieSpec.valid (_cube s')
  /\ BroadcastSpec.subscribers_return (base s')
  /\ match rev raws with
     | [] => s' = s
     | raw :: _ =>
         Models.last_move (Base._data (base s')) = Some (turn_name raw)
         /\ exists str, CubieCube.to_facelet (_cube s') = Ok str
              /\ Models.state_string (Base._data (base s')) = Some str
     end.

(** One round of the loop of [_handle_move_message]. *)
Definition move_round (data : list Z) (i : Z) : M GoCube.t unit :=
  raw <~ lift (getitem data (3 + i)) ;;
  axis <~ lift (getitem AXIS_PERM (Z.shiftr raw 1)) ;;
  let power := if Z.land raw 0x01 =? 0 then 0 else 2 in
  let suffix := if power =? 0 then EmptyString else "'"%string in
  face <~ lift (str_getitem "URFDLB" axis) ;;
  let notation := String face suffix in
  let move_index := axis * 3 + power in
  GoCube.apply_move_index move_index ;;;
  on_base (modify (fun s =>
    Base.set_data (set_last_move (Some notation) (Base._data s)) s)) ;;;
  update_from_cube ;;;
  on_base Base._touch_activity ;;;
  on_base (Base._notify_movement notation) ;;;
  on_base Base._notify_state_change ;;;
  if i =? 0
  then on_base (modify (Base.emit (Base.Task "_request_state" [])))
  else ret tt.

(** A rotation message with the two moves R and U'. *)
Definition two_moves_message : list Z :=
  [0x2A; 0x0A; 0x01; 0x08; 0x00; 0x05; 0x03; 0x00; 0x0d; 0x0a].

End GoCubeSpec.

(** ** The move frames of protocol v1 *)

Module GanV1MovesSpec.
Import Models St Gan.

Definition len {A : Type} (l : list A) : Z := Z.of_nat (length l).

(** The six move bytes of a v1 frame, oldest first. *)
Definition v1_moves (decoded : list Z) : list Z :=
  map (fun i => nth (Z.to_nat (13 + i)) decoded 0) (range 6).

(** The name that [_parse_v1] gives to the move byte [m]. *)
Definition v1_name (m : Z) : string :=
  String (nth (Z.to_nat (m / 3)) (chars "URFDLB") "?"%char)
         (nth (Z.to_nat (m mod 3)) [EmptyString; "2"; "'"]%string EmptyString).

(** What the adapter is after the moves [ms] of the move table were made
    in that order. *)
Definition made (ms : list Z) (s s' : Gan.t) : Prop :=
  CubieSpec.apply_moves (_cube s) ms = Ok (_cube s')
  /\ CubieSpec.valid (_cube s')
  /\ BroadcastSpec.subscribers_return (base s')
  /\ _move_cnt s' = _move_cnt s
  /\ match rev ms with
     | [] => Base._data (base s') = Base._data (base s)
     | m :: _ =>
         Models.last_move (Base._data (base s')) = Some (v1_name m)
         /\ exists str, CubieCube.to_facelet (_cube s') = Ok str
              /\ Models.state_string (Base._data (base s')) = Some str
     end.

(** One round of the loop of [_parse_v1]. *)
Definition v1_round (decoded : list Z) (i : Z) : M Gan.t unit :=
  m <~ lift (getitem decoded (13 + i)) ;;
  face <~ lift (str_getitem "URFDLB" (m / 3)) ;;
  suffix <~ lift (getitem [EmptyString; "2"; "'"]%string (m mod 3)) ;;
  let mv := String face suffix in
  let axis := str_find "URFDLB" face in
  let power := if String.eqb suffix "'" then 2 else 0 in
  Gan.apply_move_index (axis * 3 + power) ;;;
  (if String.eqb suffix "2" then Gan.apply_move_index (axis * 3 + power)
   else ret tt) ;;;
  set_last_move_ mv ;;;
  update_from_cube ;;;
  on_base (Base._notify_movement mv).

(** A v1 frame with the counter 4 and the moves U, R2, F', D, L2, B'. *)
Definition v1_frame : list Z :=
  repeat 0 12 ++ [4] ++ [0; 4; 8; 9; 13; 17] ++ [0].

End GanV1MovesSpec.

(** ** The state read of protocol v1 in closed form *)

Module GanV1Spec.
Import GanV1.

(** The 24-bit word of face [f]: the bytes are taken in swapped pairs. *)
Definition face_word (decoded : list Z) (f : Z) : Z :=
  let b k := nth (Z.to_nat (Z.lxor (3 * f + k) 1)) decoded 0 in
  Z.lor (Z.lor (Z.shiftl (b 0) 16) (Z.shiftl (b 1) 8)) (b 2).

Definition colour (face j : Z) : Z := Z.land (Z.shiftr face j) 0x7.

Definition face_valid (face : Z) : bool :=
  forallb (fun j => colour face j <? 6) shifts.

Definition v1_valid (decoded : list Z) : bool :=
  forallb (fun f => face_valid (face_word decoded f)) (range 6).

Definition letter (v : Z) : ascii := nth (Z.to_nat v) (chars "URFDLB") "?"%char.

(** The nine characters of a face: four tiles, the centre, four tiles. *)
Definition face_chars (face f : Z) : list ascii :=
  map (fun j => letter (colour face j)) [21; 18; 15; 12]
  ++ [letter f]
  ++ map (fun j => letter (colour face j)) [9; 6; 3; 0].

(** The 18 bytes that describe a solved cube. *)
Definition solved_read : list Z :=
  [0; 0; 36; 0; 73; 146; 36; 73; 109; 146; 219; 182; 73; 146; 182; 36; 109; 219].

End GanV1Spec.

(** ** Facts about the Python layer *)

Module PyFacts.

Lemma norm_index_nonneg (len : nat) (i : Z) :
  0 <= i < Z.of_nat len -> norm_index len i = Some (Z.to_nat i).
Proof.
  intros H. unfold norm_index.
  destruct (0 <=? i) eqn:E1; [|lia].
  destruct (i <? Z.of_nat len) eqn:E2; [reflexivity|lia].
Qed.

Lemma getitem_nth {A : Type} (d : A) (l : list A) (i : Z) :
  0 <= i < Z.of_nat (length l) -> getitem l i = Ok (nth (Z.to_nat i) l d).
Proof.
  intros H. unfold getitem. rewrite norm_index_nonneg by exact H.
  destruct (nth_error l (Z.to_nat i)) eqn:E.
  - f_equal. symmetry. apply nth_error_nth. exact E.
  - apply nth_error_None in E. lia.
Qed.

Lemma setitem_set {A : Type} (l : list A) (i : Z) (v : A) :
  0 <= i < Z.of_nat (length l) -> setitem l i v = Ok (list_set l (Z.to_nat i) v).
Proof.
  intros H. unfold setitem. rewrite norm_index_nonneg by exact H. reflexivity.
Qed.

Lemma length_list_set {A : Type} (l : list A) (k : nat) (v : A) :
  length (list_set l k v) = length l.
Proof.
  revert k. induction l as [|h t IH]; intros [|k]; simpl; try reflexivity.
  now rewrite IH.
Qed.

Lemma nth_list_set_same {A : Type} (d : A) (l : list A) (k : nat) (v : A) :
  (k < length l)%nat -> nth k (list_set l k v) d = v.
Proof.
  revert k. induction l as [|h t IH]; intros [|k] H; simpl in *; try lia.
  - reflexivity.
  - apply IH. lia.
Qed.

Lemma nth_list_set_other {A : Type} (d : A) (l : list A) (k j : nat) (v : A) :
  k <> j -> nth j (list_set l k v) d = nth j l d.
Proof.
  revert k j. induction l as [|h t IH]; intros [|k] [|j] H; simpl;
    try reflexivity; try congruence.
  apply IH. congruence.
Qed.

Lemma range_length (n : Z) : length (range n) = Z.to_nat n.
Proof. unfold range. now rewrite length_map, length_seq. Qed.

Lemma range_nth (n : Z) (k : nat) :
  (k < Z.to_nat n)%nat -> nth k (range n) 0 = Z.of_nat k.
Proof.
  intros H. unfold range.
  change 0 with (Z.of_nat 0). rewrite map_nth, seq_nth by exact H. reflexivity.
Qed.

Lemma in_range (n x : Z) : 0 <= x < n -> In x (range n).
Proof.
  intros H. unfold range. apply in_map_iff. exists (Z.to_nat x). split.
  - lia.
  - apply in_seq. lia.
Qed.

Lemma range_in (n x : Z) : In x (range n) -> 0 <= x < n.
Proof.
  unfold range. intros H. apply in_map_iff in H. destruct H as [k [<- H]].
  apply in_seq in H. lia.
Qed.

(** Loop invariants for [for i in range(n)]. *)
Lemma for_each_seq_inv {S : Type} (P : nat -> S -> Prop)
  (body : Z -> S -> res S) (m a : nat) (s : S) :
  P a s ->
  (forall k s0, (a <= k < a + m)%nat -> P k s0 ->
     exists s1, body (Z.of_nat k) s0 = Ok s1 /\ P (Datatypes.S k) s1) ->
  exists s', for_each (map Z.of_nat (seq a m)) body s = Ok s' /\ P (a + m)%nat s'.
Proof.
  revert a s. induction m as [|m IH]; intros a s H0 Hstep.
  - exists s. rewrite Nat.add_0_r. now split.
  - simpl. destruct (Hstep a s ltac:(lia) H0) as [s1 [E1 P1]].
    rewrite E1. simpl.
    destruct (IH (Datatypes.S a) s1 P1) as [s' [E' P']].
    + intros k s0 Hk. apply Hstep. lia.
    + exists s'. split; [exact E'|]. now rewrite <- Nat.add_succ_comm.
Qed.

Lemma for_each_range_inv {S : Type} (P : Z -> S -> Prop)
  (body : Z -> S -> res S) (n : Z) (s : S) :
  0 <= n ->
  P 0 s ->
  (forall i s0, 0 <= i < n -> P i s0 ->
     exists s1, body i s0 = Ok s1 /\ P (i + 1) s1) ->
  exists s', for_each (range n) body s = Ok s' /\ P n s'.
Proof.
  intros Hn H0 Hstep. unfold range.
  destruct (for_each_seq_inv (fun k => P (Z.of_nat k)) body (Z.to_nat n) 0 s)
    as [s' [E P']].
  - exact H0.
  - intros k s0 Hk Pk. destruct (Hstep (Z.of_nat k) s0 ltac:(lia) Pk) as [s1 [E1 P1]].
    exists s1. split; [exact E1|]. now rewrite Nat2Z.inj_succ.
  - exists s'. split; [exact E|]. simpl in P'. now rewrite Z2Nat.id in P' by lia.
Qed.

Lemma for_until_seq_inv {S R : Type} (P : nat -> S -> Prop)
  (body : Z -> S -> res (step S R)) (m a : nat) (s : S) :
  P a s ->
  (forall k s0, (a <= k < a + m)%nat -> P k s0 ->
     exists s1, body (Z.of_nat k) s0 = Ok (Next s1) /\ P (Datatypes.S k) s1) ->
  exists s', for_until (map Z.of_nat (seq a m)) body s = Ok (Next s')
             /\ P (a + m)%nat s'.
Proof.
  revert a s. induction m as [|m IH]; intros a s H0 Hstep.
  - exists s. rewrite Nat.add_0_r. now split.
  - simpl. destruct (Hstep a s ltac:(lia) H0) as [s1 [E1 P1]].
    rewrite E1. simpl.
    destruct (IH (Datatypes.S a) s1 P1) as [s' [E' P']].
    + intros k s0 Hk. apply Hstep. lia.
    + exists s'. split; [exact E'|]. now rewrite <- Nat.add_succ_comm.
Qed.

Lemma chars_join (cs : list ascii) : chars (join cs) = cs.
Proof. apply list_ascii_of_string_of_list_ascii. Qed.

Lemma firstn_succ_nth {A : Type} (d : A) (l : list A) (k : nat) :
  (k < length l)%nat -> firstn (Datatypes.S k) l = firstn k l ++ [nth k l d].
Proof.
  revert k. induction l as [|h t IH]; intros k H; simpl in H; [lia|].
  destruct k as [|k]; [reflexivity|].
  simpl. f_equal. apply IH. lia.
Qed.

End PyFacts.

Import PyFacts.

(** Case analysis on a bounded integer and on a list of known length. *)
Ltac zenum x H :=
  let Hin := fresh "Hin" in
  pose proof (in_range _ x H) as Hin;
  cbv in Hin;
  repeat (destruct Hin as [Hin|Hin]; [subst x|]); try contradiction.

Ltac explode l H :=
  lazymatch type of H with
  | length l = O => destruct l; [clear H | discriminate H]
  | length l = Datatypes.S _ =>
      destruct l as [|? l]; [discriminate H | simpl in H; injection H as H; explode l H]
  end.

(** ** helpers/state.py never raises *)

Module StateFacts.
Import State.

Lemma all_tiles_total {A : Type} (eqb : A -> A -> bool) (faces : list A)
  (letter : A) (tiles : list Z) :
  Forall (fun i => 0 <= i < Z.of_nat (length faces)) tiles ->
  exists b, all_tiles eqb faces letter tiles = Ok b.
Proof.
  induction 1 as [|i tiles Hi _ IH]; cbn [all_tiles]; [eauto|].
  destruct faces as [|d faces]; [simpl in Hi; lia|].
  rewrite (getitem_nth d) by exact Hi. cbn [Py.bind].
  destruct (eqb _ letter); [exact IH | eauto].
Qed.

Lemma face_solved_map_total {A : Type} (eqb : A -> A -> bool) (inj : ascii -> A)
  (faces : list A) :
  (54 <= length faces)%nat ->
  exists fs, face_solved_map eqb inj faces = Ok fs.
Proof.
  intros Hlen. unfold face_solved_map, COLOR_FACE_MAPPING.
  cbn [Py.for_each fst snd].
  repeat match goal with
  | |- exists fs, Py.bind (Py.bind (dict_get _ _ ?k) _) _ = Ok fs =>
      let tiles := eval vm_compute in (dict_get Ascii.eqb FACE_TILE_INDICES k) in
      change (dict_get Ascii.eqb FACE_TILE_INDICES k) with tiles; cbn [Py.bind]
  | |- exists fs, Py.bind (Py.bind (all_tiles eqb faces ?l ?tiles) _) _ = Ok fs =>
      let H := fresh "H" in
      let b := fresh "b" in
      destruct (all_tiles_total eqb faces l tiles) as [b H];
      [ repeat constructor; lia | rewrite H; cbn [Py.bind] ]
  end.
  cbn [Py.for_each]. eauto.
Qed.

(** [build_face_states] returns for every string, so the assignments of
    [update_cube_state] are never cut short. *)
Lemma build_face_states_total (state_string : string) :
  exists r, build_face_states state_string = Ok r.
Proof.
  unfold build_face_states.
  destruct ((String.length state_string =? 0)%nat
            || (Z.of_nat (String.length state_string) <? 54)) eqn:E; [eauto|].
  apply orb_false_iff in E. destruct E as [_ E].
  destruct (face_solved_map_total Ascii.eqb (fun c => c) (chars state_string))
    as [fs Hfs].
  - assert (length (chars state_string) = String.length state_string) as ->.
    { clear E. unfold chars.
      induction state_string as [|c s IH]; simpl; [reflexivity | now rewrite IH]. }
    lia.
  - rewrite Hfs. cbn [Py.bind]. eauto.
Qed.

End StateFacts.

Module CubieFacts.
Import CubieCube CubieSpec.

Lemma corner_write_spec (c x : Z) (f : list Z) :
  0 <= c < 8 -> 0 <= x < 24 -> length f = 54%nat ->
  corner_write c x f = Ok (put3 f c x).
Proof.
  intros Hc Hx Hf. explode f Hf.
  zenum c Hc; zenum x Hx; vm_compute; reflexivity.
Qed.

Lemma edge_write_spec (e x : Z) (f : list Z) :
  0 <= e < 12 -> 0 <= x < 24 -> length f = 54%nat ->
  edge_write e x f = Ok (put2 f e x).
Proof.
  intros He Hx Hf. explode f Hf.
  zenum e He; zenum x Hx; vm_compute; reflexivity.
Qed.

Lemma length_put3 (f : list Z) (c x : Z) : length (put3 f c x) = length f.
Proof. unfold put3. now rewrite !length_list_set. Qed.

Lemma length_put2 (f : list Z) (e x : Z) : length (put2 f e x) = length f.
Proof. unfold put2. now rewrite !length_list_set. Qed.

Lemma length_put_all put (xs f : list Z) :
  (forall f i x, length (put f i x) = length f) ->
  length (put_all put xs f) = length f.
Proof.
  intros Hput. unfold put_all.
  generalize (combine (range (Z.of_nat (length xs))) xs) as l.
  intros l. revert f. induction l as [|h l IH]; intros f; simpl; [reflexivity|].
  now rewrite IH, Hput.
Qed.

Lemma for_each_put (write : Z -> Z -> list Z -> res (list Z))
  (put : list Z -> Z -> Z -> list Z) (Q : Z -> Prop) (xs f0 : list Z) :
  Forall Q xs ->
  (forall i x f, 0 <= i < Z.of_nat (length xs) -> Q x -> length f = 54%nat ->
     write i x f = Ok (put f i x)) ->
  (forall f i x, length (put f i x) = length f) ->
  length f0 = 54%nat ->
  for_each (range (Z.of_nat (length xs)))
    (fun i f => x <- getitem xs i ;; write i x f) f0
  = Ok (put_all put xs f0).
Proof.
  intros HQ Hwrite Hlen Hf0.
  set (n := length xs).
  set (l := combine (range (Z.of_nat n)) xs).
  assert (Hl : length l = n).
  { unfold l. rewrite length_combine, range_length, Nat2Z.id. apply Nat.min_id. }
  destruct (for_each_range_inv
    (fun i f => length f = 54%nat /\
       f = fold_left (fun f ix => put f (fst ix) (snd ix)) (firstn (Z.to_nat i) l) f0)
    (fun i f => x <- getitem xs i ;; write i x f) (Z.of_nat n) f0)
    as [f' [E [_ Hf']]].
  - lia.
  - split; [exact Hf0|reflexivity].
  - intros i f Hi [Hf Heq].
    rewrite (getitem_nth 0) by (fold n; lia). simpl.
    assert (Hq : Q (nth (Z.to_nat i) xs 0)).
    { rewrite Forall_forall in HQ. apply HQ. apply nth_In. fold n. lia. }
    rewrite Hwrite by (try exact Hq; try exact Hf; fold n; lia).
    eexists. split; [reflexivity|]. split.
    + now rewrite Hlen.
    + replace (Z.to_nat (i + 1)) with (Datatypes.S (Z.to_nat i)) by lia.
      rewrite (firstn_succ_nth (0, 0)) by (rewrite Hl; lia).
      rewrite fold_left_app. simpl. rewrite <- Heq.
      unfold l. rewrite combine_nth by (rewrite range_length, Nat2Z.id; reflexivity).
      simpl. rewrite range_nth by lia. now rewrite Z2Nat.id by lia.
  - rewrite E. f_equal. rewrite Hf'. unfold put_all. fold n. fold l.
    rewrite Nat2Z.id. rewrite <- Hl. now rewrite firstn_all.
Qed.

Lemma to_perm_spec (c : t) :
  length (ca c) = 8%nat -> length (ea c) = 12%nat ->
  Forall (fun x => 0 <= x < 24) (ca c) ->
  Forall (fun x => 0 <= x < 24) (ea c) ->
  to_perm c = Ok (perm_of c).
Proof.
  intros Hca Hea Rca Rea. unfold to_perm, perm_of.
  change 8 with (Z.of_nat 8). change 12 with (Z.of_nat 12).
  rewrite <- Hea, <- Hca.
  rewrite (for_each_put corner_write put3 (fun x => 0 <= x < 24)).
  - cbn [bind].
    rewrite (for_each_put edge_write put2 (fun x => 0 <= x < 24)).
    + reflexivity.
    + exact Rea.
    + intros i x f Hi Hx Hf. apply edge_write_spec; try assumption. rewrite Hea in Hi. lia.
    + apply length_put2.
    + rewrite length_put_all by apply length_put3. reflexivity.
  - exact Rca.
  - intros i x f Hi Hx Hf. apply corner_write_spec; try assumption. rewrite Hca in Hi. lia.
  - apply length_put3.
  - reflexivity.
Qed.

(** *** Range of the facelet permutation *)

Lemma Forall_list_set {A : Type} (P : A -> Prop) (l : list A) (k : nat) (v : A) :
  Forall P l -> P v -> Forall P (list_set l k v).
Proof.
  intros Hl Hv. revert k. induction Hl as [|h t Hh Ht IH]; intros [|k]; simpl;
    constructor; auto.
Qed.

Lemma corner_img_range (x k : Z) :
  0 <= x < 24 -> 0 <= k < 3 -> 0 <= corner_img x k < 54.
Proof. intros Hx Hk. zenum x Hx; zenum k Hk; vm_compute; split; congruence. Qed.

Lemma edge_img_range (x k : Z) :
  0 <= x < 24 -> 0 <= k < 2 -> 0 <= edge_img x k < 54.
Proof. intros Hx Hk. zenum x Hx; zenum k Hk; vm_compute; split; congruence. Qed.

Lemma Forall_put_all (P Q : Z -> Prop) put (xs f : list Z) :
  (forall f i x, Q x -> Forall P f -> Forall P (put f i x)) ->
  Forall Q xs -> Forall P f -> Forall P (put_all put xs f).
Proof.
  intros Hput HQ. revert f. unfold put_all.
  generalize (range (Z.of_nat (length xs))) as idxs.
  induction HQ as [|x xs Hx Hxs IH]; intros idxs f Hf.
  - destruct idxs; exact Hf.
  - destruct idxs as [|i idxs]; [exact Hf|]. simpl. apply IH. apply Hput; assumption.
Qed.

Lemma perm_of_range (c : t) :
  Forall (fun x => 0 <= x < 24) (ca c) ->
  Forall (fun x => 0 <= x < 24) (ea c) ->
  Forall (fun p => 0 <= p < 54) (perm_of c).
Proof.
  intros Rca Rea. unfold perm_of.
  apply Forall_put_all with (Q := fun x => 0 <= x < 24); [|exact Rea|].
  - intros f i x Hx Hf. unfold put2.
    repeat apply Forall_list_set; try exact Hf; apply edge_img_range; lia.
  - apply Forall_put_all with (Q := fun x => 0 <= x < 24); [|exact Rca|].
    + intros f i x Hx Hf. unfold put3.
      repeat apply Forall_list_set; try exact Hf; apply corner_img_range; lia.
    + rewrite Forall_forall. intros p Hp. now apply range_in.
Qed.

Lemma length_perm_of (c : t) : length (perm_of c) = 54%nat.
Proof.
  unfold perm_of. rewrite !length_put_all by (apply length_put2 || apply length_put3).
  reflexivity.
Qed.

(** *** [to_facelet] on an in-range permutation *)

Lemma face_letter_get (p : Z) :
  0 <= p < 54 -> str_getitem "URFDLB" (p / 9) = Ok (face_letter p).
Proof.
  intros Hp. unfold str_getitem, face_letter.
  apply getitem_nth. change (Z.of_nat (length (chars "URFDLB"))) with 6.
  split; [apply Z.div_pos; lia | apply Z.div_lt_upper_bound; lia].
Qed.

Lemma face_letter_find (p : Z) :
  0 <= p < 54 -> str_find "URFDLB" (face_letter p) = p / 9.
Proof.
  intros Hp. unfold face_letter.
  assert (Hq : 0 <= p / 9 < 6)
    by (split; [apply Z.div_pos; lia | apply Z.div_lt_upper_bound; lia]).
  remember (p / 9) as q eqn:Eq. clear Eq.
  zenum q Hq; reflexivity.
Qed.

Lemma facelet_loop (perm : list Z) :
  length perm = 54%nat ->
  Forall (fun p => 0 <= p < 54) perm ->
  Py.for_each (range 54) (fun i faces =>
    p <- getitem perm i ;;
    ch <- str_getitem "URFDLB" (p / 9) ;;
    Ok (faces ++ [ch])) []
  = Ok (map face_letter perm).
Proof.
  intros Hlen Hrng.
  destruct (for_each_range_inv
    (fun i faces => faces = map face_letter (firstn (Z.to_nat i) perm))
    (fun i faces => p <- getitem perm i ;;
                    ch <- str_getitem "URFDLB" (p / 9) ;; Ok (faces ++ [ch]))
    54 []) as [faces [E Hfaces]].
  - lia.
  - reflexivity.
  - intros i faces Hi ->.
    rewrite (getitem_nth 0) by (rewrite Hlen; lia). cbn [bind].
    rewrite face_letter_get.
    + cbn [bind]. eexists. split; [reflexivity|].
      replace (Z.to_nat (i + 1)) with (Datatypes.S (Z.to_nat i)) by lia.
      rewrite (firstn_succ_nth 0) by (rewrite Hlen; lia).
      now rewrite map_app.
    + rewrite Forall_forall in Hrng. apply Hrng. apply nth_In. rewrite Hlen. lia.
  - rewrite E. rewrite Hfaces.
    change (Z.to_nat 54) with 54%nat. rewrite <- Hlen, firstn_all. reflexivity.
Qed.

Lemma to_facelet_spec (c : t) :
  length (ca c) = 8%nat -> length (ea c) = 12%nat ->
  Forall (fun x => 0 <= x < 24) (ca c) ->
  Forall (fun x => 0 <= x < 24) (ea c) ->
  to_facelet c = Ok (join (map face_letter (perm_of c))).
Proof.
  intros Hca Hea Rca Rea. unfold to_facelet.
  rewrite to_perm_spec by assumption. cbn [bind].
  rewrite facelet_loop
    by (apply length_perm_of || apply perm_of_range; assumption).
  reflexivity.
Qed.

Lemma census_app (l : list Z) (x : Z) : census (l ++ [x]) = census l + weight x.
Proof. unfold census. now rewrite fold_left_app. Qed.

Lemma scan_facelet_spec (perm : list Z) :
  length perm = 54%nat ->
  Forall (fun p => 0 <= p < 54) perm ->
  scan_facelet "URFDLB" (join (map face_letter perm))
  = Ok (Next (map (fun p => p / 9) perm, census (map (fun p => p / 9) perm))).
Proof.
  intros Hlen Hrng. unfold scan_facelet, range.
  set (cols k := map (fun p => p / 9) (firstn k perm)).
  destruct (for_until_seq_inv (R := unit)
    (fun k st => st = (cols k, census (cols k)))
    (fun i st =>
       ch <- str_getitem (join (map face_letter perm)) i ;;
       let idx := str_find "URFDLB" ch in
       if idx =? -1 then Ok (Stop tt)
       else Ok (Next (fst st ++ [idx], snd st + Z.shiftl 1 (Z.shiftl idx 2))))
    (Z.to_nat 54) 0 ([], 0)) as [st [E Hst]].
  - reflexivity.
  - intros k st Hk ->. change (Z.to_nat 54) with 54%nat in Hk.
    assert (Hp : 0 <= nth k perm 0 < 54).
    { rewrite Forall_forall in Hrng. apply Hrng. apply nth_In. lia. }
    unfold str_getitem. rewrite chars_join.
    rewrite (getitem_nth "?"%char) by (rewrite length_map, Hlen; lia).
    rewrite Nat2Z.id. cbn [bind].
    replace (nth k (map face_letter perm) "?"%char) with (face_letter (nth k perm 0)).
    2:{ symmetry. rewrite (nth_indep _ _ (face_letter 0)) by (rewrite length_map; lia).
        apply map_nth. }
    rewrite face_letter_find by exact Hp. cbv zeta.
    assert (Hq : 0 <= nth k perm 0 / 9) by (apply Z.div_pos; lia).
    destruct (nth k perm 0 / 9 =? -1) eqn:Em; [lia|].
    eexists. split; [reflexivity|]. cbn [fst snd].
    unfold cols. rewrite (firstn_succ_nth 0) by lia.
    rewrite map_app. cbn [map]. rewrite census_app. reflexivity.
  - etransitivity; [exact E|]. rewrite Hst. unfold cols.
    change (0 + Z.to_nat 54)%nat with 54%nat.
    rewrite <- Hlen, firstn_all. reflexivity.
Qed.

(** *** What the permutation shows at each slot *)

Lemma perm_of_corner (c : t) (i k : Z) :
  length (ca c) = 8%nat -> length (ea c) = 12%nat ->
  0 <= i < 8 -> 0 <= k < 3 ->
  nth (Z.to_nat (cpos i k)) (perm_of c) 0
  = corner_img (nth (Z.to_nat i) (ca c) 0) k.
Proof.
  destruct c as [xs ys]. cbn [ca ea]. intros Hx Hy Hi Hk.
  explode xs Hx. explode ys Hy.
  zenum i Hi; zenum k Hk; cbv - [corner_img edge_img]; reflexivity.
Qed.

Lemma perm_of_edge (c : t) (i k : Z) :
  length (ca c) = 8%nat -> length (ea c) = 12%nat ->
  0 <= i < 12 -> 0 <= k < 2 ->
  nth (Z.to_nat (epos i k)) (perm_of c) 0
  = edge_img (nth (Z.to_nat i) (ea c) 0) k.
Proof.
  destruct c as [xs ys]. cbn [ca ea]. intros Hx Hy Hi Hk.
  explode xs Hx. explode ys Hy.
  zenum i Hi; zenum k Hk; cbv - [corner_img edge_img]; reflexivity.
Qed.

Lemma perm_of_center (c : t) (p : Z) :
  length (ca c) = 8%nat -> length (ea c) = 12%nat ->
  In p ct_facelet -> nth (Z.to_nat p) (perm_of c) 0 = p.
Proof.
  destruct c as [xs ys]. cbn [ca ea]. intros Hx Hy Hp.
  explode xs Hx. explode ys Hy.
  cbv in Hp.
  repeat (destruct Hp as [Hp|Hp]; [subst p; cbv - [corner_img edge_img]; reflexivity|]).
  contradiction.
Qed.

(** *** The colour census of a valid cube *)

Lemma corner_weight_land (x : Z) :
  0 <= x < 24 ->
  weight (corner_img x 0 / 9) + weight (corner_img x 1 / 9)
  + weight (corner_img x 2 / 9) = corner_weight (Z.land x 7).
Proof. intros Hx. zenum x Hx; reflexivity. Qed.

Lemma edge_weight_shiftr (x : Z) :
  0 <= x < 24 ->
  weight (edge_img x 0 / 9) + weight (edge_img x 1 / 9)
  = edge_weight (Z.shiftr x 1).
Proof. intros Hx. zenum x Hx; reflexivity. Qed.

Lemma zsum_perm (l l' : list Z) : Permutation l l' -> zsum l = zsum l'.
Proof.
  induction 1 as [| x l l' _ IH | x y l | l l' l'' _ IH1 _ IH2]; simpl; lia.
Qed.

Lemma census_valid (c : t) :
  valid c -> census (map (fun p => p / 9) (perm_of c)) = 0x999999.
Proof.
  intros [Hx Hy Rx Ry Px Py].
  apply (Permutation_map corner_weight) in Px. apply zsum_perm in Px.
  apply (Permutation_map edge_weight) in Py. apply zsum_perm in Py.
  change (zsum (map corner_weight (range 8))) with 0x444444 in Px.
  change (zsum (map edge_weight (range 12))) with 0x444444 in Py.
  destruct c as [xs ys]. cbn [ca ea] in *.
  explode xs Hx. explode ys Hy.
  repeat match goal with
         | H : Forall _ (_ :: _) |- _ =>
             let H1 := fresh "R" in
             let H2 := fresh "F" in
             inversion H as [|? ? H1 H2]; subst; clear H;
             try (pose proof (corner_weight_land _ H1));
             try (pose proof (edge_weight_shiftr _ H1))
         | H : Forall _ [] |- _ => clear H
         end.
  cbv - [corner_img edge_img weight Z.div Z.add corner_weight edge_weight
         Z.land Z.shiftr] in Px, Py |- *.
  repeat match goal with
         | |- context [weight (Zpos ?n / 9)] =>
             let v := eval vm_compute in (weight (Zpos n / 9)) in
             change (weight (Zpos n / 9)) with v
         end.
  lia.
Qed.

(** *** Decoding one slot *)

Lemma decode_corner_spec (f : list Z) (i x : Z) (self : t) :
  0 <= i < 8 -> 0 <= x < 24 ->
  length f = 54%nat -> length (ca self) = 8%nat ->
  (forall k, 0 <= k < 3 ->
     nth (Z.to_nat (cpos i k)) f 0 = corner_img x k / 9) ->
  decode_corner f i self
  = Ok (Cube (list_set (ca self) (Z.to_nat i) x) (ea self)).
Proof.
  intros Hi Hx Hf Hs Hk. destruct self as [xs ys]. cbn [ca ea] in *.
  pose proof (Hk 0 ltac:(lia)) as K0.
  pose proof (Hk 1 ltac:(lia)) as K1.
  pose proof (Hk 2 ltac:(lia)) as K2. clear Hk.
  explode f Hf. explode xs Hs.
  zenum i Hi; zenum x Hx; cbv in K0, K1, K2; subst; vm_compute; reflexivity.
Qed.

Lemma decode_edge_spec (f : list Z) (i x : Z) (self : t) :
  0 <= i < 12 -> 0 <= x < 24 ->
  length f = 54%nat -> length (ea self) = 12%nat ->
  (forall k, 0 <= k < 2 ->
     nth (Z.to_nat (epos i k)) f 0 = edge_img x k / 9) ->
  decode_edge f i self
  = Ok (Cube (ca self) (list_set (ea self) (Z.to_nat i) x)).
Proof.
  intros Hi Hx Hf Hs Hk. destruct self as [xs ys]. cbn [ca ea] in *.
  pose proof (Hk 0 ltac:(lia)) as K0.
  pose proof (Hk 1 ltac:(lia)) as K1. clear Hk.
  explode f Hf. explode ys Hs.
  zenum i Hi; zenum x Hx; cbv in K0, K1; subst; vm_compute; reflexivity.
Qed.

Lemma list_set_splice {A : Type} (d : A) (a b : list A) (k : nat) :
  length a = length b -> (k < length a)%nat ->
  list_set (firstn k a ++ skipn k b) k (nth k a d)
  = firstn (Datatypes.S k) a ++ skipn (Datatypes.S k) b.
Proof.
  revert a b. induction k as [|k IH]; intros [|x a] [|y b] Hlen Hk;
    simpl in *; try lia; try reflexivity.
  f_equal. apply IH; lia.
Qed.

Lemma decode_corners (f xs : list Z) (self : t) :
  length f = 54%nat -> length xs = 8%nat -> length (ca self) = 8%nat ->
  Forall (fun x => 0 <= x < 24) xs ->
  (forall i k, 0 <= i < 8 -> 0 <= k < 3 ->
     nth (Z.to_nat (cpos i k)) f 0 = corner_img (nth (Z.to_nat i) xs 0) k / 9) ->
  for_each (range 8) (decode_corner f) self = Ok (Cube xs (ea self)).
Proof.
  intros Hf Hxs Hs Rxs Hlook.
  destruct (for_each_range_inv
    (fun i s => ea s = ea self /\
       ca s = firstn (Z.to_nat i) xs ++ skipn (Z.to_nat i) (ca self))
    (decode_corner f) 8 self) as [s' [E [He Hc]]].
  - lia.
  - split; reflexivity.
  - intros i s Hi [He Hc].
    assert (Hx : 0 <= nth (Z.to_nat i) xs 0 < 24).
    { rewrite Forall_forall in Rxs. apply Rxs, nth_In. lia. }
    assert (Hlen : length (ca s) = 8%nat).
    { rewrite Hc, length_app, length_firstn, length_skipn. lia. }
    rewrite (decode_corner_spec f i (nth (Z.to_nat i) xs 0)); try assumption.
    + eexists. split; [reflexivity|]. cbn [ca ea]. split; [exact He|].
      rewrite Hc. replace (Z.to_nat (i + 1)) with (Datatypes.S (Z.to_nat i)) by lia.
      apply list_set_splice; lia.
    + intros k Hk. now apply Hlook.
  - rewrite E. destruct s' as [xs' ys']. cbn [ca ea] in *. subst ys'.
    rewrite Hc. change (Z.to_nat 8) with 8%nat.
    rewrite <- Hxs at 1. rewrite firstn_all.
    rewrite <- Hs, skipn_all, app_nil_r. reflexivity.
Qed.

Lemma decode_edges (f ys : list Z) (self : t) :
  length f = 54%nat -> length ys = 12%nat -> length (ea self) = 12%nat ->
  Forall (fun x => 0 <= x < 24) ys ->
  (forall i k, 0 <= i < 12 -> 0 <= k < 2 ->
     nth (Z.to_nat (epos i k)) f 0 = edge_img (nth (Z.to_nat i) ys 0) k / 9) ->
  for_each (range 12) (decode_edge f) self = Ok (Cube (ca self) ys).
Proof.
  intros Hf Hys Hs Rys Hlook.
  destruct (for_each_range_inv
    (fun i s => ca s = ca self /\
       ea s = firstn (Z.to_nat i) ys ++ skipn (Z.to_nat i) (ea self))
    (decode_edge f) 12 self) as [s' [E [Hc He]]].
  - lia.
  - split; reflexivity.
  - intros i s Hi [Hc He].
    assert (Hx : 0 <= nth (Z.to_nat i) ys 0 < 24).
    { rewrite Forall_forall in Rys. apply Rys, nth_In. lia. }
    assert (Hlen : length (ea s) = 12%nat).
    { rewrite He, length_app, length_firstn, length_skipn. lia. }
    rewrite (decode_edge_spec f i (nth (Z.to_nat i) ys 0)); try assumption.
    + eexists. split; [reflexivity|]. cbn [ca ea]. split; [exact Hc|].
      rewrite He. replace (Z.to_nat (i + 1)) with (Datatypes.S (Z.to_nat i)) by lia.
      apply list_set_splice; lia.
    + intros k Hk. now apply Hlook.
  - rewrite E. destruct s' as [xs' ys']. cbn [ca ea] in *. subst xs'.
    rewrite He. change (Z.to_nat 12) with 12%nat.
    rewrite <- Hys at 1. rewrite firstn_all.
    rewrite <- Hs, skipn_all, app_nil_r. reflexivity.
Qed.

Lemma center_char (c : t) (p : Z) :
  length (ca c) = 8%nat -> length (ea c) = 12%nat ->
  In p ct_facelet ->
  str_getitem (join (map face_letter (perm_of c))) p = Ok (face_letter p).
Proof.
  intros Hx Hy Hp. unfold str_getitem. rewrite chars_join.
  assert (Hr : 0 <= p < 54) by (cbv in Hp; intuition lia).
  rewrite (getitem_nth (face_letter 0)) by (rewrite length_map, length_perm_of; lia).
  rewrite map_nth. now rewrite perm_of_center.
Qed.

(** Decoding the facelet string of a valid cube gives the cube back. *)
Lemma from_facelet_to_facelet (c self : t) :
  valid c -> length (ca self) = 8%nat -> length (ea self) = 12%nat ->
  from_facelet self (join (map face_letter (perm_of c))) = Ok (Some c).
Proof.
  intros Hv Hsx Hsy. pose proof Hv as [Hx Hy Rx Ry Px Py].
  unfold from_facelet.
  rewrite !center_char by (try assumption; cbv; tauto).
  cbn [bind].
  change (join [face_letter 4; face_letter 13; face_letter 22;
                face_letter 31; face_letter 40; face_letter 49])
    with "URFDLB"%string.
  rewrite scan_facelet_spec
    by (apply length_perm_of || apply perm_of_range; assumption).
  cbn [bind]. rewrite census_valid by exact Hv.
  change (negb (0x999999 =? 0x999999)) with false. cbv iota.
  rewrite (decode_corners _ (ca c)); try assumption.
  - cbn [bind]. rewrite (decode_edges _ (ea c)); try assumption.
    + cbn [bind ca]. destruct c; reflexivity.
    + now rewrite length_map, length_perm_of.
    + intros i k Hi Hk.
      rewrite (nth_indep _ 0 (0 / 9)) by (rewrite length_map, length_perm_of;
        pose proof (edge_img_range (2 * i) k); zenum i Hi; zenum k Hk; cbv; lia).
      rewrite (map_nth (fun p => p / 9)). now rewrite perm_of_edge.
  - now rewrite length_map, length_perm_of.
  - intros i k Hi Hk.
    rewrite (nth_indep _ 0 (0 / 9)) by (rewrite length_map, length_perm_of;
      zenum i Hi; zenum k Hk; cbv; lia).
    rewrite (map_nth (fun p => p / 9)). now rewrite perm_of_corner.
Qed.

(** *** Validity is preserved by the group multiplication *)

Lemma corn_pack (x bc : Z) :
  0 <= x < 24 -> 0 <= bc < 24 ->
  let r := Z.lor (Z.land x 7) (Z.shiftl ((Z.shiftr x 3 + Z.shiftr bc 3) mod 3) 3) in
  0 <= r < 24 /\ Z.land r 7 = Z.land x 7.
Proof.
  intros Hx Hb. zenum x Hx; zenum bc Hb; vm_compute; repeat split; congruence.
Qed.

Lemma edge_pack (x be : Z) :
  0 <= x < 24 -> 0 <= be < 24 ->
  let r := Z.lxor x (Z.land be 1) in
  0 <= r < 24 /\ Z.shiftr r 1 = Z.shiftr x 1.
Proof.
  intros Hx Hb. zenum x Hx; zenum be Hb; vm_compute; repeat split; congruence.
Qed.

Lemma land7_range (x : Z) : 0 <= x < 24 -> 0 <= Z.land x 7 < 8.
Proof. intros Hx. zenum x Hx; vm_compute; split; congruence. Qed.

Lemma shiftr1_range (x : Z) : 0 <= x < 24 -> 0 <= Z.shiftr x 1 < 12.
Proof. intros Hx. zenum x Hx; vm_compute; split; congruence. Qed.

Lemma corn_mult_spec (a b prod : t) :
  length (ca a) = 8%nat -> length (ca b) = 8%nat -> length (ca prod) = 8%nat ->
  Forall (fun x => 0 <= x < 24) (ca b) ->
  corn_mult a b prod = Ok (Cube (map (corn_prod (ca a)) (ca b)) (ea prod)).
Proof.
  intros Ha Hb Hp Rb. unfold corn_mult.
  set (img := map (corn_prod (ca a)) (ca b)).
  assert (Himg : length img = 8%nat) by (unfold img; now rewrite length_map).
  destruct (for_each_range_inv
    (fun i s => ea s = ea prod /\
       ca s = firstn (Z.to_nat i) img ++ skipn (Z.to_nat i) (ca prod))
    (fun corn prod0 =>
       bc <- getitem (ca b) corn ;;
       x <- getitem (ca a) (Z.land bc 7) ;;
       let ori := (Z.shiftr x 3 + Z.shiftr bc 3) mod 3 in
       ca' <- setitem (ca prod0) corn (Z.lor (Z.land x 7) (Z.shiftl ori 3)) ;;
       Ok (Cube ca' (ea prod0))) 8 prod) as [s' [E [He Hc]]].
  - lia.
  - split; reflexivity.
  - intros i s Hi [He Hc].
    assert (Hbc : 0 <= nth (Z.to_nat i) (ca b) 0 < 24).
    { rewrite Forall_forall in Rb. apply Rb, nth_In. lia. }
    pose proof (land7_range _ Hbc) as Hl.
    rewrite (getitem_nth 0) by lia. cbn [bind].
    rewrite (getitem_nth 0) by lia. cbn [bind]. cbv zeta.
    rewrite setitem_set
      by (rewrite Hc, length_app, length_firstn, length_skipn; lia).
    cbn [bind]. eexists. split; [reflexivity|]. cbn [ca ea]. split; [exact He|].
    rewrite Hc. replace (Z.to_nat (i + 1)) with (Datatypes.S (Z.to_nat i)) by lia.
    rewrite <- (list_set_splice 0) by lia. f_equal.
    unfold img.
    rewrite (nth_indep (map (corn_prod (ca a)) (ca b)) 0 (corn_prod (ca a) 0))
      by (rewrite length_map; lia).
    rewrite map_nth. reflexivity.
  - etransitivity; [exact E|]. destruct s' as [xs ys]. cbn [ca ea] in *. subst ys.
    rewrite Hc. change (Z.to_nat 8) with 8%nat.
    rewrite <- Himg at 1. rewrite firstn_all.
    rewrite <- Hp, skipn_all, app_nil_r. reflexivity.
Qed.

Lemma edge_mult_spec (a b prod : t) :
  length (ea a) = 12%nat -> length (ea b) = 12%nat -> length (ea prod) = 12%nat ->
  Forall (fun x => 0 <= x < 24) (ea b) ->
  edge_mult a b prod = Ok (Cube (ca prod) (map (edge_prod (ea a)) (ea b))).
Proof.
  intros Ha Hb Hp Rb. unfold edge_mult.
  set (img := map (edge_prod (ea a)) (ea b)).
  assert (Himg : length img = 12%nat) by (unfold img; now rewrite length_map).
  destruct (for_each_range_inv
    (fun i s => ca s = ca prod /\
       ea s = firstn (Z.to_nat i) img ++ skipn (Z.to_nat i) (ea prod))
    (fun ed prod0 =>
       bed <- getitem (ea b) ed ;;
       x <- getitem (ea a) (Z.shiftr bed 1) ;;
       ea' <- setitem (ea prod0) ed (Z.lxor x (Z.land bed 1)) ;;
       Ok (Cube (ca prod0) ea')) 12 prod) as [s' [E [Hc He]]].
  - lia.
  - split; reflexivity.
  - intros i s Hi [Hc He].
    assert (Hbe : 0 <= nth (Z.to_nat i) (ea b) 0 < 24).
    { rewrite Forall_forall in Rb. apply Rb, nth_In. lia. }
    pose proof (shiftr1_range _ Hbe) as Hl.
    rewrite (getitem_nth 0) by lia. cbn [bind].
    rewrite (getitem_nth 0) by lia. cbn [bind].
    rewrite setitem_set
      by (rewrite He, length_app, length_firstn, length_skipn; lia).
    cbn [bind]. eexists. split; [reflexivity|]. cbn [ca ea]. split; [exact Hc|].
    rewrite He. replace (Z.to_nat (i + 1)) with (Datatypes.S (Z.to_nat i)) by lia.
    rewrite <- (list_set_splice 0) by lia. f_equal.
    unfold img.
    rewrite (nth_indep (map (edge_prod (ea a)) (ea b)) 0 (edge_prod (ea a) 0))
      by (rewrite length_map; lia).
    rewrite map_nth. reflexivity.
  - etransitivity; [exact E|]. destruct s' as [xs ys]. cbn [ca ea] in *. subst xs.
    rewrite He. change (Z.to_nat 12) with 12%nat.
    rewrite <- Himg at 1. rewrite firstn_all.
    rewrite <- Hp, skipn_all, app_nil_r. reflexivity.
Qed.

Lemma map_nth_range (l : list Z) :
  map (fun j => nth (Z.to_nat j) l 0) (range (Z.of_nat (length l))) = l.
Proof.
  unfold range. rewrite Nat2Z.id, map_map.
  apply nth_ext with (d := 0) (d' := 0).
  - now rewrite length_map, length_seq.
  - intros n Hn. rewrite length_map, length_seq in Hn.
    rewrite (nth_indep _ 0 (nth (Z.to_nat (Z.of_nat 0)) l 0))
      by (rewrite length_map, length_seq; exact Hn).
    rewrite (map_nth (fun k => nth (Z.to_nat (Z.of_nat k)) l 0)).
    rewrite seq_nth by exact Hn. now rewrite Nat2Z.id.
Qed.

Lemma cube_mult_valid (a b prod : t) :
  valid a -> valid b ->
  length (ca prod) = 8%nat -> length (ea prod) = 12%nat ->
  exists c, cube_mult a b prod = Ok c /\ valid c.
Proof.
  intros [Hax Hay Rax Ray Pax Pay] [Hbx Hby Rbx Rby Pbx Pby] Hpx Hpy.
  unfold cube_mult. rewrite corn_mult_spec by assumption. cbn [bind].
  rewrite edge_mult_spec by assumption. cbn [ca ea].
  eexists. split; [reflexivity|].
  assert (Hcx : forall bc, In bc (ca b) ->
            0 <= corn_prod (ca a) bc < 24 /\
            Z.land (corn_prod (ca a) bc) 7
            = Z.land (nth (Z.to_nat (Z.land bc 7)) (ca a) 0) 7).
  { intros bc Hin. rewrite Forall_forall in Rbx, Rax.
    apply corn_pack; [|now apply Rbx].
    apply Rax, nth_In. pose proof (land7_range bc (Rbx _ Hin)). lia. }
  assert (Hcy : forall be, In be (ea b) ->
            0 <= edge_prod (ea a) be < 24 /\
            Z.shiftr (edge_prod (ea a) be) 1
            = Z.shiftr (nth (Z.to_nat (Z.shiftr be 1)) (ea a) 0) 1).
  { intros be Hin. rewrite Forall_forall in Rby, Ray.
    apply edge_pack; [|now apply Rby].
    apply Ray, nth_In. pose proof (shiftr1_range be (Rby _ Hin)). lia. }
  constructor; cbn [ca ea].
  - now rewrite length_map.
  - now rewrite length_map.
  - rewrite Forall_map, Forall_forall. intros bc Hin. now apply Hcx.
  - rewrite Forall_map, Forall_forall. intros be Hin. now apply Hcy.
  - rewrite map_map.
    rewrite (map_ext_in _ (fun bc => Z.land (nth (Z.to_nat (Z.land bc 7)) (ca a) 0) 7))
      by (intros bc Hin; now apply Hcx).
    rewrite <- (map_map (fun bc => Z.land bc 7)
                        (fun j => Z.land (nth (Z.to_nat j) (ca a) 0) 7)).
    etransitivity; [apply Permutation_map; exact Pbx|].
    rewrite <- (map_map (fun j => nth (Z.to_nat j) (ca a) 0) (fun x => Z.land x 7)).
    pose proof (map_nth_range (ca a)) as Hm. rewrite Hax in Hm.
    change (Z.of_nat 8) with 8 in Hm. rewrite Hm. exact Pax.
  - rewrite map_map.
    rewrite (map_ext_in _ (fun be => Z.shiftr (nth (Z.to_nat (Z.shiftr be 1)) (ea a) 0) 1))
      by (intros be Hin; now apply Hcy).
    rewrite <- (map_map (fun be => Z.shiftr be 1)
                        (fun j => Z.shiftr (nth (Z.to_nat j) (ea a) 0) 1)).
    etransitivity; [apply Permutation_map; exact Pby|].
    rewrite <- (map_map (fun j => nth (Z.to_nat j) (ea a) 0) (fun x => Z.shiftr x 1)).
    pose proof (map_nth_range (ea a)) as Hm. rewrite Hay in Hm.
    change (Z.of_nat 12) with 12 in Hm. rewrite Hm. exact Pay.
Qed.

Lemma NoDup_range (n : Z) : NoDup (range n).
Proof.
  unfold range. apply Finite.Injective_map_NoDup.
  - intros x y H. lia.
  - apply seq_NoDup.
Qed.

Lemma covers_perm (l : list Z) (n : nat) :
  length l = n ->
  forallb (fun j => existsb (Z.eqb j) l) (range (Z.of_nat n)) = true ->
  Permutation l (range (Z.of_nat n)).
Proof.
  intros Hl Hc. symmetry. apply NoDup_Permutation_bis.
  - apply NoDup_range.
  - rewrite range_length, Nat2Z.id. lia.
  - intros j Hj. rewrite forallb_forall in Hc. apply Hc in Hj.
    apply existsb_exists in Hj. destruct Hj as [x [Hin Heq]].
    apply Z.eqb_eq in Heq. now subst.
Qed.

Lemma validb_sound (c : t) : validb c = true -> valid c.
Proof.
  unfold validb. rewrite !andb_true_iff.
  intros [[[[[Hx Hy] Rx] Ry] Px] Py].
  apply Nat.eqb_eq in Hx, Hy.
  constructor; try assumption.
  - rewrite Forall_forall. rewrite forallb_forall in Rx.
    intros x Hin. apply Rx in Hin. lia.
  - rewrite Forall_forall. rewrite forallb_forall in Ry.
    intros x Hin. apply Ry in Hin. lia.
  - apply (covers_perm _ 8); [now rewrite length_map | exact Px].
  - apply (covers_perm _ 12); [now rewrite length_map | exact Py].
Qed.

Lemma new_valid : valid new.
Proof. apply validb_sound. reflexivity. Qed.

Lemma move_cube_valid (m : Z) :
  0 <= m < 18 -> exists mc, getitem move_cube m = Ok mc /\ valid mc.
Proof.
  intros Hm. zenum m Hm; eexists; (split; [reflexivity|]);
    apply validb_sound; reflexivity.
Qed.

Lemma apply_move_index_valid (c : t) (m : Z) :
  valid c -> 0 <= m < 18 ->
  exists c', apply_move_index c m = Ok c' /\ valid c'.
Proof.
  intros Hv Hm. unfold apply_move_index.
  destruct (move_cube_valid m Hm) as [mc [E Hmc]]. rewrite E. cbn [bind].
  apply cube_mult_valid; try assumption; reflexivity.
Qed.

Lemma reachable_valid (c : t) : reachable c -> valid c.
Proof.
  induction 1 as [|c c' m _ IH Hm E].
  - exact new_valid.
  - destruct (apply_move_index_valid c m IH Hm) as [c2 [E2 Hv]].
    rewrite E in E2. injection E2 as ->. exact Hv.
Qed.

Lemma length_join (cs : list ascii) : String.length (join cs) = length cs.
Proof. induction cs as [|h t IH]; simpl; [reflexivity|]. now rewrite IH. Qed.

(** C1. For every cube reachable from the solved cube by elementary moves,
    [to_facelet] yields a 54-character string [s]; [from_facelet] accepts
    [s] (whatever well-shaped cube object it is called on), and
    [to_facelet] of the decoded cube is [s] again. *)
Theorem to_facelet_roundtrip (c self : t) :
  reachable c ->
  length (ca self) = 8%nat -> length (ea self) = 12%nat ->
  exists s c',
    to_facelet c = Ok s /\ String.length s = 54%nat /\
    from_facelet self s = Ok (Some c') /\ to_facelet c' = Ok s.
Proof.
  intros Hr Hsx Hsy. pose proof (reachable_valid c Hr) as Hv.
  pose proof Hv as [Hx Hy Rx Ry _ _].
  exists (join (map face_letter (perm_of c))), c.
  repeat split.
  - now apply to_facelet_spec.
  - now rewrite length_join, length_map, length_perm_of.
  - now apply from_facelet_to_facelet.
  - now apply to_facelet_spec.
Qed.

Lemma to_facelet_roundtrip_witness :
  exists s c',
    to_facelet (Cube [23; 12; 2; 8; 21; 9; 6; 19]
                     [16; 9; 4; 6; 22; 19; 12; 14; 11; 3; 20; 0]) = Ok s /\
    String.length s = 54%nat /\
    from_facelet new s = Ok (Some c') /\ to_facelet c' = Ok s.
Proof.
  apply (to_facelet_roundtrip
           (Cube [23; 12; 2; 8; 21; 9; 6; 19]
                 [16; 9; 4; 6; 22; 19; 12; 14; 11; 3; 20; 0]) new).
  - apply (reach_move (Cube [20; 1; 2; 8; 15; 5; 6; 19]
                            [16; 2; 4; 6; 22; 10; 12; 14; 8; 18; 20; 0]) _ 8).
    + apply (reach_move new _ 3); [apply reach_new | lia | reflexivity].
    + lia.
    + reflexivity.
  - reflexivity.
  - reflexivity.
Defined.

(** C2. Four applications of the same quarter turn (clockwise, index
    [3 * axis], or counter-clockwise, index [3 * axis + 2]) to the solved
    cube give a cube whose facelet string is the solved one. *)
Theorem four_quarter_turns_identity (axis power : Z) :
  0 <= axis < 6 -> power = 0 \/ power = 2 ->
  (c <- apply_moves new (repeat (axis * 3 + power) 4) ;; to_facelet c)
  = Ok solved_facelet.
Proof.
  intros Ha Hp. zenum axis Ha; destruct Hp; subst power; reflexivity.
Qed.

Lemma four_quarter_turns_identity_witness :
  (c <- apply_moves new (repeat (1 * 3 + 0) 4) ;; to_facelet c)
  = Ok solved_facelet.
Proof.
  apply (four_quarter_turns_identity 1 0); [lia | left; reflexivity].
Defined.

End CubieFacts.

(** ** Giiker: the additive cipher *)

Module GiikerCipher.
Import Giiker GiikerSpec.

Lemma land_ff_mod (x : Z) : Z.land x 0xFF = x mod 256.
Proof. change 0xFF with (Z.ones 8). rewrite Z.land_ones by lia. reflexivity. Qed.

Lemma get_nibble_range (data : list Z) (index off : Z) :
  _get_nibble data index = Ok off -> 0 <= off < 16.
Proof.
  unfold _get_nibble. destruct (getitem data (index / 2)) as [b|e]; [|discriminate].
  cbn [Py.bind]. change 0x0F with (Z.ones 4).
  destruct (index mod 2 =? 1); intros [= <-]; rewrite Z.land_ones by lia;
    apply Z.mod_pos_bound; reflexivity.
Qed.

Lemma key_index (off i : Z) :
  0 <= off -> 0 <= i ->
  getitem DECRYPTION_KEY ((off + i) mod len DECRYPTION_KEY)
  = Ok (nth (Z.to_nat ((off + i) mod 36)) DECRYPTION_KEY 0).
Proof.
  intros Ho Hi. change (len DECRYPTION_KEY) with 36.
  apply getitem_nth. change (Z.of_nat (length DECRYPTION_KEY)) with 36.
  apply Z.mod_pos_bound. lia.
Qed.

Lemma decrypt_loop (data : list Z) (off1 off2 : Z) :
  0 <= off1 -> 0 <= off2 -> 20 <= len data ->
  exists plain,
    Py.for_each (range 20) (fun i data =>
      let index1 := (off1 + i) mod len DECRYPTION_KEY in
      let index2 := (off2 + i) mod len DECRYPTION_KEY in
      d <- getitem data i ;;
      k1 <- getitem DECRYPTION_KEY index1 ;;
      k2 <- getitem DECRYPTION_KEY index2 ;;
      setitem data i (Z.land (d + k1 + k2) 0xFF)) data = Ok plain
    /\ length plain = length data
    /\ forall j, 0 <= j ->
         nth (Z.to_nat j) plain 0
         = if j <? 20 then added_plain data off1 off2 j
           else nth (Z.to_nat j) data 0.
Proof.
  intros H1 H2 Hlen. unfold len in Hlen.
  destruct (for_each_range_inv
    (fun i d => length d = length data /\
       forall j, 0 <= j ->
         nth (Z.to_nat j) d 0
         = if j <? i then added_plain data off1 off2 j
           else nth (Z.to_nat j) data 0)
    (fun i data =>
      let index1 := (off1 + i) mod len DECRYPTION_KEY in
      let index2 := (off2 + i) mod len DECRYPTION_KEY in
      d <- getitem data i ;;
      k1 <- getitem DECRYPTION_KEY index1 ;;
      k2 <- getitem DECRYPTION_KEY index2 ;;
      setitem data i (Z.land (d + k1 + k2) 0xFF)) 20 data)
    as [plain [E [Hl Hn]]].
  - lia.
  - split; [reflexivity|]. intros j Hj. destruct (j <? 0) eqn:E; [lia|reflexivity].
  - intros i d Hi [Hl Hn]. cbv zeta.
    rewrite (getitem_nth 0) by lia. cbn [Py.bind].
    rewrite !key_index by lia. cbn [Py.bind].
    rewrite setitem_set by lia.
    eexists. split; [reflexivity|]. split.
    + now rewrite length_list_set.
    + intros j Hj. destruct (Z.eq_dec j i) as [->|Hne].
      * rewrite nth_list_set_same by lia.
        destruct (i <? i + 1) eqn:E; [|lia].
        rewrite land_ff_mod, (Hn i) by lia.
        destruct (i <? i) eqn:E'; [lia|]. reflexivity.
      * rewrite nth_list_set_other by lia. rewrite Hn by lia.
        destruct (j <? i) eqn:E1, (j <? i + 1) eqn:E2; try reflexivity; lia.
  - exists plain. split; [exact E|]. split; assumption.
Qed.

(** C5, as the code has it.  For a payload of at least 20 bytes the two
    offsets are the nibbles at nibble positions 38 and 39, the key table has
    36 entries, and every output byte [i] in 0..19 is
    [(cipher[i] + key[(off1+i) mod 36] + key[(off2+i) mod 36]) mod 256]:
    the key bytes are added, not subtracted.  Bytes from 20 on are kept. *)
Theorem decrypt_adds_key (cipher : list Z) :
  20 <= len cipher ->
  len DECRYPTION_KEY = 36 /\
  exists off1 off2 plain,
    _get_nibble cipher 38 = Ok off1 /\ _get_nibble cipher 39 = Ok off2 /\
    _decrypt_in_place cipher = Ok plain /\
    length plain = length cipher /\
    (forall i, 0 <= i < 20 ->
       nth (Z.to_nat i) plain 0 = added_plain cipher off1 off2 i) /\
    (forall i, 20 <= i -> nth (Z.to_nat i) plain 0 = nth (Z.to_nat i) cipher 0).
Proof.
  intros Hlen. split; [reflexivity|].
  assert (Hb : exists b, getitem cipher 19 = Ok b).
  { eexists. apply (getitem_nth 0). unfold len in Hlen. lia. }
  destruct Hb as [b Hb].
  assert (N1 : exists off1, _get_nibble cipher 38 = Ok off1).
  { unfold _get_nibble. change (38 / 2) with 19. rewrite Hb. cbn. eauto. }
  assert (N2 : exists off2, _get_nibble cipher 39 = Ok off2).
  { unfold _get_nibble. change (39 / 2) with 19. rewrite Hb. cbn. eauto. }
  destruct N1 as [off1 N1], N2 as [off2 N2].
  pose proof (get_nibble_range _ _ _ N1) as R1.
  pose proof (get_nibble_range _ _ _ N2) as R2.
  destruct (decrypt_loop cipher off1 off2) as [plain [E [Hl Hn]]]; try lia.
  exists off1, off2, plain. repeat split; try assumption.
  - unfold _decrypt_in_place. destruct (len cipher <? 20) eqn:El; [lia|].
    rewrite N1, N2. cbn [Py.bind]. exact E.
  - intros i Hi. rewrite Hn by lia. destruct (i <? 20) eqn:Ei; [reflexivity|lia].
  - intros i Hi. rewrite Hn by lia. destruct (i <? 20) eqn:Ei; [lia|reflexivity].
Qed.

Lemma decrypt_adds_key_witness :
  len DECRYPTION_KEY = 36 /\
  exists off1 off2 plain,
    _get_nibble (repeat 0 18 ++ [0xA7; 0x12]) 38 = Ok off1 /\
    _get_nibble (repeat 0 18 ++ [0xA7; 0x12]) 39 = Ok off2 /\
    _decrypt_in_place (repeat 0 18 ++ [0xA7; 0x12]) = Ok plain /\
    length plain = length (repeat 0 18 ++ [0xA7; 0x12]) /\
    (forall i, 0 <= i < 20 ->
       nth (Z.to_nat i) plain 0
       = added_plain (repeat 0 18 ++ [0xA7; 0x12]) off1 off2 i) /\
    (forall i, 20 <= i ->
       nth (Z.to_nat i) plain 0
       = nth (Z.to_nat i) (repeat 0 18 ++ [0xA7; 0x12]) 0).
Proof.
  apply (decrypt_adds_key (repeat 0 18 ++ [0xA7; 0x12])). vm_compute. congruence.
Defined.

(** C5 as worded fails: on the 20-byte payload of zeros with the marker
    [0xA7] at byte 18, byte 0 decrypts to 96, not to the 160 that the
    subtraction gives. *)
Lemma decrypt_not_subtraction :
  exists off1 off2 plain,
    _get_nibble (repeat 0 18 ++ [0xA7; 0]) 38 = Ok off1 /\
    _get_nibble (repeat 0 18 ++ [0xA7; 0]) 39 = Ok off2 /\
    _decrypt_in_place (repeat 0 18 ++ [0xA7; 0]) = Ok plain /\
    nth 0 plain 0 = 96 /\
    documented_plain (repeat 0 18 ++ [0xA7; 0]) off1 off2 0 = 160 /\
    nth 0 plain 0 <> documented_plain (repeat 0 18 ++ [0xA7; 0]) off1 off2 0.
Proof.
  exists 0, 0. eexists. repeat split; try reflexivity. vm_compute. congruence.
Qed.

End GiikerCipher.

(** ** QiYi: CRC16/MODBUS *)

Module QiYiCrc.
Import QiYi QiYiSpec.

Lemma all_bits_sound (P : Z -> bool) (k : nat) (acc : Z) :
  all_bits k acc P = true ->
  forall x, 0 <= x < 2 ^ Z.of_nat k -> P (acc * 2 ^ Z.of_nat k + x) = true.
Proof.
  revert acc. induction k as [|k IH]; intros acc H x Hx.
  - simpl in *. replace (acc * 1 + x) with acc by lia. exact H.
  - simpl in H. apply andb_true_iff in H. destruct H as [H0 H1].
    rewrite Nat2Z.inj_succ, Z.pow_succ_r in * by lia.
    destruct (Z_lt_ge_dec x (2 ^ Z.of_nat k)) as [Hlt|Hge].
    + replace (acc * (2 * 2 ^ Z.of_nat k) + x)
        with (2 * acc * 2 ^ Z.of_nat k + x) by lia.
      apply IH; [exact H0 | lia].
    + replace (acc * (2 * 2 ^ Z.of_nat k) + x)
        with ((2 * acc + 1) * 2 ^ Z.of_nat k + (x - 2 ^ Z.of_nat k)) by lia.
      apply IH; [exact H1 | lia].
Qed.

Lemma all_words (P : Z -> bool) :
  all_bits 16 0 P = true -> forall x, 0 <= x < 65536 -> P x = true.
Proof.
  intros H x Hx. apply (all_bits_sound P 16 0 H x). exact Hx.
Qed.

Lemma crc_shift_word (x : Z) :
  0 <= x < 65536 ->
  0 <= crc_shift x < 65536 /\ crc_unshift (crc_shift x) = x.
Proof.
  intros Hx.
  pose proof (all_words
    (fun x => (0 <=? crc_shift x) && (crc_shift x <? 65536)
              && (crc_unshift (crc_shift x) =? x))
    ltac:(vm_compute; reflexivity) x Hx) as H.
  cbv beta in H. rewrite !andb_true_iff in H. lia.
Qed.

Lemma iter_shift_word (n : nat) (x : Z) :
  0 <= x < 65536 -> 0 <= Nat.iter n crc_shift x < 65536.
Proof.
  intros Hx. induction n as [|n IH]; simpl; [exact Hx|].
  now apply crc_shift_word.
Qed.

Lemma iter_shift_inj (n : nat) (x y : Z) :
  0 <= x < 65536 -> 0 <= y < 65536 ->
  Nat.iter n crc_shift x = Nat.iter n crc_shift y -> x = y.
Proof.
  intros Hx Hy. induction n as [|n IH]; simpl; [auto|].
  intros H. apply IH.
  pose proof (crc_shift_word _ (iter_shift_word n x Hx)) as [_ Ex].
  pose proof (crc_shift_word _ (iter_shift_word n y Hy)) as [_ Ey].
  rewrite <- Ex, <- Ey. now rewrite H.
Qed.

Lemma lxor_word (s b : Z) :
  0 <= s < 65536 -> 0 <= b < 256 -> 0 <= Z.lxor s b < 65536.
Proof.
  intros Hs Hb. split; [apply Z.lxor_nonneg; lia|].
  destruct (Z.eq_dec (Z.lxor s b) 0) as [->|Hne]; [lia|].
  apply (Z.log2_lt_pow2 _ 16); [apply Z.le_neq; split;
    [apply Z.lxor_nonneg; lia | congruence]|].
  eapply Z.le_lt_trans; [apply Z.log2_lxor; lia|].
  apply Z.max_lub_lt.
  - destruct (Z.eq_dec s 0) as [->|]; [reflexivity|]. apply Z.log2_lt_pow2; lia.
  - destruct (Z.eq_dec b 0) as [->|]; [reflexivity|].
    apply Z.lt_trans with 8; [apply Z.log2_lt_pow2; lia | lia].
Qed.

Lemma lxor_cancel (s b b' : Z) : Z.lxor s b = Z.lxor s b' -> b = b'.
Proof.
  intros H. rewrite <- (Z.lxor_0_l b), <- (Z.lxor_nilpotent s), Z.lxor_assoc, H.
  now rewrite <- Z.lxor_assoc, Z.lxor_nilpotent, Z.lxor_0_l.
Qed.

Lemma lxor_cancel_r (s s' b : Z) : Z.lxor s b = Z.lxor s' b -> s = s'.
Proof. rewrite !(Z.lxor_comm _ b). apply lxor_cancel. Qed.

Lemma crc_run_cons (b : Z) (data : list Z) (s : Z) :
  crc_run (b :: data) s = crc_run data (Nat.iter 8 crc_shift (Z.lxor s b)).
Proof. reflexivity. Qed.

Lemma crc_run_word (data : list Z) (s : Z) :
  Forall is_byte data -> 0 <= s < 65536 -> 0 <= crc_run data s < 65536.
Proof.
  intros Hd. revert s. induction Hd as [|b data Hb Hd IH]; intros s Hs.
  - exact Hs.
  - rewrite crc_run_cons. apply IH. apply iter_shift_word. now apply lxor_word.
Qed.

Lemma crc_run_inj (data : list Z) (s s' : Z) :
  Forall is_byte data -> 0 <= s < 65536 -> 0 <= s' < 65536 ->
  crc_run data s = crc_run data s' -> s = s'.
Proof.
  intros Hd. revert s s'. induction Hd as [|b data Hb Hd IH]; intros s s' Hs Hs' H.
  - exact H.
  - rewrite !crc_run_cons in H. apply IH in H;
      try (apply iter_shift_word; now apply lxor_word).
    apply iter_shift_inj in H; try now apply lxor_word.
    now apply lxor_cancel_r in H.
Qed.

Lemma Forall_byte_set (msg : list Z) (k : nat) (b : Z) :
  Forall is_byte msg -> is_byte b -> Forall is_byte (list_set msg k b).
Proof.
  intros Hm Hb. revert k. induction Hm as [|h t Hh Ht IH]; intros [|k]; simpl;
    constructor; auto.
Qed.

(** Changing one byte changes the register, whatever its starting value. *)
Lemma crc_run_corrupt (msg : list Z) (k : nat) (b s : Z) :
  Forall is_byte msg -> is_byte b -> 0 <= s < 65536 ->
  (k < length msg)%nat -> b <> nth k msg 0 ->
  crc_run (list_set msg k b) s <> crc_run msg s.
Proof.
  intros Hm Hb. revert k s.
  induction Hm as [|h t Hh Ht IH]; intros k s Hs Hk Hne; simpl in Hk; [lia|].
  destruct k as [|k]; cbn [list_set nth] in *; rewrite !crc_run_cons.
  - intros H. apply crc_run_inj in H;
      try assumption; try (apply iter_shift_word; now apply lxor_word).
    apply iter_shift_inj in H; try now apply lxor_word.
    apply lxor_cancel in H. contradiction.
  - apply IH; try assumption; try lia.
    apply iter_shift_word. now apply lxor_word.
Qed.

Lemma crc16_run (data : list Z) :
  Forall is_byte data -> _crc16_modbus data = crc_run data 0xFFFF.
Proof.
  intros Hd. unfold _crc16_modbus. fold (crc_run data 0xFFFF).
  pose proof (crc_run_word data 0xFFFF Hd ltac:(lia)) as H.
  change 0xFFFF with (Z.ones 16) at 2. rewrite Z.land_ones by lia.
  apply Z.mod_small. exact H.
Qed.

(** C8, with the value the code returns.  The checksum of the Modbus
    request [01 03 00 00 00 0A] is [0xCDC5] (the bytes [C5 CD] in the order
    in which a frame carries them, low byte first), and a frame that
    passes the check of [_notification_handler] fails it once any single
    byte is replaced by a different byte. *)
Theorem crc16_vector_and_single_byte (msg : list Z) (k : nat) (b : Z) :
  Forall is_byte msg -> frame_ok msg = true ->
  (k < length msg)%nat -> is_byte b -> b <> nth k msg 0 ->
  _crc16_modbus [0x01; 0x03; 0x00; 0x00; 0x00; 0x0A] = 0xCDC5 /\
  frame_ok (list_set msg k b) = false.
Proof.
  intros Hm Hok Hk Hb Hne. split; [reflexivity|].
  unfold frame_ok in *. rewrite negb_true_iff, orb_false_iff in Hok.
  destruct Hok as [_ Hcrc]. rewrite negb_false_iff in Hcrc. apply Z.eqb_eq in Hcrc.
  rewrite negb_false_iff, orb_true_iff. right. rewrite negb_true_iff.
  apply Z.eqb_neq. rewrite crc16_run by now apply Forall_byte_set.
  rewrite crc16_run in Hcrc by exact Hm. rewrite <- Hcrc.
  apply crc_run_corrupt; try assumption. lia.
Qed.

Lemma crc16_vector_and_single_byte_witness :
  _crc16_modbus [0x01; 0x03; 0x00; 0x00; 0x00; 0x0A] = 0xCDC5 /\
  frame_ok (list_set [0x01; 0x03; 0x00; 0x00; 0x00; 0x0A; 0xC5; 0xCD] 3 0x40)
  = false.
Proof.
  apply (crc16_vector_and_single_byte
           [0x01; 0x03; 0x00; 0x00; 0x00; 0x0A; 0xC5; 0xCD] 3 0x40).
  - repeat constructor; unfold is_byte; lia.
  - reflexivity.
  - simpl. lia.
  - unfold is_byte. lia.
  - simpl. lia.
Defined.

(** C8 as worded fails on the constant: the function does not return
    [0xC5CD] for the test vector. *)
Lemma crc16_vector_not_c5cd :
  _crc16_modbus [0x01; 0x03; 0x00; 0x00; 0x00; 0x0A] <> 0xC5CD.
Proof. vm_compute. congruence. Qed.

End QiYiCrc.

(** ** Registry: matching an advertisement *)

Module RegistryFacts.
Import Registry RegistrySpec.

Lemma match_loop_find (models : list CubeModel) (name_value : string)
  (uuid_values : list string) :
  match_loop models name_value uuid_values
  = find (matches name_value uuid_values) models.
Proof.
  induction models as [|m rest IH]; simpl; [reflexivity|].
  unfold matches at 1.
  destruct (startswith name_value (name_prefixes m)); [reflexivity|].
  destruct (any_uuid (service_uuids m) uuid_values); [reflexivity|].
  exact IH.
Qed.

Lemma find_first {A : Type} (p : A -> bool) (l : list A) (x : A) :
  find p l = Some x <->
  exists pre post, l = pre ++ x :: post /\ p x = true
                   /\ forall y, In y pre -> p y = false.
Proof.
  induction l as [|h t IH]; simpl.
  - split; [discriminate|]. intros [pre [post [E _]]]. destruct pre; discriminate.
  - destruct (p h) eqn:Eh; split.
    + intros [= ->]. exists [], t. repeat split; [exact Eh | intros y []].
    + intros [pre [post [E [Hx Hpre]]]]. destruct pre as [|y pre].
      * now injection E as -> _.
      * injection E as E1 E2. subst h.
        rewrite (Hpre y (or_introl eq_refl)) in Eh. discriminate.
    + intros H. apply IH in H. destruct H as [pre [post [-> [Hx Hpre]]]].
      exists (h :: pre), post. repeat split; [exact Hx|].
      intros y [<-|Hy]; [exact Eh | now apply Hpre].
    + intros [pre [post [E [Hx Hpre]]]]. apply IH. destruct pre as [|y pre].
      * injection E as E1 E2. subst h. rewrite Hx in Eh. discriminate.
      * injection E as E1 E2. subst t. exists pre, post. repeat split; [exact Hx|].
        intros z Hz. apply Hpre. now right.
Qed.

(** C7, as the code has it.  [match_advertisement] makes one pass over the
    static list and returns the first model that matches by name prefix or
    by service UUID (compared case-insensitively); an absent name is the
    empty name and absent UUIDs the empty collection; the result is none
    exactly when no model matches either way. *)
Theorem match_advertisement_first_match (name : option string)
  (uuids : option (list string)) :
  let name_value := match name with Some n => n | None => EmptyString end in
  let uuid_values := match uuids with Some l => l | None => [] end in
  (forall m, match_advertisement name uuids = Some m <->
     exists pre post, CUBE_MODELS = pre ++ m :: post
       /\ matches name_value uuid_values m = true
       /\ forall m', In m' pre -> matches name_value uuid_values m' = false)
  /\ (match_advertisement name uuids = None <->
      forall m, In m CUBE_MODELS -> matches name_value uuid_values m = false).
Proof.
  intros name_value uuid_values. unfold match_advertisement.
  fold name_value uuid_values. rewrite match_loop_find. split.
  - intros m. apply find_first.
  - split.
    + intros H m Hin. now apply (find_none _ _ H).
    + intros H. destruct (find _ CUBE_MODELS) as [m|] eqn:E; [|reflexivity].
      apply find_some in E. destruct E as [Hin Hm]. rewrite (H m Hin) in Hm.
      discriminate.
Qed.

(** C7 as worded fails: a QiYi name advertised together with the service
    UUID [0000fff0-...] is matched to the GAN model, which precedes QiYi in
    the list and shares that UUID, although a model matches by name. *)
Lemma match_not_name_first :
  match_advertisement (Some "QY-QYSC-A-0001"%string)
    (Some ["0000FFF0-0000-1000-8000-00805F9B34FB"%string]) = Some gan_model
  /\ match_two_pass (Some "QY-QYSC-A-0001"%string)
    (Some ["0000FFF0-0000-1000-8000-00805F9B34FB"%string]) = Some qiyi_model
  /\ match_advertisement (Some "QY-QYSC-A-0001"%string)
       (Some ["0000FFF0-0000-1000-8000-00805F9B34FB"%string])
     <> match_two_pass (Some "QY-QYSC-A-0001"%string)
       (Some ["0000FFF0-0000-1000-8000-00805F9B34FB"%string]).
Proof. repeat split; try reflexivity. vm_compute. discriminate. Qed.

End RegistryFacts.

(** ** Subscribers that raise *)

Module CallbackFacts.
Import St Base CallbackSpec.

(** C9 fails on the code.  With a failing subscriber iterated before a
    healthy one, the broadcast stops at the failure: the healthy subscriber
    is never called, for state changes and for movements alike, and the
    exception leaves [_notify_state_change] and [_notify_movement].  The
    Giiker override swallows the exception, yet the healthy subscriber is
    still skipped.  The registries and the cube data are left as they were. *)
Theorem failing_subscriber_stops_broadcast :
  Base._notify_state_change two_subscribers
    = (Raise CallbackError, emit (StateCall 1) two_subscribers)
  /\ Base._notify_movement "U" two_subscribers
    = (Raise CallbackError, emit (MoveCall 1 "U") two_subscribers)
  /\ Giiker._notify_state_change two_subscribers
    = (Ok tt, emit (StateCall 1) two_subscribers)
  /\ ~ In (StateCall 2) (effects (snd (Base._notify_state_change two_subscribers)))
  /\ ~ In (MoveCall 2 "U") (effects (snd (Base._notify_movement "U" two_subscribers)))
  /\ ~ In (StateCall 2) (effects (snd (Giiker._notify_state_change two_subscribers))).
Proof.
  repeat split; try reflexivity; vm_compute; intros [H|[]]; discriminate.
Qed.

End CallbackFacts.

(** ** Frames with a field out of range *)

Module ParseFacts.
Import ParseSpec.

(** Giiker's handler catches whatever its parser raises. *)
Lemma giiker_handler_returns (data : list Z) (s : Base.t) :
  fst (Giiker._cube_notification_handler data s) = Ok tt.
Proof.
  unfold Giiker._cube_notification_handler, St.try_except.
  match goal with |- fst (match ?m with _ => _ end) = _ => destruct m as [[[]|e] s'] end;
    reflexivity.
Qed.

(** C6 fails on the code.  A QiYi state frame that passes the length and
    CRC check but carries the tile nibble 6 makes [_parse_facelet] raise
    [IndexError]; the exception leaves [_notification_handler] after the
    battery level was stored and the acknowledgement scheduled, and the
    state string is never set.  A GAN v3 move frame whose axis field is not
    one of the six codes raises [ValueError] in the same way.  Giiker's
    [_parse_move] is the path that does substitute a placeholder. *)
Theorem out_of_range_field_raises :
  QiYi.frame_ok qiyi_bad_frame = true
  /\ QiYi._parse_facelet (slice qiyi_bad_frame 7 34) = Raise IndexError
  /\ fst (QiYi._notification_handler (qiyi_bad_frame ++ repeat 0 10)
            qiyi_listening) = Raise IndexError
  /\ Models.state_string
       (Base._data (QiYi.base
          (snd (QiYi._notification_handler (qiyi_bad_frame ++ repeat 0 10)
                  qiyi_listening)))) = None
  /\ GanSpec.move_counter "v3" gan_v3_bad_frame = Some 5
  /\ fst (Gan._notification_handler gan_v3_bad_frame (GanSpec.listening "v3" 4))
     = Raise ValueError
  /\ Giiker._parse_move 7 1
     = Ok {| Giiker.face := "?"; Giiker.amount := 0; Giiker.notation := "?" |}.
Proof. repeat split; reflexivity. Qed.

End ParseFacts.

(** ** GAN: the move counter *)

Module GanFacts.
Import St Gan GanSpec.

Lemma set_move_cnt_same (s : t) : set_move_cnt (_move_cnt s) s = s.
Proof. destruct s; reflexivity. Qed.

(** *** Methods that leave the session fields alone *)

Lemma keeps_ret {A : Type} (a : A) : keeps_session (ret a).
Proof. intros s. repeat split. Qed.

Lemma keeps_lift {A : Type} (r : res A) : keeps_session (lift r).
Proof. intros s. repeat split. Qed.

Lemma keeps_gets {A : Type} (f : t -> A) : keeps_session (gets f).
Proof. intros s. repeat split. Qed.

Lemma keeps_bind {A B : Type} (m : M t A) (k : A -> M t B) :
  keeps_session m -> (forall a, keeps_session (k a)) -> keeps_session (St.bind m k).
Proof.
  intros Hm Hk s. unfold St.bind. specialize (Hm s).
  destruct (m s) as [[a|e] s1]; cbn [snd] in *.
  - specialize (Hk a s1). destruct Hk as [K1 [K2 K3]], Hm as [M1 [M2 M3]].
    repeat split; congruence.
  - exact Hm.
Qed.

Lemma keeps_on_base {A : Type} (m : M Base.t A) : keeps_session (on_base m).
Proof.
  intros s. unfold on_base, zoom. destruct (m (base s)) as [r b].
  repeat split.
Qed.

Lemma keeps_set_cube (c : CubieCube.t) : keeps_session (modify (set_cube c)).
Proof. intros s. repeat split. Qed.

Lemma keeps_for_each {A : Type} (xs : list A) (body : A -> M t unit) :
  (forall x, keeps_session (body x)) -> keeps_session (St.for_each xs body).
Proof.
  intros Hb. induction xs as [|x xs IH]; cbn [St.for_each].
  - apply keeps_ret.
  - apply keeps_bind; [apply Hb | intros _; exact IH].
Qed.

Lemma keeps_if {A : Type} (b : bool) (m1 m2 : M t A) :
  keeps_session m1 -> keeps_session m2 -> keeps_session (if b then m1 else m2).
Proof. now destruct b. Qed.

Create HintDb keeps.
#[local] Hint Resolve keeps_ret keeps_lift keeps_gets keeps_on_base
  keeps_set_cube keeps_if : keeps.

Ltac keeps :=
  repeat first
    [ progress auto with keeps
    | apply keeps_bind; [|intro]
    | apply keeps_for_each; intro
    | apply keeps_if
    | progress cbv zeta ].

Lemma keeps_apply_move_index (i : Z) : keeps_session (apply_move_index i).
Proof. unfold apply_move_index. keeps. Qed.

Lemma keeps_update_from_cube : keeps_session update_from_cube.
Proof. unfold update_from_cube. keeps. Qed.

Lemma keeps_set_last_move (mv : string) : keeps_session (set_last_move_ mv).
Proof. unfold set_last_move_. keeps. Qed.

#[local] Hint Resolve keeps_apply_move_index keeps_update_from_cube
  keeps_set_last_move : keeps.

Lemma keeps_apply_moves (moves : list string) : keeps_session (_apply_moves moves).
Proof.
  unfold _apply_moves. destruct moves as [|mv moves]; keeps.
Qed.

#[local] Hint Resolve keeps_apply_moves : keeps.

Lemma parse_v1_tail_keeps (decoded : list Z) :
  keeps_session
    (St.for_each (range 6) (fun i =>
      m <~ lift (getitem decoded (13 + i)) ;;
      face <~ lift (str_getitem "URFDLB" (m / 3)) ;;
      suffix <~ lift (getitem [EmptyString; "2"; "'"]%string (m mod 3)) ;;
      let mv := String face suffix in
      let axis := str_find "URFDLB" face in
      let power := if String.eqb suffix "'" then 2 else 0 in
      apply_move_index (axis * 3 + power) ;;;
      (if String.eqb suffix "2" then apply_move_index (axis * 3 + power)
       else ret tt) ;;;
      set_last_move_ mv ;;;
      update_from_cube ;;;
      on_base (Base._notify_movement mv)) ;;;
    on_base Base._touch_activity ;;;
    on_base Base._notify_state_change).
Proof. keeps. Qed.

(** *** Running the monad *)

Lemma bind_gets {S A B : Type} (f : S -> A) (k : A -> M S B) (s : S) :
  St.bind (gets f) k s = k (f s) s.
Proof. reflexivity. Qed.

Lemma bind_lift_ok {S A B : Type} (a : A) (k : A -> M S B) (s : S) :
  St.bind (lift (Ok a)) k s = k a s.
Proof. reflexivity. Qed.

Lemma bind_modify {S B : Type} (f : S -> S) (k : unit -> M S B) (s : S) :
  St.bind (modify f) k s = k tt (f s).
Proof. reflexivity. Qed.

Lemma bind_ok {S A B : Type} (m : M S A) (k : A -> M S B) (s : S) (b : B) :
  fst (St.bind m k s) = Ok b ->
  exists a, fst (m s) = Ok a /\ St.bind m k s = k a (snd (m s)).
Proof.
  unfold St.bind. destruct (m s) as [[a|e] s1]; cbn [fst snd].
  - intros _. exists a. split; reflexivity.
  - discriminate.
Qed.

Ltac run := repeat (rewrite ?bind_gets, ?bind_lift_ok, ?bind_modify; cbv beta).

Ltac eval_eqb :=
  repeat match goal with
         | |- context [String.eqb ?a ?b] =>
             let v := eval vm_compute in (String.eqb a b) in
             change (String.eqb a b) with v
         | H : context [String.eqb ?a ?b] |- _ =>
             let v := eval vm_compute in (String.eqb a b) in
             change (String.eqb a b) with v in H
         end; cbv iota in *.

(** *** A frame whose counter is the stored one, or a first frame *)

Lemma on_move_guard (bits : list bool) (c p a e : Z) (s : t) :
  _move_cnt s = c \/ _move_cnt s = -1 ->
  on_move bits c p a e s = (Ok tt, set_move_cnt c s).
Proof.
  intros H. unfold on_move. run.
  destruct ((c =? _move_cnt s) || (_move_cnt s =? -1)) eqn:E; [reflexivity|].
  apply orb_false_iff in E. lia.
Qed.

Lemma dispatch_guard (ver : string) (decoded : list Z) (c : Z) (s : t) :
  _version s = Some ver -> move_counter ver decoded = Some c ->
  _move_cnt s = c \/ (ver <> "v1"%string /\ _move_cnt s = -1) ->
  dispatch decoded s = (Ok tt, set_move_cnt c s).
Proof.
  intros Hv Hc Hg. unfold dispatch, move_counter in *.
  set (bits := flat_map format_08b decoded) in *.
  run. rewrite Hv.
  destruct (String.eqb ver "v1") eqn:E1.
  { apply String.eqb_eq in E1. subst ver. eval_eqb.
    destruct Hg as [Hg|[Hg _]]; [|congruence].
    unfold _parse_v1. destruct (getitem decoded 12) as [c'|] eqn:Ec; [|discriminate].
    injection Hc as ->. run.
    rewrite Hg, Z.eqb_refl. unfold ret. now rewrite <- Hg, set_move_cnt_same. }
  assert (Hs : _move_cnt s = c \/ _move_cnt s = -1) by tauto. clear Hg.
  destruct (String.eqb ver "v2") eqn:E2.
  { unfold _parse_v2.
    destruct (field bits 0 4) as [mode|]; [|discriminate].
    destruct (field bits 4 12) as [c'|]; [|discriminate].
    destruct (mode =? 2) eqn:Em; [|discriminate]. injection Hc as ->.
    run. rewrite Em. run.
    destruct ((c =? _move_cnt s) || (_move_cnt s =? -1)) eqn:E; [reflexivity|].
    apply orb_false_iff in E. lia. }
  destruct (String.eqb ver "v3") eqn:E3.
  { unfold _parse_v3.
    destruct (field bits 0 8) as [magic|]; [|discriminate].
    destruct (field bits 8 16) as [mode|]; [|discriminate].
    destruct (int2 (slice bits 64 72 ++ slice bits 56 64)) as [c'|] eqn:Ec;
      [|discriminate].
    destruct (magic =? 0x55) eqn:Eg; [|discriminate].
    destruct (mode =? 1) eqn:Em; [|discriminate]. injection Hc as ->.
    run. rewrite Eg. cbn [negb]. run. rewrite Em. run.
    now apply on_move_guard. }
  destruct (String.eqb ver "v4") eqn:E4; [|discriminate].
  unfold _parse_v4.
  destruct (field bits 0 8) as [mode|]; [|discriminate].
  destruct (int2 (slice bits 56 64 ++ slice bits 48 56)) as [c'|] eqn:Ec;
    [|discriminate].
  destruct (mode =? 1) eqn:Em; [|discriminate]. injection Hc as ->.
  run. rewrite Em. run.
  now apply on_move_guard.
Qed.

(** *** After a move frame, the stored counter is the frame's *)

Lemma tail_stores (m : M t unit) (c : Z) (s : t) :
  keeps_session m ->
  fst ((m ;;; modify (set_move_cnt c)) s) = Ok tt ->
  stored c s (snd ((m ;;; modify (set_move_cnt c)) s)).
Proof.
  intros Hk Hok. apply bind_ok in Hok. destruct Hok as [[] [_ E]].
  rewrite E. destruct (Hk s) as [_ [K2 K3]]. repeat split; assumption.
Qed.

Lemma on_move_stores (bits : list bool) (c p a e : Z) (s : t) :
  fst (on_move bits c p a e s) = Ok tt ->
  stored c s (snd (on_move bits c p a e s)).
Proof.
  unfold on_move. run.
  destruct ((c =? _move_cnt s) || (_move_cnt s =? -1)); [intros _; repeat split|].
  intros Hok.
  apply bind_ok in Hok as Hb. destruct Hb as [pw [_ E1]]. rewrite E1 in *. clear E1.
  apply bind_ok in Hok as Hb. destruct Hb as [ab [_ E1]]. rewrite E1 in *. clear E1.
  apply bind_ok in Hok as Hb. destruct Hb as [ax [_ E1]]. rewrite E1 in *. clear E1.
  cbn [lift snd] in *.
  apply tail_stores; [|exact Hok]. keeps.
Qed.

Lemma dispatch_stores (ver : string) (decoded : list Z) (c : Z) (s : t) :
  _version s = Some ver -> move_counter ver decoded = Some c ->
  fst (dispatch decoded s) = Ok tt ->
  stored c s (snd (dispatch decoded s)).
Proof.
  intros Hv Hc. unfold dispatch, move_counter in *.
  set (bits := flat_map format_08b decoded) in *.
  run. rewrite Hv.
  destruct (String.eqb ver "v1") eqn:E1.
  { apply String.eqb_eq in E1. subst ver. eval_eqb.
    unfold _parse_v1. destruct (getitem decoded 12) as [c'|] eqn:Ec; [|discriminate].
    injection Hc as ->. run.
    destruct (c =? _move_cnt s) eqn:E.
    - intros _. repeat split. cbn. lia.
    - intros _. run.
      exact (parse_v1_tail_keeps decoded (set_move_cnt c s)). }
  destruct (String.eqb ver "v2") eqn:E2.
  { unfold _parse_v2.
    destruct (field bits 0 4) as [mode|]; [|discriminate].
    destruct (field bits 4 12) as [c'|]; [|discriminate].
    destruct (mode =? 2) eqn:Em; [|discriminate]. injection Hc as ->.
    run. rewrite Em. run.
    destruct ((c =? _move_cnt s) || (_move_cnt s =? -1));
      [intros _; repeat split|].
    intros Hok.
    apply bind_ok in Hok as Hb. destruct Hb as [moves [_ E]]. rewrite E in *.
    clear E. cbn [lift snd] in *.
    exact (tail_stores _ c s (keeps_apply_moves moves) Hok). }
  destruct (String.eqb ver "v3") eqn:E3.
  { unfold _parse_v3.
    destruct (field bits 0 8) as [magic|]; [|discriminate].
    destruct (field bits 8 16) as [mode|]; [|discriminate].
    destruct (int2 (slice bits 64 72 ++ slice bits 56 64)) as [c'|] eqn:Ec;
      [|discriminate].
    destruct (magic =? 0x55) eqn:Eg; [|discriminate].
    destruct (mode =? 1) eqn:Em; [|discriminate]. injection Hc as ->.
    run. rewrite Eg. cbn [negb]. run. rewrite Em. run.
    apply on_move_stores. }
  destruct (String.eqb ver "v4") eqn:E4; [|discriminate].
  unfold _parse_v4.
  destruct (field bits 0 8) as [mode|]; [|discriminate].
  destruct (int2 (slice bits 56 64 ++ slice bits 48 56)) as [c'|] eqn:Ec;
    [|discriminate].
  destruct (mode =? 1) eqn:Em; [|discriminate]. injection Hc as ->.
  run. rewrite Em. run.
  apply on_move_stores.
Qed.

(** *** The handler around the dispatch *)

Lemma handler_dispatch (decode : list Z -> res (list Z)) (data decoded : list Z)
  (s : t) :
  _decoder s = Some decode -> decode data = Ok decoded ->
  _notification_handler data s = dispatch decoded s.
Proof.
  intros Hd He. unfold _notification_handler. run. rewrite Hd, He. now run.
Qed.

(** C10.  For protocols v2, v3 and v4, a move frame that arrives while the
    stored counter is the sentinel -1 (its value in a new [GanConnection])
    only stores the frame's counter: the cube, every field of the cube
    data, the activity stamp, the clock and the list of subscriber calls
    are as before, and the handler returns normally. *)
Theorem first_move_frame_is_baseline (ver : string)
  (decode : list Z -> res (list Z)) (data decoded : list Z) (c : Z) (s : t) :
  In ver ["v2"; "v3"; "v4"]%string ->
  _version s = Some ver -> _move_cnt s = -1 ->
  _decoder s = Some decode -> decode data = Ok decoded ->
  move_counter ver decoded = Some c ->
  _move_cnt new = -1 /\
  _notification_handler data s = (Ok tt, set_move_cnt c s).
Proof.
  intros Hin Hv Hs Hd He Hc. split; [reflexivity|].
  rewrite (handler_dispatch decode data decoded) by assumption.
  apply (dispatch_guard ver); try assumption.
  right. split; [|exact Hs].
  cbn in Hin. intros ->. intuition discriminate.
Qed.

Lemma first_move_frame_is_baseline_witness :
  _move_cnt new = -1 /\
  _notification_handler v2_frame (listening "v2" (-1))
  = (Ok tt, set_move_cnt 5 (listening "v2" (-1))).
Proof.
  apply (first_move_frame_is_baseline "v2" (fun data => Ok data)
           v2_frame v2_frame 5 (listening "v2" (-1))).
  - left. reflexivity.
  - reflexivity.
  - reflexivity.
  - reflexivity.
  - reflexivity.
  - reflexivity.
Defined.




End GanFacts.

(** ** The shape of a state string of 54 tiles *)

Module StateStringFacts.
Import CubieCube CubieSpec CubieFacts StateStringSpec.

Lemma bind_inv {A B : Type} (m : res A) (k : A -> res B) (b : B) :
  Py.bind m k = Ok b -> exists a, m = Ok a /\ k a = Ok b.
Proof. destruct m as [a|e]; [eauto | discriminate]. Qed.

Ltac bind_inv H :=
  let a := fresh "a" in
  let E := fresh "E" in
  apply bind_inv in H; destruct H as [a [E H]].

(** An invariant of a loop that ends without an exception. *)
Lemma for_each_ok_inv {A S : Type} (P : S -> Prop) (xs : list A)
  (body : A -> S -> res S) (s s' : S) :
  P s ->
  (forall x s0 s1, P s0 -> body x s0 = Ok s1 -> P s1) ->
  Py.for_each xs body s = Ok s' -> P s'.
Proof.
  intros H0 Hstep. revert s H0. induction xs as [|x xs IH]; intros s H0 H.
  - now injection H as <-.
  - cbn [Py.for_each] in H. bind_inv H. eapply IH; [|exact H]. eauto.
Qed.

Lemma getitem_In {A : Type} (l : list A) (i : Z) (x : A) :
  getitem l i = Ok x -> In x l.
Proof.
  unfold getitem. destruct (norm_index (length l) i) as [k|]; [|discriminate].
  destruct (nth_error l k) eqn:E; [|discriminate].
  intros [= <-]. eapply nth_error_In. exact E.
Qed.

Lemma setitem_some {A : Type} (l l' : list A) (i : Z) (v : A) :
  setitem l i v = Ok l' -> exists k, l' = list_set l k v.
Proof.
  unfold setitem. destruct (norm_index (length l) i) as [k|]; [|discriminate].
  intros [= <-]. now exists k.
Qed.

Lemma setitem_nonneg {A : Type} (l l' : list A) (i : Z) (v : A) :
  0 <= i -> setitem l i v = Ok l' ->
  l' = list_set l (Z.to_nat i) v /\ (Z.to_nat i < length l)%nat.
Proof.
  intros Hi. unfold setitem, norm_index.
  destruct ((0 <=? i) && (i <? Z.of_nat (length l))) eqn:E.
  - intros [= <-]. apply andb_true_iff in E. split; [reflexivity|lia].
  - destruct ((- Z.of_nat (length l) <=? i) && (i <? 0)) eqn:E'; [|discriminate].
    apply andb_true_iff in E'. lia.
Qed.

(** *** The permutation engine *)

Lemma cell_props (p : Z) :
  In p (concat c_facelet ++ concat e_facelet) ->
  0 <= p < 54 /\ ~ In p ct_facelet.
Proof.
  intros H. cbv in H.
  repeat (destruct H as [H|H];
          [subst p; split; [lia | cbv; intuition discriminate]|]).
  contradiction.
Qed.

Lemma perm_ok_set (f : list Z) (p v : Z) :
  perm_ok f ->
  In p (concat c_facelet ++ concat e_facelet) ->
  In v (concat c_facelet ++ concat e_facelet) ->
  perm_ok (list_set f (Z.to_nat p) v).
Proof.
  intros [Hl [Hr Hc]] Hp Hv.
  apply cell_props in Hp, Hv. destruct Hp as [Hp Hnc], Hv as [Hv _].
  repeat split.
  - now rewrite length_list_set.
  - now apply Forall_list_set.
  - intros ct Hct. rewrite nth_list_set_other; [now apply Hc|].
    intros E. apply Hnc. assert (Hct' := Hct). cbv in Hct'.
    assert (0 <= ct) by intuition lia.
    replace p with ct by lia. exact Hct.
Qed.

Lemma write_cell (table : list (list Z)) (r1 i1 r2 i2 : Z) (f f' : list Z) :
  incl (concat table) (concat c_facelet ++ concat e_facelet) ->
  perm_ok f ->
  (row <- getitem table r1 ;; v <- getitem row i1 ;;
   slot <- getitem table r2 ;; p <- getitem slot i2 ;; setitem f p v) = Ok f' ->
  perm_ok f'.
Proof.
  intros Hinc Hf H.
  bind_inv H. bind_inv H. bind_inv H. bind_inv H.
  apply getitem_In in E, E0, E1, E2.
  assert (Hv : In a0 (concat c_facelet ++ concat e_facelet)).
  { apply Hinc, in_concat. eauto. }
  assert (Hp : In a2 (concat c_facelet ++ concat e_facelet)).
  { apply Hinc, in_concat. eauto. }
  apply setitem_nonneg in H; [|apply cell_props in Hp; lia].
  destruct H as [-> _]. now apply perm_ok_set.
Qed.

Lemma to_perm_ok (c : t) (perm : list Z) : to_perm c = Ok perm -> perm_ok perm.
Proof.
  unfold to_perm. intros H. bind_inv H.
  assert (H0 : perm_ok (range 54)).
  { repeat split.
    - rewrite Forall_forall. intros p Hp. now apply range_in.
    - intros ct Hct. cbv in Hct.
      repeat (destruct Hct as [Hct|Hct]; [subst ct; reflexivity|]). contradiction. }
  assert (Ha : perm_ok a).
  { revert E. apply for_each_ok_inv; [exact H0|].
    intros x f0 f1 Hf0 Hb. bind_inv Hb. revert Hb. unfold corner_write.
    apply for_each_ok_inv; [exact Hf0|].
    intros n g0 g1 Hg0. apply write_cell; [|exact Hg0].
    intros p Hp. apply in_or_app. now left. }
  revert H. apply for_each_ok_inv; [exact Ha|].
  intros x f0 f1 Hf0 Hb. bind_inv Hb. revert Hb. unfold edge_write.
  apply for_each_ok_inv; [exact Hf0|].
  intros n g0 g1 Hg0. apply write_cell; [|exact Hg0].
  intros p Hp. apply in_or_app. now right.
Qed.

Lemma face_letter_in (p : Z) : 0 <= p < 54 -> In (face_letter p) (chars "URFDLB").
Proof.
  intros Hp. unfold face_letter. apply nth_In.
  change (length (chars "URFDLB")) with 6%nat.
  assert (0 <= p / 9 < 6)
    by (split; [apply Z.div_pos; lia | apply Z.div_lt_upper_bound; lia]).
  lia.
Qed.

Lemma str_getitem_join (cs : list ascii) (i : Z) (d : ascii) :
  0 <= i < Z.of_nat (length cs) ->
  str_getitem (join cs) i = Ok (nth (Z.to_nat i) cs d).
Proof.
  intros Hi. unfold str_getitem. rewrite chars_join. now apply getitem_nth.
Qed.

Lemma engine_well_formed (c : t) (s : string) :
  to_facelet c = Ok s -> well_formed FromEngine s.
Proof.
  unfold to_facelet. intros H. bind_inv H.
  pose proof (to_perm_ok _ _ E) as [Hl [Hr Hc]].
  rewrite (facelet_loop a Hl Hr) in H. cbn [Py.bind] in H. injection H as <-.
  repeat split.
  - now rewrite length_join, length_map.
  - rewrite chars_join, Forall_map. revert Hr. apply Forall_impl.
    intros p Hp. now apply face_letter_in.
  - intros _. unfold centres_fixed.
    repeat constructor;
      (rewrite (str_getitem_join _ _ (face_letter 0))
         by (rewrite length_map, Hl; cbv; split; congruence);
       rewrite map_nth, Hc by (cbv; tauto); reflexivity).
Qed.

(** *** QiYi's tile block *)

Lemma for_each_seq_ok_inv {S : Type} (P : nat -> S -> Prop)
  (body : Z -> S -> res S) (m a : nat) (s s' : S) :
  P a s ->
  (forall k s0 s1, P k s0 -> body (Z.of_nat k) s0 = Ok s1 -> P (Datatypes.S k) s1) ->
  Py.for_each (map Z.of_nat (seq a m)) body s = Ok s' -> P (a + m)%nat s'.
Proof.
  intros H0 Hstep. revert a s H0. induction m as [|m IH]; intros a s H0 H.
  - injection H as <-. now rewrite Nat.add_0_r.
  - cbn [seq map Py.for_each] in H. bind_inv H.
    rewrite <- Nat.add_succ_comm. eapply IH; [|exact H]. eauto.
Qed.

Lemma qiyi_well_formed (face_msg : list Z) (s : string) :
  QiYi._parse_facelet face_msg = Ok s -> well_formed FromQiYi s.
Proof.
  unfold QiYi._parse_facelet. intros H. bind_inv H. injection H as <-.
  unfold range in E.
  apply (for_each_seq_ok_inv
    (fun k ret => length ret = k /\
       Forall (fun ch => In ch (chars "URFDLB")) ret)) in E.
  - destruct E as [Hl Hf]. repeat split.
    + now rewrite length_join.
    + now rewrite chars_join.
    + discriminate.
  - split; [reflexivity|constructor].
  - intros k r0 r1 [Hl Hf] Hb. bind_inv Hb. bind_inv Hb. injection Hb as <-.
    split.
    + rewrite length_app, Hl. simpl. lia.
    + apply Forall_app. split; [exact Hf|]. constructor; [|constructor].
      apply getitem_In in E1. cbv in E1. cbv.
      intuition.
Qed.

(** *** Giiker's tile list *)

Lemma dict_get_In {K V : Type} (eqb : K -> K -> bool) (d : list (K * V))
  (key : K) (v : V) :
  State.dict_get eqb d key = Ok v -> In v (map snd d).
Proof.
  induction d as [|[k v0] d IH]; simpl; [discriminate|].
  destruct (eqb k key); [intros [= <-]; now left | intros H; right; auto].
Qed.

Lemma tiles_ok_set (faces : list (option ascii)) (k : nat) (ch : ascii) :
  tiles_ok faces -> In ch (chars "URFDLB") -> tiles_ok (list_set faces k (Some ch)).
Proof.
  intros [Hl Hf] Hch. split.
  - now rewrite length_list_set.
  - now apply Forall_list_set.
Qed.

Lemma paint_ok (mapped cube_indices : list Z) (faces faces' : list (option ascii)) :
  tiles_ok faces -> Giiker.paint mapped cube_indices faces = Ok faces' ->
  tiles_ok faces'.
Proof.
  intros H0. unfold Giiker.paint. apply for_each_ok_inv; [exact H0|].
  intros [fi ci] f0 f1 Hf0. cbn [fst snd].
  destruct (Giiker.len mapped <=? fi); [now intros [= <-]|].
  intros Hb. bind_inv Hb. bind_inv Hb. bind_inv Hb.
  apply setitem_some in Hb. destruct Hb as [k ->].
  apply tiles_ok_set; [exact Hf0|].
  apply dict_get_In in E1. cbv in E1. cbv. intuition.
Qed.

Lemma set_centre (faces faces' : list (option ascii)) (p : Z) (ch : ascii) :
  0 <= p -> In ch (chars "URFDLB") -> tiles_ok faces ->
  setitem faces p (Some ch) = Ok faces' ->
  tiles_ok faces'
  /\ nth (Z.to_nat p) faces' None = Some ch
  /\ forall q, q <> Z.to_nat p -> nth q faces' None = nth q faces None.
Proof.
  intros Hp Hch Hf H. apply setitem_nonneg in H; [|exact Hp].
  destruct H as [-> Hlt]. repeat split.
  - now rewrite length_list_set; destruct Hf.
  - apply Forall_list_set; [now destruct Hf | exact Hch].
  - now apply nth_list_set_same.
  - intros q Hq. apply nth_list_set_other. congruence.
Qed.

Lemma tile_char_in (o : option ascii) :
  match o with None => True | Some ch => In ch (chars "URFDLB") end ->
  In (tile_char o) (chars "URFDLB?").
Proof.
  destruct o as [ch|]; cbn [tile_char].
  - cbv. intuition.
  - intros _. cbv. tauto.
Qed.

Lemma giiker_well_formed (st : Giiker.cube_state) (s : string)
  (fs : list (string * bool)) (b : bool) :
  Giiker._build_state st = Ok (s, fs, b) -> well_formed FromGiiker s.
Proof.
  unfold Giiker._build_state. intros H.
  bind_inv H.
  assert (H1 : tiles_ok a).
  { revert E. apply for_each_ok_inv.
    - split; [reflexivity|]. apply Forall_forall. intros o Ho.
      apply repeat_spec in Ho. now subst.
    - intros [index position] f0 f1 Hf0. cbn [fst snd].
      destruct ((position <=? 0) || (Giiker.len Giiker.CORNER_COLORS <? position));
        [now intros [= <-]|].
      destruct (Giiker.len (Giiker.corner_orientations st) <=? index);
        [now intros [= <-]|].
      intros Hb. do 4 bind_inv Hb. revert Hb. now apply paint_ok. }
  bind_inv H.
  assert (H2 : tiles_ok a0).
  { revert E0. apply for_each_ok_inv; [exact H1|].
    intros [index position] f0 f1 Hf0. cbn [fst snd].
    destruct ((position <=? 0) || (Giiker.len Giiker.EDGE_COLORS <? position));
      [now intros [= <-]|].
    destruct (Giiker.len (Giiker.edge_orientations st) <=? index);
      [now intros [= <-]|].
    intros Hb. do 4 bind_inv Hb. revert Hb. now apply paint_ok. }
  do 6 bind_inv H. bind_inv H. injection H as <- _ _.
  apply set_centre in E1; [|lia|cbv; tauto|exact H2]. destruct E1 as [T1 [C1 K1]].
  apply set_centre in E2; [|lia|cbv; tauto|exact T1]. destruct E2 as [T2 [C2 K2]].
  apply set_centre in E3; [|lia|cbv; tauto|exact T2]. destruct E3 as [T3 [C3 K3]].
  apply set_centre in E4; [|lia|cbv; tauto|exact T3]. destruct E4 as [T4 [C4 K4]].
  apply set_centre in E5; [|lia|cbv; tauto|exact T4]. destruct E5 as [T5 [C5 K5]].
  apply set_centre in E6; [|lia|cbv; tauto|exact T5]. destruct E6 as [T6 [C6 K6]].
  destruct T6 as [Hl Hf].
  fold tile_char. repeat split.
  - now rewrite length_join, length_map.
  - rewrite chars_join, Forall_map. revert Hf. apply Forall_impl.
    intros o. apply tile_char_in.
  - intros _. unfold centres_fixed.
    repeat constructor;
      (rewrite (str_getitem_join _ _ (tile_char None))
         by (rewrite length_map, Hl; cbv; split; congruence);
       rewrite map_nth).
    + rewrite K6, K5, K4, K3, K2 by (cbv; lia). now rewrite C1.
    + rewrite K6, K5, K4, K3 by (cbv; lia). now rewrite C2.
    + rewrite K6, K5, K4 by (cbv; lia). now rewrite C3.
    + rewrite K6, K5 by (cbv; lia). now rewrite C4.
    + rewrite K6 by (cbv; lia). now rewrite C5.
    + now rewrite C6.
Qed.

End StateStringFacts.

(** * Further facts about the Python layer *)

Module PyExtra.

Lemma length_chars (s : string) : length (chars s) = String.length s.
Proof. induction s as [|a s IH]; simpl; [reflexivity|]. now rewrite IH. Qed.

Lemma getitem_raise {A : Type} (l : list A) (i : Z) (e : exn) :
  getitem l i = Raise e -> e = IndexError.
Proof.
  unfold getitem. destruct (norm_index (length l) i) as [k|].
  - destruct (nth_error l k); [discriminate|]. now intros [= <-].
  - now intros [= <-].
Qed.

Lemma getitem_ok_bound {A : Type} (l : list A) (i : Z) (x : A) :
  0 <= i -> getitem l i = Ok x -> i < Z.of_nat (length l).
Proof.
  intros Hi. unfold getitem, norm_index.
  destruct ((0 <=? i) && (i <? Z.of_nat (length l))) eqn:E.
  - intros _. apply andb_true_iff in E. lia.
  - destruct ((- Z.of_nat (length l) <=? i) && (i <? 0)) eqn:E2.
    + apply andb_true_iff in E2. lia.
    + discriminate.
Qed.

Lemma getitem_out {A : Type} (l : list A) (i : Z) :
  Z.of_nat (length l) <= i -> getitem l i = Raise IndexError.
Proof.
  intros H. unfold getitem, norm_index.
  replace ((0 <=? i) && (i <? Z.of_nat (length l))) with false
    by (symmetry; apply andb_false_iff; right; apply Z.ltb_ge; lia).
  replace ((- Z.of_nat (length l) <=? i) && (i <? 0)) with false
    by (symmetry; apply andb_false_iff; right; apply Z.ltb_ge; lia).
  reflexivity.
Qed.

Lemma getitem_member {A : Type} (l : list A) (i : Z) (d : A) :
  0 <= i < Z.of_nat (length l) ->
  getitem l i = Ok (nth (Z.to_nat i) l d) /\ In (nth (Z.to_nat i) l d) l.
Proof.
  intros H. split; [now apply getitem_nth | apply nth_In; lia].
Qed.

Lemma for_until_next {A S R : Type} (xs : list A)
  (body : A -> S -> res (step S R)) (s s' : S) :
  for_until xs body s = Ok (Next s') ->
  forall x, In x xs -> exists s0 s1, body x s0 = Ok (Next s1).
Proof.
  revert s. induction xs as [|h t IH]; intros s E x Hx; [destruct Hx|].
  simpl in E. destruct (body h s) as [[s1|r]|e] eqn:B; simpl in E; try discriminate.
  destruct Hx as [<-|Hx]; [now exists s, s1 | exact (IH s1 E x Hx)].
Qed.

Lemma for_until_raise {A S R : Type} (xs : list A)
  (body : A -> S -> res (step S R)) (s : S) (e : exn) :
  for_until xs body s = Raise e -> exists x s0, body x s0 = Raise e.
Proof.
  revert s. induction xs as [|h t IH]; intros s E; [discriminate|].
  simpl in E. destruct (body h s) as [[s1|r]|e'] eqn:B; simpl in E.
  - exact (IH s1 E).
  - discriminate.
  - injection E as <-. now exists h, s.
Qed.

Lemma for_until_total {A S : Type} (P : S -> Prop) (xs : list A)
  (body : A -> S -> res (step S S)) (s : S) :
  P s ->
  (forall x s0, In x xs -> P s0 ->
     exists r, body x s0 = Ok r
               /\ match r with Next s1 => P s1 | Stop s1 => P s1 end) ->
  exists r, for_until xs body s = Ok r
            /\ match r with Next s1 => P s1 | Stop s1 => P s1 end.
Proof.
  revert s. induction xs as [|h t IH]; intros s Hs Hb.
  - exists (Next s). now split.
  - cbn [for_until]. destruct (Hb h s (or_introl eq_refl) Hs) as [r [E Hr]].
    rewrite E. cbn [bind]. destruct r as [s1|s1].
    + apply IH; [exact Hr|]. intros x s0 Hx. apply Hb. now right.
    + exists (Stop s1). now split.
Qed.

(** A loop whose body returns on every element it meets. *)
Lemma for_each_total {A S : Type} (P : S -> Prop) (xs : list A)
  (body : A -> S -> res S) (s : S) :
  P s ->
  (forall x s0, In x xs -> P s0 -> exists s1, body x s0 = Ok s1 /\ P s1) ->
  exists s', for_each xs body s = Ok s' /\ P s'.
Proof.
  revert s. induction xs as [|h t IH]; intros s Hs Hb.
  - exists s. now split.
  - cbn [for_each]. destruct (Hb h s (or_introl eq_refl) Hs) as [s1 [E H1]].
    rewrite E. cbn [bind]. apply IH; [exact H1|].
    intros x s0 Hx. apply Hb. now right.
Qed.

(** The same for a loop over [enumerate(l)], the invariant following the
    index. *)
Lemma for_each_enum {A S : Type} (P : nat -> S -> Prop) (l : list A)
  (body : Z * A -> S -> res S) (a : nat) (s : S) :
  P a s ->
  (forall k x s0, (a <= k)%nat -> In x l -> P k s0 ->
     exists s1, body (Z.of_nat k, x) s0 = Ok s1 /\ P (Datatypes.S k) s1) ->
  exists s', for_each (combine (map Z.of_nat (seq a (length l))) l) body s = Ok s'
             /\ P (a + length l)%nat s'.
Proof.
  revert a s. induction l as [|x l IH]; intros a s H0 Hb.
  - exists s. rewrite Nat.add_0_r. now split.
  - cbn [length seq map combine for_each].
    destruct (Hb a x s (le_n a) (or_introl eq_refl) H0) as [s1 [E H1]].
    rewrite E. cbn [bind].
    destruct (IH (Datatypes.S a) s1 H1) as [s' [E' H']].
    + intros k y s0 Hk Hy. apply Hb; [lia | now right].
    + exists s'. split; [exact E'|]. now rewrite <- Nat.add_succ_comm.
Qed.

Lemma for_each_ext_in {A S : Type} (xs : list A) (f g : A -> S -> res S)
  (s : S) :
  (forall x s0, In x xs -> f x s0 = g x s0) ->
  for_each xs f s = for_each xs g s.
Proof.
  revert s. induction xs as [|x xs IH]; intros s H; [reflexivity|].
  cbn [for_each]. rewrite (H x s (or_introl eq_refl)).
  destruct (g x s) as [s1|e]; cbn [bind]; [|reflexivity].
  apply IH. intros y s0 Hy. apply H. now right.
Qed.

Lemma forallb_ext_in {A : Type} (xs : list A) (f g : A -> bool) :
  (forall x, In x xs -> f x = g x) -> forallb f xs = forallb g xs.
Proof.
  induction xs as [|x xs IH]; intros H; [reflexivity|].
  cbn [forallb]. rewrite (H x (or_introl eq_refl)). f_equal.
  apply IH. intros y Hy. apply H. now right.
Qed.

Lemma skipn_nth {A : Type} (d : A) (l : list A) (a : nat) :
  (a < length l)%nat -> skipn a l = nth a l d :: skipn (Datatypes.S a) l.
Proof.
  revert a. induction l as [|h t IH]; intros a H; simpl in H; [lia|].
  destruct a as [|a]; [reflexivity|]. simpl. apply IH. lia.
Qed.

Lemma firstn_length_app {A : Type} (l r : list A) :
  firstn (length l) (l ++ r) = l.
Proof.
  rewrite firstn_app, Nat.sub_diag, firstn_all. cbn [firstn]. apply app_nil_r.
Qed.

Lemma nth_map0 (f : Z -> Z) (l : list Z) (k : nat) :
  (k < length l)%nat -> nth k (map f l) 0 = f (nth k l 0).
Proof.
  intros H. rewrite (nth_indep (map f l) 0 (f 0)) by now rewrite length_map.
  apply map_nth.
Qed.

Lemma nth_range (l : list Z) (k : nat) (n : Z) :
  Forall (fun x => 0 <= x < n) l -> (k < length l)%nat -> 0 <= nth k l 0 < n.
Proof.
  intros H Hk. rewrite Forall_forall in H. apply H. now apply nth_In.
Qed.

Lemma Forall_take {A : Type} (P : A -> Prop) (n : nat) (l : list A) :
  Forall P l -> Forall P (firstn n l).
Proof.
  intros H. revert n. induction H as [|x l Hx _ IH]; intros [|n]; cbn [firstn];
    constructor; auto.
Qed.

Lemma Forall_drop {A : Type} (P : A -> Prop) (n : nat) (l : list A) :
  Forall P l -> Forall P (skipn n l).
Proof.
  intros H. revert n. induction H as [|x l Hx Hl IH]; intros [|n]; cbn [skipn];
    try constructor; auto.
Qed.

(** A loop that appends one value per round, or raises. *)
Lemma collect_loop {A : Type} (g : Z -> res A) (h : Z -> A) (xs : list Z)
  (acc : list A) :
  (forall x, In x xs -> g x = Ok (h x) \/ g x = Raise IndexError) ->
  for_each xs (fun i ret => ch <- g i ;; Ok (ret ++ [ch])) acc
  = if forallb (fun x => is_ok (g x)) xs then Ok (acc ++ map h xs)
    else Raise IndexError.
Proof.
  revert acc. induction xs as [|x xs IH]; intros acc H.
  - cbn. now rewrite app_nil_r.
  - cbn [for_each forallb map].
    destruct (H x (or_introl eq_refl)) as [E|E]; rewrite E; cbn [bind is_ok andb].
    + rewrite IH by (intros y Hy; apply H; now right).
      now rewrite <- app_assoc.
    + reflexivity.
Qed.

Lemma map_nth_firstn {A : Type} (d : A) (l : list A) (n : nat) :
  (n <= length l)%nat ->
  map (fun j => nth (Z.to_nat j) l d) (range (Z.of_nat n)) = firstn n l.
Proof.
  intros H. apply (nth_ext _ _ d d).
  - rewrite length_map, range_length, Nat2Z.id, length_firstn. lia.
  - intros k Hk. rewrite length_map, range_length, Nat2Z.id in Hk.
    rewrite (nth_indep _ d (nth (Z.to_nat 0) l d))
      by (rewrite length_map, range_length, Nat2Z.id; lia).
    rewrite (map_nth (fun j => nth (Z.to_nat j) l d)).
    rewrite range_nth by lia. rewrite Nat2Z.id, nth_firstn.
    now replace (k <? n)%nat with true by (symmetry; apply Nat.ltb_lt; lia).
Qed.

End PyExtra.

Import PyExtra.

(** * The cubie cube as a group action, and the facelet decoder *)

Module CubeAlgebraFacts.
Import CubieCube CubieSpec CubieFacts CubeAlgebra.

Lemma all3_sound (p : Z -> Z -> Z -> bool) :
  all3 p = true ->
  forall x y z, 0 <= x < 24 -> 0 <= y < 24 -> 0 <= z < 24 -> p x y z = true.
Proof.
  unfold all3. intros H x y z Hx Hy Hz.
  rewrite forallb_forall in H. specialize (H x (in_range _ _ Hx)).
  rewrite forallb_forall in H. specialize (H y (in_range _ _ Hy)).
  rewrite forallb_forall in H. exact (H z (in_range _ _ Hz)).
Qed.

Lemma cpack_assoc (x y z : Z) :
  0 <= x < 24 -> 0 <= y < 24 -> 0 <= z < 24 ->
  cpack (cpack x y) z = cpack x (cpack y z).
Proof.
  intros Hx Hy Hz. apply Z.eqb_eq.
  apply (all3_sound (fun x y z => cpack (cpack x y) z =? cpack x (cpack y z)));
    [vm_compute; reflexivity | assumption ..].
Qed.

Lemma epack_assoc (x y z : Z) :
  0 <= x < 24 -> 0 <= y < 24 -> 0 <= z < 24 ->
  epack (epack x y) z = epack x (epack y z).
Proof.
  intros Hx Hy Hz. apply Z.eqb_eq.
  apply (all3_sound (fun x y z => epack (epack x y) z =? epack x (epack y z)));
    [vm_compute; reflexivity | assumption ..].
Qed.

Lemma corn_prod_cpack (xa : list Z) (v : Z) :
  corn_prod xa v = cpack (nth (Z.to_nat (Z.land v 7)) xa 0) v.
Proof. reflexivity. Qed.

Lemma edge_prod_epack (ya : list Z) (v : Z) :
  edge_prod ya v = epack (nth (Z.to_nat (Z.shiftr v 1)) ya 0) v.
Proof. reflexivity. Qed.

Lemma cube_mult_spec (a b prod : t) :
  valid a -> valid b ->
  length (ca prod) = 8%nat -> length (ea prod) = 12%nat ->
  cube_mult a b prod = Ok (mult a b).
Proof.
  intros [Ha1 Ha2 _ _ _ _] [Hb1 Hb2 Hb3 Hb4 _ _] Hp1 Hp2.
  unfold cube_mult. rewrite (corn_mult_spec a b prod) by assumption.
  cbn [bind]. rewrite edge_mult_spec by assumption. reflexivity.
Qed.

Lemma mult_valid (a b : t) : valid a -> valid b -> valid (mult a b).
Proof.
  intros Ha Hb.
  destruct (cube_mult_valid a b new Ha Hb eq_refl eq_refl) as [c [E Hc]].
  rewrite (cube_mult_spec a b new Ha Hb eq_refl eq_refl) in E.
  now injection E as <-.
Qed.

Lemma mult_assoc (a b c : t) :
  valid a -> valid b -> valid c -> mult (mult a b) c = mult a (mult b c).
Proof.
  intros [Ha1 Ha2 Ha3 Ha4 _ _] [Hb1 Hb2 Hb3 Hb4 _ _] [Hc1 Hc2 Hc3 Hc4 _ _].
  unfold mult. cbn [ca ea]. rewrite !map_map. f_equal.
  - apply map_ext_in. intros z Hz. rewrite Forall_forall in Hc3.
    pose proof (Hc3 z Hz) as Rz. pose proof (land7_range z Rz) as R7.
    rewrite (corn_prod_cpack _ z), nth_map0 by lia.
    set (y := nth (Z.to_nat (Z.land z 7)) (ca b) 0).
    assert (Ry : 0 <= y < 24) by (apply nth_range; [assumption | lia]).
    pose proof (land7_range y Ry) as Ry7.
    rewrite (corn_prod_cpack (ca a) y).
    set (w := nth (Z.to_nat (Z.land y 7)) (ca a) 0).
    assert (Rw : 0 <= w < 24) by (apply nth_range; [assumption | lia]).
    rewrite (corn_prod_cpack (ca b) z). fold y.
    rewrite (corn_prod_cpack (ca a) (cpack y z)).
    destruct (corn_pack y z Ry Rz) as [_ E]. fold (cpack y z) in E. rewrite E.
    fold w. now apply cpack_assoc.
  - apply map_ext_in. intros z Hz. rewrite Forall_forall in Hc4.
    pose proof (Hc4 z Hz) as Rz. pose proof (shiftr1_range z Rz) as R1.
    rewrite (edge_prod_epack _ z), nth_map0 by lia.
    set (y := nth (Z.to_nat (Z.shiftr z 1)) (ea b) 0).
    assert (Ry : 0 <= y < 24) by (apply nth_range; [assumption | lia]).
    pose proof (shiftr1_range y Ry) as Ry1.
    rewrite (edge_prod_epack (ea a) y).
    set (w := nth (Z.to_nat (Z.shiftr y 1)) (ea a) 0).
    assert (Rw : 0 <= w < 24) by (apply nth_range; [assumption | lia]).
    rewrite (edge_prod_epack (ea b) z). fold y.
    rewrite (edge_prod_epack (ea a) (epack y z)).
    destruct (edge_pack y z Ry Rz) as [_ E]. fold (epack y z) in E. rewrite E.
    fold w. now apply epack_assoc.
Qed.

Lemma cpack_unit_r (x j : Z) : 0 <= x < 24 -> 0 <= j < 8 -> cpack x j = x.
Proof. intros Hx Hj. zenum x Hx; zenum j Hj; reflexivity. Qed.

Lemma cpack_unit_l (z : Z) : 0 <= z < 24 -> cpack (Z.land z 7) z = z.
Proof. intros Hz. zenum z Hz; reflexivity. Qed.

Lemma epack_unit_r (x j : Z) : 0 <= x < 24 -> 0 <= j < 12 -> epack x (2 * j) = x.
Proof. intros Hx Hj. zenum x Hx; zenum j Hj; reflexivity. Qed.

Lemma epack_unit_l (z : Z) :
  0 <= z < 24 -> epack (2 * Z.shiftr z 1) z = z.
Proof. intros Hz. zenum z Hz; reflexivity. Qed.

Lemma mult_new_r (a : t) : valid a -> mult a new = a.
Proof.
  intros [Ha1 Ha2 Ha3 Ha4 _ _]. destruct a as [xa ya]. cbn [ca ea] in *.
  unfold mult. cbn [ca ea]. f_equal.
  - change (ca new) with (range 8).
    etransitivity; [| apply (map_nth_range xa)]. rewrite Ha1.
    apply map_ext_in. intros j Hj. apply range_in in Hj.
    rewrite corn_prod_cpack.
    replace (Z.land j 7) with j by (zenum j Hj; reflexivity).
    apply cpack_unit_r; [apply nth_range; [assumption | lia] | assumption].
  - change (ea new) with (map (Z.mul 2) (range 12)). rewrite map_map.
    etransitivity; [| apply (map_nth_range ya)]. rewrite Ha2.
    apply map_ext_in. intros j Hj. apply range_in in Hj.
    rewrite edge_prod_epack.
    replace (Z.shiftr (2 * j) 1) with j by (zenum j Hj; reflexivity).
    apply epack_unit_r; [apply nth_range; [assumption | lia] | assumption].
Qed.

Lemma mult_new_l (a : t) : valid a -> mult new a = a.
Proof.
  intros [Ha1 Ha2 Ha3 Ha4 _ _]. destruct a as [xa ya]. cbn [ca ea] in *.
  unfold mult. cbn [ca ea]. f_equal.
  - etransitivity; [| apply (map_id xa)]. apply map_ext_in. intros z Hz.
    rewrite Forall_forall in Ha3. pose proof (Ha3 z Hz) as Rz.
    rewrite corn_prod_cpack.
    replace (nth (Z.to_nat (Z.land z 7)) (ca new) 0) with (Z.land z 7)
      by (zenum z Rz; reflexivity).
    now apply cpack_unit_l.
  - etransitivity; [| apply (map_id ya)]. apply map_ext_in. intros z Hz.
    rewrite Forall_forall in Ha4. pose proof (Ha4 z Hz) as Rz.
    rewrite edge_prod_epack.
    replace (nth (Z.to_nat (Z.shiftr z 1)) (ea new) 0) with (2 * Z.shiftr z 1)
      by (zenum z Rz; reflexivity).
    now apply epack_unit_l.
Qed.

Lemma move_valid (m : Z) : 0 <= m < 18 -> valid (move m).
Proof.
  intros Hm. apply validb_sound. zenum m Hm; vm_compute; reflexivity.
Qed.

Lemma getitem_move (m : Z) : 0 <= m < 18 -> getitem move_cube m = Ok (move m).
Proof. intros Hm. zenum m Hm; reflexivity. Qed.

Lemma apply_move_index_mult (c : t) (m : Z) :
  valid c -> 0 <= m < 18 -> apply_move_index c m = Ok (mult c (move m)).
Proof.
  intros Hc Hm. unfold apply_move_index. rewrite getitem_move by assumption.
  cbn [bind].
  apply cube_mult_spec; try assumption; try reflexivity. now apply move_valid.
Qed.

Lemma apply_two (c : t) (m n : Z) :
  valid c -> 0 <= m < 18 -> 0 <= n < 18 ->
  apply_moves c [m; n] = Ok (mult c (mult (move m) (move n))).
Proof.
  intros Hc Hm Hn. cbn [apply_moves].
  rewrite apply_move_index_mult by assumption. cbn [bind].
  rewrite apply_move_index_mult
    by (first [assumption | apply mult_valid; [assumption | now apply move_valid]]).
  cbn [bind]. f_equal. apply mult_assoc; try assumption; now apply move_valid.
Qed.

(** *** Orientation sums *)

Lemma cpack_ori (x v : Z) :
  0 <= x < 24 -> 0 <= v < 24 ->
  Z.shiftr (cpack x v) 3 = (Z.shiftr x 3 + Z.shiftr v 3) mod 3.
Proof. intros Hx Hv. zenum x Hx; zenum v Hv; reflexivity. Qed.

Lemma epack_ori (x v : Z) :
  0 <= x < 24 -> 0 <= v < 24 ->
  Z.land (epack x v) 1 = (Z.land x 1 + Z.land v 1) mod 2.
Proof. intros Hx Hv. zenum x Hx; zenum v Hv; reflexivity. Qed.

Lemma zsum_mod (n : Z) (f g : Z -> Z) (l : list Z) :
  n <> 0 ->
  zsum (map (fun v => (f v + g v) mod n) l) mod n
  = (zsum (map f l) + zsum (map g l)) mod n.
Proof.
  intros Hn. induction l as [|h t IH]; [reflexivity|].
  cbn [map zsum fold_right]. fold (zsum (map (fun v => (f v + g v) mod n) t)).
  fold (zsum (map f t)). fold (zsum (map g t)).
  set (r := zsum (map (fun v => (f v + g v) mod n) t)) in *.
  rewrite Z.add_mod_idemp_l, <- (Z.add_mod_idemp_r _ r), IH, Z.add_mod_idemp_r
    by assumption.
  f_equal. lia.
Qed.

Lemma corner_twist_mult (a b : t) :
  valid a -> valid b ->
  corner_twist (mult a b) mod 3 = (corner_twist a + corner_twist b) mod 3.
Proof.
  intros [Ha1 Ha2 Ha3 Ha4 _ _] [Hb1 Hb2 Hb3 Hb4 Hb5 _].
  unfold corner_twist, mult. cbn [ca ea]. rewrite map_map.
  rewrite (map_ext_in _
    (fun v => (Z.shiftr (nth (Z.to_nat (Z.land v 7)) (ca a) 0) 3 + Z.shiftr v 3) mod 3)).
  - rewrite zsum_mod by lia. f_equal. f_equal.
    rewrite <- (map_map (fun v => Z.land v 7)
                        (fun j => Z.shiftr (nth (Z.to_nat j) (ca a) 0) 3)).
    rewrite (zsum_perm _ _ (Permutation_map _ Hb5)).
    rewrite <- (map_map (fun j => nth (Z.to_nat j) (ca a) 0) (fun x => Z.shiftr x 3)).
    change 8 with (Z.of_nat 8). rewrite <- Ha1, map_nth_range. reflexivity.
  - intros v Hv. rewrite Forall_forall in Hb3. pose proof (Hb3 v Hv) as Rv.
    pose proof (land7_range v Rv). rewrite corn_prod_cpack.
    apply cpack_ori; [apply nth_range; [assumption | lia] | assumption].
Qed.

Lemma edge_flip_mult (a b : t) :
  valid a -> valid b ->
  edge_flip (mult a b) mod 2 = (edge_flip a + edge_flip b) mod 2.
Proof.
  intros [Ha1 Ha2 Ha3 Ha4 _ _] [Hb1 Hb2 Hb3 Hb4 _ Hb6].
  unfold edge_flip, mult. cbn [ca ea]. rewrite map_map.
  rewrite (map_ext_in _
    (fun v => (Z.land (nth (Z.to_nat (Z.shiftr v 1)) (ea a) 0) 1 + Z.land v 1) mod 2)).
  - rewrite zsum_mod by lia. f_equal. f_equal.
    rewrite <- (map_map (fun v => Z.shiftr v 1)
                        (fun j => Z.land (nth (Z.to_nat j) (ea a) 0) 1)).
    rewrite (zsum_perm _ _ (Permutation_map _ Hb6)).
    rewrite <- (map_map (fun j => nth (Z.to_nat j) (ea a) 0) (fun x => Z.land x 1)).
    change 12 with (Z.of_nat 12). rewrite <- Ha2, map_nth_range. reflexivity.
  - intros v Hv. rewrite Forall_forall in Hb4. pose proof (Hb4 v Hv) as Rv.
    pose proof (shiftr1_range v Rv). rewrite edge_prod_epack.
    apply epack_ori; [apply nth_range; [assumption | lia] | assumption].
Qed.

Lemma move_twist (m : Z) :
  0 <= m < 18 -> corner_twist (move m) mod 3 = 0 /\ edge_flip (move m) mod 2 = 0.
Proof. intros Hm. zenum m Hm; split; reflexivity. Qed.

Lemma reachable_twist (c : t) :
  reachable c ->
  valid c /\ corner_twist c mod 3 = 0 /\ edge_flip c mod 2 = 0.
Proof.
  induction 1 as [|c c' m Hr [Hv [Hc He]] Hm E].
  - split; [exact new_valid | split; reflexivity].
  - rewrite apply_move_index_mult in E by assumption. injection E as <-.
    pose proof (move_valid m Hm) as Hmv.
    destruct (move_twist m Hm) as [Mc Me].
    split; [now apply mult_valid|]. split.
    + rewrite corner_twist_mult by assumption.
      rewrite Z.add_mod, Hc, Mc by lia. reflexivity.
    + rewrite edge_flip_mult by assumption.
      rewrite Z.add_mod, He, Me by lia. reflexivity.
Qed.

(** X1. Every state reached from the solved cube by moves holds each corner
    and each edge exactly once, with entries below 24, and its orientation
    parts add up to a multiple of 3 (corners) and of 2 (edges). *)
Theorem reachable_orientation_sums (c : t) :
  reachable c ->
  valid c /\ corner_twist c mod 3 = 0 /\ edge_flip c mod 2 = 0.
Proof. apply reachable_twist. Qed.

Lemma reachable_orientation_sums_witness :
  valid (move 0) /\ corner_twist (move 0) mod 3 = 0 /\ edge_flip (move 0) mod 2 = 0.
Proof.
  apply (reachable_orientation_sums (move 0)).
  apply (reach_move new (move 0) 0); [apply reach_new | lia | reflexivity].
Defined.

(** X2. On every valid cube (so on every reachable state) a quarter turn
    followed by the opposite quarter turn of the same face, in either
    order, restores the cube; so does a half turn applied twice; and two
    equal quarter turns amount to the half turn. *)
Theorem opposite_turns_cancel (c : t) (axis : Z) :
  valid c -> 0 <= axis < 6 ->
  apply_moves c [3 * axis; 3 * axis + 2] = Ok c /\
  apply_moves c [3 * axis + 2; 3 * axis] = Ok c /\
  apply_moves c [3 * axis + 1; 3 * axis + 1] = Ok c /\
  apply_moves c [3 * axis; 3 * axis] = apply_move_index c (3 * axis + 1) /\
  apply_moves c [3 * axis + 2; 3 * axis + 2] = apply_move_index c (3 * axis + 1).
Proof.
  intros Hc Ha.
  rewrite !apply_two, !apply_move_index_mult by (try assumption; lia).
  zenum axis Ha;
    repeat split; f_equal;
    try (apply (mult_new_r c Hc)); reflexivity.
Qed.

Lemma opposite_turns_cancel_witness :
  apply_moves (move 4) [3 * 2; 3 * 2 + 2] = Ok (move 4) /\
  apply_moves (move 4) [3 * 2 + 2; 3 * 2] = Ok (move 4) /\
  apply_moves (move 4) [3 * 2 + 1; 3 * 2 + 1] = Ok (move 4) /\
  apply_moves (move 4) [3 * 2; 3 * 2] = apply_move_index (move 4) (3 * 2 + 1) /\
  apply_moves (move 4) [3 * 2 + 2; 3 * 2 + 2] = apply_move_index (move 4) (3 * 2 + 1).
Proof.
  apply (opposite_turns_cancel (move 4) 2); [|lia].
  apply validb_sound. vm_compute. reflexivity.
Defined.

(** X3. [from_facelet] inverts [to_facelet] on reachable states: the string
    of a reachable cube decodes to that very cube, on whatever well-shaped
    cube object the decoder is called, and no other reachable cube has the
    same string. *)
Theorem from_facelet_recovers_cube (c self : t) :
  reachable c ->
  length (ca self) = 8%nat -> length (ea self) = 12%nat ->
  exists s,
    to_facelet c = Ok s /\ from_facelet self s = Ok (Some c) /\
    forall c2, reachable c2 -> to_facelet c2 = Ok s -> c2 = c.
Proof.
  intros Hr Hsx Hsy. pose proof (reachable_valid c Hr) as Hv.
  pose proof Hv as [Hx Hy Rx Ry _ _].
  exists (join (map face_letter (perm_of c))).
  split; [now apply to_facelet_spec|].
  split; [now apply from_facelet_to_facelet|].
  intros c2 Hr2 E2. pose proof (reachable_valid c2 Hr2) as Hv2.
  pose proof Hv2 as [Hx2 Hy2 Rx2 Ry2 _ _].
  rewrite to_facelet_spec in E2 by assumption. injection E2 as E2.
  pose proof (from_facelet_to_facelet c2 self Hv2 Hsx Hsy) as F2.
  rewrite E2, (from_facelet_to_facelet c self Hv Hsx Hsy) in F2.
  now injection F2 as <-.
Qed.

Lemma from_facelet_recovers_cube_witness :
  exists s,
    to_facelet (move 7) = Ok s /\ from_facelet new s = Ok (Some (move 7)) /\
    forall c2, reachable c2 -> to_facelet c2 = Ok s -> c2 = move 7.
Proof.
  apply (from_facelet_recovers_cube (move 7) new); [|reflexivity..].
  apply (reach_move new (move 7) 7); [apply reach_new | lia | reflexivity].
Defined.

End CubeAlgebraFacts.

(** * What [from_facelet] accepts *)

Module FromFaceletFacts.
Import CubieCube CubieSpec CubieFacts CubeAlgebra.

Lemma scan_next_length (centers s : string) (st : list Z * Z) :
  scan_facelet centers s = Ok (Next st) -> (54 <= String.length s)%nat.
Proof.
  intros E. unfold scan_facelet in E.
  destruct (for_until_next _ _ _ _ E 53 (in_range 54 53 ltac:(lia)))
    as [s0 [s1 B]].
  unfold str_getitem in B.
  destruct (getitem (chars s) 53) as [ch|e] eqn:G; [|discriminate].
  apply getitem_ok_bound in G; [|lia]. rewrite length_chars in G. lia.
Qed.

Lemma scan_raise (centers s : string) (e : exn) :
  scan_facelet centers s = Raise e -> e = IndexError.
Proof.
  intros E. unfold scan_facelet in E.
  destruct (for_until_raise _ _ _ _ E) as [x [s0 B]].
  unfold str_getitem in B.
  destruct (getitem (chars s) x) as [ch|e'] eqn:G.
  - cbn [bind] in B. destruct (str_find centers ch =? -1); discriminate.
  - cbn [bind] in B. injection B as <-. exact (getitem_raise _ _ _ G).
Qed.

(** X4. A string of fewer than 54 characters is never decoded:
    [from_facelet] raises [IndexError] or returns -1, and a string of fewer
    than 50 characters always raises. *)
Theorem from_facelet_short (self : t) (s : string) :
  (String.length s < 54)%nat ->
  (from_facelet self s = Raise IndexError \/ from_facelet self s = Ok None) /\
  ((String.length s < 50)%nat -> from_facelet self s = Raise IndexError).
Proof.
  intros Hlen. unfold from_facelet, str_getitem.
  destruct (getitem (chars s) 4) as [c0|e] eqn:G0;
    [|rewrite (getitem_raise _ _ _ G0); cbn [bind]; now split; [left|]].
  destruct (getitem (chars s) 13) as [c1|e] eqn:G1;
    [|rewrite (getitem_raise _ _ _ G1); cbn [bind]; now split; [left|]].
  destruct (getitem (chars s) 22) as [c2|e] eqn:G2;
    [|rewrite (getitem_raise _ _ _ G2); cbn [bind]; now split; [left|]].
  destruct (getitem (chars s) 31) as [c3|e] eqn:G3;
    [|rewrite (getitem_raise _ _ _ G3); cbn [bind]; now split; [left|]].
  destruct (getitem (chars s) 40) as [c4|e] eqn:G4;
    [|rewrite (getitem_raise _ _ _ G4); cbn [bind]; now split; [left|]].
  destruct (getitem (chars s) 49) as [c5|e] eqn:G5;
    [|rewrite (getitem_raise _ _ _ G5); cbn [bind]; now split; [left|]].
  cbn [bind]. apply getitem_ok_bound in G5; [|lia]. rewrite length_chars in G5.
  split; [|lia].
  destruct (scan_facelet (join [c0; c1; c2; c3; c4; c5]) s) as [[st|[]]|e] eqn:E.
  - apply scan_next_length in E. lia.
  - now right.
  - rewrite (scan_raise _ _ _ E). now left.
Qed.

Lemma from_facelet_short_witness :
  (from_facelet new "UUUUUUUUU" = Raise IndexError
   \/ from_facelet new "UUUUUUUUU" = Ok None) /\
  ((String.length "UUUUUUUUU" < 50)%nat ->
   from_facelet new "UUUUUUUUU" = Raise IndexError).
Proof. apply (from_facelet_short new "UUUUUUUUU"). simpl. lia. Defined.

(** *** The first loop *)

Lemma scan_loop (centers s : string) (n a : nat) (st : list Z * Z) :
  (a + n <= String.length s)%nat ->
  for_until (map Z.of_nat (seq a n)) (fun i st =>
    ch <- str_getitem s i ;;
    let idx := str_find centers ch in
    if idx =? -1 then Ok (Stop tt)
    else Ok (Next (fst st ++ [idx], snd st + Z.shiftl 1 (Z.shiftl idx 2)))) st
  = Ok (scan_res (map (str_find centers) (firstn n (skipn a (chars s)))) st).
Proof.
  revert a st. induction n as [|n IH]; intros a st H; [reflexivity|].
  cbn [seq map for_until]. unfold str_getitem at 1.
  rewrite (getitem_nth "?"%char) by (rewrite length_chars; lia).
  rewrite Nat2Z.id. cbn [bind].
  rewrite (skipn_nth "?"%char (chars s) a) by (rewrite length_chars; lia).
  cbn [firstn map scan_res].
  destruct (str_find centers (nth a (chars s) "?"%char) =? -1); [reflexivity|].
  apply IH. lia.
Qed.

Lemma scan_res_spec (cols : list Z) (st : list Z * Z) :
  scan_res cols st
  = if forallb (fun idx => negb (idx =? -1)) cols
    then Next (fst st ++ cols,
               fold_left (fun acc idx => acc + weight idx) cols (snd st))
    else Stop tt.
Proof.
  revert st. induction cols as [|h t IH]; intros [f n].
  - cbn. now rewrite app_nil_r.
  - cbn [scan_res forallb fold_left]. destruct (h =? -1); [reflexivity|].
    cbn [negb andb]. rewrite IH. cbn [fst snd]. now rewrite <- app_assoc.
Qed.

Lemma find_from_range (cs : list ascii) (c : ascii) (k : Z) :
  find_from cs c k = -1 \/ k <= find_from cs c k < k + Z.of_nat (length cs).
Proof.
  revert k. induction cs as [|h t IH]; intros k; [now left|].
  cbn [find_from length]. destruct (Ascii.eqb h c); [right; lia|].
  destruct (IH (k + 1)) as [E|E]; [now left | right; lia].
Qed.

Lemma colours_range (s : string) :
  Forall (fun x => -1 <= x < 6) (colours s).
Proof.
  unfold colours. apply Forall_forall. intros x Hx.
  apply in_map_iff in Hx. destruct Hx as [ch [<- _]].
  unfold str_find. pose proof (find_from_range (chars (centers_of s)) ch 0) as H.
  assert (L : length (chars (centers_of s)) = 6%nat)
    by (unfold centers_of; rewrite chars_join, length_map; reflexivity).
  rewrite L in H. lia.
Qed.

Lemma count_cons (k h : Z) (l : list Z) :
  count k (h :: l) = count k l + (if h =? k then 1 else 0).
Proof.
  unfold count. cbn [count_occ]. destruct (Z.eq_dec h k) as [E|E].
  - apply Z.eqb_eq in E. rewrite E. lia.
  - apply Z.eqb_neq in E. rewrite E. lia.
Qed.

Lemma census_counts (l : list Z) (acc : Z) :
  Forall (fun x => -1 <= x < 6) l ->
  fold_left (fun acc idx => acc + weight idx) l acc
  = acc + count 0 l + 16 * count 1 l + 256 * count 2 l + 4096 * count 3 l
    + 65536 * count 4 l + 1048576 * count 5 l
  /\ Z.of_nat (length l)
     = count (-1) l + count 0 l + count 1 l + count 2 l + count 3 l
       + count 4 l + count 5 l.
Proof.
  intros H. revert acc. induction H as [|h t Hh Ht IH]; intros acc.
  - unfold count. cbn. lia.
  - cbn [fold_left length]. destruct (IH (acc + weight h)) as [E1 E2].
    rewrite E1, Nat2Z.inj_succ, E2, !count_cons.
    assert (Hc : h = -1 \/ h = 0 \/ h = 1 \/ h = 2 \/ h = 3 \/ h = 4 \/ h = 5)
      by lia.
    destruct Hc as [->|[->|[->|[->|[->|[->| ->]]]]]];
      repeat match goal with
             | |- context [Z.eqb ?a ?b] =>
                 let v := eval vm_compute in (Z.eqb a b) in
                 change (Z.eqb a b) with v
             | |- context [weight ?x] =>
                 let v := eval vm_compute in (weight x) in
                 change (weight x) with v
             end;
      cbv iota; lia.
Qed.

Lemma count_none (l : list Z) :
  count (-1) l = 0 <-> forallb (fun idx => negb (idx =? -1)) l = true.
Proof.
  induction l as [|h t IH]; [now unfold count|].
  rewrite count_cons. cbn [forallb]. unfold count in *.
  destruct (h =? -1); cbn [negb andb].
  - split; [lia | discriminate].
  - rewrite <- IH. lia.
Qed.

(** *** The two decoding loops never fail *)

Lemma c_slot (i : Z) :
  0 <= i < 8 ->
  exists slot, getitem c_facelet i = Ok slot
    /\ forall k, 0 <= k < 3 -> exists p, getitem slot k = Ok p /\ 0 <= p < 54.
Proof.
  intros Hi. zenum i Hi; (eexists; split; [reflexivity|]);
    intros k Hk; zenum k Hk; (eexists; split; [reflexivity | lia]).
Qed.

Lemma e_slot (i : Z) :
  0 <= i < 12 ->
  exists slot, getitem e_facelet i = Ok slot
    /\ forall k, 0 <= k < 2 -> exists p, getitem slot k = Ok p /\ 0 <= p < 54.
Proof.
  intros Hi. zenum i Hi; (eexists; split; [reflexivity|]);
    intros k Hk; zenum k Hk; (eexists; split; [reflexivity | lia]).
Qed.

Lemma find_ori_total (fuel : nat) (f : list Z) (i ori : Z) :
  0 <= i < 8 -> 0 <= ori -> length f = 54%nat ->
  exists o, find_ori fuel f i ori = Ok o.
Proof.
  intros Hi Ho Hf. revert ori Ho.
  induction fuel as [|fuel IH]; intros ori Ho; [now exists ori|].
  cbn [find_ori]. destruct (ori <? 3) eqn:L; [|now exists ori].
  apply Z.ltb_lt in L. destruct (c_slot i Hi) as [slot [E K]].
  destruct (K ori ltac:(lia)) as [p [Ep Rp]].
  rewrite E. cbn [bind]. rewrite Ep. cbn [bind].
  rewrite (getitem_nth 0) by (rewrite Hf; lia). cbn [bind].
  destruct (_ || _); [now exists ori | apply IH; lia].
Qed.

Lemma decode_corner_total (f : list Z) (i : Z) (self : t) :
  0 <= i < 8 -> length f = 54%nat -> length (ca self) = 8%nat ->
  exists self', decode_corner f i self = Ok self'
                /\ length (ca self') = 8%nat /\ ea self' = ea self.
Proof.
  intros Hi Hf Hs. unfold decode_corner.
  destruct (find_ori_total 3 f i 0 Hi ltac:(lia) Hf) as [o Eo].
  rewrite Eo. cbn [bind]. destruct (c_slot i Hi) as [slot [E K]].
  rewrite E. cbn [bind].
  destruct (K ((o + 1) mod 3) (Z.mod_pos_bound _ 3 ltac:(lia))) as [p1 [E1 R1]].
  destruct (K ((o + 2) mod 3) (Z.mod_pos_bound _ 3 ltac:(lia))) as [p2 [E2 R2]].
  rewrite E1. cbn [bind]. rewrite (getitem_nth 0) by (rewrite Hf; lia).
  cbn [bind]. rewrite E2. cbn [bind].
  rewrite (getitem_nth 0) by (rewrite Hf; lia). cbn [bind].
  match goal with
  | |- context [for_until ?xs ?body self] =>
      destruct (for_until_total
        (fun c => length (ca c) = 8%nat /\ ea c = ea self) xs body self)
        as [r [Er Hr]]
  end.
  - now split.
  - intros j s0 Hj [L0 L1]. apply range_in in Hj.
    destruct (c_slot j Hj) as [rj [Ej Kj]].
    destruct (Kj 1 ltac:(lia)) as [a1 [Ea1 _]].
    destruct (Kj 2 ltac:(lia)) as [a2 [Ea2 _]].
    rewrite Ej. cbn [bind]. rewrite Ea1. cbn [bind]. rewrite Ea2. cbn [bind].
    destruct (_ && _); [|now exists (Next s0)].
    rewrite setitem_set by (rewrite L0; lia). cbn [bind].
    eexists. split; [reflexivity|]. cbn [ca ea].
    rewrite length_list_set. now split.
  - rewrite Er. cbn [bind]. destruct r as [s1|s1]; now exists s1.
Qed.

Lemma decode_edge_total (f : list Z) (i : Z) (self : t) :
  0 <= i < 12 -> length f = 54%nat -> length (ea self) = 12%nat ->
  exists self', decode_edge f i self = Ok self'
                /\ length (ea self') = 12%nat /\ ca self' = ca self.
Proof.
  intros Hi Hf Hs. unfold decode_edge.
  match goal with
  | |- context [for_until ?xs ?body self] =>
      destruct (for_until_total
        (fun c => length (ea c) = 12%nat /\ ca c = ca self) xs body self)
        as [r [Er Hr]]
  end.
  - now split.
  - intros j s0 Hj [L0 L1]. apply range_in in Hj.
    destruct (e_slot i Hi) as [si [Ei Ki]].
    destruct (Ki 0 ltac:(lia)) as [p0 [Ep0 R0]].
    destruct (Ki 1 ltac:(lia)) as [p1 [Ep1 R1]].
    destruct (e_slot j Hj) as [rj [Ej Kj]].
    destruct (Kj 0 ltac:(lia)) as [b0 [Eb0 _]].
    destruct (Kj 1 ltac:(lia)) as [b1 [Eb1 _]].
    rewrite Ei. cbn [bind]. rewrite Ep0. cbn [bind].
    rewrite (getitem_nth 0) by (rewrite Hf; lia). cbn [bind].
    rewrite Ep1. cbn [bind].
    rewrite (getitem_nth 0) by (rewrite Hf; lia). cbn [bind].
    rewrite Ej. cbn [bind]. rewrite Eb0. cbn [bind]. rewrite Eb1. cbn [bind].
    destruct (_ && _).
    { rewrite setitem_set by (rewrite L0; lia). cbn [bind].
      eexists. split; [reflexivity|]. cbn [ca ea].
      rewrite length_list_set. now split. }
    destruct (_ && _); [|now exists (Next s0)].
    rewrite setitem_set by (rewrite L0; lia). cbn [bind].
    eexists. split; [reflexivity|]. cbn [ca ea].
    rewrite length_list_set. now split.
  - rewrite Er. cbn [bind]. destruct r as [s1|s1]; now exists s1.
Qed.

Lemma decode_loops_total (f : list Z) (self : t) :
  length f = 54%nat -> length (ca self) = 8%nat -> length (ea self) = 12%nat ->
  exists c,
    (self1 <- for_each (range 8) (decode_corner f) self ;;
     self2 <- for_each (range 12) (decode_edge f) self1 ;;
     Ok (Some self2)) = Ok (Some c)
    /\ length (ca c) = 8%nat /\ length (ea c) = 12%nat.
Proof.
  intros Hf Hx Hy.
  destruct (for_each_range_inv
    (fun _ c => length (ca c) = 8%nat /\ length (ea c) = 12%nat)
    (decode_corner f) 8 self ltac:(lia) (conj Hx Hy)) as [s1 [E1 [X1 Y1]]].
  { intros i s0 Hi [X0 Y0].
    destruct (decode_corner_total f i s0 Hi Hf X0) as [s1 [E [X1 Y1]]].
    exists s1. rewrite Y1. auto. }
  destruct (for_each_range_inv
    (fun _ c => length (ca c) = 8%nat /\ length (ea c) = 12%nat)
    (decode_edge f) 12 s1 ltac:(lia) (conj X1 Y1)) as [s2 [E2 [X2 Y2]]].
  { intros i s0 Hi [X0 Y0].
    destruct (decode_edge_total f i s0 Hi Hf Y0) as [s3 [E [Y3 X3]]].
    exists s3. rewrite X3. auto. }
  exists s2. rewrite E1. cbn [bind]. rewrite E2. auto.
Qed.

(** *** The census in plain terms *)

(** [from_facelet] in terms of the census of first indices. *)
Lemma from_facelet_census (self : t) (s : string) :
  (54 <= String.length s)%nat ->
  length (ca self) = 8%nat -> length (ea self) = 12%nat ->
  if nine_of_each s
  then exists c, from_facelet self s = Ok (Some c)
                 /\ length (ca c) = 8%nat /\ length (ea c) = 12%nat
  else from_facelet self s = Ok None.
Proof.
  intros Hlen Hx Hy.
  assert (E : from_facelet self s
              = match scan_res (colours s) ([], 0) with
                | Stop _ => Ok None
                | Next (f, count) =>
                    if negb (count =? 0x999999) then Ok None
                    else
                      self1 <- for_each (range 8) (decode_corner f) self ;;
                      self2 <- for_each (range 12) (decode_edge f) self1 ;;
                      Ok (Some self2)
                end).
  { unfold from_facelet, str_getitem.
    rewrite !(getitem_nth "?"%char) by (rewrite length_chars; lia).
    cbn [bind].
    change (join _) with (centers_of s).
    unfold scan_facelet, range. change (Z.to_nat 54) with 54%nat.
    rewrite scan_loop by exact Hlen. reflexivity. }
  rewrite E, scan_res_spec. cbn [fst snd app].
  assert (Hl : length (colours s) = 54%nat).
  { unfold colours. rewrite length_map, length_firstn, length_chars. lia. }
  destruct (census_counts (colours s) 0 (colours_range s)) as [C1 C2].
  rewrite Hl in C2. pose proof (count_none (colours s)) as Hn.
  change (nine_of_each s)
    with ((count 0 (colours s) =? 9) && ((count 1 (colours s) =? 9)
          && ((count 2 (colours s) =? 9) && ((count 3 (colours s) =? 9)
          && ((count 4 (colours s) =? 9) && ((count 5 (colours s) =? 9)
          && true)))))).
  destruct (forallb (fun idx => negb (idx =? -1)) (colours s)) eqn:F.
  - destruct Hn as [_ Hn]. specialize (Hn eq_refl). rewrite C1.
    destruct (_ =? 0x999999) eqn:Q.
    + apply Z.eqb_eq in Q.
      assert (count 0 (colours s) = 9 /\ count 1 (colours s) = 9
              /\ count 2 (colours s) = 9 /\ count 3 (colours s) = 9
              /\ count 4 (colours s) = 9 /\ count 5 (colours s) = 9)
        as (K0 & K1 & K2 & K3 & K4 & K5) by (unfold count in *; lia).
      rewrite K0, K1, K2, K3, K4, K5. cbn [Z.eqb Pos.eqb andb negb].
      now apply decode_loops_total.
    + cbn [negb].
      destruct (_ && _) eqn:N; [|reflexivity].
      rewrite !andb_true_iff, !Z.eqb_eq in N. apply Z.eqb_neq in Q. lia.
  - destruct (_ && _) eqn:N; [|reflexivity].
    rewrite !andb_true_iff, !Z.eqb_eq in N.
    assert (count (-1) (colours s) = 0) by lia.
    apply Hn in H. congruence.
Qed.

(** A character found at an index is the first one there. *)
Lemma find_from_hit (cs : list ascii) (c : ascii) (k : Z) (i : nat) :
  0 <= k -> find_from cs c k = k + Z.of_nat i ->
  (i < length cs)%nat /\ nth i cs "?"%char = c
  /\ forall j, (j < i)%nat -> nth j cs "?"%char <> c.
Proof.
  revert k i. induction cs as [|h t IH]; intros k i Hk H.
  - cbn [find_from] in H. lia.
  - cbn [find_from] in H. destruct (Ascii.eqb h c) eqn:E.
    + assert (i = 0%nat) by lia. subst i. apply Ascii.eqb_eq in E.
      cbn [length nth]. split; [lia|]. split; [exact E|]. intros j Hj. lia.
    + pose proof (find_from_range t c (k + 1)) as R.
      destruct i as [|i]; [lia|].
      destruct (IH (k + 1) i ltac:(lia) ltac:(lia)) as (L & N & F).
      cbn [length nth]. split; [lia|]. split; [exact N|].
      intros [|j] Hj; cbn [nth].
      * intros ->. now rewrite Ascii.eqb_refl in E.
      * apply F. lia.
Qed.

(** Among different characters each one is found where it stands. *)
Lemma find_from_nth (cs : list ascii) (k : Z) (i : nat) :
  NoDup cs -> (i < length cs)%nat ->
  find_from cs (nth i cs "?"%char) k = k + Z.of_nat i.
Proof.
  revert k i. induction cs as [|h t IH]; intros k i Hn Hi; [cbn in Hi; lia|].
  inversion Hn as [|? ? Hh Ht]; subst. cbn [find_from].
  destruct i as [|i]; cbn [nth].
  - rewrite Ascii.eqb_refl. lia.
  - cbn [length] in Hi.
    destruct (Ascii.eqb h (nth i t "?"%char)) eqn:E.
    + apply Ascii.eqb_eq in E. exfalso. apply Hh. rewrite E.
      apply nth_In. lia.
    + rewrite IH by (assumption || lia). lia.
Qed.

Lemma distinct_NoDup (cs : list ascii) : distinct cs = true <-> NoDup cs.
Proof.
  induction cs as [|c t IH]; cbn [distinct].
  - split; [constructor | reflexivity].
  - rewrite andb_true_iff, negb_true_iff, IH. split.
    + intros [E N]. constructor; [|exact N]. intros Hin.
      assert (X : existsb (Ascii.eqb c) t = true)
        by (apply existsb_exists; exists c; split;
            [exact Hin | apply Ascii.eqb_refl]).
      congruence.
    + intros H. inversion H as [|? ? Hc Ht]; subst. split; [|exact Ht].
      destruct (existsb (Ascii.eqb c) t) eqn:X; [|reflexivity].
      apply existsb_exists in X. destruct X as [x [Hx Ex]].
      apply Ascii.eqb_eq in Ex. subst x. contradiction.
Qed.

Lemma count_occ_map_iff (f : ascii -> Z) (l : list ascii) (k : Z) (c : ascii) :
  (forall x, In x l -> f x = k <-> x = c) ->
  count_occ Z.eq_dec (map f l) k = count_occ ascii_dec l c.
Proof.
  induction l as [|x l IH]; intros H; [reflexivity|].
  cbn [map count_occ]. rewrite IH by (intros y Hy; apply H; now right).
  pose proof (H x (or_introl eq_refl)) as Hx.
  destruct (Z.eq_dec (f x) k) as [E|E], (ascii_dec x c) as [E'|E'];
    try reflexivity; tauto.
Qed.

(** The index that the search gives, among different characters. *)
Lemma find_from_iff (cs : list ascii) (ch : ascii) (i : nat) :
  NoDup cs -> (i < length cs)%nat ->
  find_from cs ch 0 = Z.of_nat i <-> ch = nth i cs "?"%char.
Proof.
  intros Hn Hi. split.
  - intros H. destruct (find_from_hit cs ch 0 i ltac:(lia) H) as (_ & N & _).
    now symmetry.
  - intros ->. now rewrite find_from_nth.
Qed.

(** The census of first indices counts nine for every index exactly when
    the characters searched for are different and occur nine times each. *)
Lemma census_plain (cs l : list ascii) :
  forallb (fun k => count k (map (fun ch => find_from cs ch 0) l) =? 9)
          (range (Z.of_nat (length cs)))
  = distinct cs && forallb (fun c => occurrences c l =? 9) cs.
Proof.
  apply eq_true_iff_eq.
  rewrite andb_true_iff, !forallb_forall, distinct_NoDup. split.
  - intros H.
    assert (Hn : NoDup cs).
    { apply (NoDup_nth cs "?"%char).
      assert (Lt : forall i j, (i < j)%nat -> (j < length cs)%nat ->
                    nth i cs "?"%char <> nth j cs "?"%char).
      { intros i j Hij Hj E.
        pose proof (H (Z.of_nat j)
                      (in_range (Z.of_nat (length cs)) (Z.of_nat j)
                                ltac:(lia))) as C.
        apply Z.eqb_eq in C. unfold count in C.
        assert (Hin : In (Z.of_nat j) (map (fun ch => find_from cs ch 0) l)).
        { apply (count_occ_In Z.eq_dec). lia. }
        apply in_map_iff in Hin. destruct Hin as [ch [Hf _]].
        destruct (find_from_hit cs ch 0 j ltac:(lia) Hf) as (_ & N & F).
        apply (F i Hij). now rewrite E. }
      intros i j Hi Hj E.
      destruct (Nat.lt_trichotomy i j) as [L|[L|L]]; [|exact L|].
      - exfalso. exact (Lt i j L Hj E).
      - exfalso. exact (Lt j i L Hi (eq_sym E)). }
    split; [exact Hn|]. intros c Hc.
    destruct (In_nth cs c "?"%char Hc) as [i [Hi <-]].
    pose proof (H (Z.of_nat i)
                  (in_range (Z.of_nat (length cs)) (Z.of_nat i)
                            ltac:(lia))) as C.
    unfold count in C. unfold occurrences.
    rewrite (count_occ_map_iff _ l _ (nth i cs "?"%char)) in C; [exact C|].
    intros x _. now apply find_from_iff.
  - intros [Hn H] k Hk. apply range_in in Hk.
    assert (Hi : (Z.to_nat k < length cs)%nat) by lia.
    pose proof (H (nth (Z.to_nat k) cs "?"%char) (nth_In cs _ Hi)) as C.
    unfold occurrences in C. unfold count.
    rewrite (count_occ_map_iff _ l _ (nth (Z.to_nat k) cs "?"%char));
      [exact C|].
    intros x _. rewrite <- (find_from_iff cs x (Z.to_nat k) Hn Hi).
    now rewrite Z2Nat.id by lia.
Qed.

Lemma nine_of_each_plain (s : string) : nine_of_each s = centres_nine s.
Proof.
  unfold nine_of_each, centres_nine, colours. rewrite <- census_plain.
  assert (L : length (chars (centers_of s)) = 6%nat)
    by (unfold centers_of; rewrite chars_join, length_map; reflexivity).
  rewrite L. reflexivity.
Qed.

(** X5. For a string of at least 54 characters [from_facelet] never raises.
    It returns a cube exactly when the six centre characters (positions 4,
    13, 22, 31, 40 and 49) differ from one another and each of them occurs
    nine times among the first 54 characters, and -1 otherwise; the
    characters behind the 54th are not looked at. *)
Theorem from_facelet_accepts (self : t) (s : string) :
  (54 <= String.length s)%nat ->
  length (ca self) = 8%nat -> length (ea self) = 12%nat ->
  if centres_nine s
  then exists c, from_facelet self s = Ok (Some c)
                 /\ length (ca c) = 8%nat /\ length (ea c) = 12%nat
  else from_facelet self s = Ok None.
Proof.
  intros Hlen Hx Hy. rewrite <- nine_of_each_plain.
  now apply from_facelet_census.
Qed.

Lemma from_facelet_accepts_witness :
  (exists c, from_facelet new solved_facelet = Ok (Some c)
             /\ length (ca c) = 8%nat /\ length (ea c) = 12%nat)
  /\ from_facelet new twin_centres = Ok None.
Proof.
  split.
  - refine (from_facelet_accepts new solved_facelet _ _ _);
      [vm_compute; lia | reflexivity..].
  - refine (from_facelet_accepts new twin_centres _ _ _);
      [vm_compute; lia | reflexivity..].
Defined.

End FromFaceletFacts.

(** * The solved flag *)

Module StateExtra.
Import Models State StateSpec CubieCube CubieSpec CubieFacts.

Lemma all_tiles_spec {A : Type} (eqb : A -> A -> bool) (faces : list A)
  (d letter : A) (tiles : list Z) :
  Forall (fun i => 0 <= i < Z.of_nat (length faces)) tiles ->
  all_tiles eqb faces letter tiles
  = Ok (forallb (fun i => eqb (nth (Z.to_nat i) faces d) letter) tiles).
Proof.
  induction 1 as [|i tiles Hi _ IH]; cbn [all_tiles forallb]; [reflexivity|].
  rewrite (getitem_nth d) by exact Hi. cbn [Py.bind].
  destruct (eqb _ letter); [exact IH | reflexivity].
Qed.

Lemma face_solved_map_spec {A : Type} (eqb : A -> A -> bool) (inj : ascii -> A)
  (faces : list A) (d : A) :
  (54 <= length faces)%nat ->
  face_solved_map eqb inj faces = Ok (face_flags eqb inj faces d).
Proof.
  intros Hlen. unfold face_solved_map, COLOR_FACE_MAPPING.
  cbn [Py.for_each fst snd].
  repeat match goal with
  | |- context [dict_get Ascii.eqb FACE_TILE_INDICES ?k] =>
      let tiles := eval vm_compute in (dict_get Ascii.eqb FACE_TILE_INDICES k) in
      change (dict_get Ascii.eqb FACE_TILE_INDICES k) with tiles; cbn [Py.bind]
  end.
  rewrite !(all_tiles_spec eqb faces d) by (repeat constructor; lia).
  cbn [Py.bind]. reflexivity.
Qed.

Lemma flags_solved (faces : list ascii) :
  (54 <= length faces)%nat ->
  all_values (face_flags Ascii.eqb (fun c => c) faces "?"%char) = true
  <-> firstn 54 faces = chars solved_facelet.
Proof.
  intros Hlen. rewrite <- (firstn_skipn 54 faces) at 1.
  assert (Hl : length (firstn 54 faces) = 54%nat) by (rewrite length_firstn; lia).
  set (l := firstn 54 faces) in *. clearbody l. set (r := skipn 54 faces).
  clearbody r. clear Hlen faces. explode l Hl.
  unfold all_values, face_flags, face_flag.
  repeat match goal with
  | |- context [range3 ?a ?b 1] =>
      let v := eval vm_compute in (range3 a b 1) in
      change (range3 a b 1) with v
  end.
  cbn [forallb snd].
  repeat match goal with
  | |- context [nth (Z.to_nat ?k) ?l ?d] =>
      let v := eval vm_compute in (nth (Z.to_nat k) l d) in
      change (nth (Z.to_nat k) l d) with v
  end.
  rewrite !andb_true_iff, !Ascii.eqb_eq. split.
  - intros H. decompose [and] H. subst. reflexivity.
  - intros [= -> -> -> -> -> -> -> -> -> -> -> -> -> -> -> -> -> ->
               -> -> -> -> -> -> -> -> -> -> -> -> -> -> -> -> -> ->
               -> -> -> -> -> -> -> -> -> -> -> -> -> -> -> -> -> ->].
    repeat split.
Qed.

Lemma build_face_states_long (s : string) :
  (54 <= String.length s)%nat ->
  build_face_states s
  = Ok (face_flags Ascii.eqb (fun c => c) (chars s) "?"%char,
        all_values (face_flags Ascii.eqb (fun c => c) (chars s) "?"%char)).
Proof.
  intros Hlen. unfold build_face_states.
  replace ((String.length s =? 0)%nat || (Z.of_nat (String.length s) <? 54))
    with false.
  - rewrite (face_solved_map_spec _ _ _ "?"%char)
      by (rewrite length_chars; exact Hlen).
    reflexivity.
  - symmetry. apply orb_false_iff. split.
    + apply Nat.eqb_neq. lia.
    + apply Z.ltb_ge. lia.
Qed.

(** X6. [build_face_states] returns the empty map and [False] for a string
    of fewer than 54 characters.  For a longer string it returns the six
    entries Blue, Yellow, Orange, White, Red, Green, each telling whether
    the nine tiles of that face show the letter of the face, and the solved
    flag is true exactly when the first 54 characters are nine U, nine R,
    nine F, nine D, nine L and nine B. *)
Theorem build_face_states_solved (s : string) :
  if (String.length s <? 54)%nat
  then build_face_states s = Ok ([], false)
  else exists solved,
    build_face_states s
    = Ok (face_flags Ascii.eqb (fun c => c) (chars s) "?"%char, solved)
    /\ (solved = true <-> firstn 54 (chars s) = chars solved_facelet).
Proof.
  destruct (String.length s <? 54)%nat eqn:L.
  - apply Nat.ltb_lt in L. unfold build_face_states.
    replace (Z.of_nat (String.length s) <? 54) with true
      by (symmetry; apply Z.ltb_lt; lia).
    now rewrite orb_true_r.
  - apply Nat.ltb_ge in L. eexists. split; [now apply build_face_states_long|].
    apply flags_solved. now rewrite length_chars.
Qed.

Lemma to_facelet_new : to_facelet new = Ok solved_facelet.
Proof. reflexivity. Qed.

(** X7. When the string of a reachable cube is stored by
    [update_cube_state], the record holds that string and the time of the
    call, and its solved flag is set exactly when the cube is the solved
    cube. *)
Theorem solved_flag_iff_solved_cube (c : t) (data : CubeData) (now : Z) :
  reachable c ->
  exists s data',
    to_facelet c = Ok s /\ update_cube_state data s now = Ok data' /\
    state_string data' = Some s /\ last_update data' = Some now /\
    (is_solved data' = true <-> c = new).
Proof.
  intros Hr. pose proof (reachable_valid c Hr) as Hv.
  pose proof Hv as [Hx Hy Rx Ry _ _].
  set (s := join (map face_letter (perm_of c))).
  assert (Hs : String.length s = 54%nat)
    by (unfold s; now rewrite length_join, length_map, length_perm_of).
  exists s. eexists. split; [now apply to_facelet_spec|].
  unfold update_cube_state. rewrite build_face_states_long by lia.
  cbn [Py.bind fst snd]. split; [reflexivity|].
  split; [reflexivity|]. split; [reflexivity|]. cbn [is_solved set_state].
  rewrite flags_solved by (rewrite length_chars; lia).
  rewrite firstn_all2 by (rewrite length_chars; lia).
  split.
  - intros E.
    assert (Es : s = solved_facelet).
    { rewrite <- (string_of_list_ascii_of_string s).
      rewrite <- (string_of_list_ascii_of_string solved_facelet).
      unfold chars in E. now rewrite E. }
    pose proof (from_facelet_to_facelet c new Hv eq_refl eq_refl) as F.
    fold s in F. rewrite Es in F.
    pose proof (from_facelet_to_facelet new new new_valid eq_refl eq_refl) as G.
    change (join (map face_letter (perm_of new))) with solved_facelet in G.
    rewrite G in F. now injection F as <-.
  - intros ->. reflexivity.
Qed.

Lemma solved_flag_iff_solved_cube_witness :
  exists s data',
    to_facelet new = Ok s /\ update_cube_state Models.new s 7 = Ok data' /\
    state_string data' = Some s /\ last_update data' = Some 7 /\
    (is_solved data' = true <-> new = new).
Proof. apply (solved_flag_iff_solved_cube new Models.new 7). apply reach_new. Defined.

End StateExtra.

(** * QiYi: framing, moves and facelets *)

Module QiYiExtra.
Import St QiYi QiYiSpec QiYiCrc QiYiSend.

(** *** The checksum of a message followed by its checksum *)

Lemma crc_residue_word (s : Z) :
  0 <= s < 65536 ->
  crc_run [Z.land s 0xFF; Z.land (Z.shiftr s 8) 0xFF] s = 0.
Proof.
  intros Hs. apply Z.eqb_eq.
  apply (all_words
    (fun s => crc_run [Z.land s 0xFF; Z.land (Z.shiftr s 8) 0xFF] s =? 0));
    [vm_compute; reflexivity | exact Hs].
Qed.

Lemma crc_bytes (s : Z) :
  0 <= s < 65536 -> is_byte (Z.land s 0xFF) /\ is_byte (Z.land (Z.shiftr s 8) 0xFF).
Proof.
  intros Hs. unfold is_byte. change 0xFF with (Z.ones 8).
  rewrite !Z.land_ones by lia. split; apply Z.mod_pos_bound; lia.
Qed.

Lemma crc_run_app (a b : list Z) (s : Z) :
  crc_run (a ++ b) s = crc_run b (crc_run a s).
Proof. unfold crc_run. apply fold_left_app. Qed.

Lemma crc16_word (data : list Z) :
  Forall is_byte data -> 0 <= _crc16_modbus data < 65536.
Proof.
  intros H. rewrite crc16_run by exact H. now apply crc_run_word.
Qed.

Lemma crc_residue (msg : list Z) :
  Forall is_byte msg ->
  let crc := _crc16_modbus msg in
  _crc16_modbus (msg ++ [Z.land crc 0xFF; Z.land (Z.shiftr crc 8) 0xFF]) = 0.
Proof.
  intros Hm crc. pose proof (crc16_word msg Hm) as Hw. fold crc in Hw.
  destruct (crc_bytes crc Hw) as [B1 B2].
  assert (Hall : Forall is_byte
            (msg ++ [Z.land crc 0xFF; Z.land (Z.shiftr crc 8) 0xFF])).
  { apply Forall_app. split; [exact Hm|].
    apply Forall_cons; [exact B1|]. apply Forall_cons; [exact B2|].
    apply Forall_nil. }
  rewrite crc16_run by exact Hall.
  rewrite crc_run_app. unfold crc. rewrite (crc16_run msg Hm).
  apply crc_residue_word. now apply crc_run_word.
Qed.

(** *** The block loops of the sender and of the receiver *)

Lemma split_blocks (n : nat) (l : list Z) :
  length l = (16 * n)%nat ->
  exists bs, l = concat bs /\ Forall (fun b => length b = 16%nat) bs.
Proof.
  revert l. induction n as [|n IH]; intros l Hl.
  - destruct l; [|simpl in Hl; lia]. exists []. now split.
  - destruct (IH (skipn 16 l)) as [bs [E F]].
    { rewrite length_skipn. lia. }
    exists (firstn 16 l :: bs). split.
    + cbn [concat]. rewrite <- E. symmetry. apply firstn_skipn.
    + constructor; [|exact F]. rewrite length_firstn. lia.
Qed.

Lemma length_concat16 (bs : list (list Z)) :
  Forall (fun b => length b = 16%nat) bs ->
  length (concat bs) = (16 * length bs)%nat.
Proof.
  induction 1 as [|b bs Hb _ IH]; [reflexivity|].
  cbn [concat length]. rewrite length_app, IH, Hb. lia.
Qed.

Lemma Forall_concat_inv {A : Type} (P : A -> Prop) (bs : list (list A)) :
  Forall P (concat bs) -> Forall (Forall P) bs.
Proof.
  induction bs as [|b bs IH]; intros H; [constructor|].
  cbn [concat] in H. apply Forall_app in H. destruct H as [H1 H2].
  constructor; auto.
Qed.

Lemma Forall_concat {A : Type} (P : A -> Prop) (bs : list (list A)) :
  Forall (Forall P) bs -> Forall P (concat bs).
Proof.
  induction 1 as [|b bs Hb _ IH]; [constructor|].
  cbn [concat]. apply Forall_app. now split.
Qed.

Lemma range3_blocks (n : nat) :
  range3 0 (Z.of_nat (16 * n)) 16 = map (fun k => 16 * Z.of_nat k) (seq 0 n).
Proof.
  unfold range3.
  replace (Z.to_nat ((Z.of_nat (16 * n) - 0 + 16 - 1) / 16)) with n.
  - apply map_ext. intros k. lia.
  - assert ((Z.of_nat (16 * n) - 0 + 16 - 1) / 16 = Z.of_nat n); [|lia].
    symmetry. apply (Z.div_unique _ 16 _ 15); lia.
Qed.

Lemma slice_block (ps : list (list Z)) (b rest : list Z) :
  Forall (fun b => length b = 16%nat) ps -> length b = 16%nat ->
  slice (concat ps ++ b ++ rest) (16 * Z.of_nat (length ps))
        (16 * Z.of_nat (length ps) + 16) = b.
Proof.
  intros Hps Hb. unfold slice.
  replace (Z.to_nat (16 * Z.of_nat (length ps) + 16)
           - Z.to_nat (16 * Z.of_nat (length ps)))%nat with (length b) by lia.
  replace (Z.to_nat (16 * Z.of_nat (length ps))) with (length (concat ps))
    by (rewrite length_concat16 by exact Hps; lia).
  rewrite skipn_app, Nat.sub_diag, skipn_all. cbn [skipn app].
  rewrite firstn_app, Nat.sub_diag, firstn_all. cbn [firstn].
  apply app_nil_r.
Qed.

Lemma block_loop (f : list Z -> res (list Z)) (bs bs' : list (list Z)) :
  Forall2 (fun b b' => f b = Ok b') bs bs' ->
  forall (ps : list (list Z)) (acc : list Z),
  Forall (fun b => length b = 16%nat) ps ->
  Forall (fun b => length b = 16%nat) bs ->
  Py.for_each (map (fun k => 16 * Z.of_nat k) (seq (length ps) (length bs)))
    (fun i acc =>
       block <- f (slice (concat ps ++ concat bs) i (i + 16)) ;;
       Ok (acc ++ block)) acc
  = Ok (acc ++ concat bs').
Proof.
  induction 1 as [|b b' bs bs' Hb _ IH]; intros ps acc Hps Hbs.
  - cbn. now rewrite app_nil_r.
  - inversion Hbs as [|? ? Lb Lbs]; subst.
    cbn [length seq map Py.for_each concat].
    rewrite slice_block by assumption. rewrite Hb. cbn [Py.bind].
    specialize (IH (ps ++ [b]) (acc ++ b')).
    rewrite length_app in IH. cbn [length] in IH.
    rewrite Nat.add_1_r in IH.
    rewrite concat_app in IH. cbn [concat] in IH.
    rewrite app_nil_r, <- app_assoc in IH.
    rewrite IH; [now rewrite <- app_assoc | | exact Lbs].
    apply Forall_app. split; [exact Hps | now constructor].
Qed.

Lemma whole_loop (f : list Z -> res (list Z)) (bs bs' : list (list Z)) :
  Forall2 (fun b b' => f b = Ok b') bs bs' ->
  Forall (fun b => length b = 16%nat) bs ->
  Py.for_each (range3 0 (len (concat bs)) 16)
    (fun i acc =>
       block <- f (slice (concat bs) i (i + 16)) ;;
       Ok (acc ++ block)) []
  = Ok (concat bs').
Proof.
  intros H2 Hbs. unfold len. rewrite length_concat16 by exact Hbs.
  rewrite range3_blocks.
  exact (block_loop f bs bs' H2 [] [] (Forall_nil _) Hbs).
Qed.

Section Loopback.

Variables encrypt_block decrypt_block : list Z -> res (list Z).

Hypothesis aes_pair : forall b,
  length b = 16%nat -> Forall is_byte b ->
  exists b', encrypt_block b = Ok b' /\ length b' = 16%nat
             /\ Forall is_byte b' /\ decrypt_block b' = Ok b.

Lemma encrypt_blocks (bs : list (list Z)) :
  Forall (fun b => length b = 16%nat) bs -> Forall (Forall is_byte) bs ->
  exists bs',
    Forall2 (fun b b' => encrypt_block b = Ok b') bs bs'
    /\ Forall2 (fun b' b => decrypt_block b' = Ok b) bs' bs
    /\ Forall (fun b => length b = 16%nat) bs'
    /\ Forall (Forall is_byte) bs'.
Proof.
  induction 1 as [|b bs Hb _ IH]; intros HB.
  - exists []. repeat split; constructor.
  - inversion HB as [|? ? B1 B2]; subst.
    destruct (IH B2) as [bs' (E & D & L & B)].
    destruct (aes_pair b Hb B1) as [b' (Eb & Lb & Bb & Db)].
    exists (b' :: bs'). repeat split; constructor; assumption.
Qed.

Lemma build_msg_framed (content : list Z) :
  build_msg content
  = framed content
    ++ repeat 0 (Z.to_nat ((16 - len (framed content) mod 16) mod 16)).
Proof.
  unfold build_msg, framed. cbn [app].
  rewrite <- !app_assoc. cbn [app]. reflexivity.
Qed.

Lemma framed_bytes (content : list Z) :
  Forall is_byte content -> len content <= 251 ->
  Forall is_byte (framed content).
Proof.
  intros Hc Hl. unfold framed.
  assert (Hm : Forall is_byte ([254; 4 + len content] ++ content)).
  { cbn [app]. constructor; [unfold is_byte; lia|].
    constructor; [unfold is_byte, len in *; lia | exact Hc]. }
  destruct (crc_bytes _ (crc16_word _ Hm)) as [B1 B2].
  apply Forall_app. split; [exact Hm|]. now repeat apply Forall_cons.
Qed.

Lemma bytearray_ok (l : list Z) : Forall is_byte l -> bytearray l = Ok l.
Proof.
  intros H. unfold bytearray.
  replace (forallb _ l) with true; [reflexivity|].
  symmetry. apply forallb_forall. rewrite Forall_forall in H.
  intros b Hb. specialize (H b Hb). unfold is_byte in H.
  apply andb_true_iff. split; [apply Z.leb_le | apply Z.ltb_lt]; lia.
Qed.

Lemma loopback (content : list Z) (s : t) :
  Forall is_byte content -> len content <= 251 ->
  _decoder s = Some decrypt_block ->
  exists wire,
    _send_message encrypt_block content = Ok wire
    /\ len wire mod 16 = 0
    /\ frame_ok (framed content) = true
    /\ _notification_handler wire s = _parse_message (framed content) s.
Proof.
  intros Hc Hl Hd.
  pose proof (framed_bytes content Hc Hl) as Hf.
  assert (Lf : length (framed content) = (length content + 4)%nat).
  { unfold framed. cbn [app length]. rewrite length_app. cbn [length]. lia. }
  set (pad := Z.to_nat ((16 - len (framed content) mod 16) mod 16)).
  assert (Hpad : exists n, length (build_msg content) = (16 * n)%nat).
  { assert (Hb : length (build_msg content) = (length content + 4 + pad)%nat).
    { rewrite build_msg_framed. rewrite length_app, repeat_length.
      fold pad. lia. }
    exists (Z.to_nat ((len (framed content) + 15) / 16)).
    rewrite Hb. unfold pad, len. rewrite Lf.
    pose proof (Z.div_mod (Z.of_nat (length content + 4)) 16 ltac:(lia)).
    pose proof (Z.mod_pos_bound (Z.of_nat (length content + 4)) 16 ltac:(lia)).
    pose proof (Z.div_mod (Z.of_nat (length content + 4) + 15) 16 ltac:(lia)).
    pose proof (Z.mod_pos_bound (Z.of_nat (length content + 4) + 15) 16 ltac:(lia)).
    pose proof (Z.div_mod (16 - Z.of_nat (length content + 4) mod 16) 16 ltac:(lia)).
    pose proof (Z.mod_pos_bound (16 - Z.of_nat (length content + 4) mod 16) 16 ltac:(lia)).
    lia. }
  destruct Hpad as [n Hn].
  destruct (split_blocks n _ Hn) as [bs [Ebs Lbs]].
  assert (Bmsg : Forall is_byte (build_msg content)).
  { rewrite build_msg_framed. apply Forall_app. split; [exact Hf|].
    apply Forall_forall. intros x Hx. apply repeat_spec in Hx. subst x.
    unfold is_byte. lia. }
  rewrite Ebs in Bmsg. apply Forall_concat_inv in Bmsg.
  destruct (encrypt_blocks bs Lbs Bmsg) as [bs' (E & D & L' & B')].
  exists (concat bs').
  assert (Hok : frame_ok (framed content) = true).
  { unfold frame_ok. replace (len (framed content) <? 3) with false
      by (symmetry; apply Z.ltb_ge; unfold len; lia).
    unfold framed.
    rewrite (crc_residue ([254; 4 + len content] ++ content)).
    - reflexivity.
    - cbn [app]. constructor; [unfold is_byte; lia|].
      constructor; [unfold is_byte, len in *; lia | exact Hc]. }
  split; [|split; [|split; [exact Hok|]]].
  - unfold _send_message. rewrite Ebs.
    rewrite (whole_loop encrypt_block bs bs' E Lbs). cbn [Py.bind].
    apply bytearray_ok. now apply Forall_concat.
  - unfold len. rewrite length_concat16 by exact L'.
    rewrite Nat2Z.inj_mul, Z.mul_comm. apply Z.mod_mul. lia.
  - unfold _notification_handler, St.bind, gets. rewrite Hd.
    rewrite (whole_loop decrypt_block bs' bs D L'). unfold lift, ret.
    rewrite <- Ebs.
    replace (1 <? len (build_msg content)) with true
      by (symmetry; apply Z.ltb_lt; rewrite build_msg_framed; unfold len;
          rewrite length_app; lia).
    replace (getitem (build_msg content) 1) with (@Ok Z (4 + len content))
      by (rewrite (getitem_nth 0)
            by (rewrite build_msg_framed, length_app; lia);
          reflexivity).
    replace (slice (build_msg content) 0 (4 + len content))
      with (framed content).
    + now rewrite Hok.
    + rewrite build_msg_framed. unfold slice. cbn [skipn Z.to_nat].
      replace (Z.to_nat (4 + len content) - 0)%nat
        with (length (framed content)) by (unfold len; lia).
      symmetry. apply firstn_length_app.
Qed.

End Loopback.

(** X8. A message framed and encrypted by [_send_message] is accepted by
    [_notification_handler]: for a content of at most 251 bytes the bytes
    sent are a whole number of 16-byte blocks, and a handler holding the
    matching decryptor recovers the header, the content and the two
    checksum bytes, finds the checksum of the whole to be 0 and passes the
    message to [_parse_message]. *)
Theorem sent_frame_is_accepted
  (encrypt_block decrypt_block : list Z -> res (list Z))
  (content : list Z) (s : t) :
  (forall b, length b = 16%nat -> Forall is_byte b ->
     exists b', encrypt_block b = Ok b' /\ length b' = 16%nat
                /\ Forall is_byte b' /\ decrypt_block b' = Ok b) ->
  Forall is_byte content -> len content <= 251 ->
  _decoder s = Some decrypt_block ->
  exists wire,
    _send_message encrypt_block content = Ok wire
    /\ len wire mod 16 = 0
    /\ frame_ok (framed content) = true
    /\ _notification_handler wire s = _parse_message (framed content) s.
Proof. intros H. now apply loopback. Qed.

Lemma sent_frame_is_accepted_witness :
  exists wire,
    _send_message (fun b => Ok b) [2; 0; 0; 0; 0] = Ok wire
    /\ len wire mod 16 = 0
    /\ frame_ok (framed [2; 0; 0; 0; 0]) = true
    /\ _notification_handler wire
         {| base := Base.new; _decoder := Some (fun b => Ok b) |}
       = _parse_message (framed [2; 0; 0; 0; 0])
           {| base := Base.new; _decoder := Some (fun b => Ok b) |}.
Proof.
  apply (sent_frame_is_accepted (fun b => Ok b) (fun b => Ok b)).
  - intros b Hl Hb. exists b. repeat split; assumption.
  - repeat constructor; unfold is_byte; lia.
  - vm_compute. discriminate.
  - reflexivity.
Defined.

(** *** Moves *)

(** X9. [_parse_move] returns [None] for a move byte of 0 or less, names
    the twelve quarter turns L', L, R', R, D', D, U', U, F', F, B', B for
    the bytes 1 to 12, and raises [IndexError] for every larger byte; it
    never yields a half turn. *)
Theorem parse_move_table (raw : Z) :
  _parse_move raw
  = if raw <=? 0 then Ok None
    else if raw <=? 12
         then Ok (Some (nth (Z.to_nat (raw - 1)) move_names EmptyString))
         else Raise IndexError.
Proof.
  destruct (raw <=? 0) eqn:E0.
  - unfold _parse_move. now rewrite E0.
  - apply Z.leb_gt in E0. destruct (raw <=? 12) eqn:E1.
    + apply Z.leb_le in E1. assert (H : 0 <= raw - 1 < 12) by lia.
      remember (raw - 1) as k eqn:Ek. replace raw with (k + 1) by lia.
      clear Ek E0 E1 raw. zenum k H; reflexivity.
    + apply Z.leb_gt in E1. unfold _parse_move.
      replace (raw <=? 0) with false by (symmetry; apply Z.leb_gt; lia).
      rewrite getitem_out; [reflexivity|].
      rewrite Z.shiftr_div_pow2 by lia. change (2 ^ 1) with 2.
      cbn [length]. apply (Z.div_le_lower_bound _ 2 6); lia.
Qed.

(** *** Facelets *)

Lemma tile_step (face_msg : list Z) (i : Z) :
  0 <= i < 54 ->
  (b <- getitem face_msg (Z.shiftr i 1) ;;
   str_getitem "LRDUFB" (Z.land (Z.shiftr b ((i mod 2) * 4)) 0xF))
  = if tile_ok face_msg i then Ok (tile face_msg i) else Raise IndexError.
Proof.
  intros Hi. unfold tile_ok, tile.
  assert (Hs : 0 <= Z.shiftr i 1) by (apply Z.shiftr_nonneg; lia).
  destruct (Z.shiftr i 1 <? len face_msg) eqn:L; cbn [andb].
  - apply Z.ltb_lt in L. rewrite (getitem_nth 0) by (unfold len in L; lia).
    cbn [Py.bind]. fold (nibble face_msg i).
    assert (Hn : 0 <= nibble face_msg i < 16).
    { unfold nibble. change 0xF with (Z.ones 4). rewrite Z.land_ones by lia.
      apply Z.mod_pos_bound. lia. }
    destruct (nibble face_msg i <? 6) eqn:N.
    + apply Z.ltb_lt in N. unfold str_getitem.
      now rewrite (getitem_nth "?"%char) by (cbn; lia).
    + apply Z.ltb_ge in N. unfold str_getitem.
      now rewrite getitem_out by (cbn; lia).
  - apply Z.ltb_ge in L. now rewrite getitem_out by (unfold len in L; lia).
Qed.

(** X10. [_parse_facelet] succeeds exactly when the 27 bytes it reads are
    there and each of their 54 nibbles is below 6; the result then has one
    of the letters L, R, D, U, F, B per nibble, low nibble first.  In every
    other case it raises [IndexError]. *)
Theorem parse_facelet_exact (face_msg : list Z) :
  _parse_facelet face_msg
  = if forallb (tile_ok face_msg) (range 54)
    then Ok (join (map (tile face_msg) (range 54)))
    else Raise IndexError.
Proof.
  unfold _parse_facelet.
  rewrite (for_each_ext_in (range 54) _
    (fun i ret =>
       ch <- (b <- getitem face_msg (Z.shiftr i 1) ;;
              str_getitem "LRDUFB" (Z.land (Z.shiftr b ((i mod 2) * 4)) 0xF)) ;;
       Ok (ret ++ [ch]))).
  - rewrite (collect_loop _ (tile face_msg)).
    + rewrite (forallb_ext_in (range 54) _ (tile_ok face_msg)).
      * now destruct (forallb _ _).
      * intros i Hi. apply range_in in Hi. rewrite tile_step by exact Hi.
        now destruct (tile_ok face_msg i).
    + intros i Hi. apply range_in in Hi. rewrite tile_step by exact Hi.
      destruct (tile_ok face_msg i); auto.
  - intros i ret Hi. now destruct (getitem face_msg (Z.shiftr i 1)).
Qed.

End QiYiExtra.

(** * Giiker: the parser returns on every payload *)

Module GiikerExtra.
Import Models St Giiker.

Lemma enumerate_in {A : Type} (l : list A) (i : Z) (x : A) :
  In (i, x) (enumerate l) -> 0 <= i < len l /\ In x l.
Proof.
  unfold enumerate. intros H. split.
  - apply in_combine_l in H. now apply range_in in H.
  - now apply in_combine_r in H.
Qed.

Lemma enumerate_seq {A : Type} (l : list A) :
  enumerate l = combine (map Z.of_nat (seq 0 (length l))) l.
Proof. unfold enumerate, range, len. now rewrite Nat2Z.id. Qed.

Lemma parse_move_total (face_index turn_index : Z) :
  exists m, _parse_move face_index turn_index = Ok m.
Proof.
  unfold _parse_move.
  destruct ((face_index <=? 0) || (len FACES <? face_index)) eqn:E; [eauto|].
  apply orb_false_iff in E. destruct E as [E1 E2].
  apply Z.leb_gt in E1. apply Z.ltb_ge in E2. change (len FACES) with 6 in E2.
  rewrite (getitem_nth EmptyString) by (cbn; lia). cbn [Py.bind]. eauto.
Qed.

(** The payload loop: at most eight corner and twelve edge positions. *)
Lemma parse_cube_payload_total (data : list Z) :
  exists st moves,
    _parse_cube_payload data = Ok (st, moves)
    /\ (length (corner_positions st) <= 8)%nat
    /\ (length (edge_positions st) <= 12)%nat.
Proof.
  unfold _parse_cube_payload. rewrite enumerate_seq.
  match goal with
  | |- context [Py.for_each _ ?body ?init] =>
      destruct (for_each_enum
        (fun k acc =>
           (length (corner_positions (fst acc)) <= 2 * Nat.min k 4)%nat
           /\ (length (edge_positions (fst acc))
               <= 2 * (Nat.min k 14 - Nat.min k 8))%nat)
        data body 0%nat init) as [[st moves] [E [H1 H2]]]
  end.
  - cbn. lia.
  - intros k b [st moves] _ _ [H1 H2]. cbn [fst snd] in *.
    destruct (Z.of_nat k <? 4) eqn:L4.
    { apply Z.ltb_lt in L4. eexists. split; [reflexivity|].
      cbn [fst corner_positions edge_positions]. rewrite length_app.
      cbn [length]. lia. }
    apply Z.ltb_ge in L4. destruct (Z.of_nat k <? 8) eqn:L8.
    { apply Z.ltb_lt in L8. eexists. split; [reflexivity|].
      cbn [fst corner_positions edge_positions]. lia. }
    apply Z.ltb_ge in L8. destruct (Z.of_nat k <? 14) eqn:L14.
    { apply Z.ltb_lt in L14. eexists. split; [reflexivity|].
      cbn [fst corner_positions edge_positions]. rewrite length_app.
      cbn [length]. lia. }
    apply Z.ltb_ge in L14. destruct (Z.of_nat k <? 16) eqn:L16.
    { eexists. split; [reflexivity|].
      cbn [fst corner_positions edge_positions]. lia. }
    destruct (parse_move_total (Z.shiftr b 4) (Z.land b 0x0F)) as [m Em].
    rewrite Em. cbn [Py.bind]. eexists. split; [reflexivity|].
    cbn [fst]. lia.
  - exists st, moves. cbn [fst] in *. split; [exact E|]. lia.
Qed.

Lemma colour_letter (c : Z) :
  0 <= c < 6 ->
  exists name letter,
    getitem COLORS c = Ok name
    /\ State.dict_get String.eqb State.COLOR_FACE_MAPPING name = Ok letter.
Proof. intros H. zenum c H; do 2 eexists; split; reflexivity. Qed.

Lemma paint_total (mapped cube_indices : list Z) (faces : list (option ascii)) :
  Forall (fun c => 0 <= c < 6) mapped ->
  Forall (fun p => 0 <= p < 54) cube_indices ->
  length faces = 54%nat ->
  exists faces', paint mapped cube_indices faces = Ok faces'
                 /\ length faces' = 54%nat.
Proof.
  intros Hm Hc Hf. unfold paint.
  apply (for_each_total (fun f => length f = 54%nat)); [exact Hf|].
  intros [fi ci] f0 Hin Hf0. apply enumerate_in in Hin.
  destruct Hin as [Hfi Hci]. cbn [fst snd].
  destruct (len mapped <=? fi) eqn:L; [eauto|]. apply Z.leb_gt in L.
  destruct (getitem_member mapped fi 0 ltac:(unfold len in L; lia)) as [E Hin].
  rewrite E. cbn [Py.bind]. rewrite Forall_forall in Hm.
  destruct (colour_letter _ (Hm _ Hin)) as [name [letter [E1 E2]]].
  rewrite E1. cbn [Py.bind]. rewrite E2. cbn [Py.bind].
  rewrite Forall_forall in Hc. specialize (Hc ci Hci).
  rewrite setitem_set by (rewrite Hf0; lia).
  eexists. split; [reflexivity|]. now rewrite length_list_set.
Qed.

Lemma map_corner_total (colors : list Z) (orientation position : Z) :
  length colors = 3%nat -> Forall (fun c => 0 <= c < 6) colors ->
  exists mapped, _map_corner_colors colors orientation position = Ok mapped
                 /\ Forall (fun c => 0 <= c < 6) mapped.
Proof.
  intros Hl Hc. explode colors Hl.
  inversion Hc as [|? ? C0 Hc1]; subst. inversion Hc1 as [|? ? C1 Hc2]; subst.
  inversion Hc2 as [|? ? C2 _]; subst.
  unfold _map_corner_colors. cbn [getitem norm_index length nth_error Py.bind].
  change (getitem [z; z0; z1] 0) with (@Ok Z z).
  change (getitem [z; z0; z1] 1) with (@Ok Z z0).
  change (getitem [z; z0; z1] 2) with (@Ok Z z1). cbn [Py.bind].
  destruct (_ =? 1); [eexists; split; [reflexivity | now repeat constructor]|].
  destruct (_ =? 2); eexists; (split; [reflexivity | now repeat constructor]).
Qed.

Lemma map_edge_total (colors : list Z) (orientation : bool) :
  length colors = 2%nat -> Forall (fun c => 0 <= c < 6) colors ->
  exists mapped, _map_edge_colors colors orientation = Ok mapped
                 /\ Forall (fun c => 0 <= c < 6) mapped.
Proof.
  intros Hl Hc. explode colors Hl.
  inversion Hc as [|? ? C0 Hc1]; subst. inversion Hc1 as [|? ? C1 _]; subst.
  unfold _map_edge_colors.
  change (getitem [z; z0] 0) with (@Ok Z z).
  change (getitem [z; z0] 1) with (@Ok Z z0). cbn [Py.bind].
  destruct orientation; eexists; (split; [reflexivity | now repeat constructor]).
Qed.

Lemma corner_tables (position index : Z) :
  0 <= position - 1 < 8 -> 0 <= index < 8 ->
  exists colors cube_indices,
    getitem CORNER_COLORS (position - 1) = Ok colors
    /\ getitem CORNER_FACE_INDICES index = Ok cube_indices
    /\ length colors = 3%nat /\ Forall (fun c => 0 <= c < 6) colors
    /\ Forall (fun p => 0 <= p < 54) cube_indices.
Proof.
  intros Hp Hi. remember (position - 1) as q eqn:Eq. clear Eq.
  zenum q Hp; zenum index Hi; do 2 eexists;
    (split; [reflexivity|]); (split; [reflexivity|]);
    (split; [reflexivity|]); split; repeat constructor; lia.
Qed.

Lemma edge_tables (position index : Z) :
  0 <= position - 1 < 12 -> 0 <= index < 12 ->
  exists colors cube_indices,
    getitem EDGE_COLORS (position - 1) = Ok colors
    /\ getitem EDGE_FACE_INDICES index = Ok cube_indices
    /\ length colors = 2%nat /\ Forall (fun c => 0 <= c < 6) colors
    /\ Forall (fun p => 0 <= p < 54) cube_indices.
Proof.
  intros Hp Hi. remember (position - 1) as q eqn:Eq. clear Eq.
  zenum q Hp; zenum index Hi; do 2 eexists;
    (split; [reflexivity|]); (split; [reflexivity|]);
    (split; [reflexivity|]); split; repeat constructor; lia.
Qed.

Lemma build_state_total (st : cube_state) :
  (length (corner_positions st) <= 8)%nat ->
  (length (edge_positions st) <= 12)%nat ->
  exists r, _build_state st = Ok r.
Proof.
  intros Hc He. unfold _build_state.
  match goal with
  | |- context [Py.for_each (enumerate (corner_positions st)) ?body ?init] =>
      destruct (for_each_total (fun f => length f = 54%nat)
                  (enumerate (corner_positions st)) body init)
        as [f1 [E1 L1]]
  end.
  { apply repeat_length. }
  { intros [index position] f0 Hin Hf0. apply enumerate_in in Hin.
    destruct Hin as [Hi _]. cbn [fst snd]. unfold len in Hi.
    destruct ((position <=? 0) || (len CORNER_COLORS <? position)) eqn:G; [eauto|].
    apply orb_false_iff in G. destruct G as [G1 G2].
    apply Z.leb_gt in G1. apply Z.ltb_ge in G2.
    change (len CORNER_COLORS) with 8 in G2.
    destruct (len (corner_orientations st) <=? index) eqn:G3; [eauto|].
    apply Z.leb_gt in G3. unfold len in G3.
    destruct (corner_tables position index ltac:(lia) ltac:(lia))
      as [colors [ci (T1 & T2 & T3 & T4 & T5)]].
    rewrite T1. cbn [Py.bind]. rewrite (getitem_nth 0) by lia. cbn [Py.bind].
    destruct (map_corner_total colors
                (nth (Z.to_nat index) (corner_orientations st) 0) index T3 T4)
      as [mapped [M1 M2]].
    rewrite M1. cbn [Py.bind]. rewrite T2. cbn [Py.bind].
    now apply paint_total. }
  rewrite E1. cbn [Py.bind].
  match goal with
  | |- context [Py.for_each (enumerate (edge_positions st)) ?body f1] =>
      destruct (for_each_total (fun f => length f = 54%nat)
                  (enumerate (edge_positions st)) body f1)
        as [f2 [E2 L2]]
  end.
  { exact L1. }
  { intros [index position] f0 Hin Hf0. apply enumerate_in in Hin.
    destruct Hin as [Hi _]. cbn [fst snd]. unfold len in Hi.
    destruct ((position <=? 0) || (len EDGE_COLORS <? position)) eqn:G; [eauto|].
    apply orb_false_iff in G. destruct G as [G1 G2].
    apply Z.leb_gt in G1. apply Z.ltb_ge in G2.
    change (len EDGE_COLORS) with 12 in G2.
    destruct (len (edge_orientations st) <=? index) eqn:G3; [eauto|].
    apply Z.leb_gt in G3. unfold len in G3.
    destruct (edge_tables position index ltac:(lia) ltac:(lia))
      as [colors [ci (T1 & T2 & T3 & T4 & T5)]].
    rewrite T1. cbn [Py.bind]. rewrite (getitem_nth false) by lia. cbn [Py.bind].
    destruct (map_edge_total colors
                (nth (Z.to_nat index) (edge_orientations st) false) T3 T4)
      as [mapped [M1 M2]].
    rewrite M1. cbn [Py.bind]. rewrite T2. cbn [Py.bind].
    now apply paint_total. }
  rewrite E2. cbn [Py.bind].
  repeat (rewrite setitem_set by (rewrite ?length_list_set, L2; lia);
          cbn [Py.bind]).
  match goal with
  | |- context [State.face_solved_map ?eqb ?inj ?faces] =>
      destruct (StateFacts.face_solved_map_total eqb inj faces) as [fs Hfs]
  end.
  { rewrite !length_list_set, L2. lia. }
  rewrite Hfs. cbn [Py.bind]. eauto.
Qed.

Lemma decrypt_total (data : list Z) :
  exists plain, _decrypt_in_place data = Ok plain.
Proof.
  unfold _decrypt_in_place. destruct (len data <? 20) eqn:L; [eauto|].
  apply Z.ltb_ge in L.
  assert (N : forall index, index = 38 \/ index = 39 ->
            exists off, _get_nibble data index = Ok off /\ 0 <= off < 16).
  { intros index Hi.
    assert (Hq : index / 2 = 19) by (destruct Hi; subst; reflexivity).
    destruct (_get_nibble data index) as [off|e] eqn:E.
    - exists off. split; [reflexivity|]. now apply GiikerCipher.get_nibble_range in E.
    - unfold _get_nibble in E. rewrite Hq in E.
      rewrite (getitem_nth 0) in E by (unfold len in L; lia).
      cbn [Py.bind] in E. destruct (index mod 2 =? 1); discriminate. }
  destruct (N 38 (or_introl eq_refl)) as [o1 [E1 R1]].
  destruct (N 39 (or_intror eq_refl)) as [o2 [E2 R2]].
  rewrite E1, E2. cbn [Py.bind].
  destruct (GiikerCipher.decrypt_loop data o1 o2 ltac:(lia) ltac:(lia) L)
    as [plain [E _]].
  eauto.
Qed.

Lemma is_encrypted_total (data : list Z) : exists b, _is_encrypted data = Ok b.
Proof.
  unfold _is_encrypted. destruct (19 <=? len data) eqn:L; [|eauto].
  apply Z.leb_le in L. rewrite (getitem_nth 0) by (unfold len in L; lia).
  cbn [Py.bind]. eauto.
Qed.

(** X11. [parse_cube_value] returns on every payload, whatever its length
    and its bytes: fields out of range are skipped, never indexed with.
    After a non-empty payload the record holds the payload as [last_raw]
    and a state string. *)
Theorem giiker_parser_never_raises (raw : list Z) (s : Base.t) :
  exists r, fst (parse_cube_value raw s) = Ok r
    /\ (raw <> [] ->
        last_raw (Base._data (snd (parse_cube_value raw s))) = Some raw
        /\ exists str,
             state_string (Base._data (snd (parse_cube_value raw s))) = Some str).
Proof.
  destruct raw as [|b raw]; [exists None; split; [reflexivity | congruence]|].
  set (data := b :: raw). unfold parse_cube_value. fold data.
  unfold St.bind, modify, lift, ret, Base.time_time.
  destruct (is_encrypted_total data) as [enc Eenc]. rewrite Eenc.
  assert (D : exists plain,
            (if enc then _decrypt_in_place data else Ok data) = Ok plain).
  { destruct enc; [apply decrypt_total | eauto]. }
  destruct D as [plain Ep].
  destruct (parse_cube_payload_total plain) as [st [moves (E1 & Hc & He)]].
  destruct (build_state_total st Hc He) as [[[str fs] solved] E2].
  destruct enc; cbv beta iota; rewrite ?Ep; try injection Ep as <-;
    rewrite E1; cbn [fst snd]; rewrite E2; cbn [fst snd];
    (destruct moves as [|m moves];
     [ exists None; split; [reflexivity|]; intros _; split; [reflexivity|];
       now exists str
     | destruct (String.length (notation m) =? 0)%nat;
       (eexists; split; [reflexivity|]; intros _; split; [reflexivity|];
        now exists str) ]).
Qed.

End GiikerExtra.

(** * GAN: the decoder undoes the encoder *)

Module GanDecoderFacts.
Import GanDecoder QiYiSpec.

Lemma lxor_byte (a b : Z) : is_byte a -> is_byte b -> is_byte (Z.lxor a b).
Proof.
  unfold is_byte. intros Ha Hb. split; [apply Z.lxor_nonneg; lia|].
  destruct (Z.eq_dec (Z.lxor a b) 0) as [->|Hne]; [lia|].
  apply (Z.log2_lt_pow2 _ 8); [apply Z.le_neq; split;
    [apply Z.lxor_nonneg; lia | congruence]|].
  eapply Z.le_lt_trans; [apply Z.log2_lxor; lia|].
  apply Z.max_lub_lt.
  - destruct (Z.eq_dec a 0) as [->|]; [reflexivity|]. apply Z.log2_lt_pow2; lia.
  - destruct (Z.eq_dec b 0) as [->|]; [reflexivity|]. apply Z.log2_lt_pow2; lia.
Qed.

Lemma iv_at_val (iv : list Z) (i : Z) : 0 <= i -> iv_at iv i = Ok (iv_val iv i).
Proof.
  intros Hi. unfold iv_at, iv_val. destruct (i <? len iv) eqn:L; [|reflexivity].
  apply Z.ltb_lt in L. apply getitem_nth. unfold len in L. lia.
Qed.

Lemma iv_val_byte (iv : list Z) (i : Z) :
  Forall is_byte iv -> 0 <= i -> is_byte (iv_val iv i).
Proof.
  intros H Hi. unfold iv_val. destruct (i <? len iv) eqn:L; [|unfold is_byte; lia].
  apply Z.ltb_lt in L. rewrite Forall_forall in H. apply H. apply nth_In.
  unfold len in L. lia.
Qed.

Lemma length_xored (iv block : list Z) : length (xored iv block) = 16%nat.
Proof. unfold xored. now rewrite length_map, range_length. Qed.

Lemma nth_xored (iv block : list Z) (k : nat) :
  (k < 16)%nat ->
  nth k (xored iv block) 0
  = Z.lxor (nth k block 0) (iv_val iv (Z.of_nat k)).
Proof.
  intros Hk. unfold xored.
  rewrite (nth_indep _ 0 (Z.lxor (nth (Z.to_nat 0) block 0) (iv_val iv 0)))
    by (rewrite length_map, range_length; lia).
  rewrite (map_nth (fun i => Z.lxor (nth (Z.to_nat i) block 0) (iv_val iv i))).
  rewrite range_nth by lia. now rewrite Nat2Z.id.
Qed.

Lemma xored_byte (iv block : list Z) :
  Forall is_byte iv -> Forall is_byte block -> length block = 16%nat ->
  Forall is_byte (xored iv block).
Proof.
  intros Hiv Hb Hl. unfold xored. apply Forall_forall. intros x Hx.
  apply in_map_iff in Hx. destruct Hx as [i [<- Hi]]. apply range_in in Hi.
  apply lxor_byte; [|apply iv_val_byte; [assumption | lia]].
  rewrite Forall_forall in Hb. apply Hb. apply nth_In. lia.
Qed.

Lemma xored_twice (iv block : list Z) :
  length block = 16%nat -> xored iv (xored iv block) = block.
Proof.
  intros Hl. apply (nth_ext _ _ 0 0); [now rewrite length_xored|].
  intros k Hk. rewrite length_xored in Hk.
  rewrite !nth_xored by exact Hk.
  now rewrite Z.lxor_assoc, Z.lxor_nilpotent, Z.lxor_0_r.
Qed.

(** A loop that overwrites sixteen cells from [offset] on, one per round. *)
Lemma splice_loop (target ret : list Z) (offset : nat)
  (body : Z -> list Z -> res (list Z)) :
  length target = length ret ->
  (offset + 16 <= length ret)%nat ->
  firstn offset target = firstn offset ret ->
  (forall k, (k < 16)%nat ->
     body (Z.of_nat k)
          (firstn (offset + k) target ++ skipn (offset + k) ret)
     = Ok (list_set (firstn (offset + k) target ++ skipn (offset + k) ret)
                    (offset + k) (nth (offset + k) target 0))) ->
  for_each (range 16) body ret
  = Ok (firstn (offset + 16) target ++ skipn (offset + 16) ret).
Proof.
  intros Hl Ho Hf Hb.
  destruct (for_each_range_inv
    (fun i r => r = firstn (offset + Z.to_nat i) target
                    ++ skipn (offset + Z.to_nat i) ret)
    body 16 ret ltac:(lia)) as [r [E Hr]].
  - change (Z.to_nat 0) with 0%nat. rewrite Nat.add_0_r, Hf.
    symmetry. apply firstn_skipn.
  - intros i s0 Hi ->. exists (firstn (offset + Z.to_nat (i + 1)) target
                               ++ skipn (offset + Z.to_nat (i + 1)) ret).
    split; [|reflexivity].
    replace i with (Z.of_nat (Z.to_nat i)) at 1 by lia.
    rewrite Hb by lia.
    rewrite (CubieFacts.list_set_splice 0) by lia.
    replace (Z.to_nat (i + 1)) with (Datatypes.S (Z.to_nat i)) by lia.
    now rewrite Nat.add_succ_r.
  - rewrite E, Hr. reflexivity.
Qed.

Lemma write_loop (iv block ret : list Z) (offset : Z) :
  length block = 16%nat -> 0 <= offset ->
  offset + 16 <= Z.of_nat (length ret) ->
  for_each (range 16) (fun i ret =>
    b <- getitem block i ;;
    v <- iv_at iv i ;;
    setitem ret (i + offset) (Z.lxor b v)) ret
  = Ok (firstn (Z.to_nat offset) ret ++ xored iv block
        ++ skipn (Z.to_nat offset + 16) ret).
Proof.
  intros Hb Ho Hl. set (o := Z.to_nat offset).
  set (pre := firstn o ret). set (post := skipn (o + 16) ret).
  assert (Lpre : length pre = o) by (unfold pre; rewrite length_firstn; lia).
  assert (Lpost : length post = (length ret - (o + 16))%nat)
    by (unfold post; now rewrite length_skipn).
  set (target := pre ++ xored iv block ++ post).
  assert (Lt : length target = length ret).
  { unfold target. rewrite !length_app, length_xored. lia. }
  rewrite (splice_loop target ret o).
  - f_equal. unfold target. rewrite app_assoc.
    replace (o + 16)%nat with (length (pre ++ xored iv block))
      by (rewrite length_app, length_xored; lia).
    rewrite firstn_length_app.
    replace (length (pre ++ xored iv block)) with (o + 16)%nat
      by (rewrite length_app, length_xored; lia).
    reflexivity.
  - exact Lt.
  - lia.
  - unfold target. rewrite <- Lpre at 1. apply firstn_length_app.
  - intros k Hk.
    rewrite (getitem_nth 0) by lia. cbn [bind].
    rewrite iv_at_val by lia. cbn [bind].
    rewrite setitem_set
      by (rewrite length_app, length_firstn, length_skipn; lia).
    replace (Z.to_nat (Z.of_nat k + offset)) with (o + k)%nat by lia.
    f_equal. f_equal. unfold target.
    rewrite app_nth2 by lia. rewrite Lpre.
    replace (o + k - o)%nat with k by lia.
    rewrite app_nth1 by (rewrite length_xored; lia).
    rewrite nth_xored by exact Hk. now rewrite Nat2Z.id.
Qed.

Lemma self_loop (iv ret : list Z) :
  (16 <= length ret)%nat ->
  for_each (range 16) (fun i ret =>
    r <- getitem ret i ;;
    v <- iv_at iv i ;;
    setitem ret i (Z.lxor r v)) ret
  = Ok (xored iv ret ++ skipn 16 ret).
Proof.
  intros Hl. set (target := xored iv ret ++ skipn 16 ret).
  assert (Lt : length target = length ret).
  { unfold target. rewrite length_app, length_xored, length_skipn. lia. }
  rewrite (splice_loop target ret 0).
  - reflexivity.
  - exact Lt.
  - lia.
  - reflexivity.
  - intros k Hk. cbn [Nat.add].
    assert (Lf : length (firstn k target) = k) by (rewrite length_firstn; lia).
    rewrite (getitem_nth 0)
      by (rewrite length_app, Lf, length_skipn; lia).
    cbn [bind]. rewrite iv_at_val by lia. cbn [bind].
    rewrite setitem_set by (rewrite length_app, Lf, length_skipn; lia).
    rewrite !Nat2Z.id. f_equal. f_equal.
    rewrite app_nth2 by lia. rewrite Lf, Nat.sub_diag, nth_skipn, Nat.add_0_r.
    unfold target. rewrite app_nth1 by (rewrite length_xored; lia).
    rewrite nth_xored by exact Hk. reflexivity.
Qed.

Lemma xored_firstn (iv l : list Z) : xored iv (firstn 16 l) = xored iv l.
Proof.
  unfold xored. apply map_ext_in. intros i Hi. apply range_in in Hi.
  f_equal. rewrite nth_firstn.
  replace (Z.to_nat i <? 16)%nat with true
    by (symmetry; apply Nat.ltb_lt; lia).
  reflexivity.
Qed.

Section RoundTrip.

Variable self : t.

Hypothesis aes_pair : forall b,
  length b = 16%nat -> Forall is_byte b ->
  exists b', encrypt_block self b = Ok b' /\ length b' = 16%nat
             /\ Forall is_byte b' /\ decrypt_block self b' = Ok b.

Hypothesis iv_bytes : Forall is_byte (_iv self).

Lemma roundtrip (data : list Z) :
  Forall is_byte data -> (16 <= length data)%nat ->
  exists wire,
    encode self data = Ok wire /\ length wire = length data
    /\ decode self wire = Ok data.
Proof.
  intros Hd Hl.
  assert (B16 : Forall is_byte (firstn 16 data)) by now apply Forall_take.
  assert (L16 : length (firstn 16 data) = 16%nat)
    by (rewrite length_firstn; lia).
  assert (Bs : Forall is_byte (skipn 16 data)) by now apply Forall_drop.
  unfold encode, decode. destruct (_iv self) as [|v0 iv'] eqn:Eiv.
  - (* no IV *)
    unfold slice. cbn [Z.to_nat skipn]. change (Pos.to_nat 16 - 0)%nat with 16%nat.
    destruct (aes_pair _ L16 B16) as [c (Ec & Lc & Bc & Dc)].
    rewrite Ec. cbn [bind]. exists (c ++ slice_from data 16).
    split; [reflexivity|]. unfold slice_from. change (Z.to_nat 16) with 16%nat.
    split; [rewrite length_app, length_skipn; lia|].
    rewrite <- Lc at 1. rewrite firstn_length_app, Dc. cbn [bind].
    rewrite <- Lc at 2. rewrite skipn_app, Nat.sub_diag, skipn_all.
    cbn [skipn app]. now rewrite firstn_skipn.
  - (* with an IV *)
    rewrite <- Eiv in *. set (iv := _iv self) in *.
    rewrite self_loop by exact Hl. cbn [bind].
    set (b1 := xored iv data).
    assert (Lb1 : length b1 = 16%nat) by apply length_xored.
    assert (Bb1 : Forall is_byte b1).
    { unfold b1. rewrite <- xored_firstn. now apply xored_byte. }
    assert (S1 : slice (b1 ++ skipn 16 data) 0 16 = b1).
    { unfold slice. cbn [Z.to_nat skipn].
      change (Pos.to_nat 16 - 0)%nat with 16%nat.
      rewrite <- Lb1 at 1. apply firstn_length_app. }
    rewrite S1. destruct (aes_pair _ Lb1 Bb1) as [c1 (Ec1 & Lc1 & Bc1 & Dc1)].
    rewrite Ec1. cbn [bind].
    assert (F1 : slice_from (b1 ++ skipn 16 data) 16 = skipn 16 data).
    { unfold slice_from. change (Z.to_nat 16) with 16%nat.
      rewrite <- Lb1 at 1. rewrite skipn_app, Nat.sub_diag, skipn_all.
      reflexivity. }
    rewrite F1. set (r2 := c1 ++ skipn 16 data).
    assert (Lr2 : length r2 = length data)
      by (unfold r2; rewrite length_app, length_skipn; lia).
    assert (Br2 : Forall is_byte r2) by (apply Forall_app; now split).
    assert (Dec1 : forall w, firstn 16 w = c1 -> skipn 16 w = skipn 16 data ->
              length w = length data ->
              (block <- decrypt_block self (slice w 0 16) ;;
               for_each (range 16) (fun i ret =>
                 b <- getitem block i ;;
                 v <- iv_at iv i ;;
                 setitem ret i (Z.lxor b v)) w) = Ok data).
    { intros w W1 W2 W3. unfold slice. cbn [Z.to_nat skipn].
      change (Pos.to_nat 16 - 0)%nat with 16%nat. rewrite W1, Dc1. cbn [bind].
      rewrite (for_each_ext_in _ _
        (fun i ret =>
           b <- getitem b1 i ;; v <- iv_at iv i ;;
           setitem ret (i + 0) (Z.lxor b v)))
        by (intros; now rewrite Z.add_0_r).
      rewrite write_loop by lia. cbn [Z.to_nat firstn app Nat.add].
      assert (X1 : xored iv b1 = firstn 16 data).
      { unfold b1. rewrite <- (xored_firstn iv data). now apply xored_twice. }
      rewrite X1, W2. now rewrite firstn_skipn. }
    unfold len. rewrite Lr2. destruct (16 <? Z.of_nat (length data)) eqn:L.
    + apply Z.ltb_lt in L. set (offset := Z.of_nat (length data) - 16).
      set (o := Z.to_nat offset).
      set (block := slice_from r2 offset).
      assert (Lbl : length block = 16%nat)
        by (unfold block, slice_from; rewrite length_skipn; lia).
      assert (Bbl : Forall is_byte block)
        by (unfold block, slice_from; now apply Forall_drop).
      rewrite self_loop by lia.
      rewrite skipn_all2 by lia. rewrite app_nil_r. cbn [bind].
      assert (Bx : Forall is_byte (xored iv block)) by now apply xored_byte.
      destruct (aes_pair _ (length_xored iv block) Bx)
        as [c2 (Ec2 & Lc2 & Bc2 & Dc2)].
      rewrite Ec2. cbn [bind].
      set (pre := slice r2 0 offset).
      assert (Epre : pre = firstn o r2)
        by (unfold pre, slice; cbn [Z.to_nat skipn]; now rewrite Nat.sub_0_r).
      assert (Lpre : length pre = o)
        by (rewrite Epre, length_firstn; lia).
      exists (pre ++ c2). split; [reflexivity|].
      split; [rewrite length_app; lia|].
      replace (length (pre ++ c2)) with (length data)
        by (rewrite length_app; lia).
      replace (16 <? Z.of_nat (length data)) with true
        by (symmetry; now apply Z.ltb_lt).
      fold offset.
      assert (Sw : slice_from (pre ++ c2) offset = c2).
      { unfold slice_from. fold o. rewrite <- Lpre.
        rewrite skipn_app, Nat.sub_diag, skipn_all. reflexivity. }
      rewrite Sw, Dc2. cbn [bind].
      rewrite write_loop by (rewrite ?length_app, ?length_xored; lia).
      fold o. rewrite xored_twice by exact Lbl.
      assert (Back : firstn o (pre ++ c2) ++ block
                     ++ skipn (o + 16) (pre ++ c2) = r2).
      { rewrite <- Lpre at 1. rewrite firstn_length_app.
        rewrite skipn_all2 by (rewrite length_app; lia).
        rewrite app_nil_r, Epre. unfold block, slice_from. fold o.
        apply firstn_skipn. }
      rewrite Back. cbn [bind]. apply Dec1.
      * unfold r2. rewrite <- Lc1 at 1. apply firstn_length_app.
      * unfold r2. rewrite <- Lc1 at 1.
        rewrite skipn_app, Nat.sub_diag, skipn_all. reflexivity.
      * exact Lr2.
    + apply Z.ltb_ge in L. exists r2. split; [reflexivity|].
      split; [exact Lr2|]. rewrite Lr2.
      replace (16 <? Z.of_nat (length data)) with false
        by (symmetry; now apply Z.ltb_ge).
      cbn [bind]. apply Dec1.
      * unfold r2. rewrite <- Lc1 at 1. apply firstn_length_app.
      * unfold r2. rewrite <- Lc1 at 1.
        rewrite skipn_app, Nat.sub_diag, skipn_all. reflexivity.
      * exact Lr2.
Qed.

End RoundTrip.

(** X12. [GanDecoder.decode] undoes [GanDecoder.encode]: for a message of
    at least 16 bytes, with or without an IV, the encoded message has the
    length of the message and decodes to it.  This covers the messages of
    17 to 31 bytes, whose first and last block overlap. *)
Theorem decode_undoes_encode (self : t) (data : list Z) :
  (forall b, length b = 16%nat -> Forall is_byte b ->
     exists b', encrypt_block self b = Ok b' /\ length b' = 16%nat
                /\ Forall is_byte b' /\ decrypt_block self b' = Ok b) ->
  Forall is_byte (_iv self) ->
  Forall is_byte data -> (16 <= length data)%nat ->
  exists wire,
    encode self data = Ok wire /\ length wire = length data
    /\ decode self wire = Ok data.
Proof. intros H1 H2. now apply roundtrip. Qed.

Lemma decode_undoes_encode_witness :
  exists wire,
    encode {| encrypt_block := fun b => Ok (rev b);
              decrypt_block := fun b => Ok (rev b);
              _iv := [1; 2; 3] |}
           [4; 0; 0; 0; 0; 0; 0; 0; 0; 0; 0; 0; 0; 0; 0; 0; 0; 0; 0; 0]
    = Ok wire
    /\ length wire = 20%nat
    /\ decode {| encrypt_block := fun b => Ok (rev b);
                 decrypt_block := fun b => Ok (rev b);
                 _iv := [1; 2; 3] |} wire
       = Ok [4; 0; 0; 0; 0; 0; 0; 0; 0; 0; 0; 0; 0; 0; 0; 0; 0; 0; 0; 0].
Proof.
  apply (decode_undoes_encode
           {| encrypt_block := fun b => Ok (rev b);
              decrypt_block := fun b => Ok (rev b);
              _iv := [1; 2; 3] |}
           [4; 0; 0; 0; 0; 0; 0; 0; 0; 0; 0; 0; 0; 0; 0; 0; 0; 0; 0; 0]).
  - intros b Hl Hb. exists (rev b). cbn [encrypt_block decrypt_block].
    rewrite length_rev, rev_involutive. repeat split; try assumption.
    now apply Forall_rev.
  - repeat constructor; unfold is_byte; lia.
  - repeat constructor; unfold is_byte; lia.
  - simpl. lia.
Defined.

End GanDecoderFacts.

(** * GAN: the full-state frame is decoded to the cube it carries *)

Module GanFaceletFacts.
Import CubieCube CubieSpec CubieFacts CubeAlgebra CubeAlgebraFacts.
Import GanFaceletSpec.

Lemma all3n_sound (n1 n2 n3 : Z) (p : Z -> Z -> Z -> bool) :
  all3n n1 n2 n3 p = true ->
  forall x y z, 0 <= x < n1 -> 0 <= y < n2 -> 0 <= z < n3 -> p x y z = true.
Proof.
  unfold all3n. intros H x y z Hx Hy Hz.
  rewrite forallb_forall in H. specialize (H x (in_range _ _ Hx)).
  rewrite forallb_forall in H. specialize (H y (in_range _ _ Hy)).
  rewrite forallb_forall in H. exact (H z (in_range _ _ Hz)).
Qed.

(** One round of the corner checksum: the orientation is taken off the
    high part, the piece is folded into the low three bits. *)
Lemma chk_step (u l x : Z) :
  0 <= u < 15 -> 0 <= l < 8 -> 0 <= x < 24 ->
  Z.lxor (8 * (480 - u) + l - Z.shiftl (Z.shiftr x 3) 3) (Z.land x 7)
  = 8 * (480 - (u + Z.shiftr x 3)) + Z.lxor l (Z.land x 7).
Proof.
  intros Hu Hl Hx. apply Z.eqb_eq.
  apply (all3n_sound 15 8 24 (fun u l x =>
    Z.lxor (8 * (480 - u) + l - Z.shiftl (Z.shiftr x 3) 3) (Z.land x 7)
    =? 8 * (480 - (u + Z.shiftr x 3)) + Z.lxor l (Z.land x 7)));
    [vm_compute; reflexivity | assumption ..].
Qed.

Lemma last_corner (u l : Z) :
  0 <= u < 15 -> 0 <= l < 8 ->
  Z.lor (Z.land (8 * (480 - u) + l) 0xFF8 mod 24) (Z.land (8 * (480 - u) + l) 0x7)
  = 8 * ((- u) mod 3) + l.
Proof.
  intros Hu Hl. apply Z.eqb_eq.
  apply (all3n_sound 15 8 1 (fun u l _ =>
    Z.lor (Z.land (8 * (480 - u) + l) 0xFF8 mod 24)
          (Z.land (8 * (480 - u) + l) 0x7)
    =? 8 * ((- u) mod 3) + l) eq_refl u l 0); lia.
Qed.

Lemma entry_parts (x : Z) :
  0 <= x < 24 ->
  Z.lor (Z.shiftl (Z.shiftr x 3) 3) (Z.land x 7) = x
  /\ Z.lor (Z.shiftl (Z.shiftr x 1) 1) (Z.land x 1) = x
  /\ 8 * Z.shiftr x 3 + Z.land x 7 = x
  /\ 0 <= Z.shiftr x 3 < 3 /\ 0 <= Z.land x 7 < 8.
Proof.
  intros Hx. zenum x Hx; repeat split; try reflexivity;
    try (apply Z.leb_le; reflexivity); try (apply Z.ltb_lt; reflexivity).
Qed.

Lemma lxor_low (a b : Z) : 0 <= a < 8 -> 0 <= b < 8 -> 0 <= Z.lxor a b < 8.
Proof.
  intros Ha Hb. zenum a Ha; zenum b Hb; split;
    try (apply Z.leb_le; reflexivity); try (apply Z.ltb_lt; reflexivity).
Qed.

Lemma xsum_snoc (l : list Z) (x : Z) : xsum (l ++ [x]) = Z.lxor (xsum l) x.
Proof. unfold xsum. now rewrite fold_left_app. Qed.

Lemma xsum_perm (l l' : list Z) :
  Permutation l l' -> forall acc, fold_left Z.lxor l acc = fold_left Z.lxor l' acc.
Proof.
  induction 1 as [|x l l' _ IH|x y l|l l' l'' _ IH1 _ IH2]; intros acc; cbn [fold_left].
  - reflexivity.
  - apply IH.
  - f_equal. now rewrite !Z.lxor_assoc, (Z.lxor_comm y x).
  - now rewrite IH1.
Qed.

Lemma xsum_low (l : list Z) :
  Forall (fun x => 0 <= x < 8) l -> 0 <= xsum l < 8.
Proof.
  induction l as [|x l IH] using rev_ind; intros H; [cbn; lia|].
  apply Forall_app in H. destruct H as [H1 H2]. inversion H2; subst.
  rewrite xsum_snoc. apply lxor_low; auto.
Qed.

Lemma zsum_snoc (l : list Z) (x : Z) : zsum (l ++ [x]) = zsum l + x.
Proof.
  unfold zsum. induction l as [|h t IH]; cbn [app fold_right]; [lia|].
  rewrite IH. lia.
Qed.

Lemma shiftr_fold (l : list Z) (acc : Z) :
  Z.shiftr (fold_left Z.lxor l acc) 1
  = fold_left Z.lxor (map (fun x => Z.shiftr x 1) l) (Z.shiftr acc 1).
Proof.
  revert acc. induction l as [|x l IH]; intros acc; cbn [fold_left map];
    [reflexivity|].
  now rewrite IH, Z.shiftr_lxor.
Qed.

Lemma land_fold (l : list Z) (acc : Z) :
  Z.land (fold_left Z.lxor l acc) 1
  = fold_left Z.lxor (map (fun x => Z.land x 1) l) (Z.land acc 1).
Proof.
  revert acc. induction l as [|x l IH]; intros acc; cbn [fold_left map];
    [reflexivity|].
  rewrite IH. f_equal. apply Z.bits_inj'. intros n Hn.
  rewrite Z.land_spec, !Z.lxor_spec, !Z.land_spec.
  now destruct (Z.testbit acc n), (Z.testbit x n), (Z.testbit 1 n).
Qed.

Lemma bit_fold (l : list Z) (acc : Z) :
  Forall (fun x => 0 <= x < 2) l -> 0 <= acc < 2 ->
  fold_left Z.lxor l acc = (acc + zsum l) mod 2.
Proof.
  intros H. revert acc. induction H as [|x l Hx _ IH]; intros acc Ha.
  - cbn. rewrite Z.add_0_r. symmetry. apply Z.mod_small. lia.
  - cbn [fold_left]. rewrite IH.
    + change (zsum (x :: l)) with (x + zsum l).
      assert (E : Z.lxor acc x = (acc + x) mod 2).
      { assert (Ha' : acc = 0 \/ acc = 1) by lia.
        assert (Hx' : x = 0 \/ x = 1) by lia.
        destruct Ha' as [-> | ->], Hx' as [-> | ->]; reflexivity. }
      rewrite E, Z.add_mod_idemp_l by lia. f_equal. lia.
    + assert (Ha' : acc = 0 \/ acc = 1) by lia.
      assert (Hx' : x = 0 \/ x = 1) by lia.
      destruct Ha' as [-> | ->], Hx' as [-> | ->]; cbn; lia.
Qed.

Lemma zero_parts (v : Z) : Z.shiftr v 1 = 0 -> Z.land v 1 = 0 -> v = 0.
Proof.
  intros H1 H2. rewrite Z.shiftr_div_pow2 in H1 by lia.
  change (2 ^ 1) with 2 in H1.
  assert (E : Z.land v 1 = v mod 2).
  { change (Z.land v 1) with (Z.land v (Z.ones 1)). now rewrite Z.land_ones by lia. }
  rewrite E in H2. pose proof (Z.div_mod v 2 ltac:(lia)). lia.
Qed.

(** The entries of a valid cube with even flip sum cancel out. *)
Lemma edges_cancel (c : t) :
  valid c -> edge_flip c mod 2 = 0 -> xsum (ea c) = 0.
Proof.
  intros [_ Hy _ Ry _ Py] Hf. apply zero_parts.
  - unfold xsum. rewrite shiftr_fold. change (Z.shiftr 0 1) with 0.
    rewrite (xsum_perm _ _ Py). reflexivity.
  - unfold xsum. rewrite land_fold. change (Z.land 0 1) with 0.
    rewrite bit_fold; [exact Hf | | lia].
    apply Forall_forall. intros x Hx. apply in_map_iff in Hx.
    destruct Hx as [y [<- _]]. change (Z.land y 1) with (Z.land y (Z.ones 1)).
    rewrite Z.land_ones by lia. apply Z.mod_pos_bound. lia.
Qed.

Lemma corners_cancel (c : t) :
  valid c -> xsum (map (fun x => Z.land x 7) (ca c)) = 0.
Proof.
  intros [_ _ _ _ Px _]. unfold xsum. now rewrite (xsum_perm _ _ Px).
Qed.

Lemma last_entry (l : list Z) (n : nat) :
  length l = Datatypes.S n -> l = firstn n l ++ [nth n l 0].
Proof.
  intros H. rewrite <- (firstn_all l) at 1. rewrite H.
  apply firstn_succ_nth. lia.
Qed.

Lemma Forall_map_in (P : Z -> Prop) (f : Z -> Z) (l : list Z) (Q : Z -> Prop) :
  Forall Q l -> (forall x, Q x -> P (f x)) -> Forall P (map f l).
Proof.
  intros H HP. apply Forall_forall. intros y Hy. apply in_map_iff in Hy.
  destruct Hy as [x [<- Hx]]. apply HP. rewrite Forall_forall in H. auto.
Qed.

Lemma parse_gan_facelet_spec (bits : list bool) (cps cos eps eos : Z) (c : t) :
  valid c -> corner_twist c mod 3 = 0 -> edge_flip c mod 2 = 0 ->
  carries bits cps cos eps eos c ->
  Gan._parse_gan_facelet bits cps cos eps eos = to_facelet c.
Proof.
  intros Hv Ht Hf [Hc He]. pose proof Hv as [Hx Hy Rx Ry Px Py].
  destruct c as [xs ys]. cbn [ca ea] in *.
  unfold Gan._parse_gan_facelet.
  set (osum k := zsum (map (fun x => Z.shiftr x 3) (firstn k xs))).
  set (psum k := xsum (map (fun x => Z.land x 7) (firstn k xs))).
  assert (Rk : forall k, (k < 8)%nat -> 0 <= nth k xs 0 < 24)
    by (intros; apply nth_range; [assumption | lia]).
  assert (Rj : forall k, (k < 12)%nat -> 0 <= nth k ys 0 < 24)
    by (intros; apply nth_range; [assumption | lia]).
  (* the seven corners *)
  match goal with
  | |- context [Py.for_each (range 7) ?body ?init] =>
      destruct (for_each_range_inv
        (fun i st =>
           st = (Cube (firstn (Z.to_nat i) xs ++ skipn (Z.to_nat i) (ca new))
                      (ea new),
                 8 * (480 - osum (Z.to_nat i)) + psum (Z.to_nat i))
           /\ 0 <= osum (Z.to_nat i) <= 2 * i)
        body 7 init ltac:(lia)) as [st1 [E1 [-> B1]]]
  end.
  { split; [reflexivity | cbn; lia]. }
  { intros i st Hi [-> Bo]. cbn [fst snd ca ea].
    destruct (Hc i Hi) as [F1 F2]. rewrite F1. cbn [Py.bind].
    rewrite F2. cbn [Py.bind].
    set (k := Z.to_nat i) in *. set (x := nth k xs 0).
    assert (Hxr : 0 <= x < 24) by (apply Rk; lia).
    destruct (entry_parts x Hxr) as (P1 & _ & _ & P4 & P5).
    rewrite setitem_set by (rewrite length_app, length_firstn, length_skipn;
                            cbn [ca new length]; lia).
    cbn [Py.bind]. rewrite P1. fold k.
    rewrite (list_set_splice 0) by (cbn [ca new length]; lia).
    assert (Pl : 0 <= psum k < 8).
    { apply xsum_low. apply (Forall_map_in _ _ _ (fun x => 0 <= x < 24)).
      - now apply Forall_take.
      - intros y Ry0. now destruct (entry_parts y Ry0) as (_ & _ & _ & _ & ?). }
    rewrite chk_step by (try assumption; lia).
    replace (Z.to_nat (i + 1)) with (Datatypes.S k) by lia.
    assert (Eo : osum (Datatypes.S k) = osum k + Z.shiftr x 3).
    { unfold osum. rewrite (firstn_succ_nth 0) by lia.
      rewrite map_app. cbn [map]. now rewrite zsum_snoc. }
    assert (Ep : psum (Datatypes.S k) = Z.lxor (psum k) (Z.land x 7)).
    { unfold psum. rewrite (firstn_succ_nth 0) by lia.
      rewrite map_app. cbn [map]. now rewrite xsum_snoc. }
    eexists. split; [reflexivity|]. rewrite Eo, Ep. split; [reflexivity | lia]. }
  rewrite E1. cbn [Py.bind fst snd ca ea]. change (Z.to_nat 7) with 7%nat in *.
  (* the eighth corner *)
  assert (Pl : 0 <= psum 7%nat < 8).
  { apply xsum_low. apply (Forall_map_in _ _ _ (fun x => 0 <= x < 24)).
    - now apply Forall_take.
    - intros y Ry0. now destruct (entry_parts y Ry0) as (_ & _ & _ & _ & ?). }
  rewrite last_corner by lia.
  set (x7 := nth 7 xs 0). assert (H7 : 0 <= x7 < 24) by (apply Rk; lia).
  destruct (entry_parts x7 H7) as (_ & _ & Q3 & Q4 & Q5).
  assert (Exs : xs = firstn 7 xs ++ [x7]) by now apply last_entry.
  assert (Ev : 8 * (- osum 7%nat mod 3) + psum 7%nat = x7).
  { assert (Ho : (osum 7%nat + Z.shiftr x7 3) mod 3 = 0).
    { unfold corner_twist in Ht. cbn [ca] in Ht. rewrite Exs in Ht.
      rewrite map_app in Ht. cbn [map] in Ht. now rewrite zsum_snoc in Ht. }
    assert (Hp : Z.lxor (psum 7%nat) (Z.land x7 7) = 0).
    { pose proof (corners_cancel _ Hv) as K. cbn [ca] in K. rewrite Exs in K.
      rewrite map_app in K. cbn [map] in K. now rewrite xsum_snoc in K. }
    apply Z.lxor_eq in Hp. rewrite Hp.
    pose proof (Z.div_mod (osum 7%nat + Z.shiftr x7 3) 3 ltac:(lia)) as Hd.
    rewrite Ho in Hd.
    assert (Hm : - osum 7%nat mod 3 = Z.shiftr x7 3).
    { symmetry.
      apply (Z.mod_unique _ 3 (- ((osum 7%nat + Z.shiftr x7 3) / 3))); lia. }
    rewrite Hm. lia. }
  rewrite Ev. rewrite setitem_set
    by (rewrite length_app, length_firstn; cbn [ca new length skipn]; lia).
  cbn [Py.bind]. change (Z.to_nat 7) with 7%nat.
  unfold x7. rewrite (list_set_splice 0) by (cbn [ca new length]; lia).
  rewrite skipn_all2 by (cbn; lia). rewrite app_nil_r.
  replace (firstn 8 xs) with xs by (symmetry; apply firstn_all2; lia).
  (* the eleven edges *)
  match goal with
  | |- context [Py.for_each (range 11) ?body ?init] =>
      destruct (for_each_range_inv
        (fun i st =>
           st = (Cube xs (firstn (Z.to_nat i) ys ++ skipn (Z.to_nat i) (ea new)),
                 xsum (firstn (Z.to_nat i) ys)))
        body 11 init ltac:(lia)) as [st2 [E2 ->]]
  end.
  { reflexivity. }
  { intros i st Hi ->. cbn [fst snd ca ea].
    destruct (He i Hi) as [F1 F2]. rewrite F1. cbn [Py.bind].
    rewrite F2. cbn [Py.bind].
    set (k := Z.to_nat i) in *. set (y := nth k ys 0).
    assert (Hyr : 0 <= y < 24) by (apply Rj; lia).
    destruct (entry_parts y Hyr) as (_ & P2 & _).
    rewrite setitem_set by (rewrite length_app, length_firstn, length_skipn;
                            cbn [ea new length]; lia).
    cbn [Py.bind]. rewrite P2. fold k.
    rewrite (list_set_splice 0) by (cbn [ea new length]; lia).
    replace (Z.to_nat (i + 1)) with (Datatypes.S k) by lia.
    eexists. split; [reflexivity|].
    now rewrite (firstn_succ_nth 0 ys) by lia; rewrite xsum_snoc. }
  rewrite E2. cbn [Py.bind fst snd ca ea]. change (Z.to_nat 11) with 11%nat.
  (* the twelfth edge *)
  set (y11 := nth 11 ys 0).
  assert (Eys : ys = firstn 11 ys ++ [y11]) by now apply last_entry.
  assert (Ee : xsum (firstn 11 ys) = y11).
  { pose proof (edges_cancel _ Hv Hf) as K. cbn [ea] in K. rewrite Eys in K.
    rewrite xsum_snoc in K. now apply Z.lxor_eq in K. }
  rewrite Ee. rewrite setitem_set
    by (rewrite length_app, length_firstn; cbn [ea new length skipn]; lia).
  cbn [Py.bind]. change (Z.to_nat 11) with 11%nat.
  unfold y11. rewrite (list_set_splice 0) by (cbn [ea new length]; lia).
  rewrite skipn_all2 by (cbn; lia). rewrite app_nil_r.
  replace (firstn 12 ys) with ys by (symmetry; apply firstn_all2; lia).
  reflexivity.
Qed.

(** X13. [_parse_gan_facelet] rebuilds the eighth corner and the twelfth
    edge, which a full-state frame does not carry: when the fields of the
    frame hold the first seven corners and the first eleven edges of a
    reachable cube, the function returns the facelet string of that
    cube. *)
Theorem gan_facelet_frame_decodes (bits : list bool) (cps cos eps eos : Z)
  (c : t) :
  reachable c -> carries bits cps cos eps eos c ->
  Gan._parse_gan_facelet bits cps cos eps eos = to_facelet c.
Proof.
  intros Hr Hc. destruct (reachable_twist c Hr) as (Hv & Ht & Hf).
  now apply parse_gan_facelet_spec.
Qed.

Lemma gan_facelet_frame_decodes_witness :
  Gan._parse_gan_facelet (v2_state_bits (move 5)) 12 33 47 91
  = to_facelet (move 5).
Proof.
  apply (gan_facelet_frame_decodes (v2_state_bits (move 5)) 12 33 47 91 (move 5)).
  - apply (reach_move new (move 5) 5); [apply reach_new | lia | reflexivity].
  - split; intros i Hi; zenum i Hi; split; reflexivity.
Defined.

End GanFaceletFacts.

(** * Registry: lookups by type, by name and by service UUID *)

Module RegistryExtra.
Import Registry RegistrySpec.

(** X14. [get_cube_model] returns the registered model of a registered
    type, so each of the four models is found again under its own type,
    and the first model of the list, Giiker, for every other string; it
    never fails. *)
Theorem get_cube_model_lookup (type : string) :
  (forall m, In m CUBE_MODELS -> get_cube_model (cube_type m) = m)
  /\ (In type (map cube_type CUBE_MODELS) ->
      In (get_cube_model type) CUBE_MODELS
      /\ cube_type (get_cube_model type) = type)
  /\ (~ In type (map cube_type CUBE_MODELS) ->
      get_cube_model type = giiker_model).
Proof.
  split; [|split].
  - intros m Hm. cbv [CUBE_MODELS In] in Hm.
    destruct Hm as [<-|[<-|[<-|[<-|[]]]]]; reflexivity.
  - intros H. cbv [CUBE_MODELS map In] in H. cbn [cube_type] in H.
    destruct H as [<-|[<-|[<-|[<-|[]]]]]; (split; [|reflexivity]);
      vm_compute; tauto.
  - intros H. unfold get_cube_model. destruct (find _ CUBE_MODELS) as [m|] eqn:E;
      [|reflexivity].
    apply find_some in E. destruct E as [Hin Heq]. apply String.eqb_eq in Heq.
    exfalso. apply H. rewrite <- Heq. now apply in_map.
Qed.

Lemma prefix_split (p name : string) :
  String.prefix p name = true -> exists rest, name = (p ++ rest)%string.
Proof.
  revert name. induction p as [|a p IH]; intros name H.
  - now exists name.
  - destruct name as [|b name]; [discriminate|]. cbn [String.prefix] in H.
    destruct (Ascii.ascii_dec a b) as [<-|]; [|discriminate].
    destruct (IH name H) as [rest ->]. now exists rest.
Qed.

Lemma no_uuid (model_uuids : list string) : any_uuid model_uuids [] = false.
Proof.
  unfold any_uuid. induction model_uuids as [|u l IH]; [reflexivity|].
  cbn [existsb]. exact IH.
Qed.

(** X15. An advertisement that carries a name and no service UUID is
    matched to the model that lists a prefix of the name: no name prefix of
    one model shadows a prefix of another. *)
Theorem name_only_advertisement (name : string) (m : CubeModel) :
  In m CUBE_MODELS -> startswith name (name_prefixes m) = true ->
  match_advertisement (Some name) None = Some m
  /\ match_advertisement (Some name) (Some []) = Some m.
Proof.
  intros Hm Hp.
  assert (Hd : forall m', In m' CUBE_MODELS -> m' <> m ->
            startswith name (name_prefixes m') = false).
  { intros m' Hm' Hne. unfold startswith in Hp. apply existsb_exists in Hp.
    destruct Hp as [p [Hin Hpre]]. apply prefix_split in Hpre.
    destruct Hpre as [rest ->].
    cbv [CUBE_MODELS In] in Hm, Hm'.
    destruct Hm as [<-|[<-|[<-|[<-|[]]]]];
      cbv [name_prefixes giiker_model gocube_model gan_model qiyi_model In]
        in Hin;
      repeat (destruct Hin as [E|Hin];
              [subst p;
               destruct Hm' as [<-|[<-|[<-|[<-|[]]]]];
               solve [reflexivity | now contradiction Hne]|]);
      destruct Hin. }
  unfold match_advertisement, CUBE_MODELS. cbn [match_loop].
  rewrite !no_uuid.
  cbv [CUBE_MODELS In] in Hm.
  destruct Hm as [<-|[<-|[<-|[<-|[]]]]].
  - rewrite Hp. split; reflexivity.
  - rewrite (Hd giiker_model) by (try discriminate; simpl; tauto).
    rewrite Hp. split; reflexivity.
  - rewrite (Hd giiker_model), (Hd gocube_model)
      by (try discriminate; simpl; tauto).
    rewrite Hp. split; reflexivity.
  - rewrite (Hd giiker_model), (Hd gocube_model), (Hd gan_model)
      by (try discriminate; simpl; tauto).
    rewrite Hp. split; reflexivity.
Qed.

Lemma name_only_advertisement_witness :
  match_advertisement (Some "GANi3-1234"%string) None = Some gan_model
  /\ match_advertisement (Some "GANi3-1234"%string) (Some []) = Some gan_model.
Proof.
  apply (name_only_advertisement "GANi3-1234" gan_model).
  - simpl. tauto.
  - reflexivity.
Defined.

Lemma any_uuid_cons (u : string) (l uuid_values : list string) :
  any_uuid [u] uuid_values = true -> In u l -> any_uuid l uuid_values = true.
Proof.
  unfold any_uuid. cbn [existsb]. rewrite orb_false_r. intros H Hin.
  apply existsb_exists. exists u. now split.
Qed.

(** X16. The QiYi model is never found through a service UUID: its only
    UUID is also listed by the GAN model, which comes first, so whenever
    [match_advertisement] returns the QiYi model the advertised name
    starts with one of the QiYi prefixes. *)
Theorem qiyi_matched_by_name_only (name : option string)
  (uuids : option (list string)) :
  match_advertisement name uuids = Some qiyi_model ->
  startswith (match name with Some n => n | None => EmptyString end)
             (name_prefixes qiyi_model) = true.
Proof.
  unfold match_advertisement, CUBE_MODELS. cbn [match_loop].
  set (nv := match name with Some n => n | None => EmptyString end).
  set (uv := match uuids with Some l => l | None => [] end).
  destruct (startswith nv (name_prefixes giiker_model)); [discriminate|].
  destruct (any_uuid (service_uuids giiker_model) uv); [discriminate|].
  destruct (startswith nv (name_prefixes gocube_model)); [discriminate|].
  destruct (any_uuid (service_uuids gocube_model) uv); [discriminate|].
  destruct (startswith nv (name_prefixes gan_model)); [discriminate|].
  destruct (any_uuid (service_uuids gan_model) uv) eqn:G; [discriminate|].
  destruct (startswith nv (name_prefixes qiyi_model)); [reflexivity|].
  destruct (any_uuid (service_uuids qiyi_model) uv) eqn:Q; [|discriminate].
  rewrite (any_uuid_cons _ (service_uuids gan_model) uv Q) in G;
    [discriminate | now left].
Qed.

Lemma qiyi_matched_by_name_only_witness :
  startswith "QY-QYSC-A-0001" (name_prefixes qiyi_model) = true.
Proof.
  apply (qiyi_matched_by_name_only (Some "QY-QYSC-A-0001"%string) None).
  reflexivity.
Defined.

End RegistryExtra.

(** * Broadcasts stop at the first subscriber that raises *)

Module BroadcastFacts.
Import St Base BroadcastSpec.

Lemma state_loop (pre post : list state_callback) (s : Base.t) :
  Forall (fun cb => sc_run cb = Ok tt) pre ->
  St.for_each (pre ++ post) (fun callback =>
    modify (emit (StateCall (sc_id callback))) ;;;
    lift (sc_run callback)) s
  = St.for_each post (fun callback =>
      modify (emit (StateCall (sc_id callback))) ;;;
      lift (sc_run callback)) (state_called pre s).
Proof.
  intros H. revert s. induction H as [|cb pre Hcb _ IH]; intros s; [reflexivity|].
  cbn [app St.for_each]. unfold St.bind at 1 2. unfold modify at 1, lift at 1.
  rewrite Hcb. apply IH.
Qed.

Lemma move_loop (movement : string) (pre post : list movement_callback)
  (s : Base.t) :
  Forall (fun cb => mc_run cb movement = Ok tt) pre ->
  St.for_each (pre ++ post) (fun callback =>
    modify (emit (MoveCall (mc_id callback) movement)) ;;;
    lift (mc_run callback movement)) s
  = St.for_each post (fun callback =>
      modify (emit (MoveCall (mc_id callback) movement)) ;;;
      lift (mc_run callback movement)) (move_called movement pre s).
Proof.
  intros H. revert s. induction H as [|cb pre Hcb _ IH]; intros s; [reflexivity|].
  cbn [app St.for_each]. unfold St.bind at 1 2. unfold modify at 1, lift at 1.
  rewrite Hcb. apply IH.
Qed.

(** X17. [_notify_state_change] and [_notify_movement] call the subscribers
    in the order of iteration.  When every subscriber returns, each one is
    called once and the broadcast returns; when one raises, those before it
    and the one that raises have been called, no later one is, and its
    exception leaves the broadcast.  Nothing but the record of the calls
    changes. *)
Theorem broadcast_runs_to_first_failure (s : Base.t) (movement : string) :
  (Forall (fun cb => sc_run cb = Ok tt) (_state_callbacks s) ->
   _notify_state_change s = (Ok tt, state_called (_state_callbacks s) s))
  /\ (forall pre f post e,
        _state_callbacks s = pre ++ f :: post ->
        Forall (fun cb => sc_run cb = Ok tt) pre -> sc_run f = Raise e ->
        _notify_state_change s = (Raise e, state_called (pre ++ [f]) s))
  /\ (Forall (fun cb => mc_run cb movement = Ok tt) (_movement_callbacks s) ->
      _notify_movement movement s
      = (Ok tt, move_called movement (_movement_callbacks s) s))
  /\ (forall pre f post e,
        _movement_callbacks s = pre ++ f :: post ->
        Forall (fun cb => mc_run cb movement = Ok tt) pre ->
        mc_run f movement = Raise e ->
        _notify_movement movement s
        = (Raise e, move_called movement (pre ++ [f]) s)).
Proof.
  repeat split.
  - intros H. unfold _notify_state_change, St.bind at 1, gets.
    rewrite <- (app_nil_r (_state_callbacks s)) at 1.
    now rewrite state_loop.
  - intros pre f post e E H Hf. unfold _notify_state_change, St.bind at 1, gets.
    rewrite E, state_loop by exact H.
    cbn [St.for_each]. unfold St.bind at 1 2. unfold modify at 1, lift at 1.
    rewrite Hf. unfold state_called. now rewrite fold_left_app.
  - intros H. unfold _notify_movement, St.bind at 1, gets.
    rewrite <- (app_nil_r (_movement_callbacks s)) at 1.
    now rewrite move_loop.
  - intros pre f post e E H Hf. unfold _notify_movement, St.bind at 1, gets.
    rewrite E, move_loop by exact H.
    cbn [St.for_each]. unfold St.bind at 1 2. unfold modify at 1, lift at 1.
    rewrite Hf. unfold move_called. now rewrite fold_left_app.
Qed.

End BroadcastFacts.

(** * The base connection: broadcasts that return, and stored strings *)

Module BaseFacts.
Import St Models Base BroadcastSpec.

Lemma called_state_fields (l : list state_callback) (b : Base.t) :
  _data (state_called l b) = _data b
  /\ _state_callbacks (state_called l b) = _state_callbacks b
  /\ _movement_callbacks (state_called l b) = _movement_callbacks b.
Proof.
  unfold state_called. revert b. induction l as [|cb l IH]; intros b; cbn.
  - auto.
  - destruct (IH (emit (StateCall (sc_id cb)) b)) as (H1 & H2 & H3).
    rewrite H1, H2, H3. auto.
Qed.

Lemma called_move_fields (mv : string) (l : list movement_callback) (b : Base.t) :
  _data (move_called mv l b) = _data b
  /\ _state_callbacks (move_called mv l b) = _state_callbacks b
  /\ _movement_callbacks (move_called mv l b) = _movement_callbacks b.
Proof.
  unfold move_called. revert b. induction l as [|cb l IH]; intros b; cbn.
  - auto.
  - destruct (IH (emit (MoveCall (mc_id cb) mv) b)) as (H1 & H2 & H3).
    rewrite H1, H2, H3. auto.
Qed.

Lemma notify_state_returns (b : Base.t) :
  Forall (fun cb => sc_run cb = Ok tt) (_state_callbacks b) ->
  _notify_state_change b = (Ok tt, state_called (_state_callbacks b) b).
Proof.
  intros H. unfold _notify_state_change, St.bind at 1, gets.
  rewrite <- (app_nil_r (_state_callbacks b)) at 1.
  now rewrite BroadcastFacts.state_loop.
Qed.

Lemma notify_movement_returns (mv : string) (b : Base.t) :
  Forall (fun cb => mc_run cb mv = Ok tt) (_movement_callbacks b) ->
  _notify_movement mv b = (Ok tt, move_called mv (_movement_callbacks b) b).
Proof.
  intros H. unfold _notify_movement, St.bind at 1, gets.
  rewrite <- (app_nil_r (_movement_callbacks b)) at 1.
  now rewrite BroadcastFacts.move_loop.
Qed.

Lemma update_data_returns (str : string) (b : Base.t) :
  exists d', Base.update_data str b
             = (Ok tt, set_data d' (set_clock (clock b + 1) b))
    /\ state_string d' = Some str /\ last_move d' = last_move (_data b).
Proof.
  destruct (StateFacts.build_face_states_total str) as [r Hr].
  exists (set_state (Some str) (fst r) (snd r) (clock b) (_data b)).
  split; [|split; reflexivity].
  unfold Base.update_data, St.bind, time_time, gets, lift, modify.
  cbn [_data set_clock]. unfold State.update_cube_state. rewrite Hr.
  reflexivity.
Qed.

Lemma touch_activity_run (b : Base.t) :
  _touch_activity b
  = (Ok tt, set_last_activity (Some (clock b)) (set_clock (clock b + 1) b)).
Proof. reflexivity. Qed.

Lemma bind_returns {S A B : Type} (m : M S A) (k : A -> M S B) (s s1 : S)
  (a : A) :
  m s = (Ok a, s1) -> St.bind m k s = k a s1.
Proof. intros H. unfold St.bind. now rewrite H. Qed.

End BaseFacts.

(** * GoCube: the state message *)

Module GoCubeFacts.
Import St GoCube GoCubeSpec QiYiSpec.

Lemma for_each_app {A S : Type} (xs ys : list A) (body : A -> S -> res S)
  (s : S) :
  Py.for_each (xs ++ ys) body s
  = (s1 <- Py.for_each xs body s ;; Py.for_each ys body s1).
Proof.
  revert s. induction xs as [|x xs IH]; intros s; [reflexivity|].
  cbn [app Py.for_each]. destruct (body x s) as [s1|e]; cbn [Py.bind];
    [apply IH | reflexivity].
Qed.

Lemma for_each_flat_map {A B S : Type} (F : A -> list B) (xs : list A)
  (body : B -> S -> res S) (s : S) :
  Py.for_each (flat_map F xs) body s
  = Py.for_each xs (fun a s => Py.for_each (F a) body s) s.
Proof.
  revert s. induction xs as [|x xs IH]; intros s; [reflexivity|].
  cbn [flat_map Py.for_each]. rewrite for_each_app.
  destruct (Py.for_each (F x) body s) as [s1|e]; cbn [Py.bind];
    [apply IH | reflexivity].
Qed.

Ltac tables :=
  repeat first
    [ progress cbn [Py.bind Py.for_each]
    | match goal with
      | |- context [getitem AXIS_PERM ?k] =>
          let v := eval vm_compute in (getitem AXIS_PERM k) in
          change (getitem AXIS_PERM k) with v
      | |- context [getitem FACE_OFFSET ?k] =>
          let v := eval vm_compute in (getitem FACE_OFFSET k) in
          change (getitem FACE_OFFSET k) with v
      | |- context [getitem FACE_PERM ?k] =>
          let v := eval vm_compute in (getitem FACE_PERM k) in
          change (getitem FACE_PERM k) with v
      end ].

Ltac head m :=
  lazymatch m with
  | Py.bind ?m' _ => head m'
  | _ => m
  end.

Ltac chase :=
  repeat lazymatch goal with
         | |- Py.bind ?m _ = _ =>
             let h := head m in
             destruct h; cbn [Py.bind]; [|reflexivity]
         end.

(** The nested loops write the 54 tiles one after the other. *)
Lemma fill_facelet_flat (data : list Z) :
  fill_facelet data
  = Py.for_each (range 54) (write_tile data) (repeat "?"%char 54).
Proof.
  unfold fill_facelet.
  change (range 54)
    with (flat_map (fun a => map (fun j => a * 9 + j) (range 9)) (range 6)).
  rewrite for_each_flat_map. apply for_each_ext_in. intros a f Ha.
  apply range_in in Ha. change (range 8) with [0; 1; 2; 3; 4; 5; 6; 7].
  unfold write_tile.
  zenum a Ha; tables; cbv - [Py.bind getitem str_getitem setitem]; chase;
    reflexivity.
Qed.

(** A loop that computes a value per round and stores it at a position of
    its own. *)
Lemma scatter_loop {A : Type} (g : Z -> res A) (h : Z -> A) (pos : Z -> Z)
  (xs : list Z) (f0 : list A) :
  (forall k, In k xs -> 0 <= pos k < Z.of_nat (length f0)) ->
  (forall k, In k xs -> g k = Ok (h k) \/ g k = Raise IndexError) ->
  Py.for_each xs (fun k f => x <- g k ;; setitem f (pos k) x) f0
  = if forallb (fun k => is_ok (g k)) xs
    then Ok (fold_left (fun f k => list_set f (Z.to_nat (pos k)) (h k)) xs f0)
    else Raise IndexError.
Proof.
  revert f0. induction xs as [|k xs IH]; intros f0 Hp Hg; [reflexivity|].
  cbn [Py.for_each forallb fold_left].
  destruct (Hg k (or_introl eq_refl)) as [E|E]; rewrite E;
    cbn [Py.bind is_ok andb]; [|reflexivity].
  rewrite setitem_set by (apply Hp; now left). cbn [Py.bind].
  apply IH.
  - intros j Hj. rewrite length_list_set. apply Hp. now right.
  - intros j Hj. apply Hg. now right.
Qed.

Lemma scatter_table {A : Type} (h : Z -> A) (d : A) :
  fold_left (fun f k =>
               list_set f (Z.to_nat (nth (Z.to_nat k) write_positions 0)) (h k))
            (range 54) (repeat d 54)
  = map h tile_sources.
Proof. vm_compute. reflexivity. Qed.

Lemma read_tile (data : list Z) (k : Z) :
  Forall is_byte data -> 57 <= len data -> 0 <= k < 54 ->
  (b <- getitem data (3 + k) ;; str_getitem "BFUDRL" b)
  = if tile data k <? 6 then Ok (letter (tile data k)) else Raise IndexError.
Proof.
  intros Hb Hl Hk. unfold len in Hl.
  rewrite (getitem_nth 0) by lia. cbn [Py.bind]. fold (tile data k).
  assert (Ht : 0 <= tile data k).
  { rewrite Forall_forall in Hb. apply Hb. apply nth_In. lia. }
  unfold str_getitem. destruct (tile data k <? 6) eqn:L.
  - apply Z.ltb_lt in L. apply getitem_nth. cbn. lia.
  - apply Z.ltb_ge in L. apply getitem_out. cbn. lia.
Qed.

Lemma fill_facelet_spec (data : list Z) :
  Forall is_byte data -> 57 <= len data ->
  fill_facelet data
  = if tiles_valid data then Ok (chars (state_of data)) else Raise IndexError.
Proof.
  intros Hb Hl. rewrite fill_facelet_flat.
  rewrite (for_each_ext_in _ _
    (fun k f =>
       x <- (b <- getitem data (3 + k) ;; str_getitem "BFUDRL" b) ;;
       setitem f (nth (Z.to_nat k) write_positions 0) x)).
  - rewrite (scatter_loop _ (fun k => letter (tile data k))).
    + rewrite scatter_table. unfold tiles_valid, state_of. rewrite chars_join.
      rewrite (forallb_ext_in (range 54) _ (fun k => tile data k <? 6));
        [reflexivity|].
      intros k Hk. apply range_in in Hk. rewrite read_tile by assumption.
      now destruct (tile data k <? 6).
    + intros k Hk. apply range_in in Hk. rewrite repeat_length.
      zenum k Hk; (split; [apply Z.leb_le | apply Z.ltb_lt]; reflexivity).
    + intros k Hk. apply range_in in Hk. rewrite read_tile by assumption.
      destruct (tile data k <? 6); auto.
  - intros k f Hk. unfold write_tile.
    destruct (getitem data (3 + k)) as [b|e]; [|reflexivity]. cbn [Py.bind].
    now destruct (str_getitem "BFUDRL" b).
Qed.

(** X18. A GoCube state message of at least 57 bytes sets each of the 54
    facelets exactly once.  When its 54 tile bytes are all below 6 the
    state string is the letters B, F, U, D, R, L of the tiles in the order
    of a fixed permutation, and the handler goes on to decode, store and
    announce it; when a tile byte is 6 or more the handler raises
    [IndexError] and leaves the adapter as it was. *)
Theorem gocube_state_message (data : list Z) (s : t) :
  Forall is_byte data -> 57 <= len data ->
  Permutation tile_sources (range 54)
  /\ if tiles_valid data
     then fill_facelet data = Ok (chars (state_of data))
          /\ String.length (state_of data) = 54%nat
          /\ _handle_state_message data s
             = (from_facelet (state_of data) ;;;
                on_base (Base.update_data (state_of data)) ;;;
                on_base Base._touch_activity ;;;
                on_base Base._notify_state_change) s
     else _handle_state_message data s = (Raise IndexError, s).
Proof.
  intros Hb Hl. split.
  - apply (CubieFacts.covers_perm tile_sources 54); reflexivity.
  - pose proof (fill_facelet_spec data Hb Hl) as E.
    assert (Hh : _handle_state_message data s
                 = (facelet <~ lift (fill_facelet data) ;;
                    from_facelet (join facelet) ;;;
                    on_base (Base.update_data (join facelet)) ;;;
                    on_base Base._touch_activity ;;;
                    on_base Base._notify_state_change) s).
    { unfold _handle_state_message.
      replace (len data <? 3 + 6 * 9) with false; [reflexivity|].
      symmetry. apply Z.ltb_ge. lia. }
    rewrite Hh. destruct (tiles_valid data); rewrite E.
    + split; [reflexivity|]. split.
      * unfold state_of. now rewrite CubieFacts.length_join, length_map.
      * unfold St.bind at 1. unfold lift at 1.
        unfold state_of at 1 2. now rewrite chars_join.
    + reflexivity.
Qed.

Lemma gocube_state_message_witness :
  Permutation tile_sources (range 54)
  /\ if tiles_valid solved_message
     then fill_facelet solved_message = Ok (chars (state_of solved_message))
          /\ String.length (state_of solved_message) = 54%nat
          /\ _handle_state_message solved_message GoCube.new
             = (from_facelet (state_of solved_message) ;;;
                on_base (Base.update_data (state_of solved_message)) ;;;
                on_base Base._touch_activity ;;;
                on_base Base._notify_state_change) GoCube.new
     else _handle_state_message solved_message GoCube.new
          = (Raise IndexError, GoCube.new).
Proof.
  apply (gocube_state_message solved_message GoCube.new).
  - repeat constructor; unfold is_byte; lia.
  - vm_compute. discriminate.
Defined.

End GoCubeFacts.

(** * GAN v1: the state string read at connection *)

Module GanV1Facts.
Import GanV1 GanV1Spec QiYiSpec StateStringSpec.

Lemma letter6 (v : Z) :
  0 <= v ->
  str_getitem "URFDLB" v = if v <? 6 then Ok (letter v) else Raise IndexError.
Proof.
  intros Hv. unfold str_getitem. destruct (v <? 6) eqn:L.
  - apply Z.ltb_lt in L. apply getitem_nth. cbn. lia.
  - apply Z.ltb_ge in L. apply getitem_out. cbn. lia.
Qed.

Lemma div3 (f : Z) : 3 * f / 3 = f.
Proof. rewrite (Z.mul_comm 3 f). apply Z.div_mul. lia. Qed.

Lemma colour_nonneg (face j : Z) : 0 <= colour face j.
Proof.
  unfold colour. change 0x7 with (Z.ones 3). rewrite Z.land_ones by lia.
  apply Z.mod_pos_bound. lia.
Qed.

Lemma face_loop_spec (face f : Z) (state : list ascii) :
  0 <= f < 6 ->
  face_loop face (3 * f) state
  = if face_valid face then Ok (state ++ face_chars face f)
    else Raise IndexError.
Proof.
  intros Hf. unfold face_loop, face_valid, shifts.
  cbn [Py.for_each forallb]. fold (colour face 21) (colour face 18)
    (colour face 15) (colour face 12) (colour face 9) (colour face 6)
    (colour face 3) (colour face 0).
  rewrite div3.
  rewrite !letter6 by (try apply colour_nonneg; lia).
  replace (f <? 6) with true by (symmetry; apply Z.ltb_lt; lia).
  change (21 =? 12) with false. change (18 =? 12) with false.
  change (15 =? 12) with false. change (12 =? 12) with true.
  change (9 =? 12) with false. change (6 =? 12) with false.
  change (3 =? 12) with false. change (0 =? 12) with false.
  cbv beta iota.
  destruct (colour face 21 <? 6); cbn [Py.bind andb]; [|reflexivity].
  destruct (colour face 18 <? 6); cbn [Py.bind andb]; [|reflexivity].
  destruct (colour face 15 <? 6); cbn [Py.bind andb]; [|reflexivity].
  destruct (colour face 12 <? 6); cbn [Py.bind andb]; [|reflexivity].
  destruct (colour face 9 <? 6); cbn [Py.bind andb]; [|reflexivity].
  destruct (colour face 6 <? 6); cbn [Py.bind andb]; [|reflexivity].
  destruct (colour face 3 <? 6); cbn [Py.bind andb]; [|reflexivity].
  destruct (colour face 0 <? 6); cbn [Py.bind andb]; [|reflexivity].
  unfold face_chars. cbn [map app]. rewrite <- !app_assoc. reflexivity.
Qed.

(** A loop that appends one chunk per round, or raises. *)
Lemma append_loop {A : Type} (ok : Z -> bool) (chunk : Z -> list A)
  (body : Z -> list A -> res (list A)) (xs : list Z) (st : list A) :
  (forall i st, In i xs ->
     body i st = if ok i then Ok (st ++ chunk i) else Raise IndexError) ->
  Py.for_each xs body st
  = if forallb ok xs then Ok (st ++ flat_map chunk xs) else Raise IndexError.
Proof.
  revert st. induction xs as [|x xs IH]; intros st H.
  - cbn. now rewrite app_nil_r.
  - cbn [Py.for_each forallb flat_map]. rewrite H by now left.
    destruct (ok x); cbn [Py.bind andb]; [|reflexivity].
    rewrite IH by (intros; apply H; now right). now rewrite <- app_assoc.
Qed.

Lemma v1_state_string_spec (decoded : list Z) :
  18 <= len decoded <= 20 ->
  v1_state_string decoded
  = if v1_valid decoded
    then Ok (join (flat_map (fun f => face_chars (face_word decoded f) f)
                            (range 6)))
    else Raise IndexError.
Proof.
  intros Hl. unfold v1_state_string.
  assert (R : range3 0 (len decoded - 2) 3 = map (fun f => 3 * f) (range 6)).
  { assert (E : len decoded = 18 \/ len decoded = 19 \/ len decoded = 20) by lia.
    destruct E as [-> | [-> | ->]]; reflexivity. }
  rewrite R.
  rewrite (append_loop
    (fun i => face_valid (face_word decoded (i / 3)))
    (fun i => face_chars (face_word decoded (i / 3)) (i / 3))).
  - unfold v1_valid. change (range 6) with [0; 1; 2; 3; 4; 5].
    cbn [map forallb flat_map]. rewrite !div3.
    now destruct (_ && _).
  - intros i st Hi. apply in_map_iff in Hi. destruct Hi as [f [<- Hf]].
    apply range_in in Hf.
    rewrite !div3. unfold len in Hl.
    assert (B : forall k, 0 <= k < 3 ->
              0 <= Z.lxor (3 * f + k) 1 < 18).
    { intros k Hk. zenum f Hf; zenum k Hk;
        (split; [apply Z.leb_le | apply Z.ltb_lt]; reflexivity). }
    pose proof (B 0 ltac:(lia)) as B0. rewrite Z.add_0_r in B0.
    pose proof (B 1 ltac:(lia)) as B1. pose proof (B 2 ltac:(lia)) as B2.
    rewrite !(getitem_nth 0) by lia. cbn [Py.bind].
    rewrite face_loop_spec by exact Hf.
    unfold face_word. now rewrite Z.add_0_r.
Qed.

Lemma letter_in (v : Z) : 0 <= v < 6 -> In (letter v) (chars "URFDLB").
Proof. intros Hv. zenum v Hv; cbn; tauto. Qed.

Lemma face_chars_in (face f : Z) (x : ascii) :
  face_valid face = true -> 0 <= f < 6 ->
  In x (face_chars face f) -> In x (chars "URFDLB").
Proof.
  intros Hv Hf Hx. unfold face_valid in Hv. rewrite forallb_forall in Hv.
  assert (C : forall j, In j shifts -> In (letter (colour face j)) (chars "URFDLB")).
  { intros j Hj. apply letter_in. split; [apply colour_nonneg|].
    apply Z.ltb_lt. now apply Hv. }
  unfold face_chars in Hx. apply in_app_or in Hx. destruct Hx as [Hx|Hx].
  - apply in_map_iff in Hx. destruct Hx as [j [<- Hj]]. apply C.
    unfold shifts. cbn in Hj |- *. tauto.
  - apply in_app_or in Hx. destruct Hx as [[<-|[]]|Hx]; [now apply letter_in|].
    apply in_map_iff in Hx. destruct Hx as [j [<- Hj]]. apply C.
    unfold shifts. cbn in Hj |- *. tauto.
Qed.

(** X19. The state string that the GAN v1 adapter builds from the 18 to 20
    bytes read at connection has 54 characters out of U, R, F, D, L, B and
    the centres U, R, F, D, L, B at tiles 4, 13, 22, 31, 40, 49, whenever
    each of the 48 three-bit colour fields is below 6; when a field is 6
    or 7 the function raises [IndexError]. *)
Theorem v1_state_string_shape (decoded : list Z) :
  18 <= len decoded <= 20 ->
  if v1_valid decoded
  then exists s, v1_state_string decoded = Ok s /\ well_formed FromEngine s
  else v1_state_string decoded = Raise IndexError.
Proof.
  intros Hl. rewrite v1_state_string_spec by exact Hl.
  destruct (v1_valid decoded) eqn:V; [|reflexivity].
  eexists. split; [reflexivity|].
  unfold v1_valid in V. rewrite forallb_forall in V.
  split; [|split].
  - rewrite CubieFacts.length_join. reflexivity.
  - rewrite chars_join. apply Forall_forall. intros x Hx.
    apply in_flat_map in Hx. destruct Hx as [f [Hf Hx]].
    apply (face_chars_in (face_word decoded f) f);
      [now apply V | now apply range_in | exact Hx].
  - intros _. unfold centres_fixed, str_getitem. rewrite chars_join.
    repeat constructor.
Qed.

Lemma v1_state_string_shape_witness :
  if v1_valid GanV1Spec.solved_read
  then exists s,
         v1_state_string GanV1Spec.solved_read = Ok s
         /\ well_formed FromEngine s
  else v1_state_string GanV1Spec.solved_read = Raise IndexError.
Proof.
  apply (v1_state_string_shape
           GanV1Spec.solved_read).
  vm_compute. split; discriminate.
Defined.

End GanV1Facts.

(** * Every stored state string *)

Module StoredStrings.
Import St CubieCube StateStringSpec QiYiSpec StateStringFacts.

(** *** GoCube state messages *)

Lemma tile_sources_range :
  Forall (fun k => 0 <= k < 54) GoCubeSpec.tile_sources.
Proof. unfold GoCubeSpec.tile_sources. repeat constructor; lia. Qed.

Lemma gocube_letter_in (v : Z) :
  0 <= v < 6 -> In (GoCubeSpec.letter v) (chars "URFDLB").
Proof. intros Hv. zenum v Hv; cbn; tauto. Qed.

Lemma gocube_well_formed (data : list Z) (facelet : list ascii) :
  Forall is_byte data ->
  (GoCube.len data <? 3 + 6 * 9) = false ->
  GoCube.fill_facelet data = Ok facelet ->
  well_formed FromGoCube (join facelet).
Proof.
  intros Hb Hl H. apply Z.ltb_ge in Hl.
  assert (Hl' : 57 <= GoCube.len data) by lia.
  rewrite (GoCubeFacts.fill_facelet_spec data Hb Hl') in H.
  destruct (GoCubeSpec.tiles_valid data) eqn:V; [|discriminate].
  assert (F : facelet = chars (GoCubeSpec.state_of data)) by congruence.
  rewrite F. clear F H. unfold GoCubeSpec.state_of. rewrite chars_join.
  unfold GoCubeSpec.tiles_valid in V. rewrite forallb_forall in V.
  split; [|split].
  - now rewrite CubieFacts.length_join, length_map.
  - rewrite chars_join, Forall_map.
    pose proof tile_sources_range as R. revert R. apply Forall_impl.
    intros k Hk. apply gocube_letter_in. split.
    + unfold GoCubeSpec.tile. rewrite Forall_forall in Hb. apply Hb.
      apply nth_In. unfold GoCube.len in Hl'. lia.
    + apply Z.ltb_lt. apply V. now apply in_range.
  - discriminate.
Qed.

(** *** The read of protocol v1 *)

Lemma for_each_map_seq_ok {S : Type} (g : nat -> Z) (P : nat -> S -> Prop)
  (body : Z -> S -> res S) (m a : nat) (s s' : S) :
  P a s ->
  (forall k s0 s1, P k s0 -> body (g k) s0 = Ok s1 -> P (Datatypes.S k) s1) ->
  Py.for_each (map g (seq a m)) body s = Ok s' -> P (a + m)%nat s'.
Proof.
  intros H0 Hstep. revert a s H0. induction m as [|m IH]; intros a s H0 H.
  - injection H as <-. now rewrite Nat.add_0_r.
  - cbn [seq map Py.for_each] in H. bind_inv H.
    rewrite <- Nat.add_succ_comm. eapply IH; [|exact H]. eauto.
Qed.

(** One round of the loop for every three bytes. *)
Lemma read_rounds (n : nat) :
  range3 0 (Z.of_nat n - 2) 3
  = map (fun k => 3 * Z.of_nat k) (seq 0 (n / 3)).
Proof.
  unfold range3.
  replace (Z.of_nat n - 2 - 0 + 3 - 1) with (Z.of_nat n) by lia.
  replace (Z.to_nat (Z.of_nat n / 3)) with (n / 3)%nat
    by (rewrite <- (Nat2Z.id (n / 3)), Nat2Z.inj_div; reflexivity).
  apply map_ext. intros k. lia.
Qed.

Lemma getitem_ok_nth {A : Type} (d : A) (l : list A) (i : Z) (x : A) :
  0 <= i -> getitem l i = Ok x -> x = nth (Z.to_nat i) l d.
Proof.
  intros Hi H. pose proof (getitem_ok_bound _ _ _ Hi H) as Hb.
  rewrite (getitem_nth d) in H by lia. now injection H.
Qed.

(** There is no seventh face: the centre of a face behind the sixth has no
    letter. *)
Lemma face_loop_beyond (face f : Z) (state : list ascii) :
  6 <= f -> GanV1.face_loop face (3 * f) state = Raise IndexError.
Proof.
  intros Hf. unfold GanV1.face_loop, GanV1.shifts.
  cbn [Py.for_each]. rewrite GanV1Facts.div3.
  change (21 =? 12) with false. change (18 =? 12) with false.
  change (15 =? 12) with false. change (12 =? 12) with true.
  cbv beta iota.
  assert (E : str_getitem "URFDLB" f = Raise IndexError)
    by (apply getitem_out; cbn; lia).
  rewrite E.
  destruct (str_getitem "URFDLB" (Z.land (Z.shiftr face 21) 7)) as [c1|e1] eqn:E1;
    [|now rewrite (getitem_raise _ _ _ E1)]. cbn [Py.bind].
  destruct (str_getitem "URFDLB" (Z.land (Z.shiftr face 18) 7)) as [c2|e2] eqn:E2;
    [|now rewrite (getitem_raise _ _ _ E2)]. cbn [Py.bind].
  destruct (str_getitem "URFDLB" (Z.land (Z.shiftr face 15) 7)) as [c3|e3] eqn:E3;
    [|now rewrite (getitem_raise _ _ _ E3)]. cbn [Py.bind].
  destruct (str_getitem "URFDLB" (Z.land (Z.shiftr face 12) 7)) as [c4|e4] eqn:E4;
    [|now rewrite (getitem_raise _ _ _ E4)]. cbn [Py.bind].
  reflexivity.
Qed.

Lemma lxor_one_nonneg (i : Z) : 0 <= i -> 0 <= Z.lxor i 1.
Proof. intros Hi. apply Z.lxor_nonneg. lia. Qed.

(** The string of a read in closed form: the faces that the bytes reach,
    at most six, each with valid colours. *)
Lemma v1_read_closed (decoded : list Z) (s : string) :
  GanV1.v1_state_string decoded = Ok s ->
  let faces := map Z.of_nat (seq 0 (length decoded / 3)) in
  (length decoded / 3 <= 6)%nat
  /\ Forall (fun f => 0 <= f < 6
               /\ GanV1Spec.face_valid (GanV1Spec.face_word decoded f) = true)
            faces
  /\ s = join (flat_map (fun f =>
                 GanV1Spec.face_chars (GanV1Spec.face_word decoded f) f) faces).
Proof.
  unfold GanV1.v1_state_string, GanV1.len. rewrite read_rounds.
  intros H. bind_inv H. injection H as <-.
  apply (for_each_map_seq_ok (fun k => 3 * Z.of_nat k)
    (fun k st =>
       (k <= 6)%nat
       /\ Forall (fun f => 0 <= f < 6
                    /\ GanV1Spec.face_valid (GanV1Spec.face_word decoded f) = true)
                 (map Z.of_nat (seq 0 k))
       /\ st = flat_map (fun f =>
                 GanV1Spec.face_chars (GanV1Spec.face_word decoded f) f)
                 (map Z.of_nat (seq 0 k)))) in E.
  - cbn [Nat.add] in E. destruct E as (K & V & ->). auto.
  - split; [lia|]. split; [constructor | reflexivity].
  - intros k s0 s1 (K & V & ->) Hb.
    set (f := Z.of_nat k) in *. assert (Hf : 0 <= f) by (unfold f; lia).
    bind_inv Hb. bind_inv Hb. bind_inv Hb.
    apply (getitem_ok_nth 0) in E0; [|apply lxor_one_nonneg; lia].
    apply (getitem_ok_nth 0) in E1; [|apply lxor_one_nonneg; lia].
    apply (getitem_ok_nth 0) in E2; [|apply lxor_one_nonneg; lia].
    subst a0 a1 a2.
    assert (W : Z.lor (Z.lor (Z.shiftl (nth (Z.to_nat (Z.lxor (3 * f) 1)) decoded 0) 16)
                             (Z.shiftl (nth (Z.to_nat (Z.lxor (3 * f + 1) 1)) decoded 0) 8))
                      (nth (Z.to_nat (Z.lxor (3 * f + 2) 1)) decoded 0)
                = GanV1Spec.face_word decoded f)
      by (unfold GanV1Spec.face_word; now rewrite Z.add_0_r).
    rewrite W in Hb.
    destruct (Z_lt_le_dec f 6) as [L|L];
      [|rewrite face_loop_beyond in Hb by exact L; discriminate].
    rewrite GanV1Facts.face_loop_spec in Hb by lia.
    destruct (GanV1Spec.face_valid (GanV1Spec.face_word decoded f)) eqn:Vf;
      [|discriminate].
    injection Hb as <-.
    rewrite seq_S, map_app, flat_map_app. cbn [Nat.add map flat_map].
    fold f. rewrite app_nil_r. split; [unfold f in L; lia|]. split; [|reflexivity].
    apply Forall_app. split; [exact V|]. constructor; [|constructor]. auto.
Qed.

Lemma read_has_shape (decoded : list Z) (s : string) :
  GanV1.v1_state_string decoded = Ok s -> read_shape (length decoded) s.
Proof.
  intros H. apply v1_read_closed in H. cbv zeta in H.
  destruct H as (K & V & ->). unfold read_shape.
  assert (N : (length decoded <= 20)%nat).
  { pose proof (Nat.div_mod_eq (length decoded) 3) as D.
    pose proof (Nat.mod_upper_bound (length decoded) 3 ltac:(lia)) as M. lia. }
  split; [exact N|].
  split; [|split].
  - rewrite CubieFacts.length_join.
    remember (length decoded / 3)%nat as m eqn:Em. clear Em V N.
    destruct m as [|[|[|[|[|[|[|m]]]]]]]; [reflexivity.. | lia].
  - rewrite chars_join. apply Forall_forall. intros x Hx.
    apply in_flat_map in Hx. destruct Hx as [f [Hf Hx]].
    rewrite Forall_forall in V. destruct (V f Hf) as [Rf Vf].
    exact (GanV1Facts.face_chars_in _ f x Vf Rf Hx).
  - unfold str_getitem. rewrite chars_join.
    remember (length decoded / 3)%nat as m eqn:Em. clear Em V N.
    destruct m as [|[|[|[|[|[|[|m]]]]]]]; [repeat constructor.. | lia].
Qed.

(** C3, as the code has it.  A state string built by Giiker's
    [_build_state] has length 54, holds U, R, F, D, L, B at tiles 4, 13, 22,
    31, 40, 49, and consists of the six face letters and the unknown-tile
    marker [?]; one made by [to_facelet] has length 54, only the six face
    letters and the same fixed centres; one decoded by QiYi's
    [_parse_facelet] or filled by GoCube's [_handle_state_message] has
    length 54 and only the six face letters, its centres being what the
    message carries; and the one that GAN's [_request_v1_state] builds
    from a read of [n] bytes, which are at most 20, has nine characters
    for every three bytes read, only the six face letters, and the letter
    of each face it holds at the centre of that face. *)
Theorem stored_state_string_shape (src : source) (s : string) :
  produced src s -> shape src s.
Proof.
  intros [st s0 fs b H | c s0 H | face_msg s0 H
         | data facelet Hb Hl H | decoded s0 H]; cbn [shape].
  - now apply (giiker_well_formed st s0 fs b).
  - now apply (engine_well_formed c).
  - now apply (qiyi_well_formed face_msg).
  - now apply (gocube_well_formed data).
  - now apply read_has_shape.
Qed.

Lemma stored_state_string_shape_witness :
  shape (FromGanRead 17) "UUUUUUUUUUUUURUUUUUUUUFUUUUUUUUDUUUUUUUULUUUU".
Proof.
  apply (stored_state_string_shape (FromGanRead 17)).
  apply (gan_read gan_short_read).
  reflexivity.
Defined.

(** C3 as worded fails in four ways.  Giiker stores a string with [?] for
    tiles it could not place (here every tile but the centres, from a
    payload of zeros); QiYi and GoCube store the centre tiles as the
    message gives them (here R at tile 4 of a QiYi string and F at tile 13
    of a GoCube string); and the GAN adapter of protocol v1 stores nine
    characters for every three bytes of its read (here 45 characters from
    a read of 17 bytes). *)
Lemma stored_strings_outside_claim :
  (exists s,
     Models.state_string
       (Base._data (snd (Giiker._cube_notification_handler
                           giiker_zero_payload Base.new))) = Some s
     /\ str_getitem s 0 = Ok "?"%char
     /\ ~ Forall (fun ch => In ch (chars "URFDLB")) (chars s))
  /\ (exists s,
       QiYi._parse_facelet qiyi_tiles = Ok s
       /\ str_getitem s 4 = Ok "R"%char
       /\ ~ centres_fixed s)
  /\ (exists s,
       Models.state_string
         (Base._data (GoCube.base
            (snd (GoCube._notification_handler gocube_turned_message
                    GoCube.new)))) = Some s
       /\ str_getitem s 13 = Ok "F"%char
       /\ ~ centres_fixed s)
  /\ (exists s,
       Models.state_string
         (Base._data (Gan.base
            (snd (GanV1._request_v1_state gan_short_read
                    (GanSpec.listening "v1" 0))))) = Some s
       /\ String.length s = 45%nat).
Proof.
  split; [|split; [|split]].
  - eexists. split; [reflexivity|]. split; [reflexivity|].
    intros H. inversion H as [|ch l Hin _]; subst. cbv in Hin.
    intuition discriminate.
  - eexists. split; [reflexivity|]. split; [reflexivity|].
    intros H. inversion H as [|p ch ps cs Hc _]; subst.
    cbv in Hc. discriminate.
  - eexists. split; [vm_compute; reflexivity|]. split; [reflexivity|].
    intros H. inversion H as [|p ch ps cs _ H1]; subst.
    inversion H1 as [|p1 ch1 ps1 cs1 Hc _]; subst.
    cbv in Hc. discriminate.
  - eexists. split; [vm_compute; reflexivity|]. reflexivity.
Qed.

End StoredStrings.

(** * LZString: the alphabet, the key strings, termination *)

Module LzFacts.
Import LzString LzSpec.

Lemma bit_reverse_word (v : Z) :
  0 <= v < 65536 ->
  0 <= _bit_reverse_16 v < 65536 /\ _bit_reverse_16 (_bit_reverse_16 v) = v.
Proof.
  intros Hv.
  pose proof (QiYiCrc.all_words
    (fun v => (0 <=? _bit_reverse_16 v) && (_bit_reverse_16 v <? 65536)
              && (_bit_reverse_16 (_bit_reverse_16 v) =? v))
    ltac:(vm_compute; reflexivity) v Hv) as H.
  rewrite !andb_true_iff in H. destruct H as [[H1 H2] H3].
  apply Z.leb_le in H1. apply Z.ltb_lt in H2. apply Z.eqb_eq in H3. lia.
Qed.

Lemma rev6_spec (i : Z) :
  0 <= i < 64 -> 0 <= rev6 i < 64 /\ rev6 (rev6 i) = i.
Proof.
  intros Hi.
  assert (H : forallb (fun i => (0 <=? rev6 i) && (rev6 i <? 64)
                                && (rev6 (rev6 i) =? i)) (range 64) = true)
    by (vm_compute; reflexivity).
  rewrite forallb_forall in H. specialize (H i (in_range _ _ Hi)).
  rewrite !andb_true_iff in H. destruct H as [[H1 H2] H3].
  apply Z.leb_le in H1. apply Z.ltb_lt in H2. apply Z.eqb_eq in H3. lia.
Qed.

Lemma alpha_reverse_spec (alphabet : string) :
  (64 <= String.length alphabet)%nat ->
  _alpha_reverse alphabet
  = Ok (join (map (fun i => nth (Z.to_nat (rev6 i)) (chars alphabet) "?"%char)
                  (range 64))).
Proof.
  intros Hl. unfold _alpha_reverse.
  rewrite (collect_loop _
    (fun i => nth (Z.to_nat (rev6 i)) (chars alphabet) "?"%char)).
  - replace (forallb _ (range 64)) with true; [reflexivity|].
    symmetry. apply forallb_forall. intros i Hi. apply range_in in Hi.
    destruct (rev6_spec i Hi) as [R _]. unfold str_getitem. fold (rev6 i).
    now rewrite (getitem_nth "?"%char) by (rewrite length_chars; lia).
  - intros i Hi. apply range_in in Hi. destruct (rev6_spec i Hi) as [R _].
    left. unfold str_getitem. fold (rev6 i).
    now rewrite (getitem_nth "?"%char) by (rewrite length_chars; lia).
Qed.

(** X20. [_bit_reverse_16] maps 16-bit values to 16-bit values and is its
    own inverse.  On an alphabet of at least 64 characters [_alpha_reverse]
    returns 64 characters, a rearrangement of the first 64 of the
    alphabet (what follows them is dropped), and applied to its own result
    it gives those 64 back; on a shorter alphabet it raises
    [IndexError]. *)
Theorem alpha_reverse_permutes (alphabet : string) :
  (forall v, 0 <= v < 65536 ->
     0 <= _bit_reverse_16 v < 65536 /\ _bit_reverse_16 (_bit_reverse_16 v) = v)
  /\ ((64 <= String.length alphabet)%nat ->
      exists s, _alpha_reverse alphabet = Ok s
        /\ String.length s = 64%nat
        /\ Permutation (chars s) (firstn 64 (chars alphabet))
        /\ _alpha_reverse s = Ok (join (firstn 64 (chars alphabet))))
  /\ ((String.length alphabet < 64)%nat ->
      _alpha_reverse alphabet = Raise IndexError).
Proof.
  split; [exact bit_reverse_word|]. split.
  - intros Hl. rewrite alpha_reverse_spec by exact Hl.
    set (A := chars alphabet).
    assert (LA : (64 <= length A)%nat) by (unfold A; rewrite length_chars; lia).
    eexists. split; [reflexivity|].
    assert (L64 : String.length
              (join (map (fun i => nth (Z.to_nat (rev6 i)) A "?"%char) (range 64)))
            = 64%nat)
      by (rewrite CubieFacts.length_join, length_map; reflexivity).
    split; [exact L64|]. split.
    + rewrite chars_join.
      rewrite <- (map_nth_firstn "?"%char A 64 LA).
      rewrite <- (map_map rev6 (fun j => nth (Z.to_nat j) A "?"%char)).
      apply Permutation_map.
      apply (CubieFacts.covers_perm (map rev6 (range 64)) 64); reflexivity.
    + rewrite alpha_reverse_spec by (rewrite L64; lia). f_equal. f_equal.
      rewrite chars_join. rewrite <- (map_nth_firstn "?"%char A 64 LA).
      apply map_ext_in. intros i Hi. apply range_in in Hi.
      destruct (rev6_spec i Hi) as [R1 R2].
      rewrite (nth_indep _ "?"%char (nth (Z.to_nat (rev6 0)) A "?"%char))
        by (rewrite length_map; change (length (range 64)) with 64%nat; lia).
      rewrite (map_nth (fun i => nth (Z.to_nat (rev6 i)) A "?"%char)).
      rewrite range_nth by lia. rewrite Z2Nat.id by lia. now rewrite R2.
  - intros Hl. unfold _alpha_reverse.
    rewrite (collect_loop _
      (fun i => nth (Z.to_nat (rev6 i)) (chars alphabet) "?"%char)).
    + replace (forallb _ (range 64)) with false; [reflexivity|].
      symmetry. apply not_true_is_false. intros H.
      rewrite forallb_forall in H. specialize (H 63 (in_range 64 63 ltac:(lia))).
      change (Z.shiftr (_bit_reverse_16 63) 10) with 63 in H.
      unfold str_getitem in H.
      rewrite getitem_out in H by (rewrite length_chars; lia). discriminate.
    + intros i Hi. apply range_in in Hi. destruct (rev6_spec i Hi) as [R _].
      unfold str_getitem. fold (rev6 i).
      destruct (Z_lt_le_dec (rev6 i) (Z.of_nat (length (chars alphabet)))).
      * left. now apply getitem_nth.
      * right. now apply getitem_out.
Qed.

(** X21. Each of the six key strings of the GAN adapter and the key string
    of the QiYi adapter is decompressed, without an exception, to the text
    of a list of 16 numbers between 0 and 255: the material of a 16-byte
    AES key or IV. *)
Theorem key_strings_decode :
  map (fun k => decompress_from_encoded_uri_component (Some k))
      (GAN_KEYS ++ QIYI_KEYS)
  = map (fun l => Some (Ok (json_text l))) KEY_BYTES
  /\ Forall (fun l => length l = 16%nat /\ Forall (fun b => 0 <= b < 256) l)
            KEY_BYTES.
Proof.
  split; [vm_compute; reflexivity|].
  repeat (constructor; [split; [reflexivity | repeat constructor; lia]|]).
  constructor.
Qed.

Lemma dict_get_raise {V : Type} (d : list (ascii * V)) (k : ascii) (e : exn) :
  State.dict_get Ascii.eqb d k = Raise e -> e = KeyError.
Proof.
  induction d as [|[k0 v] d IH]; cbn.
  - now intros [= <-].
  - destruct (Ascii.eqb k0 k); [discriminate | exact IH].
Qed.

Section Reader.
Variable get_next_value : Z -> res Z.
Variable length_ : Z.
Hypothesis next_bound :
  forall i v, 0 <= i -> get_next_value i = Ok v -> i < length_.
Hypothesis next_error :
  forall i e, get_next_value i = Raise e -> input_error e.

Lemma next_bits_loop_ok (fuel : nat) :
  forall n bits offset d,
    0 <= bits -> 0 <= offset <= n ->
    0 <= remain d <= 6 -> 0 <= index d <= length_ ->
    n - offset + (if remain d =? 0 then 1 else 0) <= Z.of_nat fuel ->
    exists r, next_bits_loop fuel 6 get_next_value n bits offset d = Some r
              /\ read_ok length_ (n - offset) d r.
Proof.
  induction fuel as [|fuel IH]; intros n bits offset d Hb Ho Hr Hi Hf.
  - assert (offset = n) as -> by (destruct (remain d =? 0); lia).
    cbn. rewrite Z.ltb_irrefl. eexists. split; [reflexivity|].
    unfold read_ok, bits_left. lia.
  - cbn [next_bits_loop]. destruct (offset <? n) eqn:Lt.
    2:{ apply Z.ltb_ge in Lt. assert (offset = n) as -> by lia.
        eexists. split; [reflexivity|]. unfold read_ok, bits_left. lia. }
    apply Z.ltb_lt in Lt. cbv zeta. cbn [remain index val].
    set (n_fill := Z.min (n - offset) (remain d)).
    assert (Hn : 0 <= n_fill <= n - offset /\ n_fill <= remain d
                 /\ (0 < remain d -> 0 < n_fill)) by (unfold n_fill; lia).
    set (bits' := Z.lor bits _).
    assert (Hb' : 0 <= bits').
    { unfold bits'. apply Z.lor_nonneg. split; [exact Hb|].
      apply Z.shiftl_nonneg. apply Z.land_nonneg. right.
      rewrite Z.shiftl_1_l. pose proof (Z.pow_pos_nonneg 2 n_fill). lia. }
    destruct (remain d - n_fill =? 0) eqn:E0.
    + apply Z.eqb_eq in E0.
      destruct (get_next_value (index d)) as [v|e] eqn:G.
      * pose proof (next_bound _ _ (proj1 Hi) G) as Hlt.
        destruct (IH n bits' (offset + n_fill)
                    {| val := v; remain := 6; index := index d + 1 |})
          as [r [R1 R2]]; cbn [remain index val]; try lia.
        { destruct (remain d =? 0) eqn:Z0;
            [apply Z.eqb_eq in Z0 | apply Z.eqb_neq in Z0];
            change (6 =? 0) with false; lia. }
        exists r. split; [exact R1|].
        destruct r as [[b d']|e]; [|exact R2].
        unfold read_ok, bits_left in *. cbn [remain index val] in R2. lia.
      * eexists. split; [reflexivity|]. exact (next_error _ _ G).
    + apply Z.eqb_neq in E0.
      destruct (IH n bits' (offset + n_fill)
                  {| val := Z.shiftr (val d) n_fill;
                     remain := remain d - n_fill; index := index d |})
        as [r [R1 R2]]; cbn [remain index val]; try lia.
      { replace (remain d - n_fill =? 0) with false
          by (symmetry; now apply Z.eqb_neq).
        destruct (remain d =? 0) eqn:Z0;
          [apply Z.eqb_eq in Z0 | apply Z.eqb_neq in Z0]; lia. }
      exists r. split; [exact R1|].
      destruct r as [[b d']|e]; [|exact R2].
      unfold read_ok, bits_left in *. cbn [remain index val] in R2. lia.
Qed.

Lemma next_bits_ok (n : Z) (d : data_t) :
  0 <= n -> 0 <= remain d <= 6 -> 0 <= index d <= length_ ->
  exists r, next_bits 6 get_next_value n d = Some r /\ read_ok length_ n d r.
Proof.
  intros Hn Hr Hi. unfold next_bits.
  destruct (next_bits_loop_ok (Datatypes.S (Z.to_nat n)) n 0 0 d)
    as [r [R1 R2]]; try lia.
  { destruct (remain d =? 0); lia. }
  exists r. split; [exact R1|]. now rewrite Z.sub_0_r in R2.
Qed.

Lemma enlarge_ok (s : state) :
  state_ok length_ s -> state_ok length_ (enlarge s).
Proof.
  unfold enlarge, state_ok. destruct (enlarge_in s =? 0); [|tauto].
  cbn [dictionary dict_size num_bits w data]. intuition lia.
Qed.

Lemma extend_ok (s : state) (c_val : Z) :
  state_ok length_ s -> 3 <= c_val -> round_ok length_ (data s) (extend s c_val).
Proof.
  intros (Hd & Hn & (strs & D1 & D2 & D3) & Hw) Hc. unfold extend.
  assert (Step : forall x, x <> [] ->
            round_ok length_ (data s)
              (e0 <- getitem x 0 ;;
               Ok (Continue (enlarge
                 {| dictionary := dictionary s ++ [EStr (w s ++ [e0])];
                    enlarge_in := enlarge_in s - 1;
                    dict_size := dict_size s + 1; num_bits := num_bits s;
                    result := result s ++ [x]; w := x; data := data s |})))).
  { intros x Hx. destruct x as [|e0 x]; [congruence|].
    change (getitem (e0 :: x) 0) with (Ok e0). cbn [bind].
    unfold round_ok. split.
    - apply enlarge_ok. unfold state_ok.
      cbn [dictionary dict_size num_bits w data].
      split; [exact Hd|]. split; [exact Hn|]. split; [|discriminate].
      exists (strs ++ [w s ++ [e0]]). rewrite D1, map_app, <- app_assoc.
      split; [reflexivity|]. rewrite length_app. cbn [length]. split; [lia|].
      apply Forall_app. split; [exact D3|]. constructor; [|constructor].
      now destruct (w s).
    - unfold enlarge. now destruct (_ =? 0). }
  destruct (c_val <? dict_size s) eqn:Lt.
  - apply Z.ltb_lt in Lt.
    assert (G : getitem (dictionary s) c_val
                = Ok (EStr (nth (Z.to_nat (c_val - 3)) strs []))).
    { rewrite (getitem_nth (EInt 0))
        by (rewrite D1, length_app, length_map; cbn [length]; lia).
      f_equal. rewrite D1. rewrite app_nth2 by (cbn [length]; lia).
      cbn [length]. replace (Z.to_nat c_val - 3)%nat
        with (Z.to_nat (c_val - 3)) by lia.
      rewrite (nth_indep _ _ (EStr [])) by (rewrite length_map; lia).
      apply (map_nth EStr). }
    rewrite G. cbn [bind]. apply Step.
    assert (In (nth (Z.to_nat (c_val - 3)) strs []) strs)
      by (apply nth_In; lia).
    rewrite Forall_forall in D3. now apply D3.
  - destruct (c_val =? dict_size s) eqn:Eq.
    + destruct (w s) as [|w0 ws] eqn:W; [congruence|].
      change (getitem (w0 :: ws) 0) with (Ok w0). cbn [bind].
      apply Step. discriminate.
    + cbn. exact I.
Qed.

Lemma literal_ok (width : Z) (s : state) :
  0 <= width -> state_ok length_ s ->
  exists r, literal 6 get_next_value width s = Some r
    /\ match r with
       | Raise e => input_error e
       | Ok (s', c_val) =>
           state_ok length_ s' /\ 3 <= c_val
           /\ bits_left length_ (data s')
              = bits_left length_ (data s) - width
       end.
Proof.
  intros Hw (Hd & Hn & (strs & D1 & D2 & D3) & Hw0). unfold literal.
  destruct Hd as [Hr Hi].
  destruct (next_bits_ok width (data s)) as [r [R1 R2]]; try lia.
  rewrite R1. destruct r as [[c d]|e]; [|eexists; split; [reflexivity|exact R2]].
  eexists. split; [reflexivity|]. cbn [read_ok] in R2.
  destruct R2 as (_ & Q1 & Q2 & Q3 & Q4).
  unfold state_ok, reader_ok. cbn [dictionary dict_size num_bits w data].
  repeat split; try lia; try assumption.
  exists (strs ++ [[c]]). rewrite D1, map_app, <- app_assoc.
  split; [reflexivity|]. rewrite length_app. cbn [length]. split; [lia|].
  apply Forall_app. split; [exact D3|]. constructor; [discriminate|constructor].
Qed.

Lemma one_round_ok (s : state) :
  state_ok length_ s ->
  exists r, one_round length_ 6 get_next_value s = Some r
    /\ match r with
       | Raise e => input_error e
       | Ok (Return _) => True
       | Ok (Continue s') =>
           state_ok length_ s'
           /\ bits_left length_ (data s') <= bits_left length_ (data s) - 3
       end.
Proof.
  intros Hs. pose proof Hs as (Hd & Hn & Hdict & Hw0).
  destruct Hd as [Hr Hi]. unfold one_round.
  replace (length_ <? index (data s)) with false
    by (symmetry; apply Z.ltb_ge; lia).
  destruct (next_bits_ok (num_bits s) (data s)) as [r [R1 R2]]; try lia.
  rewrite R1. destruct r as [[c_val d]|e]; [|eexists; split; [reflexivity|exact R2]].
  cbn [read_ok] in R2. destruct R2 as (Q0 & Q1 & Q2 & Q3 & Q4).
  set (s1 := {| dictionary := dictionary s; enlarge_in := enlarge_in s;
                dict_size := dict_size s; num_bits := num_bits s;
                result := result s; w := w s; data := d |}).
  assert (Hs1 : state_ok length_ s1).
  { unfold state_ok, reader_ok, s1. cbn [dictionary dict_size num_bits w data].
    repeat split; try lia; assumption. }
  assert (Lit : forall width, 0 <= width ->
            exists r, match literal 6 get_next_value width s1 with
                      | None => None
                      | Some (Raise e) => Some (Raise e)
                      | Some (Ok (s, c_val)) => Some (extend (enlarge s) c_val)
                      end = Some r
              /\ match r with
                 | Raise e => input_error e
                 | Ok (Return _) => True
                 | Ok (Continue s') =>
                     state_ok length_ s'
                     /\ bits_left length_ (data s')
                        <= bits_left length_ (data s) - 3
                 end).
  { intros width Hwd. destruct (literal_ok width s1 Hwd Hs1) as [r [L1 L2]].
    rewrite L1. destruct r as [[s2 c2]|e]; [|eexists; split; [reflexivity|exact L2]].
    destruct L2 as (L2 & L3 & L4). eexists. split; [reflexivity|].
    pose proof (extend_ok (enlarge s2) c2 (enlarge_ok _ L2) L3) as X.
    destruct (extend (enlarge s2) c2) as [[s'|]|e]; cbn [round_ok] in X;
      try exact X.
    destruct X as [X1 X2]. split; [exact X1|]. rewrite X2.
    replace (data (enlarge s2)) with (data s2)
      by (unfold enlarge; now destruct (_ =? 0)).
    rewrite L4. unfold s1; cbn [data]. lia. }
  destruct (c_val =? 0) eqn:E0; [apply Lit; lia|].
  destruct (c_val =? 1) eqn:E1; [apply Lit; lia|].
  destruct (c_val =? 2) eqn:E2; [eexists; split; [reflexivity|exact I]|].
  apply Z.eqb_neq in E0, E1, E2.
  eexists. split; [reflexivity|].
  pose proof (extend_ok (enlarge s1) c_val (enlarge_ok _ Hs1) ltac:(lia)) as X.
  destruct (extend (enlarge s1) c_val) as [[s'|]|e]; cbn [round_ok] in X;
    try exact X.
  destruct X as [X1 X2]. split; [exact X1|]. rewrite X2.
  replace (data (enlarge s1)) with (data s1)
    by (unfold enlarge; now destruct (_ =? 0)).
  unfold s1; cbn [data]. lia.
Qed.

Lemma rounds_ok (fuel : nat) :
  forall s, state_ok length_ s ->
    bits_left length_ (data s) <= 3 * Z.of_nat fuel ->
    exists r, rounds fuel length_ 6 get_next_value s = Some r
      /\ forall e, r = Raise e -> input_error e.
Proof.
  induction fuel as [|fuel IH]; intros s Hs Hf.
  - destruct Hs as ([Hr Hi] & _). unfold bits_left in Hf. lia.
  - cbn [rounds]. destruct (one_round_ok s Hs) as [r [R1 R2]]. rewrite R1.
    destruct r as [[s'|x]|e].
    + destruct R2 as [R2 R3]. apply IH; [exact R2 | lia].
    + eexists. split; [reflexivity|]. discriminate.
    + eexists. split; [reflexivity|]. now intros e' [= <-].
Qed.

Lemma decompress_ok (fuel : nat) :
  6 * length_ <= 3 * Z.of_nat fuel -> 0 <= length_ ->
  exists r, _decompress fuel length_ 6 get_next_value = Some r
    /\ forall e, r = Raise e -> input_error e.
Proof.
  intros Hf Hl. unfold _decompress.
  destruct (next_bits_ok 2 {| val := 0; remain := 0; index := 0 |})
    as [r [R1 R2]]; cbn [remain index]; try lia.
  rewrite R1. destruct r as [[next_val d]|e].
  2:{ eexists. split; [reflexivity|]. now intros e' [= <-]. }
  cbn [read_ok] in R2. destruct R2 as (Q0 & Q1 & Q2 & Q3 & Q4).
  unfold bits_left in Q3. cbn [remain index] in Q3.
  assert (First : forall width, 0 <= width ->
    exists r,
      match next_bits 6 get_next_value width d with
      | None => None
      | Some (Raise e) => Some (Raise e)
      | Some (Ok (c, data)) =>
          rounds fuel length_ 6 get_next_value
            {| dictionary := [EInt 0; EInt 1; EInt 2] ++ [EStr [c]];
               enlarge_in := 4; dict_size := 4; num_bits := 3;
               result := [[c]]; w := [c]; data := data |}
      end = Some r /\ forall e, r = Raise e -> input_error e).
  { intros width Hwd.
    destruct (next_bits_ok width d) as [r [F1 F2]]; try lia.
    rewrite F1. destruct r as [[c d2]|e].
    2:{ eexists. split; [reflexivity|]. now intros e' [= <-]. }
    cbn [read_ok] in F2. destruct F2 as (P0 & P1 & P2 & P3 & P4).
    apply rounds_ok.
    - unfold state_ok, reader_ok. cbn [dictionary dict_size num_bits w data].
      repeat split; try lia; try discriminate.
      exists [[c]]. repeat split. constructor; [discriminate|constructor].
    - cbn [data]. unfold bits_left in *. lia. }
  destruct (next_val =? 0); [apply First; lia|].
  destruct (next_val =? 1); [apply First; lia|].
  eexists. split; [reflexivity|]. discriminate.
Qed.

End Reader.

(** X22. [decompress_from_encoded_uri_component] returns for every input:
    the two [while] loops end, whatever the text.  No text or an empty one
    gives the empty string, and the only exceptions a text can cause are
    [IndexError], when it ends before its end marker, and [KeyError], for
    a character outside the alphabet: no dictionary entry that is a number
    is ever used as a string. *)
Theorem decompress_terminates (value : option string) :
  decompress_from_encoded_uri_component None = Some (Ok [])
  /\ decompress_from_encoded_uri_component (Some EmptyString) = Some (Ok [])
  /\ exists r, decompress_from_encoded_uri_component value = Some r
       /\ forall e, r = Raise e -> e = IndexError \/ e = KeyError.
Proof.
  split; [reflexivity|]. split; [reflexivity|].
  destruct value as [value|].
  2:{ eexists. split; [reflexivity|]. discriminate. }
  destruct value as [|c value].
  { eexists. split; [reflexivity|]. discriminate. }
  unfold decompress_from_encoded_uri_component.
  set (text := replace_space (String c value)).
  destruct (key_str_uri_safe <- _alpha_reverse URI_ALPHABET ;;
            _get_base_value key_str_uri_safe) as [char_map|e] eqn:E.
  2:{ vm_compute in E. discriminate. }
  clear E. apply decompress_ok; try lia.
  - intros i v Hi G. destruct (str_getitem text i) as [ch|] eqn:S;
      [|discriminate].
    unfold str_getitem in S. apply getitem_ok_bound in S; [|exact Hi].
    now rewrite length_chars in S.
  - intros i e G. destruct (str_getitem text i) as [ch|e'] eqn:S.
    + right. exact (dict_get_raise _ _ _ G).
    + left. cbn in G. injection G as <-.
      exact (getitem_raise _ _ _ S).
Qed.

End LzFacts.

(** * GoCube rotation messages *)

Module GoCubeMoves.
Import St Models Base BroadcastSpec CubieCube CubieSpec CubieFacts BaseFacts.
Import CubeAlgebra GoCube GoCubeSpec.

Lemma turn_fields (raw : Z) :
  0 <= raw < 12 ->
  getitem AXIS_PERM (Z.shiftr raw 1) = Ok (turn_axis raw)
  /\ str_getitem "URFDLB" (turn_axis raw)
     = Ok (nth (Z.to_nat (turn_axis raw)) (chars "URFDLB") "?"%char)
  /\ 0 <= turn raw < 18.
Proof. intros H. zenum raw H; (split; [|split]); try reflexivity; cbv; intuition congruence. Qed.

Lemma turn_raises (raw : Z) :
  12 <= raw -> getitem AXIS_PERM (Z.shiftr raw 1) = Raise IndexError.
Proof.
  intros H. apply getitem_out. change (Z.of_nat (length AXIS_PERM)) with 6.
  rewrite Z.shiftr_div_pow2 by lia. change (2 ^ 1) with 2.
  apply Z.div_le_lower_bound; lia.
Qed.

Section Loop.
Variable data : list Z.

Lemma move_step (i raw : Z) (s : GoCube.t) :
  getitem data (3 + i) = Ok raw -> 0 <= raw < 12 ->
  valid (_cube s) -> subscribers_return (base s) ->
  exists s', move_round data i s = (Ok tt, s') /\ moved [raw] s s'.
Proof.
  intros G Hr Hv [Hs Hm]. destruct (turn_fields raw Hr) as (T1 & T2 & T3).
  unfold move_round. unfold St.bind at 1, lift at 1. rewrite G.
  unfold St.bind at 1, lift at 1. rewrite T1.
  unfold St.bind at 1, lift at 1. rewrite T2. cbv zeta.
  assert (En : String (nth (Z.to_nat (turn_axis raw)) (chars "URFDLB") "?"%char)
                 (if (if Z.land raw 1 =? 0 then 0 else 2) =? 0
                  then EmptyString else "'"%string) = turn_name raw)
    by (unfold turn_name; now destruct (Z.land raw 1 =? 0)).
  rewrite En. fold (turn raw).
  set (c' := mult (_cube s) (move (turn raw))).
  assert (Hv' : valid c')
    by (apply CubeAlgebraFacts.mult_valid;
        [exact Hv | now apply CubeAlgebraFacts.move_valid]).
  pose proof Hv' as [Hx Hy Rx Ry _ _].
  pose proof (to_facelet_spec c' Hx Hy Rx Ry) as Hf.
  set (str := join (map face_letter (perm_of c'))) in Hf.
  unfold St.bind at 1. unfold GoCube.apply_move_index, St.bind at 1, gets.
  unfold St.bind at 1, lift at 1.
  rewrite (CubeAlgebraFacts.apply_move_index_mult _ _ Hv T3). fold c'.
  unfold modify at 1.
  unfold St.bind at 1. unfold on_base at 1, zoom, modify at 1.
  unfold St.bind at 1. unfold update_from_cube, St.bind at 1, gets.
  cbn [_cube set_cube set_base base].
  unfold St.bind at 1, lift at 1. rewrite Hf.
  unfold on_base at 1, zoom.
  match goal with |- context [Base.update_data str ?b] =>
    destruct (update_data_returns str b) as (d' & U1 & U2 & U3); rewrite U1
  end.
  cbn [_data set_data set_clock clock last_move set_last_move] in U3.
  unfold St.bind at 1. unfold on_base at 1, zoom.
  cbn [_cube set_cube set_base base].
  unfold _touch_activity, St.bind at 2, time_time, modify at 1.
  unfold St.bind at 1. unfold on_base at 1, zoom.
  cbn [_cube set_cube set_base base].
  rewrite notify_movement_returns by (cbn; apply Hm).
  unfold St.bind at 1. unfold on_base at 1, zoom.
  cbn [_cube set_cube set_base base].
  rewrite notify_state_returns
    by (rewrite (proj1 (proj2 (called_move_fields _ _ _))); cbn; exact Hs).
  match goal with |- context [state_called ?l ?b] =>
    pose proof (called_state_fields l b) as (S1 & S2 & S3);
    set (b2 := state_called l b) in *
  end.
  match type of S1 with _ = _data (move_called ?mv ?l ?b) =>
    pose proof (called_move_fields mv l b) as (M1 & M2 & M3)
  end.
  rewrite M1 in S1. rewrite M2 in S2. rewrite M3 in S3.
  cbn in S1, S2, S3.
  assert (Fin : forall s1 : GoCube.t,
            _cube s1 = c' -> _data (base s1) = d' ->
            _state_callbacks (base s1) = _state_callbacks (base s) ->
            _movement_callbacks (base s1) = _movement_callbacks (base s) ->
            moved [raw] s s1).
  { intros s1 E1 E2 E3 E4. unfold moved. cbn [map apply_moves rev app].
    rewrite (CubeAlgebraFacts.apply_move_index_mult _ _ Hv T3). cbn [Py.bind].
    rewrite E1. split; [reflexivity|]. split; [exact Hv'|]. split.
    - unfold subscribers_return. rewrite E3, E4. now split.
    - rewrite E2. split; [now rewrite U3|]. exists str. now split. }
  destruct (i =? 0).
  - unfold on_base, zoom, modify. eexists. split; [reflexivity|].
    apply Fin; cbn; first [reflexivity | assumption].
  - unfold ret. eexists. split; [reflexivity|].
    apply Fin; cbn; first [reflexivity | assumption].
Qed.

Lemma moved_nil (s : GoCube.t) :
  valid (_cube s) -> subscribers_return (base s) -> moved [] s s.
Proof. intros Hv Hs. unfold moved. cbn. auto. Qed.

Lemma moved_cons (raw : Z) (raws : list Z) (s s1 s' : GoCube.t) :
  moved [raw] s s1 -> moved raws s1 s' -> moved (raw :: raws) s s'.
Proof.
  intros (A1 & A2 & A3 & A4) (B1 & B2 & B3 & B4). unfold moved.
  cbn [map apply_moves rev] in *.
  destruct (CubieCube.apply_move_index (_cube s) (turn raw)) as [c1|e];
    [|discriminate].
  cbn [Py.bind] in *. injection A1 as ->.
  split; [exact B1|]. split; [exact B2|]. split; [exact B3|].
  destruct (rev raws) as [|x l]; cbn [app] in *.
  - now subst s'.
  - exact B4.
Qed.

Lemma move_loop_ok (idxs : list Z) :
  forall s, valid (_cube s) -> subscribers_return (base s) ->
    Forall (fun i => 0 <= 3 + i < len data) idxs ->
    Forall (fun raw => 0 <= raw < 12)
           (map (fun i => nth (Z.to_nat (3 + i)) data 0) idxs) ->
    exists s', St.for_each idxs (move_round data) s = (Ok tt, s')
      /\ moved (map (fun i => nth (Z.to_nat (3 + i)) data 0) idxs) s s'.
Proof.
  induction idxs as [|i idxs IH]; intros s Hv Hs Hi Hr.
  - exists s. split; [reflexivity | now apply moved_nil].
  - inversion Hi as [|? ? Hi1 Hi2]; subst. cbn [map] in Hr.
    inversion Hr as [|? ? Hr1 Hr2]; subst.
    destruct (move_step i _ s (getitem_nth 0 data (3 + i) Hi1) Hr1 Hv Hs)
      as (s1 & E1 & M1).
    pose proof M1 as (_ & Hv1 & Hs1 & _).
    destruct (IH s1 Hv1 Hs1 Hi2 Hr2) as (s' & E2 & M2).
    exists s'. split.
    + cbn [St.for_each]. unfold St.bind at 1. now rewrite E1.
    + cbn [map]. now apply (moved_cons _ _ s s1 s').
Qed.

Lemma move_loop_raise (pre : list Z) (i : Z) (rest : list Z) :
  forall s, valid (_cube s) -> subscribers_return (base s) ->
    Forall (fun i => 0 <= 3 + i < len data) (pre ++ [i]) ->
    Forall (fun raw => 0 <= raw < 12)
           (map (fun i => nth (Z.to_nat (3 + i)) data 0) pre) ->
    12 <= nth (Z.to_nat (3 + i)) data 0 ->
    exists s', St.for_each (pre ++ i :: rest) (move_round data) s
               = (Raise IndexError, s')
      /\ moved (map (fun i => nth (Z.to_nat (3 + i)) data 0) pre) s s'.
Proof.
  induction pre as [|j pre IH]; intros s Hv Hs Hi Hr Hbad.
  - exists s. split; [|now apply moved_nil].
    inversion Hi as [|? ? Hi1 _]; subst.
    cbn [app St.for_each]. unfold St.bind at 1. unfold move_round.
    unfold St.bind at 1, lift at 1.
    rewrite (getitem_nth 0 data (3 + i) Hi1).
    unfold St.bind at 1, lift at 1. now rewrite turn_raises.
  - cbn [app] in Hi. inversion Hi as [|? ? Hi1 Hi2]; subst. cbn [map] in Hr.
    inversion Hr as [|? ? Hr1 Hr2]; subst.
    destruct (move_step j _ s (getitem_nth 0 data (3 + j) Hi1) Hr1 Hv Hs)
      as (s1 & E1 & M1).
    pose proof M1 as (_ & Hv1 & Hs1 & _).
    destruct (IH s1 Hv1 Hs1 Hi2 Hr2 Hbad) as (s' & E2 & M2).
    exists s'. split.
    + cbn [app St.for_each]. unfold St.bind at 1. now rewrite E1.
    + cbn [map]. now apply (moved_cons _ _ s s1 s').
Qed.

Lemma message_shape (s : GoCube.t) :
  _handle_move_message data s
  = if len data - 6 <=? 0 then (Ok tt, s)
    else St.for_each (range3 0 (len data - 6) 2) (move_round data) s.
Proof. unfold _handle_move_message. now destruct (len data - 6 <=? 0). Qed.

End Loop.

Lemma in_range3_step2 (n i : Z) : In i (range3 0 n 2) -> 0 <= i < n.
Proof.
  unfold range3. intros H. apply in_map_iff in H. destruct H as [k [<- H]].
  apply in_seq in H.
  assert (0 < (n - 0 + 2 - 1) / 2) by lia.
  assert (Z.of_nat k < (n - 0 + 2 - 1) / 2) by lia.
  pose proof (Z.div_mod (n - 0 + 2 - 1) 2 ltac:(lia)).
  pose proof (Z.mod_pos_bound (n - 0 + 2 - 1) 2 ltac:(lia)). lia.
Qed.

Lemma range3_empty (n : Z) : n <= 0 -> range3 0 n 2 = [].
Proof.
  intros H. unfold range3.
  replace (Z.to_nat ((n - 0 + 2 - 1) / 2)) with 0%nat; [reflexivity|].
  assert ((n - 0 + 2 - 1) / 2 <= 0); [|lia].
  pose proof (Z.div_mod (n - 0 + 2 - 1) 2 ltac:(lia)).
  pose proof (Z.mod_pos_bound (n - 0 + 2 - 1) 2 ltac:(lia)). lia.
Qed.

(** X23. A GoCube rotation message carries a move in every second byte
    from the fourth on: bits 1 to 3 of the byte give the face, bit 0 the
    direction, so only quarter turns occur.  When all subscribers return
    and every move byte is below 12, the handler returns, the cube has made
    the moves in the order of the message, and the record names the last
    move and holds the state string of the cube.  At the first move byte
    of 12 or more the handler raises [IndexError]; the moves before that
    byte have been made. *)
Theorem gocube_move_message (data : list Z) (s : GoCube.t) :
  valid (_cube s) -> subscribers_return (base s) ->
  (Forall (fun raw => 0 <= raw < 12) (move_bytes data) ->
   exists s', _handle_move_message data s = (Ok tt, s')
              /\ moved (move_bytes data) s s')
  /\ (forall pre raw rest,
        move_bytes data = pre ++ raw :: rest ->
        Forall (fun raw => 0 <= raw < 12) pre -> 12 <= raw ->
        exists s', _handle_move_message data s = (Raise IndexError, s')
                   /\ moved pre s s').
Proof.
  intros Hv Hs. rewrite message_shape. unfold move_bytes.
  assert (Hi : Forall (fun i => 0 <= 3 + i < len data)
                      (range3 0 (len data - 6) 2)).
  { apply Forall_forall. intros i Hi. apply in_range3_step2 in Hi. lia. }
  destruct (len data - 6 <=? 0) eqn:E.
  - apply Z.leb_le in E. rewrite (range3_empty _ E). cbn [map]. split.
    + intros _. exists s. split; [reflexivity | now apply moved_nil].
    + intros pre raw rest H. now destruct pre.
  - split.
    + intros Hr. now apply move_loop_ok.
    + intros pre raw rest H Hr Hbad.
      apply map_eq_app in H. destruct H as (ipre & irest & Hsplit & Hp & Hrest).
      apply map_eq_cons in Hrest. destruct Hrest as (i & rest' & -> & Hraw & _).
      rewrite Hsplit in *. subst pre raw.
      apply move_loop_raise; try assumption.
      apply Forall_app in Hi. destruct Hi as [Hi1 Hi2].
      apply Forall_app. split; [exact Hi1|].
      inversion Hi2; subst. now constructor.
Qed.

Lemma gocube_move_message_witness :
  (Forall (fun raw => 0 <= raw < 12) (move_bytes two_moves_message) ->
   exists s', _handle_move_message two_moves_message GoCube.new = (Ok tt, s')
              /\ moved (move_bytes two_moves_message) GoCube.new s')
  /\ (forall pre raw rest,
        move_bytes two_moves_message = pre ++ raw :: rest ->
        Forall (fun raw => 0 <= raw < 12) pre -> 12 <= raw ->
        exists s',
          _handle_move_message two_moves_message GoCube.new
          = (Raise IndexError, s')
          /\ moved pre GoCube.new s').
Proof.
  apply (gocube_move_message two_moves_message GoCube.new).
  - apply validb_sound. vm_compute. reflexivity.
  - split; [constructor | intros mv; constructor].
Defined.

End GoCubeMoves.

(** * GAN full-state frames bring the adapter back in step *)

Module GanResync.
Import St Models Base BroadcastSpec CubieCube CubieSpec CubieFacts BaseFacts.
Import CubeAlgebra Gan GanFaceletSpec.

Lemma resync (bits : list bool) (cps cos eps eos : Z) (c : CubieCube.t)
  (s : Gan.t) :
  reachable c -> carries bits cps cos eps eos c ->
  length (ca (_cube s)) = 8%nat -> length (ea (_cube s)) = 12%nat ->
  Forall (fun cb => sc_run cb = Ok tt) (_state_callbacks (base s)) ->
  exists s' str,
    (facelet <~ lift (_parse_gan_facelet bits cps cos eps eos) ;;
     on_facelet facelet) s = (Ok tt, s')
    /\ _cube s' = c /\ to_facelet c = Ok str
    /\ state_string (_data (base s')) = Some str
    /\ last_move (_data (base s')) = last_move (_data (base s))
    /\ _move_cnt s' = _move_cnt s.
Proof.
  intros Hr Hc Hx0 Hy0 Hs.
  destruct (CubeAlgebraFacts.reachable_twist c Hr) as (Hv & Ht & Hf).
  pose proof Hv as [Hx Hy Rx Ry _ _].
  pose proof (to_facelet_spec c Hx Hy Rx Ry) as Hstr.
  set (str := join (map face_letter (perm_of c))) in Hstr.
  assert (Hlen : String.length str = 54%nat)
    by (unfold str; now rewrite length_join, length_map, length_perm_of).
  unfold St.bind at 1, lift at 1.
  rewrite (GanFaceletFacts.parse_gan_facelet_spec bits cps cos eps eos c Hv Ht Hf Hc).
  rewrite Hstr. unfold on_facelet. rewrite Hlen. cbn [Nat.eqb].
  unfold St.bind at 1. unfold Gan.from_facelet, St.bind at 1, gets.
  unfold St.bind at 1, lift at 1.
  unfold str at 1. rewrite (from_facelet_to_facelet c (_cube s) Hv Hx0 Hy0).
  fold str. unfold modify at 1.
  unfold St.bind at 1. unfold on_base at 1, zoom.
  match goal with |- context [Base.update_data str ?b] =>
    destruct (update_data_returns str b) as (d' & U1 & U2 & U3); rewrite U1
  end.
  cbn [base set_cube] in U3.
  unfold St.bind at 1. unfold on_base at 1, zoom.
  cbn [base set_base set_cube]. rewrite touch_activity_run.
  unfold on_base, zoom. cbn [base set_base set_cube].
  rewrite notify_state_returns by (cbn; exact Hs).
  match goal with |- context [state_called ?l ?b] =>
    pose proof (called_state_fields l b) as (S1 & _)
  end.
  cbn in S1.
  eexists. exists str. split; [reflexivity|]. cbn.
  split; [reflexivity|]. split; [reflexivity|]. rewrite S1.
  split; [exact U2|]. split; [exact U3 | reflexivity].
Qed.

(** X24. A full-state frame of the protocols v2, v3 and v4 brings the
    adapter back in step with the cube: when the frame carries a reachable
    cube and the state subscribers return, the handler returns, the
    adapter's cube is the cube of the frame, whatever it was before, and
    the record holds its state string; the last move and the move counter
    stay as they were. *)
Theorem full_state_frame_resyncs (ver : string)
  (decode : list Z -> res (list Z)) (data decoded : list Z)
  (c : CubieCube.t) (s : Gan.t) :
  _version s = Some ver -> _decoder s = Some decode ->
  decode data = Ok decoded ->
  reachable c -> full_state_frame ver (flat_map format_08b decoded) c ->
  length (ca (_cube s)) = 8%nat -> length (ea (_cube s)) = 12%nat ->
  Forall (fun cb => sc_run cb = Ok tt) (_state_callbacks (base s)) ->
  exists s' str,
    _notification_handler data s = (Ok tt, s')
    /\ _cube s' = c /\ to_facelet c = Ok str
    /\ state_string (_data (base s')) = Some str
    /\ last_move (_data (base s')) = last_move (_data (base s))
    /\ _move_cnt s' = _move_cnt s.
Proof.
  intros Hver Hd He Hr Hf Hx0 Hy0 Hs.
  rewrite (GanFacts.handler_dispatch decode data decoded) by assumption.
  unfold dispatch. unfold St.bind at 1, gets. rewrite Hver.
  unfold full_state_frame in Hf.
  destruct (String.eqb ver "v2").
  { destruct Hf as [Hm Hc]. unfold _parse_v2.
    unfold St.bind at 1, lift at 1. rewrite Hm.
    change (4 =? 2) with false. change (4 =? 4) with true. cbv iota.
    now apply resync. }
  destruct (String.eqb ver "v3").
  { destruct Hf as (Hg & Hm & Hc). unfold _parse_v3.
    unfold St.bind at 1, lift at 1. rewrite Hg.
    change (negb (85 =? 85)) with false. cbv iota.
    unfold St.bind at 1, lift at 1. rewrite Hm.
    change (2 =? 1) with false. change (2 =? 2) with true. cbv iota.
    now apply resync. }
  destruct (String.eqb ver "v4"); [|contradiction].
  destruct Hf as [Hm Hc]. unfold _parse_v4.
  unfold St.bind at 1, lift at 1. rewrite Hm.
  change (237 =? 1) with false. change (237 =? 237) with true. cbv iota.
  now apply resync.
Qed.

Lemma full_state_frame_resyncs_witness :
  exists s' str,
    _notification_handler v2_state_frame (GanSpec.listening "v2" 3)
    = (Ok tt, s')
    /\ _cube s' = move 5 /\ to_facelet (move 5) = Ok str
    /\ state_string (_data (base s')) = Some str
    /\ last_move (_data (base s'))
       = last_move (_data (base (GanSpec.listening "v2" 3)))
    /\ _move_cnt s' = _move_cnt (GanSpec.listening "v2" 3).
Proof.
  apply (full_state_frame_resyncs "v2" (fun data => Ok data)
           v2_state_frame v2_state_frame (move 5) (GanSpec.listening "v2" 3)).
  - reflexivity.
  - reflexivity.
  - reflexivity.
  - apply (reach_move CubieCube.new (move 5) 5);
    [apply reach_new | lia | reflexivity].
  - split; [reflexivity|].
    split; intros i Hi; zenum i Hi; split; reflexivity.
  - reflexivity.
  - reflexivity.
  - repeat constructor.
Defined.

End GanResync.

(** * GAN move lists are applied last entry first *)

Module GanMoves.
Import St Models Base BroadcastSpec CubieCube CubieSpec CubieFacts BaseFacts.
Import CubeAlgebra Gan GanMovesSpec.

Lemma name_fields (mv : string) :
  In mv quarter_turns ->
  exists ch, str_getitem mv 0 = Ok ch
    /\ (str_find "URFDLB" ch =? -1) = false
    /\ str_find "URFDLB" ch * 3 + (if ends_with_quote mv then 2 else 0)
       = move_index_of mv
    /\ 0 <= move_index_of mv < 18.
Proof.
  intros H. cbv [quarter_turns In] in H.
  repeat (destruct H as [<-|H];
          [eexists; split; [reflexivity|];
           split; [reflexivity|]; split; [reflexivity|];
           cbv; intuition congruence|]).
  contradiction.
Qed.

Lemma applied_nil (s : Gan.t) :
  valid (_cube s) -> subscribers_return (base s) -> applied [] s s.
Proof. intros Hv Hs. unfold applied. cbn. auto 10. Qed.

Lemma applied_cons (mv : string) (names : list string) (s s1 s' : Gan.t) :
  applied [mv] s s1 -> applied names s1 s' -> applied (mv :: names) s s'.
Proof.
  intros (A1 & A2 & A3 & A4 & A5 & A6) (B1 & B2 & B3 & B4 & B5 & B6).
  unfold applied. cbn [map apply_moves rev] in *.
  destruct (CubieCube.apply_move_index (_cube s) (move_index_of mv)) as [c1|e];
    [|discriminate].
  cbn [Py.bind] in *. injection A1 as ->.
  split; [exact B1|]. split; [exact B2|]. split; [exact B3|].
  split; [congruence|]. split; [congruence|].
  destruct (rev names) as [|x l] eqn:R; cbn [app] in *.
  - assert (names = []) as -> by (now rewrite <- (rev_involutive names), R).
    destruct A6 as [A6 [str [A7 A8]]]. rewrite B6. split; [exact A6|].
    exists str. split; [|exact A8].
    cbn [map apply_moves] in B1. now injection B1 as <-.
  - exact B6.
Qed.

Lemma name_step (mv : string) (s : Gan.t) :
  In mv quarter_turns -> valid (_cube s) -> subscribers_return (base s) ->
  exists s', name_round mv s = (Ok tt, s') /\ applied [mv] s s'.
Proof.
  intros Hin Hv [Hs Hm].
  destruct (name_fields mv Hin) as (ch & N1 & N2 & N3 & N4).
  unfold name_round. unfold St.bind at 1, lift at 1. rewrite N1. cbv zeta.
  rewrite N2, N3.
  set (c' := mult (_cube s) (move (move_index_of mv))).
  assert (Hv' : valid c')
    by (apply CubeAlgebraFacts.mult_valid;
        [exact Hv | now apply CubeAlgebraFacts.move_valid]).
  pose proof Hv' as [Hx Hy Rx Ry _ _].
  pose proof (to_facelet_spec c' Hx Hy Rx Ry) as Hf.
  set (str := join (map face_letter (perm_of c'))) in Hf.
  unfold St.bind at 1. unfold Gan.apply_move_index, St.bind at 1, gets.
  unfold St.bind at 1, lift at 1.
  rewrite (CubeAlgebraFacts.apply_move_index_mult _ _ Hv N4). fold c'.
  unfold modify at 1.
  unfold St.bind at 1. unfold set_last_move_, on_base at 1, zoom, modify at 1.
  unfold St.bind at 1. unfold update_from_cube, St.bind at 1, gets.
  cbn [_cube set_cube set_base base].
  unfold St.bind at 1, lift at 1. rewrite Hf.
  unfold on_base at 1, zoom.
  match goal with |- context [Base.update_data str ?b] =>
    destruct (update_data_returns str b) as (d' & U1 & U2 & U3); rewrite U1
  end.
  cbn [_data set_data set_clock clock last_move set_last_move] in U3.
  unfold on_base, zoom. cbn [_cube set_cube set_base base].
  rewrite notify_movement_returns by (cbn; apply Hm).
  match goal with |- context [move_called ?mv ?l ?b] =>
    pose proof (called_move_fields mv l b) as (M1 & M2 & M3)
  end.
  eexists. split; [reflexivity|].
  unfold applied. cbn [map apply_moves rev app].
  rewrite (CubeAlgebraFacts.apply_move_index_mult _ _ Hv N4). cbn [Py.bind].
  cbn [_cube set_cube set_base base _move_cnt _version]. fold c'.
  split; [reflexivity|]. split; [exact Hv'|]. split.
  - unfold subscribers_return. rewrite M2, M3. cbn. now split.
  - split; [reflexivity|]. split; [reflexivity|]. rewrite M1. cbn.
    split; [now rewrite U3|]. exists str. now split.
Qed.

Lemma name_loop (names : list string) :
  forall s, valid (_cube s) -> subscribers_return (base s) ->
    Forall (fun mv => In mv quarter_turns) names ->
    exists s', St.for_each names name_round s = (Ok tt, s') /\ applied names s s'.
Proof.
  induction names as [|mv names IH]; intros s Hv Hs Hn.
  - exists s. split; [reflexivity | now apply applied_nil].
  - inversion Hn as [|? ? Hn1 Hn2]; subst.
    destruct (name_step mv s Hn1 Hv Hs) as (s1 & E1 & A1).
    pose proof A1 as (_ & Hv1 & Hs1 & _).
    destruct (IH s1 Hv1 Hs1 Hn2) as (s' & E2 & A2).
    exists s'. split.
    + cbn [St.for_each]. unfold St.bind at 1. now rewrite E1.
    + now apply (applied_cons _ _ s s1 s').
Qed.

Lemma apply_moves_shape (moves : list string) (s : Gan.t) :
  _apply_moves moves s
  = match moves with
    | [] => (Ok tt, s)
    | _ => (St.for_each (rev moves) name_round ;;;
            on_base Base._touch_activity ;;;
            on_base Base._notify_state_change) s
    end.
Proof. now destruct moves. Qed.

Lemma apply_moves_returns (moves : list string) (s : Gan.t) :
  valid (_cube s) -> subscribers_return (base s) ->
  Forall (fun mv => In mv quarter_turns) moves ->
  exists s', _apply_moves moves s = (Ok tt, s') /\ applied (rev moves) s s'.
Proof.
  intros Hv Hs Hn. rewrite apply_moves_shape. destruct moves as [|mv moves].
  - exists s. split; [reflexivity | now apply applied_nil].
  - destruct (name_loop (rev (mv :: moves)) s Hv Hs) as (s1 & E1 & A1).
    { apply Forall_forall. intros x Hx. apply in_rev in Hx.
      rewrite Forall_forall in Hn. now apply Hn. }
    rewrite (bind_returns _ _ s s1 tt E1).
    unfold St.bind at 1. unfold on_base at 1, zoom. rewrite touch_activity_run.
    unfold on_base, zoom. cbn [base set_base].
    destruct A1 as (B1 & B2 & [Hs1 Hm1] & B4 & B5 & B6).
    rewrite notify_state_returns by (cbn; exact Hs1).
    match goal with |- context [state_called ?l ?b] =>
      pose proof (called_state_fields l b) as (S1 & S2 & S3)
    end.
    eexists. split; [reflexivity|]. unfold applied.
    cbn [_cube set_base base _move_cnt _version].
    split; [exact B1|]. split; [exact B2|]. split.
    { unfold subscribers_return. rewrite S2, S3. cbn. now split. }
    split; [exact B4|]. split; [exact B5|]. rewrite S1. cbn. exact B6.
Qed.

(** X25. [_apply_moves] makes the moves of its list last entry first.  For
    a list of quarter-turn names, on a valid cube and with subscribers that
    return, it returns; the cube has then made the moves in the reverse
    order of the list, the record names the first entry of the list as the
    last move and holds the state string of the cube, and the move counter
    is as before.  On the empty list nothing at all happens. *)
Theorem apply_moves_last_first (moves : list string) (s : Gan.t) :
  valid (_cube s) -> subscribers_return (base s) ->
  Forall (fun mv => In mv quarter_turns) moves ->
  _apply_moves [] s = (Ok tt, s)
  /\ exists s',
       _apply_moves moves s = (Ok tt, s')
       /\ apply_moves (_cube s) (map move_index_of (rev moves)) = Ok (_cube s')
       /\ _move_cnt s' = _move_cnt s
       /\ match moves with
          | [] => s' = s
          | mv :: _ =>
              last_move (_data (base s')) = Some mv
              /\ exists str, to_facelet (_cube s') = Ok str
                   /\ state_string (_data (base s')) = Some str
          end.
Proof.
  intros Hv Hs Hn. split; [reflexivity|].
  destruct (apply_moves_returns moves s Hv Hs Hn)
    as (s' & E & A1 & A2 & A3 & A4 & A5 & A6).
  exists s'. split; [exact E|]. split; [exact A1|]. split; [exact A4|].
  rewrite rev_involutive in A6. destruct moves as [|mv moves]; [|exact A6].
  cbn in E. now injection E as <-.
Qed.

Lemma apply_moves_last_first_witness :
  _apply_moves [] (GanSpec.listening "v2" 3)
  = (Ok tt, GanSpec.listening "v2" 3)
  /\ exists s',
       _apply_moves ["R"; "U'"]%string (GanSpec.listening "v2" 3) = (Ok tt, s')
       /\ apply_moves (_cube (GanSpec.listening "v2" 3))
            (map move_index_of (rev ["R"; "U'"]%string)) = Ok (_cube s')
       /\ _move_cnt s' = _move_cnt (GanSpec.listening "v2" 3)
       /\ (last_move (_data (base s')) = Some "R"%string
           /\ exists str, to_facelet (_cube s') = Ok str
                /\ state_string (_data (base s')) = Some str).
Proof.
  apply (apply_moves_last_first ["R"; "U'"]%string (GanSpec.listening "v2" 3)).
  - apply validb_sound. vm_compute. reflexivity.
  - split; [repeat constructor | intros mv; repeat constructor].
  - repeat constructor; cbv; tauto.
Defined.

Lemma int2_nonneg (bs : list bool) (v : Z) : int2 bs = Ok v -> 0 <= v.
Proof.
  unfold int2. destruct bs as [|b bs]; [discriminate|]. intros [= <-].
  assert (H : forall l acc, 0 <= acc ->
            0 <= fold_left (fun acc (d : bool) => 2 * acc + (if d then 1 else 0))
                           l acc).
  { induction l as [|d l IH]; intros acc Ha; cbn [fold_left]; [exact Ha|].
    apply IH. destruct d; lia. }
  apply (H (b :: bs) 0). lia.
Qed.

Lemma slot_in (m : Z) : 0 <= m < 12 -> In (slot_name m) quarter_turns.
Proof. intros H. zenum m H; cbv; tauto. Qed.

Lemma slot_letter (m : Z) :
  0 <= m < 12 ->
  str_getitem "URFDLB" (Z.shiftr m 1)
  = Ok (nth (Z.to_nat (Z.shiftr m 1)) (chars "URFDLB") "?"%char).
Proof. intros H. zenum m H; reflexivity. Qed.

Lemma frame_moves_snoc (l : list Z) (m : Z) :
  frame_moves (l ++ [m])
  = frame_moves l ++ (if 12 <=? m then [] else [slot_name m]).
Proof.
  unfold frame_moves. rewrite filter_app, map_app. cbn [filter].
  now destruct (12 <=? m).
Qed.

Lemma slots_loop (bits : list bool) (ms : list Z) :
  length ms = 7%nat ->
  (forall i, 0 <= i < 7 ->
     field bits (12 + i * 5) (17 + i * 5) = Ok (nth (Z.to_nat i) ms 0)) ->
  Py.for_each (range 7) (fun i moves =>
    m <- field bits (12 + i * 5) (17 + i * 5) ;;
    if 12 <=? m then Ok moves
    else
      face <- str_getitem "URFDLB" (Z.shiftr m 1) ;;
      let suffix :=
        if negb (Z.land m 1 =? 0) then "'"%string else EmptyString in
      Ok (moves ++ [String face suffix])) []
  = Ok (frame_moves ms)
  /\ Forall (fun mv => In mv quarter_turns) (frame_moves ms).
Proof.
  intros Hl Hf.
  assert (Hpos : forall i, 0 <= i < 7 -> 0 <= nth (Z.to_nat i) ms 0).
  { intros i Hi. specialize (Hf i Hi). unfold field in Hf.
    now apply int2_nonneg in Hf. }
  destruct (for_each_range_inv
    (fun i acc => acc = frame_moves (firstn (Z.to_nat i) ms)
                  /\ Forall (fun mv => In mv quarter_turns) acc)
    (fun i moves =>
       m <- field bits (12 + i * 5) (17 + i * 5) ;;
       if 12 <=? m then Ok moves
       else
         face <- str_getitem "URFDLB" (Z.shiftr m 1) ;;
         let suffix :=
           if negb (Z.land m 1 =? 0) then "'"%string else EmptyString in
         Ok (moves ++ [String face suffix])) 7 []) as [r [E [R1 R2]]].
  - lia.
  - split; [reflexivity | constructor].
  - intros i acc Hi [-> Hacc]. rewrite (Hf i Hi). cbn [Py.bind].
    replace (Z.to_nat (i + 1)) with (Datatypes.S (Z.to_nat i)) by lia.
    rewrite (firstn_succ_nth 0) by lia. rewrite frame_moves_snoc.
    pose proof (Hpos i Hi) as Hp.
    destruct (12 <=? nth (Z.to_nat i) ms 0) eqn:E12.
    + eexists. split; [reflexivity|]. rewrite app_nil_r. now split.
    + apply Z.leb_gt in E12. rewrite slot_letter by lia. cbn [Py.bind].
      eexists. split; [reflexivity|]. split; [reflexivity|].
      apply Forall_app. split; [exact Hacc|].
      constructor; [apply slot_in; lia | constructor].
  - rewrite E. change (Z.to_nat 7) with 7%nat in R1.
    rewrite <- Hl, firstn_all in R1. subst r. now split.
Qed.

(** X26. A v2 move frame whose counter differs from the stored one (which
    is not the sentinel -1) is acted on: the slots of 12 or more hold no
    move, the other slots are quarter turns, and the adapter makes them
    from the last slot to the first, so that the move of the first slot
    is the last move; then the counter of the frame is stored. *)
Theorem v2_move_frame_applies (decode : list Z -> res (list Z))
  (data decoded : list Z) (cnt : Z) (ms : list Z) (s : Gan.t) :
  _version s = Some "v2"%string -> _decoder s = Some decode ->
  decode data = Ok decoded ->
  v2_move_frame (flat_map format_08b decoded) cnt ms ->
  _move_cnt s <> cnt -> _move_cnt s <> -1 ->
  valid (_cube s) -> subscribers_return (base s) ->
  exists s',
    _notification_handler data s = (Ok tt, s')
    /\ _move_cnt s' = cnt
    /\ apply_moves (_cube s) (map move_index_of (rev (frame_moves ms)))
       = Ok (_cube s')
    /\ match frame_moves ms with
       | [] => s' = set_move_cnt cnt s
       | mv :: _ =>
           last_move (_data (base s')) = Some mv
           /\ exists str, to_facelet (_cube s') = Ok str
                /\ state_string (_data (base s')) = Some str
       end.
Proof.
  intros Hver Hd He (Hmode & Hcnt & Hl & Hslots) Hne Hs1 Hv Hs.
  rewrite (GanFacts.handler_dispatch decode data decoded) by assumption.
  unfold dispatch. unfold St.bind at 1, gets. rewrite Hver.
  change (String.eqb "v2" "v2") with true. cbv iota.
  set (bits := flat_map format_08b decoded) in *.
  unfold _parse_v2. unfold St.bind at 1, lift at 1. rewrite Hmode.
  change (2 =? 2) with true. cbv iota.
  unfold St.bind at 1, lift at 1. rewrite Hcnt.
  unfold St.bind at 1, gets.
  replace (cnt =? _move_cnt s) with false
    by (symmetry; apply Z.eqb_neq; congruence).
  replace (_move_cnt s =? -1) with false by (symmetry; now apply Z.eqb_neq).
  cbn [orb].
  destruct (slots_loop bits ms Hl Hslots) as [Eloop Hin]. cbv zeta in Eloop.
  unfold St.bind at 1, lift at 1. rewrite Eloop.
  destruct (apply_moves_returns (frame_moves ms) s Hv Hs Hin)
    as (s1 & E1 & A1 & A2 & A3 & A4 & A5 & A6).
  rewrite (bind_returns _ _ s s1 tt E1). unfold modify.
  eexists. split; [reflexivity|]. cbn [_move_cnt set_move_cnt _cube base].
  split; [reflexivity|]. split; [exact A1|].
  rewrite rev_involutive in A6.
  destruct (frame_moves ms) as [|mv l]; [|exact A6].
  cbn in E1. now injection E1 as <-.
Qed.

Lemma v2_move_frame_applies_witness :
  exists s',
    _notification_handler GanSpec.v2_frame (GanSpec.listening "v2" 3)
    = (Ok tt, s')
    /\ _move_cnt s' = 5
    /\ apply_moves (_cube (GanSpec.listening "v2" 3))
         (map move_index_of (rev (frame_moves [0; 31; 31; 31; 31; 31; 31])))
       = Ok (_cube s')
    /\ (last_move (_data (base s')) = Some "U"%string
        /\ exists str, to_facelet (_cube s') = Ok str
             /\ state_string (_data (base s')) = Some str).
Proof.
  apply (v2_move_frame_applies (fun data => Ok data) GanSpec.v2_frame
           GanSpec.v2_frame 5 [0; 31; 31; 31; 31; 31; 31]
           (GanSpec.listening "v2" 3)).
  - reflexivity.
  - reflexivity.
  - reflexivity.
  - split; [reflexivity|]. split; [reflexivity|]. split; [reflexivity|].
    intros i Hi. zenum i Hi; reflexivity.
  - cbn. lia.
  - cbn. lia.
  - apply validb_sound. vm_compute. reflexivity.
  - split; [repeat constructor | intros mv; repeat constructor].
Defined.

End GanMoves.

(** * GAN battery frames: the bits of a frame and its bytes *)

Module GanBattery.
Import St Models Base BroadcastSpec BaseFacts.
Import Gan GanBatterySpec.

(** A byte is written with eight digits and read back from them. *)
Lemma byte_bits (b : Z) :
  0 <= b < 256 ->
  length (format_08b b) = 8%nat
  /\ int2 (format_08b b) = Ok b
  /\ int2 (firstn 4 (format_08b b)) = Ok (b / 16).
Proof.
  intros Hb.
  assert (H : forallb (fun b =>
                (length (format_08b b) =? 8)%nat
                && match int2 (format_08b b) with
                   | Ok v => v =? b
                   | Raise _ => false
                   end
                && match int2 (firstn 4 (format_08b b)) with
                   | Ok v => v =? b / 16
                   | Raise _ => false
                   end) (range 256) = true)
    by (vm_compute; reflexivity).
  rewrite forallb_forall in H. specialize (H b (in_range _ _ Hb)).
  rewrite !andb_true_iff in H. destruct H as [[H1 H2] H3].
  apply Nat.eqb_eq in H1.
  destruct (int2 (format_08b b)) as [v|]; [|discriminate].
  destruct (int2 (firstn 4 (format_08b b))) as [w|]; [|discriminate].
  apply Z.eqb_eq in H2, H3. subst. auto.
Qed.

Lemma skipn_bytes (l : list Z) (k : nat) :
  Forall (fun b => 0 <= b < 256) l ->
  skipn (8 * k) (flat_map format_08b l) = flat_map format_08b (skipn k l).
Proof.
  revert l. induction k as [|k IH]; intros l Hl; [reflexivity|].
  destruct l as [|b l]; [reflexivity|].
  inversion Hl as [|? ? Hb Hl']; subst.
  destruct (byte_bits b Hb) as (L & _ & _).
  cbn [flat_map skipn].
  replace (8 * Datatypes.S k)%nat with (length (format_08b b) + 8 * k)%nat
    by lia.
  rewrite skipn_app, skipn_all2 by lia.
  replace (length (format_08b b) + 8 * k - length (format_08b b))%nat
    with (8 * k)%nat by lia.
  cbn [app]. now apply IH.
Qed.

Lemma slice_byte (l : list Z) (k : Z) :
  Forall (fun b => 0 <= b < 256) l -> 0 <= k ->
  slice (flat_map format_08b l) (8 * k) (8 * k + 8)
  = if k <? len l then format_08b (nth (Z.to_nat k) l 0) else [].
Proof.
  intros Hl Hk. unfold slice.
  replace (Z.to_nat (8 * k + 8) - Z.to_nat (8 * k))%nat with 8%nat by lia.
  replace (Z.to_nat (8 * k)) with (8 * Z.to_nat k)%nat by lia.
  rewrite skipn_bytes by exact Hl.
  destruct (k <? len l) eqn:E.
  - apply Z.ltb_lt in E. unfold len in E.
    assert (Hn : (Z.to_nat k < length l)%nat) by lia.
    rewrite <- (firstn_skipn (Z.to_nat k) l) in Hl.
    apply Forall_app in Hl. destruct Hl as [_ Hl].
    rewrite (skipn_nth 0) in * by exact Hn.
    inversion Hl as [|? ? Hb _]; subst.
    destruct (byte_bits _ Hb) as (L & _ & _).
    cbn [flat_map]. rewrite firstn_app, L, Nat.sub_diag, firstn_O, app_nil_r.
    apply firstn_all2. lia.
  - apply Z.ltb_ge in E. unfold len in E.
    rewrite skipn_all2 by lia. reflexivity.
Qed.

Lemma field_byte (l : list Z) (k : Z) :
  Forall (fun b => 0 <= b < 256) l -> 0 <= k < len l ->
  field (flat_map format_08b l) (8 * k) (8 * k + 8)
  = Ok (nth (Z.to_nat k) l 0).
Proof.
  intros Hl Hk. unfold field. rewrite slice_byte by (assumption || lia).
  replace (k <? len l) with true by (symmetry; apply Z.ltb_lt; lia).
  apply byte_bits. apply Forall_nth; [exact Hl | unfold len in Hk; lia].
Qed.

Lemma field_beyond (l : list Z) (k : Z) :
  Forall (fun b => 0 <= b < 256) l -> len l <= k ->
  field (flat_map format_08b l) (8 * k) (8 * k + 8) = Raise ValueError.
Proof.
  intros Hl Hk. unfold field. unfold len in Hk.
  rewrite slice_byte by (assumption || lia).
  replace (k <? len l) with false
    by (symmetry; apply Z.ltb_ge; unfold len; lia).
  reflexivity.
Qed.

Lemma field_nibble (l : list Z) :
  Forall (fun b => 0 <= b < 256) l -> 1 <= len l ->
  field (flat_map format_08b l) 0 4 = Ok (nth 0 l 0 / 16).
Proof.
  intros Hl Hk. unfold field, slice. destruct l as [|b l].
  - unfold len in Hk. cbn in Hk. lia.
  - inversion Hl as [|? ? Hb _]; subst.
    destruct (byte_bits b Hb) as (L & _ & N).
    cbn [flat_map skipn nth Z.to_nat]. change (Z.to_nat 4 - 0)%nat with 4%nat.
    rewrite firstn_app, L. change (4 - 8)%nat with 0%nat.
    rewrite firstn_O, app_nil_r. exact N.
Qed.

Lemma set_battery_run (b : Z) (s : Gan.t) :
  Forall (fun cb => sc_run cb = Ok tt) (_state_callbacks (base s)) ->
  exists s', (set_battery b ;;; on_base Base._notify_state_change) s
             = (Ok tt, s')
    /\ battery_only b s s'.
Proof.
  intros Hs. unfold St.bind, set_battery, on_base, zoom, modify.
  cbn [base set_base].
  rewrite notify_state_returns by (cbn; exact Hs).
  match goal with |- context [state_called ?l ?b] =>
    pose proof (called_state_fields l b) as (S1 & _)
  end.
  eexists. split; [reflexivity|]. unfold battery_only.
  cbn [base set_base _cube _move_cnt]. rewrite S1. cbn. auto.
Qed.



End GanBattery.

(** * GAN v1 move frames: the move bytes are indices of the move table *)

Module GanV1Moves.
Import St Models Base BroadcastSpec CubieCube CubieSpec CubieFacts BaseFacts.
Import CubeAlgebra Gan GanV1MovesSpec.

Lemma v1_fields (m : Z) :
  0 <= m < 18 ->
  exists face suffix idx dbl,
    str_getitem "URFDLB" (m / 3) = Ok face
    /\ getitem [EmptyString; "2"; "'"]%string (m mod 3) = Ok suffix
    /\ String face suffix = v1_name m
    /\ str_find "URFDLB" face * 3 + (if String.eqb suffix "'" then 2 else 0)
       = idx
    /\ String.eqb suffix "2" = dbl
    /\ 0 <= idx < 18
    /\ (if dbl then mult (move idx) (move idx) else move idx) = move m.
Proof.
  intros H.
  zenum m H; do 4 eexists;
    (split; [reflexivity|]); (split; [reflexivity|]);
    (split; [reflexivity|]); (split; [reflexivity|]);
    (split; [reflexivity|]); (split; [cbv; intuition congruence|]);
    vm_compute; reflexivity.
Qed.

Lemma v1_raises (m : Z) :
  18 <= m -> str_getitem "URFDLB" (m / 3) = Raise IndexError.
Proof.
  intros H. unfold str_getitem. apply getitem_out.
  change (Z.of_nat (length (chars "URFDLB"))) with 6.
  apply Z.div_le_lower_bound; lia.
Qed.

Lemma made_nil (s : Gan.t) :
  valid (_cube s) -> subscribers_return (base s) -> made [] s s.
Proof. intros Hv Hs. unfold made. cbn. auto 10. Qed.

Lemma made_cons (m : Z) (ms : list Z) (s s1 s' : Gan.t) :
  made [m] s s1 -> made ms s1 s' -> made (m :: ms) s s'.
Proof.
  intros (A1 & A2 & A3 & A4 & A6) (B1 & B2 & B3 & B4 & B6).
  unfold made. cbn [apply_moves rev] in *.
  destruct (CubieCube.apply_move_index (_cube s) m) as [c1|e]; [|discriminate].
  cbn [Py.bind] in *. injection A1 as ->.
  split; [exact B1|]. split; [exact B2|]. split; [exact B3|].
  split; [congruence|].
  destruct (rev ms) as [|x l] eqn:R; cbn [app] in *.
  - assert (ms = []) as -> by (now rewrite <- (rev_involutive ms), R).
    destruct A6 as [A6 [str [A7 A8]]]. rewrite B6. split; [exact A6|].
    exists str. split; [|exact A8].
    cbn [apply_moves] in B1. now injection B1 as <-.
  - exact B6.
Qed.

Section Loop.
Variable decoded : list Z.

Lemma apply_run (idx : Z) (s : Gan.t) :
  valid (_cube s) -> 0 <= idx < 18 ->
  Gan.apply_move_index idx s
  = (Ok tt, set_cube (mult (_cube s) (move idx)) s).
Proof.
  intros Hv Hi. unfold Gan.apply_move_index.
  unfold St.bind at 1, gets. unfold St.bind at 1, lift at 1.
  now rewrite (CubeAlgebraFacts.apply_move_index_mult _ _ Hv Hi).
Qed.

Lemma turn_run (idx : Z) (dbl : bool) (m : Z) (s : Gan.t)
  (k : M Gan.t unit) :
  valid (_cube s) -> 0 <= idx < 18 -> 0 <= m < 18 ->
  (if dbl then mult (move idx) (move idx) else move idx) = move m ->
  (Gan.apply_move_index idx ;;;
   (if dbl then Gan.apply_move_index idx else ret tt) ;;; k) s
  = k (set_cube (mult (_cube s) (move m)) s).
Proof.
  intros Hv Hi Hm E.
  rewrite (bind_returns _ _ s _ tt (apply_run idx s Hv Hi)).
  assert (Hv1 : valid (mult (_cube s) (move idx)))
    by (apply CubeAlgebraFacts.mult_valid;
        [assumption | now apply CubeAlgebraFacts.move_valid]).
  destruct dbl.
  - rewrite (bind_returns _ _ _ _ tt
               (apply_run idx (set_cube (mult (_cube s) (move idx)) s)
                          Hv1 Hi)).
    cbn [_cube set_cube].
    rewrite CubeAlgebraFacts.mult_assoc
      by (first [assumption | now apply CubeAlgebraFacts.move_valid]).
    now rewrite E.
  - unfold St.bind, ret. now rewrite E.
Qed.

Lemma v1_step (i m : Z) (s : Gan.t) :
  getitem decoded (13 + i) = Ok m -> 0 <= m < 18 ->
  valid (_cube s) -> subscribers_return (base s) ->
  exists s', v1_round decoded i s = (Ok tt, s') /\ made [m] s s'.
Proof.
  intros G Hm Hv [Hs Hcb].
  destruct (v1_fields m Hm)
    as (face & suffix & idx & dbl & F1 & F2 & F3 & F4 & F5 & F6 & F7).
  unfold v1_round. unfold St.bind at 1, lift at 1. rewrite G.
  unfold St.bind at 1, lift at 1. rewrite F1.
  unfold St.bind at 1, lift at 1. rewrite F2. cbv zeta.
  rewrite F3, F4, F5.
  set (c' := mult (_cube s) (move m)).
  assert (Hv' : valid c')
    by (apply CubeAlgebraFacts.mult_valid;
        [exact Hv | now apply CubeAlgebraFacts.move_valid]).
  pose proof Hv' as [Hx Hy Rx Ry _ _].
  pose proof (to_facelet_spec c' Hx Hy Rx Ry) as Hf.
  set (str := join (map face_letter (perm_of c'))) in Hf.
  match goal with
  | |- context [St.bind (if dbl then _ else _) (fun _ => ?k)] =>
      rewrite (turn_run idx dbl m s k Hv F6 Hm F7)
  end.
  fold c'.
  unfold St.bind at 1. unfold set_last_move_, on_base at 1, zoom, modify at 1.
  unfold St.bind at 1. unfold update_from_cube, St.bind at 1, gets.
  cbn [_cube set_cube set_base base].
  unfold St.bind at 1, lift at 1. rewrite Hf.
  unfold on_base at 1, zoom.
  match goal with |- context [Base.update_data str ?b] =>
    destruct (update_data_returns str b) as (d' & U1 & U2 & U3); rewrite U1
  end.
  cbn [_data set_data set_clock clock last_move set_last_move] in U3.
  unfold on_base, zoom. cbn [_cube set_cube set_base base].
  rewrite notify_movement_returns by (cbn; apply Hcb).
  match goal with |- context [move_called ?mv ?l ?b] =>
    pose proof (called_move_fields mv l b) as (M1 & M2 & M3)
  end.
  eexists. split; [reflexivity|].
  unfold made. cbn [apply_moves rev app].
  rewrite (CubeAlgebraFacts.apply_move_index_mult _ _ Hv Hm). cbn [Py.bind].
  cbn [_cube set_cube set_base base _move_cnt]. fold c'.
  split; [reflexivity|]. split; [exact Hv'|]. split.
  - unfold subscribers_return. rewrite M2, M3. cbn. now split.
  - split; [reflexivity|]. rewrite M1. cbn.
    split; [now rewrite U3|]. exists str. now split.
Qed.

Lemma v1_loop (idxs : list Z) :
  forall s, valid (_cube s) -> subscribers_return (base s) ->
    Forall (fun i => 0 <= 13 + i < len decoded) idxs ->
    Forall (fun m => 0 <= m < 18)
           (map (fun i => nth (Z.to_nat (13 + i)) decoded 0) idxs) ->
    exists s', St.for_each idxs (v1_round decoded) s = (Ok tt, s')
      /\ made (map (fun i => nth (Z.to_nat (13 + i)) decoded 0) idxs) s s'.
Proof.
  induction idxs as [|i idxs IH]; intros s Hv Hs Hi Hr.
  - exists s. split; [reflexivity | now apply made_nil].
  - inversion Hi as [|? ? Hi1 Hi2]; subst. cbn [map] in Hr.
    inversion Hr as [|? ? Hr1 Hr2]; subst.
    destruct (v1_step i _ s (getitem_nth 0 decoded (13 + i) Hi1) Hr1 Hv Hs)
      as (s1 & E1 & M1).
    pose proof M1 as (_ & Hv1 & Hs1 & _).
    destruct (IH s1 Hv1 Hs1 Hi2 Hr2) as (s' & E2 & M2).
    exists s'. split.
    + cbn [St.for_each]. now rewrite (bind_returns _ _ s s1 tt E1).
    + cbn [map]. now apply (made_cons _ _ s s1 s').
Qed.

Lemma parse_v1_shape (s : Gan.t) :
  12 < len decoded -> _move_cnt s <> nth 12 decoded 0 ->
  _parse_v1 decoded s
  = (St.for_each (range 6) (v1_round decoded) ;;;
     on_base Base._touch_activity ;;;
     on_base Base._notify_state_change)
      (set_move_cnt (nth 12 decoded 0) s).
Proof.
  intros Hl Hne. unfold _parse_v1.
  unfold St.bind at 1, lift at 1.
  rewrite (getitem_nth 0 decoded 12) by (unfold len in Hl; lia).
  change (Z.to_nat 12) with 12%nat.
  unfold St.bind at 1, gets.
  replace (nth 12 decoded 0 =? _move_cnt s) with false
    by (symmetry; apply Z.eqb_neq; congruence).
  reflexivity.
Qed.

End Loop.

(** X28. A v1 move frame whose counter differs from the stored one is
    acted on, and its six move bytes are indices of the move table: for
    bytes below 18 the cube makes the moves of the table in the order of
    the bytes (a half turn by two quarter turns), the record names the
    last of them and holds the state string of the cube, and the counter
    of the frame is stored.  A first move byte of 18 or more raises
    [IndexError]; the counter has then been stored already, so the frame
    is not looked at again. *)
Theorem v1_move_frame_applies (decode : list Z -> res (list Z))
  (data decoded : list Z) (s : Gan.t) :
  _version s = Some "v1"%string -> _decoder s = Some decode ->
  decode data = Ok decoded -> 19 <= len decoded ->
  _move_cnt s <> nth 12 decoded 0 ->
  valid (_cube s) -> subscribers_return (base s) ->
  (Forall (fun m => 0 <= m < 18) (v1_moves decoded) ->
   exists s',
     _notification_handler data s = (Ok tt, s')
     /\ _move_cnt s' = nth 12 decoded 0
     /\ apply_moves (_cube s) (v1_moves decoded) = Ok (_cube s')
     /\ last_move (_data (base s')) = Some (v1_name (nth 18 decoded 0))
     /\ exists str, to_facelet (_cube s') = Ok str
          /\ state_string (_data (base s')) = Some str)
  /\ (18 <= nth 13 decoded 0 ->
      _notification_handler data s
      = (Raise IndexError, set_move_cnt (nth 12 decoded 0) s)).
Proof.
  intros Hver Hd He Hl Hne Hv Hs.
  rewrite (GanFacts.handler_dispatch decode data decoded) by assumption.
  assert (D : dispatch decoded s = _parse_v1 decoded s).
  { unfold dispatch. unfold St.bind at 1, gets. now rewrite Hver. }
  rewrite D, parse_v1_shape by (assumption || lia).
  set (s0 := set_move_cnt (nth 12 decoded 0) s).
  split.
  - intros Hm.
    destruct (v1_loop decoded (range 6) s0 Hv Hs) as (s1 & E1 & A1).
    { apply Forall_forall. intros i Hi. apply range_in in Hi. lia. }
    { exact Hm. }
    rewrite (bind_returns _ _ s0 s1 tt E1).
    unfold St.bind at 1. unfold on_base at 1, zoom. rewrite touch_activity_run.
    unfold on_base, zoom. cbn [base set_base].
    destruct A1 as (B1 & B2 & [Hs1 Hm1] & B4 & B6).
    rewrite notify_state_returns by (cbn; exact Hs1).
    match goal with |- context [state_called ?l ?b] =>
      pose proof (called_state_fields l b) as (S1 & _)
    end.
    eexists. split; [reflexivity|].
    cbn [_cube set_base base _move_cnt]. split; [exact B4|].
    split; [exact B1|]. rewrite S1. cbn. exact B6.
  - intros Hbad. change (range 6) with [0; 1; 2; 3; 4; 5].
    cbn [St.for_each]. unfold St.bind at 1. unfold St.bind at 1.
    unfold v1_round at 1. unfold St.bind at 1, lift at 1.
    rewrite (getitem_nth 0 decoded (13 + 0)) by (unfold len in Hl; lia).
    change (Z.to_nat (13 + 0)) with 13%nat.
    unfold St.bind at 1, lift at 1. now rewrite v1_raises.
Qed.

Lemma v1_move_frame_applies_witness :
  (Forall (fun m => 0 <= m < 18) (v1_moves v1_frame) ->
   exists s',
     _notification_handler v1_frame (GanSpec.listening "v1" 3) = (Ok tt, s')
     /\ _move_cnt s' = nth 12 v1_frame 0
     /\ apply_moves (_cube (GanSpec.listening "v1" 3)) (v1_moves v1_frame)
        = Ok (_cube s')
     /\ last_move (_data (base s')) = Some (v1_name (nth 18 v1_frame 0))
     /\ exists str, to_facelet (_cube s') = Ok str
          /\ state_string (_data (base s')) = Some str)
  /\ (18 <= nth 13 v1_frame 0 ->
      _notification_handler v1_frame (GanSpec.listening "v1" 3)
      = (Raise IndexError,
         set_move_cnt (nth 12 v1_frame 0) (GanSpec.listening "v1" 3))).
Proof.
  apply (v1_move_frame_applies (fun data => Ok data) v1_frame v1_frame
           (GanSpec.listening "v1" 3)).
  - reflexivity.
  - reflexivity.
  - reflexivity.
  - vm_compute. discriminate.
  - vm_compute. discriminate.
  - apply validb_sound. vm_compute. reflexivity.
  - split; [repeat constructor | intros mv; repeat constructor].
Defined.

End GanV1Moves.

